(** * Airport pickup backend: guests, flight legs, status refresh, car assignment

    A shallow embedding of the server variants of the repository and the
    properties of their status resolver, reconciliation pass, leg store and
    car assignment.

    The repository holds five variants of the same Express server:
    - [LegStore]       src/unnamed/part_000 (guests with flight legs),
    - [LegStoreToday]  src/unnamed/part_001 (the same, credential check and
                       a pass restricted to the legs of the day),
    - [FlatGuests]     src/unnamed/part_002 (one flight per guest, status
                       refresh on every listing, car assignment),
    - [StatusMap]      src/server.js, first document (status table lookup,
                       the same car assignment),
    - [SingleTable]    src/server.js, second document (404 replies, the
                       flight-status endpoint).

    Conventions of the embedding.  Timestamps are milliseconds since the
    epoch in [Z]; a calendar day is the quotient by 86400000.  Statuses are
    the strings the code stores.  JSON numbers are integers.  A JSON field
    that may be absent or null is an [option]. *)

From Stdlib Require Import List ZArith String Ascii Bool Lia Arith.
From Stdlib Require Import Permutation Sorted.
From Equations Require Import Equations.
Import ListNotations.
Open Scope string_scope.
Open Scope list_scope.
Open Scope Z_scope.

Set Implicit Arguments.

(* ===================================================================== *)
(** ** JavaScript completions and the handler monad                       *)
(* ===================================================================== *)

(** A JavaScript evaluation completes normally or throws. *)
Inductive outcome (A : Type) : Type :=
| Ok (a : A)
| Throw.
Arguments Ok {A} a.
Arguments Throw {A}.

(** Effectful code threads a state [S] and may throw. *)
Definition M (S A : Type) : Type := S -> outcome A * S.

Definition ret {S A} (a : A) : M S A := fun s => (Ok a, s).

Definition throw {S A} : M S A := fun s => (Throw, s).

Definition bind {S A B} (m : M S A) (k : A -> M S B) : M S B :=
  fun s => match m s with
           | (Ok a, s') => k a s'
           | (Throw, s') => (Throw, s')
           end.

(** [try { m } catch { h }] *)
Definition try_catch {S A} (m : M S A) (h : M S A) : M S A :=
  fun s => match m s with
           | (Ok a, s') => (Ok a, s')
           | (Throw, s') => h s'
           end.

Definition gets {S A} (f : S -> A) : M S A := fun s => (Ok (f s), s).

Definition modify {S} (f : S -> S) : M S unit := fun s => (Ok tt, f s).

Declare Scope js_scope.
Delimit Scope js_scope with js.
Notation "x <- m ;; k" := (bind m (fun x => k))
  (at level 61, m at next level, right associativity) : js_scope.
Notation "m ;;; k" := (bind m (fun _ => k))
  (at level 61, right associativity) : js_scope.
Open Scope js_scope.

(** [for (const x of l) body] *)
Fixpoint for_of {S A} (l : list A) (body : A -> M S unit) : M S unit :=
  match l with
  | [] => ret tt
  | x :: l' => body x ;;; for_of l' body
  end.

(** Template-literal interpolation of a nullable string: null prints as
    the four letters. *)
Definition tmpl (o : option string) : string :=
  match o with
  | Some s => s
  | None => "null"
  end.

(** [o === lit] for a value that is a string or absent. *)
Definition str_is (o : option string) (lit : string) : bool :=
  match o with
  | Some s => String.eqb s lit
  | None => false
  end.

(** Truthiness of a nullable string: null, undefined and the empty string
    are falsy. *)
Definition truthy (o : option string) : bool :=
  match o with
  | Some s => negb (String.eqb s "")
  | None => false
  end.

(** [o || dflt] on nullable strings. *)
Definition or_else (o : option string) (dflt : string) : string :=
  match o with
  | Some s => if String.eqb s "" then dflt else s
  | None => dflt
  end.

(** The status vocabulary of the system. *)
Definition OnTime : string := "On Time".
Definition Delayed : string := "Delayed".
Definition Cancelled : string := "Cancelled".
Definition Landed : string := "Landed".

Definition ms_per_day : Z := 86400000.

(** [new Date(t).toISOString().split('T')[0]], as a day number. *)
Definition iso_date (t : Z) : Z := t / ms_per_day.

(* ===================================================================== *)
(** ** The flight-data provider                                           *)
(* ===================================================================== *)

Record departure_info := { delay : option Z }.

Record arrival_info := { estimated : option Z; scheduled : option Z }.

(** One element of the provider's [data] array. *)
Record vendor_flight := {
  flight_status : option string;
  departure : option departure_info;
  arrival : option arrival_info
}.

(** The body of a provider answer as the code reads it: [response.data];
    its [data] member is the result set, whose elements may be null.  A
    body without such a member reads it as undefined: so does the empty
    text that axios gives for a response without content. *)
Record api_body := { body_data : option (list (option vendor_flight)) }.

(** What [axios.get] gives: a rejection (network failure, timeout, a
    status outside 2xx) or a response.  [response.data] is [None] when the
    body is the JSON value null, the one body on which reading a member
    throws. *)
Inductive axios_result : Type :=
| AxiosError
| AxiosResponse (response_data : option api_body).

(** The parameters of one provider request. *)
Record request := {
  access_key : option string;
  flight_iata : string;
  flight_date : option Z;
  limit : option Z;
  timeout : option Z
}.

(** The provider is outside the program: its answer may depend on the
    request and on how many requests came before. *)
Definition provider : Type := nat -> request -> axios_result.

(* ===================================================================== *)
(** ** The store                                                          *)
(* ===================================================================== *)

Section Store.

(** The tables of one variant. *)
Variable T : Type.

(** One connection.  [committed] is what any other reader sees; [txn]
    is the working copy of the open transaction, if any; [seq] is the
    next value of the leg id sequence, which no rollback restores;
    [issued] counts the statements; [observed] records the committed
    tables after every statement.  The statements of the embedding
    compute the NOT NULL, key and reference checks of the schema and
    nothing else; [fault] below stands for every other failure of a
    statement: a value that does not fit its column (a text longer
    than its VARCHAR, a number outside INTEGER, a text that is no
    timestamp), a lost connection. *)
Record conn := {
  committed : T;
  txn : option T;
  seq : Z;
  issued : nat;
  observed : list T
}.

Definition open (t : T) (next : Z) : conn :=
  {| committed := t; txn := None; seq := next; issued := 0%nat;
     observed := [] |}.

(** The tables a statement of this connection reads and writes. *)
Definition current (c : conn) : T :=
  match txn c with
  | Some w => w
  | None => committed c
  end.

(** The program state of a handler: its connection and the provider
    requests it has made. *)
Record world := { db : conn; calls : list request }.

Definition start (t : T) (next : Z) : world :=
  {| db := open t next; calls := [] |}.

(** A statement ran (or failed): count it and record what readers see. *)
Definition after (c : conn) (t : T) (w : option T) (next : Z) : conn :=
  {| committed := t; txn := w; seq := next; issued := S (issued c);
     observed := observed c ++ [t] |}.

(** The store may fail any statement: [fault n] tells whether the
    statement number [n] of the connection fails.  A failed statement
    has no effect on the tables. *)
Variable fault : nat -> bool.

Definition failed (c : conn) (next : Z) : conn :=
  after c (committed c) (txn c) next.

(** [client.query(stmt)] for a data statement.  [stmt] gets the next
    sequence value and the current tables; it answers [None] on a
    constraint violation.  [draws] tells whether the statement takes a
    value of the sequence (which it then keeps even when it fails). *)
Definition run_stmt {R} (draws : bool) (stmt : Z -> T -> option (R * T))
           (c : conn) : outcome R * conn :=
  let next := if draws then seq c + 1 else seq c in
  if fault (issued c) then (Throw, failed c (seq c))
  else match stmt (seq c) (current c) with
       | None => (Throw, failed c next)
       | Some (r, t') =>
           match txn c with
           | Some _ => (Ok r, after c (committed c) (Some t') next)
           | None => (Ok r, after c t' None next)
           end
       end.

Definition run_begin (c : conn) : outcome unit * conn :=
  if fault (issued c) then (Throw, failed c (seq c))
  else (Ok tt, after c (committed c) (Some (current c)) (seq c)).

Definition run_commit (c : conn) : outcome unit * conn :=
  if fault (issued c) then (Throw, failed c (seq c))
  else (Ok tt, after c (current c) None (seq c)).

Definition run_rollback (c : conn) : outcome unit * conn :=
  if fault (issued c) then (Throw, failed c (seq c))
  else (Ok tt, after c (committed c) None (seq c)).

Definition on_db {R} (f : conn -> outcome R * conn) : M world R :=
  fun w => let (r, c) := f (db w) in (r, {| db := c; calls := calls w |}).

Definition query {R} (draws : bool) (stmt : Z -> T -> option (R * T))
  : M world R := on_db (run_stmt draws stmt).

Definition BEGIN : M world unit := on_db run_begin.
Definition COMMIT : M world unit := on_db run_commit.
Definition ROLLBACK : M world unit := on_db run_rollback.

(** [await pool.connect()], which the handlers of part_000 and part_001
    call before their [try]: [granted] tells whether the pool hands out
    a client; when it does not, the call rejects. *)
Definition connect (granted : bool) : M world unit :=
  if granted then ret tt else throw.

(** [client.release()] gives the client back to the pool as it is: a
    transaction that is open stays open. *)
Definition release : M world unit := ret tt.

(** [try { m } finally { f }] *)
Definition finally {A} (m : M world A) (f : M world unit) : M world A :=
  fun w => match m w with
           | (r, w') => match f w' with
                        | (Ok _, w'') => (r, w'')
                        | (Throw, w'') => (Throw, w'')
                        end
           end.

(** [axios.get(url, {params})]: the request is recorded; a rejection
    throws, a response gives its body [response.data]. *)
Definition axios_get (p : provider) (req : request)
  : M world (option api_body) :=
  fun w =>
    let w' := {| db := db w; calls := calls w ++ [req] |} in
    match p (List.length (calls w)) req with
    | AxiosError => (Throw, w')
    | AxiosResponse body => (Ok body, w')
    end.

End Store.

Arguments current {T} c.
Arguments start {T} t next.
Arguments BEGIN {T} fault.
Arguments COMMIT {T} fault.
Arguments ROLLBACK {T} fault.
Arguments release {T}.
Arguments connect {T} granted.
Arguments finally {T A} m f.
Arguments axios_get {T} p req.
Arguments query {T} fault {R} draws stmt.

(** The store that never fails a statement on its own. *)
Definition no_fault : nat -> bool := fun _ => false.

(* ===================================================================== *)
(** ** src/unnamed/part_000: guests with flight legs                      *)
(* ===================================================================== *)

Module LegStore.

(** Table [guests]. *)
Record guest_row := {
  guest_id : Z;
  name : string;
  final_destination : option string;
  final_eta : option Z;
  car_assigned : option Z
}.

(** Table [flight_legs].  Every write path of the server fills
    [guest_id], [status] and [leg_order]. *)
Record leg_row := {
  leg_id : Z;
  leg_guest : Z;
  flight_number : string;
  airline : option string;
  origin : string;
  destination : string;
  eta : Z;
  status : string;
  leg_order : Z
}.

(** The tables the handlers below touch; [car_passengers] holds
    (car_id, guest_id). *)
Record tables := {
  guests : list guest_row;
  flight_legs : list leg_row;
  car_passengers : list (Z * Z)
}.

Definition with_legs (t : tables) (ls : list leg_row) : tables :=
  {| guests := guests t; flight_legs := ls;
     car_passengers := car_passengers t |}.

Definition with_status (l : leg_row) (st : string) : leg_row :=
  {| leg_id := leg_id l; leg_guest := leg_guest l;
     flight_number := flight_number l; airline := airline l;
     origin := origin l; destination := destination l; eta := eta l;
     status := st; leg_order := leg_order l |}.

(** *** fetchFlightStatus *)

(** [flight.departure?.delay > 0] *)
Definition delay_positive (d : option departure_info) : bool :=
  match d with
  | Some i => match delay i with
              | Some n => 0 <? n
              | None => false
              end
  | None => false
  end.

(** The chain of comparisons on [flight.flight_status]. *)
Definition status_of (flight : vendor_flight) : string :=
  if str_is (flight_status flight) "cancelled" then Cancelled
  else if str_is (flight_status flight) "landed" then Landed
  else if str_is (flight_status flight) "active" then OnTime
  else if str_is (flight_status flight) "scheduled"
          && delay_positive (departure flight) then Delayed
  else OnTime.

(** What the function does with the response body. *)
Definition read_response {S} (body : option api_body)
  : M S (option string) :=
  match body with
  | Some b =>
      match body_data b with
      | Some (first :: _) =>
          match first with
          | Some flight => ret (Some (status_of flight))
          | None => throw
          end
      | _ => ret None
      end
  | None => ret None
  end.

Definition lookup_request (key : option string) (flightNumber : string)
           (airline : option string) (date : Z) : request :=
  {| access_key := key;
     flight_iata := String.append (tmpl airline) flightNumber;
     flight_date := Some date; limit := None; timeout := None |}.

(** [env] is [process.env.AVIATIONSTACK_API_KEY].  The result is the
    [status] of the returned object, or [None] for [null]. *)
Definition fetchFlightStatus {T} (env : option string) (p : provider)
           (flightNumber : string) (airline : option string) (date : Z)
  : M (world T) (option string) :=
  try_catch
    (response <- axios_get p (lookup_request env flightNumber airline date) ;;
     read_response response)
    (ret None).

(** *** updateFlightStatuses *)

Definition terminal (s : string) : bool :=
  String.eqb s Landed || String.eqb s Cancelled.

(** [SELECT ... FROM flight_legs fl WHERE fl.status NOT IN ('Landed',
    'Cancelled')] *)
Definition select_open_legs (_ : Z) (t : tables)
  : option (list leg_row * tables) :=
  Some (filter (fun l => negb (terminal (status l))) (flight_legs t), t).

(** [UPDATE flight_legs SET status = $1 WHERE id = $2] *)
Definition update_leg_status (st : string) (id : Z) (_ : Z) (t : tables)
  : option (unit * tables) :=
  Some (tt, with_legs t
              (map (fun l => if leg_id l =? id then with_status l st else l)
                   (flight_legs t))).

(** *** The statements of the guest handlers *)

(** One element of [legs] in a request body. *)
Record leg_input := {
  in_flight : option string;
  in_airline : option string;
  in_origin : option string;
  in_destination : option string;
  in_eta : option Z;
  in_status : option string
}.

(** What the handlers read of [legs], which may be any JSON value but
    null: the member [legs[legs.length - 1]], and the members [legs[0]],
    [legs[1]], ... that the loop [for (let i = 0; i < legs.length; i++)]
    reads, in order.  A member that is undefined or null is [None]; a
    member that is no object reads as one without fields.  For an array
    the former is the last of the latter, and undefined when the array
    is empty; for an object with a [length] member the two are
    independent: [{"length": 0, "-1": {...}}] has a final element and
    no other. *)
Record legs_value := {
  final_element : option leg_input;
  elements : list (option leg_input)
}.

(** The array with the elements [l]. *)
Definition legs_array (l : list (option leg_input)) : legs_value :=
  {| final_element := last l None; elements := l |}.

(** The body of PUT /api/guests/:id; [legs] is [None] when it is
    undefined or null. *)
Record put_body := {
  body_name : option string;
  body_legs : option legs_value
}.

(** [res.json({ success: true })] or [res.status(500).json({ error })]. *)
Inductive reply : Type :=
| Success
| Error500.

Definition has_guest (id : Z) (t : tables) : bool :=
  existsb (fun g => guest_id g =? id) (guests t).

(** [UPDATE guests SET name = $1, final_destination = $2, final_eta = $3
    WHERE id = $4]; [name] is NOT NULL.  Whether the values fit their
    columns (VARCHAR(255), VARCHAR(10), TIMESTAMP) is left to [fault]. *)
Definition update_guest (nm dest : option string) (feta : option Z)
           (id : Z) (_ : Z) (t : tables) : option (unit * tables) :=
  match nm with
  | Some n =>
      Some (tt, {| guests :=
                     map (fun g => if guest_id g =? id
                                   then {| guest_id := guest_id g; name := n;
                                           final_destination := dest;
                                           final_eta := feta;
                                           car_assigned := car_assigned g |}
                                   else g) (guests t);
                   flight_legs := flight_legs t;
                   car_passengers := car_passengers t |})
  | None => if has_guest id t then None else Some (tt, t)
  end.

(** [DELETE FROM flight_legs WHERE guest_id = $1] *)
Definition delete_legs (id : Z) (_ : Z) (t : tables)
  : option (unit * tables) :=
  Some (tt, with_legs t
              (filter (fun l => negb (leg_guest l =? id)) (flight_legs t))).

(** [INSERT INTO flight_legs (guest_id, flight_number, airline, origin,
    destination, eta, status, leg_order) VALUES ($1, ..., $8)] with the
    status [leg.status || 'On Time'].  [flight_number], [origin],
    [destination] and [eta] are NOT NULL; [guest_id] references
    [guests(id)]; the id comes from the sequence.  Whether the values
    fit their columns (VARCHAR(10) for [origin] and [destination]) is
    left to [fault]. *)
Definition insert_leg (id : Z) (leg : leg_input) (i : Z) (next : Z)
           (t : tables) : option (unit * tables) :=
  match in_flight leg, in_origin leg, in_destination leg, in_eta leg with
  | Some f, Some o, Some d, Some e =>
      if has_guest id t
      then Some (tt, with_legs t
                       (flight_legs t ++
                        [{| leg_id := next; leg_guest := id;
                            flight_number := f; airline := in_airline leg;
                            origin := o; destination := d; eta := e;
                            status := or_else (in_status leg) OnTime;
                            leg_order := i |}]))
      else None
  | _, _, _, _ => None
  end.

(** [DELETE FROM guests WHERE id = $1], with the cascades of the
    schema on [flight_legs] and [car_passengers]. *)
Definition delete_guest (id : Z) (_ : Z) (t : tables)
  : option (unit * tables) :=
  Some (tt, {| guests := filter (fun g => negb (guest_id g =? id)) (guests t);
               flight_legs :=
                 filter (fun l => negb (leg_guest l =? id)) (flight_legs t);
               car_passengers :=
                 filter (fun cp => negb (snd cp =? id)) (car_passengers t) |}).

Section Handlers.

Variable granted : bool.
Variable fault : nat -> bool.
Variable env : option string.
Variable p : provider.

(** The body of the loop over the selected legs; [fetch] is the
    resolver of the variant. *)
Definition refresh_leg
           (fetch : string -> option string -> Z ->
                    M (world tables) (option string))
           (leg : leg_row) : M (world tables) unit :=
  let date := iso_date (eta leg) in
  flightStatus <- fetch (flight_number leg) (airline leg) date ;;
  match flightStatus with
  | Some st => query fault false (update_leg_status st (leg_id leg))
  | None => ret tt
  end.

Definition updateFlightStatuses : M (world tables) unit :=
  connect granted ;;;
  finally
    (rows <- query fault false select_open_legs ;;
     for_of rows (refresh_leg (fetchFlightStatus env p)))
    release.

(** *** PUT /api/guests/:id *)

(** [legs[legs.length - 1]] followed by the first read of a field of
    it: reading [length] of a missing [legs], or a field of a missing
    final element, throws a TypeError. *)
Definition final_leg (legs : option legs_value)
  : M (world tables) leg_input :=
  match legs with
  | Some v => match final_element v with
              | Some finalLeg => ret finalLeg
              | None => throw
              end
  | None => throw
  end.

(** [for (let i = 0; i < legs.length; i++) INSERT ...], from index
    [i]; reading a field of a missing element throws. *)
Fixpoint insert_legs (id : Z) (i : Z) (legs : list (option leg_input))
  : M (world tables) unit :=
  match legs with
  | [] => ret tt
  | leg :: rest =>
      match leg with
      | Some l => query fault true (insert_leg id l i)
      | None => throw
      end ;;;
      insert_legs id (i + 1) rest
  end.

(** The statements of the try block between BEGIN and the reply. *)
Definition replace_legs (id : Z) (body : put_body)
  : M (world tables) reply :=
  finalLeg <- final_leg (body_legs body) ;;
  query fault false
        (update_guest (body_name body) (in_destination finalLeg)
                      (in_eta finalLeg) id) ;;;
  query fault false (delete_legs id) ;;;
  insert_legs id 0 (match body_legs body with
                    | Some v => elements v
                    | None => []
                    end) ;;;
  COMMIT fault ;;;
  ret Success.

Definition put_guest (id : Z) (body : put_body) : M (world tables) reply :=
  connect granted ;;;
  finally
    (try_catch
       (BEGIN fault ;;;
        replace_legs id body)
       (ROLLBACK fault ;;;
        ret Error500))
    release.

(** *** DELETE /api/guests/:id *)

Definition delete_guest_handler (id : Z) : M (world tables) reply :=
  connect granted ;;;
  finally
    (try_catch
       (query fault false (delete_guest id) ;;;
        ret Success)
       (ret Error500))
    release.

End Handlers.

(** *** The other guest handlers *)

(** [INSERT INTO guests (name, final_destination, final_eta) VALUES ($1,
    $2, $3) RETURNING id]; [gid] is the value the id sequence of
    [guests] gives to the statement.  [name] is NOT NULL and [id] is the
    primary key.  Whether the values fit their columns is left to
    [fault]. *)
Definition insert_guest (nm dest : option string) (feta : option Z)
           (gid : Z) (_ : Z) (t : tables) : option (Z * tables) :=
  match nm with
  | Some n =>
      if has_guest gid t then None
      else Some (gid, {| guests :=
                           guests t ++
                           [{| guest_id := gid; name := n;
                               final_destination := dest;
                               final_eta := feta;
                               car_assigned := None |}];
                         flight_legs := flight_legs t;
                         car_passengers := car_passengers t |})
  | None => None
  end.

(** [SELECT * FROM guests ORDER BY created_at DESC]: the rows in the
    order [order] the store gives them. *)
Definition select_guests (order : tables -> list guest_row) (_ : Z)
           (t : tables) : option (list guest_row * tables) :=
  Some (order t, t).

(** [SELECT * FROM flight_legs WHERE guest_id = $1 ORDER BY leg_order,
    eta] *)
Definition select_legs_of (order : list leg_row -> list leg_row) (gid : Z)
           (_ : Z) (t : tables) : option (list leg_row * tables) :=
  Some (order (filter (fun l => leg_guest l =? gid) (flight_legs t)), t).

(** One element of [legs] in a listing. *)
Record leg_view := {
  view_flight : string;
  view_airline : option string;
  view_origin : string;
  view_destination : string;
  view_eta : Z;
  view_status : string
}.

(** One guest of a listing. *)
Record guest_view := {
  view_id : Z;
  view_name : string;
  finalDestination : option string;
  finalETA : option Z;
  carAssigned : option Z;
  view_legs : list leg_view
}.

Definition leg_to_view (leg : leg_row) : leg_view :=
  {| view_flight := flight_number leg; view_airline := airline leg;
     view_origin := origin leg; view_destination := destination leg;
     view_eta := eta leg; view_status := status leg |}.

(** [res.json({ success: true, guestId })] or the 500 reply. *)
Inductive post_reply : Type :=
| Created (guestId : Z)
| PostError500.

Inductive listing : Type :=
| Listing (views : list guest_view)
| ListingError500.

Section GuestHandlers.

Variable granted : bool.
Variable fault : nat -> bool.

(** *** POST /api/guests *)

(** The statements of the try block after BEGIN.  The [seq] of the
    connection is the id sequence of [flight_legs]; [next_guest] is
    the value the id sequence of [guests] holds when the request
    arrives. *)
Definition create_guest (next_guest : Z) (body : put_body)
  : M (world tables) post_reply :=
  finalLeg <- final_leg (body_legs body) ;;
  guestId <- query fault false
               (insert_guest (body_name body) (in_destination finalLeg)
                             (in_eta finalLeg) next_guest) ;;
  insert_legs fault guestId 0 (match body_legs body with
                               | Some v => elements v
                               | None => []
                               end) ;;;
  COMMIT fault ;;;
  ret (Created guestId).

Definition post_guest (next_guest : Z) (body : put_body)
  : M (world tables) post_reply :=
  connect granted ;;;
  finally
    (try_catch
       (BEGIN fault ;;;
        create_guest next_guest body)
       (ROLLBACK fault ;;;
        ret PostError500))
    release.

(** *** GET /api/guests *)

(** The row orders the store chooses for [ORDER BY created_at DESC]
    and for [ORDER BY leg_order, eta]. *)
Variable by_created : tables -> list guest_row.
Variable by_leg_order : list leg_row -> list leg_row.

(** The callback of [guestsResult.rows.map]. *)
Definition guest_with_legs (guest : guest_row)
  : M (world tables) guest_view :=
  legsResult <- query fault false
                  (select_legs_of by_leg_order (guest_id guest)) ;;
  ret {| view_id := guest_id guest; view_name := name guest;
         finalDestination := final_destination guest;
         finalETA := final_eta guest;
         carAssigned := car_assigned guest;
         view_legs := map leg_to_view legsResult |}.

(** [Promise.all(rows.map(callback))] on one client: the client runs
    the queries of the callbacks one after the other, in the order of
    the rows; the first failure rejects the whole. *)
Fixpoint promise_all (rows : list guest_row)
  : M (world tables) (list guest_view) :=
  match rows with
  | [] => ret []
  | guest :: rest =>
      view <- guest_with_legs guest ;;
      views <- promise_all rest ;;
      ret (view :: views)
  end.

Definition get_guests : M (world tables) listing :=
  connect granted ;;;
  finally
    (try_catch
       (guestsResult <- query fault false (select_guests by_created) ;;
        guests <- promise_all guestsResult ;;
        ret (Listing guests))
       (ret ListingError500))
    release.

End GuestHandlers.

End LegStore.

(* ===================================================================== *)
(** ** src/unnamed/part_001: credential check, legs of the day            *)
(* ===================================================================== *)

Module LegStoreToday.

Import LegStore.

(** The schema, [status_of], [read_response] and the loop body
    [refresh_leg] are those of [LegStore]: the two files have the same
    text there. *)

Definition lookup_request (key : option string) (flightNumber : string)
           (airline : option string) (date : Z) : request :=
  {| access_key := key;
     flight_iata := String.append (tmpl airline) flightNumber;
     flight_date := Some date; limit := None; timeout := Some 10000 |}.

(** [if (!process.env.AVIATIONSTACK_API_KEY) return null] comes first. *)
Definition fetchFlightStatus {T} (env : option string) (p : provider)
           (flightNumber : string) (airline : option string) (date : Z)
  : M (world T) (option string) :=
  if negb (truthy env) then ret None
  else
    try_catch
      (response <- axios_get p (lookup_request env flightNumber airline date) ;;
       read_response response)
      (ret None).

(** [SELECT ... WHERE fl.status NOT IN ('Landed', 'Cancelled') AND
    DATE(fl.eta) = $1]; the store and the server are taken to keep the
    same calendar (UTC). *)
Definition select_open_legs_of (today : Z) (_ : Z) (t : tables)
  : option (list leg_row * tables) :=
  Some (filter (fun l => negb (terminal (status l))
                         && (iso_date (eta l) =? today))
               (flight_legs t), t).

Section Handlers.

Variable granted : bool.
Variable fault : nat -> bool.
Variable env : option string.
Variable p : provider.

(** [now] is the clock read by [new Date()]. *)
Definition updateFlightStatuses (now : Z) : M (world tables) unit :=
  connect granted ;;;
  finally
    (try_catch
       (let today := iso_date now in
        rows <- query fault false (select_open_legs_of today) ;;
        for_of rows (refresh_leg fault (fetchFlightStatus env p)))
       (ret tt))
    release.

End Handlers.

Section ManualUpdate.

Variable granted : bool.
Variable fault : nat -> bool.
Variable env : option string.
Variable p : provider.

(** *** POST /api/update-flight-status *)
Definition update_flight_status_handler (now : Z)
  : M (world tables) reply :=
  try_catch
    (updateFlightStatuses granted fault env p now ;;;
     ret Success)
    (ret Error500).

End ManualUpdate.

End LegStoreToday.

(* ===================================================================== *)
(** ** JavaScript objects used as maps                                    *)
(* ===================================================================== *)

Section JsObject.

Variable V : Type.

(** The own properties of an object literal, in insertion order. *)
Definition js_object : Type := list (string * V).

Fixpoint get_own (k : string) (o : js_object) : option V :=
  match o with
  | [] => None
  | (k', v) :: o' => if String.eqb k' k then Some v else get_own k o'
  end.

(** Replace the value of the own property [k]. *)
Fixpoint set_own (k : string) (v : V) (o : js_object) : js_object :=
  match o with
  | [] => []
  | (k', v') :: o' =>
      if String.eqb k' k then (k', v) :: o' else (k', v') :: set_own k v o'
  end.

End JsObject.

(** The names every object inherits from [Object.prototype]; reading one
    of them on an object without such an own property gives a function
    (or, for [__proto__], the prototype object): a truthy value that is
    neither a string nor an array. *)
Definition Object_prototype : list string :=
  [ "constructor"; "__defineGetter__"; "__defineSetter__"; "hasOwnProperty";
    "__lookupGetter__"; "__lookupSetter__"; "isPrototypeOf";
    "propertyIsEnumerable"; "toString"; "valueOf"; "__proto__";
    "toLocaleString" ].

Definition inherited (k : string) : bool :=
  existsb (String.eqb k) Object_prototype.

Definition is_digit (c : ascii) : bool :=
  ((48 <=? nat_of_ascii c) && (nat_of_ascii c <=? 57))%nat.

Fixpoint digits_value (s : string) (acc : N) : option N :=
  match s with
  | EmptyString => Some acc
  | String c r =>
      if is_digit c
      then digits_value r (acc * 10 + N.of_nat (nat_of_ascii c - 48))%N
      else None
  end.

(** A property key is an array index when it is the canonical decimal
    form of an integer between 0 and 2^32 - 2. *)
Definition array_index (k : string) : option N :=
  match k with
  | EmptyString => None
  | String c r =>
      if Ascii.eqb c "0"
      then match r with
           | EmptyString => Some 0%N
           | _ => None
           end
      else match digits_value k 0 with
           | Some n => if (n <=? 4294967294)%N then Some n else None
           | None => None
           end
  end.

Fixpoint insert_index (x : N * string) (l : list (N * string))
  : list (N * string) :=
  match l with
  | [] => [x]
  | y :: l' => if (fst x <=? fst y)%N then x :: y :: l'
               else y :: insert_index x l'
  end.

Fixpoint sort_index (l : list (N * string)) : list (N * string) :=
  match l with
  | [] => []
  | x :: l' => insert_index x (sort_index l')
  end.

(** The array-index keys among [ks], with their values. *)
Fixpoint index_keys (ks : list string) : list (N * string) :=
  match ks with
  | [] => []
  | k :: ks' => match array_index k with
                | Some n => (n, k) :: index_keys ks'
                | None => index_keys ks'
                end
  end.

Definition is_index (k : string) : bool :=
  match array_index k with
  | Some _ => true
  | None => false
  end.

(** The order in which [for (const k in o)] visits the own keys [ks]
    (given in insertion order): array indices in ascending numeric order,
    then the other keys in insertion order. *)
Definition for_in_order (ks : list string) : list string :=
  map snd (sort_index (index_keys ks))
  ++ filter (fun k => negb (is_index k)) ks.

(** [a.slice(i, j)] for [0 <= i <= j]. *)
Definition slice {A} (a : list A) (i j : nat) : list A :=
  firstn (j - i) (skipn i a).

(** [for (let i = from; i < a.length; i += 5) a.slice(i, i + 5)]: the
    slices the loop takes, in order. *)
Equations? slices {A} (a : list A) (i : nat) : list (list A)
  by wf (List.length a - i)%nat lt :=
  slices a i with lt_dec i (List.length a) => {
    | left _ => slice a i (i + 5) :: slices a (i + 5);
    | right _ => [] }.
Proof. lia. Qed.

(* ===================================================================== *)
(** ** src/unnamed/part_001: the cars                                     *)
(* ===================================================================== *)

Module Fleet.

(** Table [cars]; the client gives the id. *)
Record car_row := {
  car_id : Z;
  car_destination : option string;
  car_eta : option Z;
  car_flight : option string;
  capacity : option Z
}.

(** The tables of part_001: those of [LegStore] and [cars]. *)
Record tables := {
  base : LegStore.tables;
  cars : list car_row
}.

(** One element of [cars] in the body of POST /api/cars; an element of
    [passengers] may be null. *)
Record car_input := {
  in_id : option Z;
  in_destination : option string;
  in_eta : option Z;
  in_flight : option string;
  in_capacity : option Z;
  in_passengers : option (list (option Z))
}.

(** The body of POST /api/cars; [guestAssignments] maps guest ids,
    written as property keys, to car ids. *)
Record cars_body := {
  body_cars : option (list car_input);
  guestAssignments : option (js_object (option Z))
}.

Inductive cars_reply : Type :=
| CarsCreated (carsCreated : nat)
| CarsError500.

Definition has_car (i : Z) (t : tables) : bool :=
  existsb (fun c => car_id c =? i) (cars t).

Definition with_passengers (t : tables) (cps : list (Z * Z)) : tables :=
  {| base := {| LegStore.guests := LegStore.guests (base t);
                LegStore.flight_legs := LegStore.flight_legs (base t);
                LegStore.car_passengers := cps |};
     cars := cars t |}.

Definition with_guests (t : tables) (gs : list LegStore.guest_row)
  : tables :=
  {| base := {| LegStore.guests := gs;
                LegStore.flight_legs := LegStore.flight_legs (base t);
                LegStore.car_passengers :=
                  LegStore.car_passengers (base t) |};
     cars := cars t |}.

Definition set_car (g : LegStore.guest_row) (c : option Z)
  : LegStore.guest_row :=
  {| LegStore.guest_id := LegStore.guest_id g;
     LegStore.name := LegStore.name g;
     LegStore.final_destination := LegStore.final_destination g;
     LegStore.final_eta := LegStore.final_eta g;
     LegStore.car_assigned := c |}.

(** [INSERT INTO cars (id, destination, eta, flight, capacity) VALUES
    ($1, ..., $5) RETURNING id]; [id] is the primary key. *)
Definition insert_car (car : car_input) (_ : Z) (t : tables)
  : option (Z * tables) :=
  match in_id car with
  | Some i =>
      if has_car i t then None
      else Some (i, {| base := base t;
                       cars := cars t ++
                               [{| car_id := i;
                                   car_destination := in_destination car;
                                   car_eta := in_eta car;
                                   car_flight := in_flight car;
                                   capacity := in_capacity car |}] |})
  | None => None
  end.

(** [INSERT INTO car_passengers (car_id, guest_id) VALUES ($1, $2)]; the
    pair is the primary key and both columns are references. *)
Definition insert_passenger (carId : Z) (passengerId : option Z) (_ : Z)
           (t : tables) : option (unit * tables) :=
  match passengerId with
  | Some g =>
      if has_car carId t && LegStore.has_guest g (base t)
         && negb (existsb (fun cp => (fst cp =? carId) && (snd cp =? g))
                          (LegStore.car_passengers (base t)))
      then Some (tt, with_passengers t
                       (LegStore.car_passengers (base t) ++ [(carId, g)]))
      else None
  | None => None
  end.

(** [UPDATE guests SET car_assigned = $1 WHERE id = $2] with the id
    [parseInt(guestId)]; NaN is no integer for the store. *)
Definition assign_car (carId guestId : option Z) (_ : Z) (t : tables)
  : option (unit * tables) :=
  match guestId with
  | Some g =>
      Some (tt, with_guests t
                  (map (fun r => if LegStore.guest_id r =? g
                                 then set_car r carId else r)
                       (LegStore.guests (base t))))
  | None => None
  end.

(** [DELETE FROM cars], with the cascade on [car_passengers]. *)
Definition delete_all_cars (_ : Z) (t : tables) : option (unit * tables) :=
  Some (tt, {| base :=
                 {| LegStore.guests := LegStore.guests (base t);
                    LegStore.flight_legs := LegStore.flight_legs (base t);
                    LegStore.car_passengers :=
                      filter (fun cp => negb (has_car (fst cp) t))
                             (LegStore.car_passengers (base t)) |};
               cars := [] |}).

(** [UPDATE guests SET car_assigned = NULL] *)
Definition clear_assignments (_ : Z) (t : tables)
  : option (unit * tables) :=
  Some (tt, with_guests t
              (map (fun r => set_car r None) (LegStore.guests (base t)))).

(** [for (const x of v)] needs an iterable and [Object.entries(v)] an
    object: undefined throws a TypeError. *)
Definition defined {S A} (v : option A) : M S A :=
  match v with
  | Some a => ret a
  | None => throw
  end.

(** [Object.entries(o)]: the own properties in the order of
    [for ... in]. *)
Definition entries {V} (o : js_object V) : list (string * V) :=
  flat_map (fun k => match get_own k o with
                     | Some v => [(k, v)]
                     | None => []
                     end)
           (for_in_order (map fst o)).

Section Handlers.

Variable granted : bool.
Variable fault : nat -> bool.

(** The builtin [parseInt] on a property key; [None] is NaN. *)
Variable parseInt : string -> option Z.

(** *** POST /api/cars *)

(** The body of [for (const car of cars)]. *)
Definition create_car (car : car_input) : M (world tables) unit :=
  carId <- query fault false (insert_car car) ;;
  passengers <- defined (in_passengers car) ;;
  for_of passengers
         (fun passengerId =>
            query fault false (insert_passenger carId passengerId)).

(** The statements of the try block after BEGIN. *)
Definition create_cars (body : cars_body) : M (world tables) cars_reply :=
  cars <- defined (body_cars body) ;;
  for_of cars create_car ;;;
  assignments <- defined (guestAssignments body) ;;
  for_of (entries assignments)
         (fun entry =>
            let (guestId, carId) := entry in
            query fault false (assign_car carId (parseInt guestId))) ;;;
  COMMIT fault ;;;
  ret (CarsCreated (List.length cars)).

Definition post_cars (body : cars_body) : M (world tables) cars_reply :=
  connect granted ;;;
  finally
    (try_catch
       (BEGIN fault ;;;
        create_cars body)
       (ROLLBACK fault ;;;
        ret CarsError500))
    release.

(** *** DELETE /api/cars *)

Definition delete_cars : M (world tables) LegStore.reply :=
  connect granted ;;;
  finally
    (try_catch
       (query fault false delete_all_cars ;;;
        query fault false clear_assignments ;;;
        ret LegStore.Success)
       (ret LegStore.Error500))
    release.

End Handlers.

(** *** GET /api/cars *)

(** [SELECT * FROM cars ORDER BY eta]: the rows in the order [order]
    the store gives them. *)
Definition select_cars (order : list car_row -> list car_row) (_ : Z)
           (t : tables) : option (list car_row * tables) :=
  Some (order (cars t), t).

(** [SELECT guest_id FROM car_passengers WHERE car_id = $1]; the store
    chooses the order of the rows. *)
Definition select_passengers_of (order : list Z -> list Z) (carId : Z)
           (_ : Z) (t : tables) : option (list Z * tables) :=
  Some (order (map snd (filter (fun cp => fst cp =? carId)
                               (LegStore.car_passengers (base t)))), t).

(** One car of a listing. *)
Record car_view := {
  view_id : Z;
  view_destination : option string;
  view_eta : option Z;
  view_flight : option string;
  view_capacity : option Z;
  view_passengers : list Z
}.

Inductive cars_listing : Type :=
| CarsListing (views : list car_view)
| CarsListingError500.

Section CarListing.

Variable granted : bool.
Variable fault : nat -> bool.
Variable by_eta : list car_row -> list car_row.
Variable as_stored : list Z -> list Z.

(** The callback of [carsResult.rows.map]. *)
Definition car_with_passengers (car : car_row)
  : M (world tables) car_view :=
  passengersResult <- query fault false
                        (select_passengers_of as_stored (car_id car)) ;;
  ret {| view_id := car_id car;
         view_destination := car_destination car;
         view_eta := car_eta car;
         view_flight := car_flight car;
         view_capacity := capacity car;
         view_passengers := passengersResult |}.

(** [Promise.all(rows.map(callback))] on one client, as in
    [LegStore.promise_all]. *)
Fixpoint promise_all (rows : list car_row)
  : M (world tables) (list car_view) :=
  match rows with
  | [] => ret []
  | car :: rest =>
      view <- car_with_passengers car ;;
      views <- promise_all rest ;;
      ret (view :: views)
  end.

Definition get_cars : M (world tables) cars_listing :=
  connect granted ;;;
  finally
    (try_catch
       (carsResult <- query fault false (select_cars by_eta) ;;
        cars <- promise_all carsResult ;;
        ret (CarsListing cars))
       (ret CarsListingError500))
    release.

End CarListing.

End Fleet.

(* ===================================================================== *)
(** ** src/unnamed/part_002: one flight per guest                         *)
(* ===================================================================== *)

Module FlatGuests.

(** Table [guests]; [flight] and [name] are NOT NULL. *)
Record guest_row := {
  id : Z;
  name : string;
  phone : option string;
  flight : string;
  airline : option string;
  origin : option string;
  destination : option string;
  eta : option Z;
  status : option string;
  car_assigned : option Z;
  created_at : Z
}.

Definition tables : Type := list guest_row.

Definition with_status (g : guest_row) (st : option string) : guest_row :=
  {| id := id g; name := name g; phone := phone g; flight := flight g;
     airline := airline g; origin := origin g;
     destination := destination g; eta := eta g; status := st;
     car_assigned := car_assigned g; created_at := created_at g |}.

Definition with_car (g : guest_row) (c : option Z) : guest_row :=
  {| id := id g; name := name g; phone := phone g; flight := flight g;
     airline := airline g; origin := origin g;
     destination := destination g; eta := eta g; status := status g;
     car_assigned := c; created_at := created_at g |}.

(** The time value of [new Date(v)] for a timestamp or null: null is the
    epoch.  Provider timestamps are taken as parsed; the provider sends
    every field, null when it has no value. *)
Definition date_value (v : option Z) : Z :=
  match v with
  | Some t => t
  | None => 0
  end.

(** [a || b] on nullable timestamps (a timestamp string is truthy). *)
Definition first_of (a b : option Z) : option Z :=
  match a with
  | Some _ => a
  | None => b
  end.

(** *** GET /api/guests: the listing refreshes every status *)

(** The status computed from the first flight of the result set, before
    the past-arrival rule.  Reading [flight.arrival.estimated] throws
    when [arrival] is missing. *)
Definition vendor_status {S} (flight : vendor_flight) : M S string :=
  if str_is (flight_status flight) "cancelled" then ret Cancelled
  else if str_is (flight_status flight) "landed" then ret Landed
  else if str_is (flight_status flight) "active"
          || str_is (flight_status flight) "scheduled"
  then match arrival flight with
       | Some a =>
           let estimatedArrival :=
             date_value (first_of (estimated a) (scheduled a)) in
           let scheduledArrival := date_value (scheduled a) in
           if scheduledArrival <? estimatedArrival then ret Delayed
           else ret OnTime
       | None => throw
       end
  else ret OnTime.

Definition lookup_request (key : option string) (g : guest_row) : request :=
  {| access_key := key;
     flight_iata := String.append (tmpl (airline g)) (flight g);
     flight_date := None; limit := None; timeout := None |}.

(** [UPDATE guests SET status = $1 WHERE id = $2] *)
Definition update_status (st : string) (gid : Z) (_ : Z) (t : tables)
  : option (unit * tables) :=
  Some (tt, map (fun g => if id g =? gid then with_status g (Some st) else g)
                t).

(** [UPDATE guests SET car_assigned = $1 WHERE id = $2] *)
Definition update_car (carId : Z) (gid : Z) (_ : Z) (t : tables)
  : option (unit * tables) :=
  Some (tt, map (fun g => if id g =? gid then with_car g (Some carId) else g)
                t).

(** [DELETE FROM guests WHERE id = $1] *)
Definition delete_guest (gid : Z) (_ : Z) (t : tables)
  : option (unit * tables) :=
  Some (tt, filter (fun g => negb (id g =? gid)) t).

(** A [SELECT * FROM guests ORDER BY ...]: the store returns the rows in
    the order [order] it chooses. *)
Definition select_all (order : tables -> list guest_row) (_ : Z)
           (t : tables) : option (list guest_row * tables) :=
  Some (order t, t).

(** *** POST /api/assign-cars: the computation on the rows *)

Definition lift {S A} (o : outcome A) : M S A := fun s => (o, s).

(** The body of [guests.forEach]: [if (!flightGroups[guest.flight])
    flightGroups[guest.flight] = []; flightGroups[guest.flight]
    .push(guest)].  A flight named like a member of [Object.prototype]
    finds that member, keeps it, and fails on [push]. *)
Definition add_to_group (flightGroups : js_object (list guest_row))
           (guest : guest_row) : outcome (js_object (list guest_row)) :=
  match get_own (flight guest) flightGroups with
  | Some members =>
      Ok (set_own (flight guest) (members ++ [guest]) flightGroups)
  | None =>
      if inherited (flight guest) then Throw
      else Ok (flightGroups ++ [(flight guest, [guest])])
  end.

Fixpoint group_by_flight (guests : list guest_row)
         (flightGroups : js_object (list guest_row))
  : outcome (js_object (list guest_row)) :=
  match guests with
  | [] => Ok flightGroups
  | guest :: rest =>
      match add_to_group flightGroups guest with
      | Ok flightGroups' => group_by_flight rest flightGroups'
      | Throw => Throw
      end
  end.

(** [flightGroups[flight]] for an own key. *)
Definition members (flightGroups : js_object (list guest_row))
           (k : string) : list guest_row :=
  match get_own k flightGroups with
  | Some m => m
  | None => []
  end.

(** A car of the assignment: its number and the guests of its slice. *)
Record car := { car_number : Z; car_guests : list guest_row }.

(** The slices in the order the two outer loops produce them. *)
Definition group_slices (flightGroups : js_object (list guest_row))
  : list (list guest_row) :=
  flat_map (fun k => slices (members flightGroups k) 0)
           (for_in_order (map fst flightGroups)).

(** [carId] starts at [from] and is incremented after every slice. *)
Fixpoint number_cars (chunks : list (list guest_row)) (from : Z)
  : list car :=
  match chunks with
  | [] => []
  | carGuests :: rest =>
      {| car_number := from; car_guests := carGuests |}
      :: number_cars rest (from + 1)
  end.

(** The cars the handler produces from the rows of its query. *)
Definition cars (guests : list guest_row) : outcome (list car) :=
  match group_by_flight guests [] with
  | Ok flightGroups => Ok (number_cars (group_slices flightGroups) 1)
  | Throw => Throw
  end.


Definition eta_eq (a b : option Z) : bool :=
  match a, b with
  | Some x, Some y => x =? y
  | None, None => true
  | _, _ => false
  end.



Inductive listing : Type :=
| Guests (rows : list guest_row)
| ListingError500.

Inductive reply : Type :=
| Message
| Error500.

Section Handlers.

Variable fault : nat -> bool.
Variable env : option string.
Variable p : provider.

(** The clock read by [new Date()]. *)
Variable now : Z.

(** The row orders the store chooses for [ORDER BY eta ASC] and for
    [ORDER BY flight, eta]. *)
Variable by_eta : tables -> list guest_row.
Variable by_flight_eta : tables -> list guest_row.

(** The body of [for (let guest of guests)]; the result is the guest
    object after the iteration.  Inside the try, reading
    [response.data.data] throws when the body is null, and reading
    [flight.flight_status] throws when the first element is null; a
    body without [data], the empty body among them, fails the test
    and nothing is done. *)
Definition refresh_guest (guest : guest_row)
  : M (world tables) guest_row :=
  if truthy (Some (flight guest)) && truthy (airline guest)
     && truthy (origin guest)
  then
    try_catch
      (response <- axios_get p (lookup_request env guest) ;;
       match response with
       | None => throw
       | Some body =>
           match body_data body with
           | Some (first :: _) =>
               match first with
               | None => throw
               | Some flight =>
                   status0 <- vendor_status flight ;;
                   let flightDate := date_value (eta guest) in
                   let newStatus :=
                     if (flightDate <? now) && String.eqb status0 OnTime
                     then Landed else status0 in
                   query fault false (update_status newStatus (id guest)) ;;;
                   ret (with_status guest (Some newStatus))
               end
           | _ => ret guest
           end
       end)
      (let flightDate := date_value (eta guest) in
       if (flightDate <? now) && str_is (status guest) OnTime
       then
         query fault false (update_status Landed (id guest)) ;;;
         ret (with_status guest (Some Landed))
       else ret guest)
  else ret guest.

Fixpoint refresh_all (guests : list guest_row)
  : M (world tables) (list guest_row) :=
  match guests with
  | [] => ret []
  | guest :: rest =>
      guest' <- refresh_guest guest ;;
      rest' <- refresh_all rest ;;
      ret (guest' :: rest')
  end.

Definition get_guests : M (world tables) listing :=
  try_catch
    (guests <- query fault false (select_all by_eta) ;;
     guests' <- refresh_all guests ;;
     ret (Guests guests'))
    (ret ListingError500).

(** *** DELETE /api/guests/:id *)

Definition delete_guest_handler (gid : Z) : M (world tables) reply :=
  try_catch
    (query fault false (delete_guest gid) ;;;
     ret Message)
    (ret Error500).

(** *** POST /api/assign-cars: the handler *)

(** The loop [for (let i = 0; ...; i += 5)] over the slices of one
    group; the result is [carId] after the group. *)
Fixpoint assign_slices (chunks : list (list guest_row)) (carId : Z)
  : M (world tables) Z :=
  match chunks with
  | [] => ret carId
  | carGuests :: rest =>
      for_of carGuests
             (fun guest =>
                query fault false (update_car carId (id guest))) ;;;
      assign_slices rest (carId + 1)
  end.

(** The loop [for (const flight in flightGroups)]. *)
Fixpoint assign_groups (keys : list string)
         (flightGroups : js_object (list guest_row)) (carId : Z)
  : M (world tables) Z :=
  match keys with
  | [] => ret carId
  | k :: rest =>
      let flightGuests := members flightGroups k in
      carId' <- assign_slices (slices flightGuests 0) carId ;;
      assign_groups rest flightGroups carId'
  end.

Definition assign_cars : M (world tables) reply :=
  try_catch
    (guests <- query fault false (select_all by_flight_eta) ;;
     flightGroups <- lift (group_by_flight guests []) ;;
     assign_groups (for_in_order (map fst flightGroups)) flightGroups 1 ;;;
     ret Message)
    (ret Error500).

End Handlers.

(** *** POST and PUT /api/guests *)

(** The fields the two handlers read of a request body. *)
Record guest_body := {
  body_name : option string;
  body_phone : option string;
  body_flight : option string;
  body_airline : option string;
  body_origin : option string;
  body_destination : option string;
  body_eta : option Z;
  body_status : option string;
  body_car_assigned : option Z
}.

(** [phone || null] *)
Definition or_null (o : option string) : option string :=
  if truthy o then o else None.

(** [INSERT INTO guests (name, phone, flight, airline, origin,
    destination, eta) VALUES ($1, ..., $7) RETURNING *]: the id comes
    from the sequence and is the primary key, [status] and [created_at]
    come from their defaults; [now] is CURRENT_TIMESTAMP.  Whether the
    values fit their columns (VARCHAR(10) for [airline], [origin] and
    [destination]) is left to [fault]. *)
Definition insert_guest (b : guest_body) (now : Z) (next : Z) (t : tables)
  : option (guest_row * tables) :=
  match body_name b, body_flight b with
  | Some n, Some f =>
      if existsb (fun g => id g =? next) t then None
      else
        let row := {| id := next; name := n;
                      phone := or_null (body_phone b);
                      flight := f; airline := body_airline b;
                      origin := body_origin b;
                      destination := body_destination b; eta := body_eta b;
                      status := Some OnTime; car_assigned := None;
                      created_at := now |} in
        Some (row, t ++ [row])
  | _, _ => None
  end.

(** The row [g] with the nine columns the UPDATE sets. *)
Definition rewritten (b : guest_body) (n f : string) (g : guest_row)
  : guest_row :=
  {| id := id g; name := n; phone := or_null (body_phone b); flight := f;
     airline := body_airline b; origin := body_origin b;
     destination := body_destination b; eta := body_eta b;
     status := body_status b; car_assigned := body_car_assigned b;
     created_at := created_at g |}.

(** [UPDATE guests SET name = $1, phone = $2, flight = $3, airline = $4,
    origin = $5, destination = $6, eta = $7, status = $8, car_assigned =
    $9 WHERE id = $10 RETURNING *] *)
Definition replace_guest (b : guest_body) (gid : Z) (_ : Z) (t : tables)
  : option (list guest_row * tables) :=
  if existsb (fun g => id g =? gid) t
  then
    match body_name b, body_flight b with
    | Some n, Some f =>
        Some (map (rewritten b n f) (filter (fun g => id g =? gid) t),
              map (fun g => if id g =? gid then rewritten b n f g else g) t)
    | _, _ => None
    end
  else Some ([], t).

(** [res.json(result.rows[0])]: the row, or a 200 reply without a body
    when there is none; or the 500 reply. *)
Inductive row_reply : Type :=
| RowJson (row : guest_row)
| NoBody200
| RowError500.

Definition first_row (rows : list guest_row) : row_reply :=
  match rows with
  | row :: _ => RowJson row
  | [] => NoBody200
  end.

Section GuestHandlers.

Variable fault : nat -> bool.

Definition post_guest (now : Z) (b : guest_body)
  : M (world tables) row_reply :=
  try_catch
    (row <- query fault true (insert_guest b now) ;;
     ret (RowJson row))
    (ret RowError500).

Definition put_guest (gid : Z) (b : guest_body)
  : M (world tables) row_reply :=
  try_catch
    (rows <- query fault false (replace_guest b gid) ;;
     ret (first_row rows))
    (ret RowError500).

End GuestHandlers.

End FlatGuests.

(* ===================================================================== *)
(** ** src/server.js, first document: status table lookup                 *)
(* ===================================================================== *)

Module StatusMap.

(** The car assignment of this document is the text of
    [FlatGuests.assign_cars]; its UPDATE also stamps [updated_at], a
    column the embedding leaves out. *)

(** [toLowerCase] on the ASCII letters. *)
Definition lower (c : ascii) : ascii :=
  if ((65 <=? nat_of_ascii c) && (nat_of_ascii c <=? 90))%nat
  then ascii_of_nat (nat_of_ascii c + 32)
  else c.

Fixpoint toLowerCase (s : string) : string :=
  match s with
  | EmptyString => EmptyString
  | String c r => String (lower c) (toLowerCase r)
  end.

(** The value [newStatus] ends with: a status string, or the member of
    [Object.prototype] that the lookup found. *)
Inductive js_value : Type :=
| JsString (s : string)
| JsInherited (k : string).

Definition statusMap : js_object string :=
  [ ("cancelled", Cancelled); ("landed", Landed); ("delayed", Delayed);
    ("active", OnTime); ("scheduled", OnTime) ].

(** [flight.flight_status?.toLowerCase()], as the property key it is
    used for. *)
Definition apiStatus (flight : vendor_flight) : string :=
  match flight_status flight with
  | Some s => toLowerCase s
  | None => "undefined"
  end.

(** [let newStatus = 'On Time'; if (statusMap[apiStatus]) newStatus =
    statusMap[apiStatus]] *)
Definition new_status (flight : vendor_flight) : js_value :=
  match get_own (apiStatus flight) statusMap with
  | Some st => JsString st
  | None => if inherited (apiStatus flight)
            then JsInherited (apiStatus flight)
            else JsString OnTime
  end.

End StatusMap.

(* ===================================================================== *)
(** ** src/server.js, second document: one table, 404 replies             *)
(* ===================================================================== *)

Module SingleTable.

(** Table [guests]; [name], [flight], [airline], [origin] and [eta] are
    NOT NULL. *)
Record guest_row := {
  id : Z;
  name : string;
  flight : string;
  airline : string;
  airline_name : option string;
  origin : string;
  eta : Z;
  status : option string;
  car_assigned : option Z
}.

Definition tables : Type := list guest_row.

(** The body of PUT /api/guests/:id. *)
Record put_body := {
  body_name : option string;
  body_flight : option string;
  body_airline : option string;
  body_airlineName : option string;
  body_origin : option string;
  body_eta : option Z;
  body_status : option string;
  body_carAssigned : option Z
}.

Inductive reply : Type :=
| Json200 (guest : guest_row)
| Deleted200
| NotFound404
| Error500.

(** [UPDATE guests SET ... WHERE id = $9 RETURNING *] *)
Definition update_guest (b : put_body) (gid : Z) (_ : Z) (t : tables)
  : option (list guest_row * tables) :=
  if existsb (fun g => id g =? gid) t
  then
    match body_name b, body_flight b, body_airline b, body_origin b,
          body_eta b with
    | Some n, Some f, Some a, Some o, Some e =>
        let row := {| id := gid; name := n; flight := f; airline := a;
                      airline_name := body_airlineName b; origin := o;
                      eta := e; status := body_status b;
                      car_assigned := body_carAssigned b |} in
        Some (map (fun _ => row) (filter (fun g => id g =? gid) t),
              map (fun g => if id g =? gid then row else g) t)
    | _, _, _, _, _ => None
    end
  else Some ([], t).

(** [DELETE FROM guests WHERE id = $1 RETURNING *] *)
Definition delete_guest (gid : Z) (_ : Z) (t : tables)
  : option (list guest_row * tables) :=
  Some (filter (fun g => id g =? gid) t,
        filter (fun g => negb (id g =? gid)) t).

(** The comparisons of the endpoint on the lower-cased vendor status. *)
Definition endpoint_status (flightData : vendor_flight) : string :=
  if truthy (flight_status flightData)
  then
    let aviationStatus :=
      StatusMap.toLowerCase (tmpl (flight_status flightData)) in
    if String.eqb aviationStatus "landed" then Landed
    else if String.eqb aviationStatus "cancelled"
            || String.eqb aviationStatus "canceled" then Cancelled
    else if String.eqb aviationStatus "delayed" then Delayed
    else OnTime
  else OnTime.

Inductive status_reply : Type :=
| BadRequest400
| StatusJson (s : string).

Section Handlers.

Variable fault : nat -> bool.
Variable env : option string.
Variable p : provider.

(** *** PUT /api/guests/:id *)
Definition put_guest (gid : Z) (b : put_body) : M (world tables) reply :=
  try_catch
    (rows <- query fault false (update_guest b gid) ;;
     match rows with
     | [] => ret NotFound404
     | row :: _ => ret (Json200 row)
     end)
    (ret Error500).

(** *** DELETE /api/guests/:id *)
Definition delete_guest_handler (gid : Z) : M (world tables) reply :=
  try_catch
    (rows <- query fault false (delete_guest gid) ;;
     match rows with
     | [] => ret NotFound404
     | _ :: _ => ret Deleted200
     end)
    (ret Error500).

(** *** GET /api/flight-status *)
Definition flight_status_handler (flight airline : option string)
  : M (world tables) status_reply :=
  if negb (truthy flight) || negb (truthy airline)
  then ret BadRequest400
  else
    try_catch
      (if negb (truthy env) then ret (StatusJson OnTime)
       else
         response <- axios_get p
           {| access_key := env;
              flight_iata := String.append (tmpl airline) (tmpl flight);
              flight_date := None; limit := Some 1;
              timeout := Some 5000 |} ;;
         match response with
         | Some body =>
             match body_data body with
             | Some (first :: _) =>
                 match first with
                 | Some flightData =>
                     ret (StatusJson (endpoint_status flightData))
                 | None => throw
                 end
             | _ => ret (StatusJson OnTime)
             end
         | None => ret (StatusJson OnTime)
         end)
      (ret (StatusJson OnTime)).

End Handlers.

(** *** The other guest endpoints *)

(** The handlers reply a guest as an object with the columns of the row
    under camel-case names; the embedding shows it as the row. *)

(** [carAssigned || null]: zero is falsy. *)
Definition or_null (o : option Z) : option Z :=
  match o with
  | Some z => if z =? 0 then None else Some z
  | None => None
  end.

(** [INSERT INTO guests (name, flight, airline, airline_name, origin,
    eta, status, car_assigned) VALUES ($1, ..., $8) RETURNING *] with
    [status || 'On Time'] and [carAssigned || null]; the id comes from
    the sequence and is the primary key.  Whether the values fit their
    columns (VARCHAR(10) for [airline]) is left to [fault]. *)
Definition insert_guest (b : put_body) (next : Z) (t : tables)
  : option (guest_row * tables) :=
  match body_name b, body_flight b, body_airline b, body_origin b,
        body_eta b with
  | Some n, Some f, Some a, Some o, Some e =>
      if existsb (fun g => id g =? next) t then None
      else
        let row := {| id := next; name := n; flight := f; airline := a;
                      airline_name := body_airlineName b; origin := o;
                      eta := e;
                      status := Some (or_else (body_status b) OnTime);
                      car_assigned := or_null (body_carAssigned b) |} in
        Some (row, t ++ [row])
  | _, _, _, _, _ => None
  end.

(** [SELECT * FROM guests WHERE id = $1] *)
Definition select_guest (gid : Z) (_ : Z) (t : tables)
  : option (list guest_row * tables) :=
  Some (filter (fun g => id g =? gid) t, t).

(** [SELECT * FROM guests ORDER BY eta ASC]; [order] is the order the
    store returns the rows in. *)
Definition select_guests (order : tables -> list guest_row) (_ : Z)
           (t : tables) : option (list guest_row * tables) :=
  Some (order t, t).

Inductive post_reply : Type :=
| Created201 (guest : guest_row)
| PostError500.

Inductive list_reply : Type :=
| Guests200 (guests : list guest_row)
| ListError500.

Section GuestEndpoints.

Variable fault : nat -> bool.

(** *** GET /api/guests *)
Definition get_guests (by_eta : tables -> list guest_row)
  : M (world tables) list_reply :=
  try_catch
    (rows <- query fault false (select_guests by_eta) ;;
     ret (Guests200 rows))
    (ret ListError500).

(** *** GET /api/guests/:id *)
Definition get_guest (gid : Z) : M (world tables) reply :=
  try_catch
    (rows <- query fault false (select_guest gid) ;;
     match rows with
     | [] => ret NotFound404
     | row :: _ => ret (Json200 row)
     end)
    (ret Error500).

(** *** POST /api/guests *)
Definition post_guest (b : put_body) : M (world tables) post_reply :=
  try_catch
    (row <- query fault true (insert_guest b) ;;
     ret (Created201 row))
    (ret PostError500).

End GuestEndpoints.

(** *** The car endpoints *)

(** Table [cars]; the client gives the id, every other column may be
    null. *)
Record car_row := {
  car_id : Z;
  passengers : option (list Z);
  driver_name : option string;
  driver_phone : option string;
  notes : option string
}.

Definition garage : Type := list car_row.

(** The body of POST /api/cars and of PUT /api/cars/:id (which does not
    read [id]). *)
Record car_body := {
  body_id : option Z;
  body_passengers : option (list Z);
  body_driverName : option string;
  body_driverPhone : option string;
  body_notes : option string
}.

(** A car as the handlers reply it. *)
Record car_json := {
  json_id : Z;
  json_passengers : list Z;
  driverName : string;
  driverPhone : string;
  json_notes : string
}.

(** [passengers || []]: an array is truthy, the empty one too. *)
Definition or_empty (o : option (list Z)) : list Z :=
  match o with
  | Some l => l
  | None => []
  end.

Definition car_json_of (row : car_row) : car_json :=
  {| json_id := car_id row;
     json_passengers := or_empty (passengers row);
     driverName := or_else (driver_name row) "";
     driverPhone := or_else (driver_phone row) "";
     json_notes := or_else (notes row) "" |}.

(** The row with the id [i] and the four columns as the statements of
    POST and PUT set them: [passengers || []], [driverName || ''],
    [driverPhone || ''], [notes || '']. *)
Definition written (i : Z) (b : car_body) : car_row :=
  {| car_id := i;
     passengers := Some (or_empty (body_passengers b));
     driver_name := Some (or_else (body_driverName b) "");
     driver_phone := Some (or_else (body_driverPhone b) "");
     notes := Some (or_else (body_notes b) "") |}.

Definition has_car (i : Z) (t : garage) : bool :=
  existsb (fun c => car_id c =? i) t.

(** [INSERT INTO cars (id, passengers, driver_name, driver_phone, notes)
    VALUES ($1, ..., $5) ON CONFLICT (id) DO UPDATE SET passengers = $2,
    driver_name = $3, driver_phone = $4, notes = $5, ... RETURNING *];
    a null id violates the primary key.  Whether the id fits INTEGER is
    left to [fault]. *)
Definition upsert_car (b : car_body) (_ : Z) (t : garage)
  : option (list car_row * garage) :=
  match body_id b with
  | Some i =>
      if has_car i t
      then Some (map (fun _ => written i b)
                     (filter (fun c => car_id c =? i) t),
                 map (fun c => if car_id c =? i then written i b else c) t)
      else Some ([written i b], t ++ [written i b])
  | None => None
  end.

(** [UPDATE cars SET passengers = $1, driver_name = $2, driver_phone =
    $3, notes = $4, ... WHERE id = $5 RETURNING *] *)
Definition update_car (b : car_body) (cid : Z) (_ : Z) (t : garage)
  : option (list car_row * garage) :=
  Some (map (fun _ => written cid b) (filter (fun c => car_id c =? cid) t),
        map (fun c => if car_id c =? cid then written cid b else c) t).

(** [DELETE FROM cars WHERE id = $1 RETURNING *] *)
Definition delete_car (cid : Z) (_ : Z) (t : garage)
  : option (list car_row * garage) :=
  Some (filter (fun c => car_id c =? cid) t,
        filter (fun c => negb (car_id c =? cid)) t).

(** [DELETE FROM cars] *)
Definition delete_all_cars (_ : Z) (t : garage)
  : option (unit * garage) :=
  Some (tt, []).

(** [SELECT * FROM cars WHERE id = $1] and [SELECT * FROM cars ORDER BY
    id ASC]. *)
Definition select_car (cid : Z) (_ : Z) (t : garage)
  : option (list car_row * garage) :=
  Some (filter (fun c => car_id c =? cid) t, t).

Definition select_cars (order : garage -> list car_row) (_ : Z)
           (t : garage) : option (list car_row * garage) :=
  Some (order t, t).

Inductive car_reply : Type :=
| Car200 (car : car_json)
| Car201 (car : car_json)
| Cars200 (cars : list car_json)
| CarDeleted200
| AllCarsDeleted200
| CarNotFound404
| CarError500.

Section CarEndpoints.

Variable fault : nat -> bool.

(** *** GET /api/cars *)
Definition get_cars (by_id : garage -> list car_row)
  : M (world garage) car_reply :=
  try_catch
    (rows <- query fault false (select_cars by_id) ;;
     ret (Cars200 (map car_json_of rows)))
    (ret CarError500).

(** *** GET /api/cars/:id *)
Definition get_car (cid : Z) : M (world garage) car_reply :=
  try_catch
    (rows <- query fault false (select_car cid) ;;
     match rows with
     | [] => ret CarNotFound404
     | row :: _ => ret (Car200 (car_json_of row))
     end)
    (ret CarError500).

(** *** POST /api/cars *)

(** [result.rows[0]] of a result without rows is undefined, and
    reading [row.id] of it throws. *)
Definition post_car (b : car_body) : M (world garage) car_reply :=
  try_catch
    (rows <- query fault false (upsert_car b) ;;
     match rows with
     | [] => throw
     | row :: _ => ret (Car201 (car_json_of row))
     end)
    (ret CarError500).

(** *** PUT /api/cars/:id *)
Definition put_car (cid : Z) (b : car_body) : M (world garage) car_reply :=
  try_catch
    (rows <- query fault false (update_car b cid) ;;
     match rows with
     | [] => ret CarNotFound404
     | row :: _ => ret (Car200 (car_json_of row))
     end)
    (ret CarError500).

(** *** DELETE /api/cars/:id *)
Definition delete_car_handler (cid : Z) : M (world garage) car_reply :=
  try_catch
    (rows <- query fault false (delete_car cid) ;;
     match rows with
     | [] => ret CarNotFound404
     | _ :: _ => ret CarDeleted200
     end)
    (ret CarError500).

(** *** DELETE /api/cars *)
Definition delete_cars : M (world garage) car_reply :=
  try_catch
    (query fault false delete_all_cars ;;;
     ret AllCarsDeleted200)
    (ret CarError500).

End CarEndpoints.

End SingleTable.

(* ===================================================================== *)
(** ** Vocabulary of the statements                                       *)
(* ===================================================================== *)

(** The answers that carry no flight: the request failed, the body is
    the JSON value null, the result set is missing or empty, or its first
    element is null. *)
Definition no_data (r : axios_result) : Prop :=
  match r with
  | AxiosError => True
  | AxiosResponse None => True
  | AxiosResponse (Some b) =>
      match body_data b with
      | None => True
      | Some [] => True
      | Some (None :: _) => True
      | Some (Some _ :: _) => False
      end
  end.

(** The first flight of an answer that has one. *)
Definition first_flight (r : axios_result) : option vendor_flight :=
  match r with
  | AxiosResponse (Some b) =>
      match body_data b with
      | Some (Some flight :: _) => Some flight
      | _ => None
      end
  | _ => None
  end.

(** [ls'] is [ls] with the same ids in the same places, and with the same
    rows wherever the id is not in [ids]. *)
Definition same_except (ids : list Z) (ls ls' : list LegStore.leg_row)
  : Prop :=
  Forall2 (fun l l' => LegStore.leg_id l' = LegStore.leg_id l /\
                       (~ In (LegStore.leg_id l) ids -> l' = l)) ls ls'.

(** The legs a pass of part_000 selects, and the request it makes for
    one of them. *)
Definition open_legs (t : LegStore.tables) : list LegStore.leg_row :=
  filter (fun l => negb (LegStore.terminal (LegStore.status l)))
         (LegStore.flight_legs t).

Definition request_of (env : option string) (l : LegStore.leg_row) : request :=
  LegStore.lookup_request env (LegStore.flight_number l) (LegStore.airline l)
                          (iso_date (LegStore.eta l)).

(** The same for part_001, on the day [today]. *)
Definition open_legs_of (today : Z) (t : LegStore.tables)
  : list LegStore.leg_row :=
  filter (fun l => negb (LegStore.terminal (LegStore.status l))
                   && (iso_date (LegStore.eta l) =? today))
         (LegStore.flight_legs t).

Definition request_today_of (env : option string) (l : LegStore.leg_row)
  : request :=
  LegStoreToday.lookup_request env (LegStore.flight_number l)
                               (LegStore.airline l)
                               (iso_date (LegStore.eta l)).

(** The guard of the listing refresh of part_002: [guest.flight &&
    guest.airline && guest.origin]. *)
Definition refreshable (g : FlatGuests.guest_row) : bool :=
  truthy (Some (FlatGuests.flight g)) && truthy (FlatGuests.airline g)
  && truthy (FlatGuests.origin g).

(** The answers on which the inline lookup of part_002 raises: a rejected
    request, a body that is the JSON value null (reading [data] of it
    throws), a null first element (reading [flight_status] of it throws).
    An empty body does not raise: it has no [data] and counts among the
    answers with a missing result set. *)
Definition lookup_raises (r : axios_result) : bool :=
  match r with
  | AxiosError => true
  | AxiosResponse None => true
  | AxiosResponse (Some b) =>
      match body_data b with
      | Some (None :: _) => true
      | _ => false
      end
  end.

(** The answers with a missing or empty result set: part_002 tests
    [response.data.data && response.data.data.length > 0] and does
    nothing when it fails. *)
Definition empty_result (r : axios_result) : bool :=
  match r with
  | AxiosResponse (Some b) =>
      match body_data b with
      | None => true
      | Some [] => true
      | _ => false
      end
  | _ => false
  end.

(** The fallback test of part_002: the arrival is past and the recorded
    status is On Time. *)
Definition past_on_time (now : Z) (g : FlatGuests.guest_row) : bool :=
  (FlatGuests.date_value (FlatGuests.eta g) <? now)
  && str_is (FlatGuests.status g) OnTime.

(** The guests table after [UPDATE guests SET status = st WHERE id = i]. *)
Definition set_status (st : string) (i : Z) (t : FlatGuests.tables)
  : FlatGuests.tables :=
  map (fun g => if FlatGuests.id g =? i
                then FlatGuests.with_status g (Some st) else g) t.

(** Readers of the connection [c] have seen nothing but the tables [t]. *)
Definition untouched {T} (t : T) (c : conn T) : Prop :=
  committed c = t /\ Forall (fun s => s = t) (observed c).

(** The row [row] stores the element [leg] of a request body as leg number
    [i] of the guest [id]. *)
Definition stored_as (id : Z) (leg : LegStore.leg_input) (i : Z)
           (row : LegStore.leg_row) : Prop :=
  LegStore.leg_guest row = id /\
  LegStore.in_flight leg = Some (LegStore.flight_number row) /\
  LegStore.airline row = LegStore.in_airline leg /\
  LegStore.in_origin leg = Some (LegStore.origin row) /\
  LegStore.in_destination leg = Some (LegStore.destination row) /\
  LegStore.in_eta leg = Some (LegStore.eta row) /\
  LegStore.status row = or_else (LegStore.in_status leg) OnTime /\
  LegStore.leg_order row = i.

(** The rows store the elements of [legs], in order, from index [i]; a
    missing element is stored by no row. *)
Fixpoint stored_from (id : Z) (i : Z) (legs : list (option LegStore.leg_input))
         (rows : list LegStore.leg_row) : Prop :=
  match legs, rows with
  | [], [] => True
  | Some leg :: legs', row :: rows' =>
      stored_as id leg i row /\ stored_from id (i + 1) legs' rows'
  | _, _ => False
  end.


(** The guests after [UPDATE guests SET name, final_destination,
    final_eta WHERE id]: without a name only a table that lacks the id
    passes the update, unchanged. *)
Definition renamed (id : Z) (nm : option string) (finalLeg : LegStore.leg_input)
           (gs : list LegStore.guest_row) : list LegStore.guest_row :=
  match nm with
  | Some n =>
      map (fun g => if LegStore.guest_id g =? id
                    then {| LegStore.guest_id := LegStore.guest_id g;
                            LegStore.name := n;
                            LegStore.final_destination :=
                              LegStore.in_destination finalLeg;
                            LegStore.final_eta := LegStore.in_eta finalLeg;
                            LegStore.car_assigned :=
                              LegStore.car_assigned g |}
                    else g) gs
  | None => gs
  end.

(** What a completed replacement of the legs of [id] by [body] has
    written over the tables [t]: the guest row rewritten from the name
    and the final element, the legs of the guest replaced by one row for
    each element the loop reads.  Rows are written for a guest the table
    has, and a guest row is rewritten from a name only. *)
Definition replaced (id : Z) (t : LegStore.tables) (body : LegStore.put_body)
         (final : LegStore.tables) : Prop :=
  exists v finalLeg rows,
    LegStore.body_legs body = Some v /\
    LegStore.final_element v = Some finalLeg /\
    LegStore.guests final =
      renamed id (LegStore.body_name body) finalLeg (LegStore.guests t) /\
    LegStore.flight_legs final =
      filter (fun l => negb (LegStore.leg_guest l =? id))
             (LegStore.flight_legs t) ++ rows /\
    stored_from id 0 (LegStore.elements v) rows /\
    (LegStore.has_guest id t = true ->
     exists nm, LegStore.body_name body = Some nm) /\
    (LegStore.has_guest id t = false -> rows = []) /\
    LegStore.car_passengers final = LegStore.car_passengers t.

(** The legs value has an element for the loop to read: so has every
    array that is not empty. *)
Definition has_element (body : LegStore.put_body) : Prop :=
  exists v, LegStore.body_legs body = Some v /\ LegStore.elements v <> [].

(** The keys of [flightGroups] as the grouping loop creates them: a flight
    is added, at the end, the first time it is seen. *)
Definition add_key (ks : list string) (k : string) : list string :=
  if existsb (String.eqb k) ks then ks else ks ++ [k].

Definition flights_seen (rows : list FlatGuests.guest_row) : list string :=
  fold_left add_key (map FlatGuests.flight rows) [].

(** The rows of the flight [k], in the order of the rows. *)
Definition on_flight (k : string) (rows : list FlatGuests.guest_row)
  : list FlatGuests.guest_row :=
  filter (fun g => String.eqb (FlatGuests.flight g) k) rows.

(** Some row has a flight named like a member of [Object.prototype]. *)
Definition names_member (rows : list FlatGuests.guest_row) : bool :=
  existsb (fun g => inherited (FlatGuests.flight g)) rows.

(** A car as a client sees it: its number and the ids of its guests. *)
Definition car_view (c : FlatGuests.car) : Z * list Z :=
  (FlatGuests.car_number c, map FlatGuests.id (FlatGuests.car_guests c)).


(** The guests table after [UPDATE guests SET car_assigned = c WHERE
    id = i], after the updates for one car, and after those for a list of
    cars in order. *)
Definition set_car (c : Z) (i : Z) (t : FlatGuests.tables)
  : FlatGuests.tables :=
  map (fun g => if FlatGuests.id g =? i
                then FlatGuests.with_car g (Some c) else g) t.

Definition seat (t : FlatGuests.tables) (c : FlatGuests.car)
  : FlatGuests.tables :=
  fold_left (fun tb g => set_car (FlatGuests.car_number c) (FlatGuests.id g) tb)
            (FlatGuests.car_guests c) t.

Definition seat_all (cs : list FlatGuests.car) (t : FlatGuests.tables)
  : FlatGuests.tables :=
  fold_left seat cs t.

(** The car number the updates for [cs] leave on the guest with id [i],
    if any of them names that guest: the last update wins. *)
Fixpoint assigned (cs : list FlatGuests.car) (i : Z) : option Z :=
  match cs with
  | [] => None
  | c :: cs' =>
      match assigned cs' i with
      | Some n => Some n
      | None =>
          if existsb (fun g => FlatGuests.id g =? i) (FlatGuests.car_guests c)
          then Some (FlatGuests.car_number c)
          else None
      end
  end.

(** The guests of the table [t] that ride in the car number [c]. *)
Definition riders (c : Z) (t : FlatGuests.tables) : list FlatGuests.guest_row :=
  filter (fun g => match FlatGuests.car_assigned g with
                   | Some n => n =? c
                   | None => false
                   end) t.

(* ===================================================================== *)
(** ** Invariants and transactions of handlers                            *)
(* ===================================================================== *)

(** The handler [m] keeps the invariant [I] of the connection, whatever
    it returns or throws, and a value it returns satisfies [Q]. *)
Definition keeps {T A} (I : conn T -> Prop) (m : M (world T) A)
           (Q : A -> Prop) : Prop :=
  forall w r w', I (db w) -> m w = (r, w') ->
                 I (db w') /\ (forall x, r = Ok x -> Q x).

(** The predicate [P] on a sequence value and tables holds of what
    readers see and of the working copy of the open transaction. *)
Definition holds_in {T} (P : Z -> T -> Prop) (c : conn T) : Prop :=
  P (seq c) (committed c) /\ (forall w, txn c = Some w -> P (seq c) w).

(** [P] stays true when the sequence advances. *)
Definition monotone {T} (P : Z -> T -> Prop) : Prop :=
  forall s s' t, s <= s' -> P s t -> P s' t.

(** The statement [stmt] keeps [P], and its result satisfies [Q]. *)
Definition stmt_keeps {T R} (P : Z -> T -> Prop) (draws : bool)
           (stmt : Z -> T -> option (R * T)) (Q : R -> Prop) : Prop :=
  forall s t x t', P s t -> stmt s t = Some (x, t') ->
                   P (if draws then s + 1 else s) t' /\ Q x.

(** Run inside a transaction, [m] shows readers nothing and leaves the
    transaction open. *)
Definition quiet {T A} (m : M (world T) A) : Prop :=
  forall (t : T) w r w',
    untouched t (db w) -> txn (db w) <> None -> m w = (r, w') ->
    untouched t (db w') /\ txn (db w') <> None.

(** Run inside the transaction opened on the tables [t], [m] either
    throws with readers still seeing [t] only, or returns a value [x]
    with the transaction closed and readers seeing, from then on, tables
    that satisfy [Good x]. *)
Definition settles {T A} (t : T) (m : M (world T) A)
           (Good : A -> T -> Prop) : Prop :=
  forall w r w',
    untouched t (db w) -> txn (db w) = Some t -> m w = (r, w') ->
    (r = Throw /\ untouched t (db w')) \/
    (exists x, r = Ok x /\ Good x (committed (db w')) /\
               txn (db w') = None /\
               exists obs, observed (db w') = obs ++ [committed (db w')] /\
                           Forall (fun s => s = t) obs).

(** The shape of the transactional handlers: [try { BEGIN; m } catch {
    ROLLBACK; reply err } finally { release }]. *)
Definition transaction {T A} (fault : nat -> bool) (m : M (world T) A)
           (err : A) : M (world T) A :=
  finally (try_catch (BEGIN fault ;;; m) (ROLLBACK fault ;;; ret err))
          release.

(** The keys of part_000: the guest ids and the leg ids are unique, and
    the leg ids lie below the next value [s] of their sequence. *)
Definition keys_unique (s : Z) (t : LegStore.tables) : Prop :=
  NoDup (map LegStore.guest_id (LegStore.guests t)) /\
  NoDup (map LegStore.leg_id (LegStore.flight_legs t)) /\
  Forall (fun l => LegStore.leg_id l < s) (LegStore.flight_legs t).

(** The references of part_000: every leg and every car passenger names
    a guest of the table. *)
Definition references_valid (t : LegStore.tables) : Prop :=
  Forall (fun l => LegStore.has_guest (LegStore.leg_guest l) t = true)
         (LegStore.flight_legs t) /\
  Forall (fun cp => LegStore.has_guest (snd cp) t = true)
         (LegStore.car_passengers t).

(** The four statuses the system writes. *)
Definition status_vocabulary : list string :=
  [OnTime; Delayed; Cancelled; Landed].

(** [t'] differs from [t] in the status column of [flight_legs] only, and
    a status that changed is one of the four. *)
Definition only_status (t t' : LegStore.tables) : Prop :=
  LegStore.guests t' = LegStore.guests t /\
  LegStore.car_passengers t' = LegStore.car_passengers t /\
  Forall2 (fun l l' =>
             l' = LegStore.with_status l (LegStore.status l') /\
             (LegStore.status l' = LegStore.status l \/
              In (LegStore.status l') status_vocabulary))
          (LegStore.flight_legs t) (LegStore.flight_legs t').

(** What a completed POST of [body] has written over the tables [t] for
    the new guest [gid]. *)
Definition created (gid : Z) (t : LegStore.tables) (body : LegStore.put_body)
           (final : LegStore.tables) : Prop :=
  exists nm v finalLeg rows,
    LegStore.body_name body = Some nm /\
    LegStore.body_legs body = Some v /\
    LegStore.final_element v = Some finalLeg /\
    LegStore.has_guest gid t = false /\
    LegStore.guests final =
      LegStore.guests t ++
      [{| LegStore.guest_id := gid; LegStore.name := nm;
          LegStore.final_destination := LegStore.in_destination finalLeg;
          LegStore.final_eta := LegStore.in_eta finalLeg;
          LegStore.car_assigned := None |}] /\
    LegStore.flight_legs final = LegStore.flight_legs t ++ rows /\
    stored_from gid 0 (LegStore.elements v) rows /\
    LegStore.car_passengers final = LegStore.car_passengers t.

(** A leg of a request body that has the four columns the table requires,
    and a body with a name, a final element of its legs, and every
    element the loop reads present and complete. *)
Definition complete_leg (leg : LegStore.leg_input) : bool :=
  match LegStore.in_flight leg, LegStore.in_origin leg,
        LegStore.in_destination leg, LegStore.in_eta leg with
  | Some _, Some _, Some _, Some _ => true
  | _, _, _, _ => false
  end.

Definition complete_element (e : option LegStore.leg_input) : bool :=
  match e with
  | Some leg => complete_leg leg
  | None => false
  end.

Definition valid_body (body : LegStore.put_body) : bool :=
  match LegStore.body_name body, LegStore.body_legs body with
  | Some _, Some v =>
      match LegStore.final_element v with
      | Some _ => forallb complete_element (LegStore.elements v)
      | None => false
      end
  | _, _ => false
  end.

(** The status a lookup gives when it is the request number [k]: the
    mapped status of the first flight of the answer, if there is one. *)
Definition resolved (p : provider) (k : nat) (req : request) : option string :=
  option_map LegStore.status_of (first_flight (p k req)).

(** The status a pass gets for the leg id [i]: the selected legs [sel]
    are looked up in order, their requests numbered from [k]; the answer
    counts that was given for the first selected leg with that id. *)
Fixpoint status_for (p : provider) (req : LegStore.leg_row -> request)
         (k : nat) (sel : list LegStore.leg_row) (i : Z) : option string :=
  match sel with
  | [] => None
  | leg :: rest =>
      if LegStore.leg_id leg =? i then resolved p k (req leg)
      else status_for p req (S k) rest i
  end.

(** The legs after a pass that selected [sel]. *)
Definition legs_after_pass (p : provider) (req : LegStore.leg_row -> request)
           (sel : list LegStore.leg_row) (ls : list LegStore.leg_row)
  : list LegStore.leg_row :=
  map (fun l => match status_for p req 0 sel (LegStore.leg_id l) with
                | Some st => LegStore.with_status l st
                | None => l
                end) ls.

(** The meaning of [ORDER BY leg_order, eta]: [rows] holds the rows [ls],
    ascending in (leg_order, eta); the order of rows that agree on both
    columns is the store's choice. *)
Definition leg_le (a b : LegStore.leg_row) : bool :=
  if LegStore.leg_order a =? LegStore.leg_order b
  then LegStore.eta a <=? LegStore.eta b
  else LegStore.leg_order a <? LegStore.leg_order b.

Definition ordered_by_leg_order (ls rows : list LegStore.leg_row) : Prop :=
  Permutation ls rows /\ StronglySorted (fun a b => leg_le a b = true) rows.

(** The element [v] of a listing shows the leg [leg] of a request body. *)
Definition shown_as (leg : LegStore.leg_input) (v : LegStore.leg_view)
  : Prop :=
  LegStore.in_flight leg = Some (LegStore.view_flight v) /\
  LegStore.view_airline v = LegStore.in_airline leg /\
  LegStore.in_origin leg = Some (LegStore.view_origin v) /\
  LegStore.in_destination leg = Some (LegStore.view_destination v) /\
  LegStore.in_eta leg = Some (LegStore.view_eta v) /\
  LegStore.view_status v = or_else (LegStore.in_status leg) OnTime.

(** The guest [g] as the listing shows it on the tables [tb], the legs
    in the order [order] of the store. *)
Definition listed (order : list LegStore.leg_row -> list LegStore.leg_row)
           (tb : LegStore.tables) (g : LegStore.guest_row)
  : LegStore.guest_view :=
  {| LegStore.view_id := LegStore.guest_id g;
     LegStore.view_name := LegStore.name g;
     LegStore.finalDestination := LegStore.final_destination g;
     LegStore.finalETA := LegStore.final_eta g;
     LegStore.carAssigned := LegStore.car_assigned g;
     LegStore.view_legs :=
       map LegStore.leg_to_view
           (order (filter (fun l => LegStore.leg_guest l =? LegStore.guest_id g)
                          (LegStore.flight_legs tb))) |}.

(** A value [m] returns satisfies [Q]. *)
Definition returns {S A} (m : M S A) (Q : A -> Prop) : Prop :=
  forall s x s', m s = (Ok x, s') -> Q x.

(** Run inside a transaction that has shown readers the tables [t] only,
    [m] either throws with readers still seeing [t] only, or returns a
    value that satisfies [Good] with the transaction committed. *)
Definition closes {T A} (t : T) (m : M (world T) A) (Good : A -> Prop)
  : Prop :=
  forall w r w',
    untouched t (db w) -> txn (db w) <> None -> m w = (r, w') ->
    (r = Throw /\ untouched t (db w')) \/
    (exists x, r = Ok x /\ Good x /\ txn (db w') = None /\
               exists obs, observed (db w') = obs ++ [committed (db w')] /\
                           Forall (fun s => s = t) obs).

(** What one iteration of the listing refresh of part_002 may do to the
    guest [guest] and to the tables [tb]: nothing, or set the status of
    the guest, in the object and in the rows with its id, to one of the
    four statuses, and not to On Time when the ETA is before [now]. *)
Definition refreshed (now : Z) (guest : FlatGuests.guest_row)
           (tb : FlatGuests.tables) (guest' : FlatGuests.guest_row)
           (tb' : FlatGuests.tables) : Prop :=
  (guest' = guest /\ tb' = tb) \/
  (exists st,
     In st status_vocabulary /\
     (FlatGuests.date_value (FlatGuests.eta guest) < now -> st <> OnTime) /\
     guest' = FlatGuests.with_status guest (Some st) /\
     tb' = set_status st (FlatGuests.id guest) tb).

(** The iterations for the rows [rows], one after the other. *)
Inductive refreshed_all (now : Z)
  : list FlatGuests.guest_row -> FlatGuests.tables ->
    list FlatGuests.guest_row -> FlatGuests.tables -> Prop :=
| refreshed_none tb : refreshed_all now [] tb [] tb
| refreshed_next guest rows tb guest' tb1 rows' tb' :
    refreshed now guest tb guest' tb1 ->
    refreshed_all now rows tb1 rows' tb' ->
    refreshed_all now (guest :: rows) tb (guest' :: rows') tb'.

(** The row of [rows'] that has the id of [g], or [g] when there is
    none. *)
Definition counterpart (rows' : list FlatGuests.guest_row)
           (g : FlatGuests.guest_row) : FlatGuests.guest_row :=
  match find (fun g' => FlatGuests.id g' =? FlatGuests.id g) rows' with
  | Some g' => g'
  | None => g
  end.

(** The key of part_002: the guest ids are unique and lie below the next
    value [s] of their sequence. *)
Definition flat_keys (s : Z) (t : FlatGuests.tables) : Prop :=
  NoDup (map FlatGuests.id t) /\ Forall (fun g => FlatGuests.id g < s) t.

(** The UPDATEs of the car assignment for the cars [cs], in the order
    the handler issues them, each as (car number, guest id); and the
    table after a list of them. *)
Definition updates (cs : list FlatGuests.car) : list (Z * Z) :=
  flat_map (fun c => map (fun g => (FlatGuests.car_number c, FlatGuests.id g))
                         (FlatGuests.car_guests c)) cs.

Definition apply_updates (us : list (Z * Z)) (t : FlatGuests.tables)
  : FlatGuests.tables :=
  fold_left (fun tb u => set_car (fst u) (snd u) tb) us t.

(** The request of GET /api/flight-status. *)
Definition endpoint_request (env flight airline : option string) : request :=
  {| access_key := env;
     flight_iata := String.append (tmpl airline) (tmpl flight);
     flight_date := None; limit := Some 1; timeout := Some 5000 |}.

(** The vendor statuses, in lower case, that the endpoint maps to the
    status [s]. *)
Definition vendor_words (s : string) : list string :=
  if String.eqb s Landed then ["landed"]
  else if String.eqb s Cancelled then ["cancelled"; "canceled"]
  else if String.eqb s Delayed then ["delayed"]
  else [].

(** The key of the guests of src/server.js (second document): the ids
    are unique and lie below the next value [s] of their sequence; and
    the key of its cars. *)
Definition single_keys (s : Z) (t : SingleTable.tables) : Prop :=
  NoDup (map SingleTable.id t) /\ Forall (fun g => SingleTable.id g < s) t.

Definition garage_keys (_ : Z) (t : SingleTable.garage) : Prop :=
  NoDup (map SingleTable.car_id t).

(** A body with the five columns the guests table requires. *)
Definition complete_guest (b : SingleTable.put_body) : bool :=
  match SingleTable.body_name b, SingleTable.body_flight b,
        SingleTable.body_airline b, SingleTable.body_origin b,
        SingleTable.body_eta b with
  | Some _, Some _, Some _, Some _, Some _ => true
  | _, _, _, _, _ => false
  end.

(** The guest [g] holds the five required columns and the airline name
    of the body [b]. *)
Definition from_body (b : SingleTable.put_body) (g : SingleTable.guest_row)
  : Prop :=
  SingleTable.body_name b = Some (SingleTable.name g) /\
  SingleTable.body_flight b = Some (SingleTable.flight g) /\
  SingleTable.body_airline b = Some (SingleTable.airline g) /\
  SingleTable.body_origin b = Some (SingleTable.origin g) /\
  SingleTable.body_eta b = Some (SingleTable.eta g) /\
  SingleTable.airline_name g = SingleTable.body_airlineName b.

(** What GET /api/guests/:id and GET /api/cars/:id reply for the tables
    [t] when the store runs the statement. *)
Definition served (gid : Z) (t : SingleTable.tables) : SingleTable.reply :=
  match filter (fun g => SingleTable.id g =? gid) t with
  | [] => SingleTable.NotFound404
  | row :: _ => SingleTable.Json200 row
  end.

Definition served_car (cid : Z) (t : SingleTable.garage)
  : SingleTable.car_reply :=
  match filter (fun c => SingleTable.car_id c =? cid) t with
  | [] => SingleTable.CarNotFound404
  | row :: _ => SingleTable.Car200 (SingleTable.car_json_of row)
  end.

(** The cars after the upsert of the car [i] from the body [b]: the car
    is written over every car that has the id, or added at the end. *)
Definition upserted (i : Z) (b : SingleTable.car_body)
           (t : SingleTable.garage) : SingleTable.garage :=
  if SingleTable.has_car i t
  then map (fun c => if SingleTable.car_id c =? i
                     then SingleTable.written i b else c) t
  else t ++ [SingleTable.written i b].

(** The cars and their passengers of part_001 are consistent: the car
    ids are unique, no passenger row occurs twice, and every passenger
    row names a car and a guest of the tables. *)
Definition fleet_valid (_ : Z) (t : Fleet.tables) : Prop :=
  NoDup (map Fleet.car_id (Fleet.cars t)) /\
  NoDup (LegStore.car_passengers (Fleet.base t)) /\
  Forall (fun cp => Fleet.has_car (fst cp) t = true /\
                    LegStore.has_guest (snd cp) (Fleet.base t) = true)
         (LegStore.car_passengers (Fleet.base t)).

(** The row [row] stores the element [car] of the body of POST
    /api/cars, and the passenger rows [ps] store its passengers, in
    order. *)
Definition car_stored (car : Fleet.car_input) (row : Fleet.car_row) : Prop :=
  Fleet.in_id car = Some (Fleet.car_id row) /\
  Fleet.car_destination row = Fleet.in_destination car /\
  Fleet.car_eta row = Fleet.in_eta car /\
  Fleet.car_flight row = Fleet.in_flight car /\
  Fleet.capacity row = Fleet.in_capacity car.

Definition passengers_stored (car : Fleet.car_input) (ps : list (Z * Z))
  : Prop :=
  Fleet.in_passengers car = Some (map (fun cp => Some (snd cp)) ps) /\
  Forall (fun cp => Fleet.in_id car = Some (fst cp)) ps.

(** The guests after the UPDATE for one entry of [guestAssignments], when
    [parseInt] makes a number of its key. *)
Definition assign_entry (parseInt : string -> option Z)
           (rows : list LegStore.guest_row) (e : string * option Z)
  : list LegStore.guest_row :=
  match parseInt (fst e) with
  | Some g => map (fun r => if LegStore.guest_id r =? g
                            then Fleet.set_car r (snd e) else r) rows
  | None => rows
  end.

(** What a completed POST /api/cars of [body] has written over the
    tables [t]. *)
Definition fleet_created (parseInt : string -> option Z)
           (body : Fleet.cars_body) (t final : Fleet.tables) : Prop :=
  exists cars assignments rows pss,
    Fleet.body_cars body = Some cars /\
    Fleet.guestAssignments body = Some assignments /\
    Forall2 car_stored cars rows /\
    Forall2 passengers_stored cars pss /\
    Fleet.cars final = Fleet.cars t ++ rows /\
    LegStore.car_passengers (Fleet.base final)
    = LegStore.car_passengers (Fleet.base t) ++ List.concat pss /\
    LegStore.flight_legs (Fleet.base final)
    = LegStore.flight_legs (Fleet.base t) /\
    LegStore.guests (Fleet.base final)
    = fold_left (assign_entry parseInt) (Fleet.entries assignments)
                (LegStore.guests (Fleet.base t)) /\
    Forall (fun e => parseInt (fst e) <> None) (Fleet.entries assignments).

(** The car [car] as the listing shows it on the tables [tb], the
    passengers in the order [as_stored] of the store. *)
Definition car_listed (as_stored : list Z -> list Z) (tb : Fleet.tables)
           (car : Fleet.car_row) : Fleet.car_view :=
  {| Fleet.view_id := Fleet.car_id car;
     Fleet.view_destination := Fleet.car_destination car;
     Fleet.view_eta := Fleet.car_eta car;
     Fleet.view_flight := Fleet.car_flight car;
     Fleet.view_capacity := Fleet.capacity car;
     Fleet.view_passengers :=
       as_stored (map snd (filter (fun cp => fst cp =? Fleet.car_id car)
                                  (LegStore.car_passengers (Fleet.base tb)))) |}.

(* ===================================================================== *)
(** ** Sample data                                                        *)
(* ===================================================================== *)

Module Sample.

(** A vendor flight with the given status and departure delay. *)
Definition flight_with (st : string) (dl : option Z) : vendor_flight :=
  {| flight_status := Some st;
     departure := Some {| delay := dl |};
     arrival := Some {| estimated := None; scheduled := None |} |}.

Definition answer (f : vendor_flight) : axios_result :=
  AxiosResponse (Some {| body_data := Some [Some f] |}).

Definition no_flights : axios_result :=
  AxiosResponse (Some {| body_data := Some [] |}).

(** The provider that gives the same answer to every request. *)
Definition always (r : axios_result) : provider := fun _ _ => r.

(** 2024-01-01T00:00:00Z and noon of the day after. *)
Definition new_year : Z := 1704067200000.
Definition next_noon : Z := 1704196800000.

Definition leg (i g : Z) (st : string) (e : Z) : LegStore.leg_row :=
  {| LegStore.leg_id := i; LegStore.leg_guest := g;
     LegStore.flight_number := "100"; LegStore.airline := Some "XY";
     LegStore.origin := "JFK"; LegStore.destination := "LHR";
     LegStore.eta := e; LegStore.status := st; LegStore.leg_order := 0 |}.

Definition guest (i : Z) : LegStore.guest_row :=
  {| LegStore.guest_id := i; LegStore.name := "Ada";
     LegStore.final_destination := Some "LHR";
     LegStore.final_eta := Some new_year; LegStore.car_assigned := None |}.

Definition store (legs : list LegStore.leg_row) : LegStore.tables :=
  {| LegStore.guests := [guest 1]; LegStore.flight_legs := legs;
     LegStore.car_passengers := [] |}.

Definition leg_input (f : option string) : LegStore.leg_input :=
  {| LegStore.in_flight := f; LegStore.in_airline := Some "XY";
     LegStore.in_origin := Some "JFK"; LegStore.in_destination := Some "CDG";
     LegStore.in_eta := Some next_noon; LegStore.in_status := None |}.

(** A store with the guest 1 and its two legs, and two request bodies:
    one whose second leg lacks the flight number, one complete. *)
Definition two_legs : LegStore.tables :=
  store [leg 1 1 OnTime new_year; leg 2 1 OnTime next_noon].

Definition broken_body : LegStore.put_body :=
  {| LegStore.body_name := Some "Ada";
     LegStore.body_legs :=
       Some (LegStore.legs_array [Some (leg_input (Some "200"));
                                  Some (leg_input None)]) |}.

Definition complete_body : LegStore.put_body :=
  {| LegStore.body_name := Some "Ada";
     LegStore.body_legs :=
       Some (LegStore.legs_array [Some (leg_input (Some "200"));
                                  Some (leg_input (Some "300"))]) |}.

(** A body whose legs are the object [{"length": 0, "-1": {...}}]: it
    has a final element and nothing for the loop to read. *)
Definition hollow_body : LegStore.put_body :=
  {| LegStore.body_name := Some "Ada";
     LegStore.body_legs :=
       Some {| LegStore.final_element := Some (leg_input (Some "200"));
               LegStore.elements := [] |} |}.

(** The store that fails the statement number [k] of the connection. *)
Definition fails_at (k : nat) : nat -> bool := fun n => Nat.eqb n k.

Definition flat (i : Z) (f a : string) (st : string) (e : Z)
  : FlatGuests.guest_row :=
  {| FlatGuests.id := i; FlatGuests.name := "Ada"; FlatGuests.phone := None;
     FlatGuests.flight := f; FlatGuests.airline := Some a;
     FlatGuests.origin := Some "JFK"; FlatGuests.destination := Some "LHR";
     FlatGuests.eta := Some e; FlatGuests.status := Some st;
     FlatGuests.car_assigned := None; FlatGuests.created_at := i |}.

(** Six guests of flight XY100 with the same arrival time, in creation
    order and in the reverse order. *)
Definition six : list FlatGuests.guest_row :=
  map (fun i => flat i "XY100" "XY" OnTime new_year) [1; 2; 3; 4; 5; 6].


(** Four guests of flight XY100. *)
Definition four : list FlatGuests.guest_row :=
  map (fun i => flat i "XY100" "XY" OnTime new_year) [1; 2; 3; 4].

(** Six guests whose flight number is the text constructor. *)
Definition six_constructor : list FlatGuests.guest_row :=
  map (fun i => flat i "constructor" "XY" OnTime new_year)
      [1; 2; 3; 4; 5; 6].

(** Two guests of two airlines whose flight number is the text
    constructor. *)
Definition named_constructor : list FlatGuests.guest_row :=
  [flat 1 "constructor" "AA" OnTime new_year;
   flat 2 "constructor" "BA" OnTime next_noon].

(** Two guests with the flight number 100 of two airlines. *)
Definition same_number : list FlatGuests.guest_row :=
  [flat 1 "100" "AA" OnTime new_year; flat 2 "100" "BA" OnTime next_noon].

(** The body of a request that adds a guest of flight XY100. *)
Definition new_flat_guest : FlatGuests.guest_body :=
  {| FlatGuests.body_name := Some "Bob"; FlatGuests.body_phone := Some "";
     FlatGuests.body_flight := Some "XY100";
     FlatGuests.body_airline := Some "XY";
     FlatGuests.body_origin := Some "JFK";
     FlatGuests.body_destination := Some "LHR";
     FlatGuests.body_eta := Some next_noon;
     FlatGuests.body_status := None;
     FlatGuests.body_car_assigned := None |}.

(** A guest of the single table, and the body of a request that adds
    one without status and with the car number 0. *)
Definition single (i : Z) : SingleTable.guest_row :=
  {| SingleTable.id := i; SingleTable.name := "Ada";
     SingleTable.flight := "100"; SingleTable.airline := "XY";
     SingleTable.airline_name := None; SingleTable.origin := "JFK";
     SingleTable.eta := new_year; SingleTable.status := Some OnTime;
     SingleTable.car_assigned := None |}.

Definition new_single_guest : SingleTable.put_body :=
  {| SingleTable.body_name := Some "Bob";
     SingleTable.body_flight := Some "200";
     SingleTable.body_airline := Some "XY";
     SingleTable.body_airlineName := None;
     SingleTable.body_origin := Some "JFK";
     SingleTable.body_eta := Some next_noon;
     SingleTable.body_status := None;
     SingleTable.body_carAssigned := Some 0 |}.

(** A car with a driver, and a body for the car 7 without passengers
    and notes. *)
Definition car (i : Z) : SingleTable.car_row :=
  {| SingleTable.car_id := i; SingleTable.passengers := Some [1; 2];
     SingleTable.driver_name := Some "Eve";
     SingleTable.driver_phone := None; SingleTable.notes := None |}.

Definition new_car : SingleTable.car_body :=
  {| SingleTable.body_id := Some 7;
     SingleTable.body_passengers := None;
     SingleTable.body_driverName := Some "Dan";
     SingleTable.body_driverPhone := Some "";
     SingleTable.body_notes := None |}.

(** The tables of part_001 with the guest 1 in the car 5, a body that
    adds the car 6 with the guest 1 and gives the guest that car, and
    a [parseInt] for the key of that body. *)
Definition fleet : Fleet.tables :=
  {| Fleet.base :=
       {| LegStore.guests := [guest 1];
          LegStore.flight_legs := [leg 1 1 OnTime new_year];
          LegStore.car_passengers := [(5, 1)] |};
     Fleet.cars :=
       [{| Fleet.car_id := 5; Fleet.car_destination := Some "LHR";
           Fleet.car_eta := Some new_year; Fleet.car_flight := Some "100";
           Fleet.capacity := Some 5 |}] |}.

Definition car_six : Fleet.car_input :=
  {| Fleet.in_id := Some 6; Fleet.in_destination := Some "LHR";
     Fleet.in_eta := Some next_noon; Fleet.in_flight := Some "200";
     Fleet.in_capacity := Some 5; Fleet.in_passengers := Some [Some 1] |}.

Definition cars_body : Fleet.cars_body :=
  {| Fleet.body_cars := Some [car_six];
     Fleet.guestAssignments := Some [("1", Some 6)] |}.

Definition parse_one (s : string) : option Z :=
  if String.eqb s "1" then Some 1 else None.

End Sample.

(* ===================================================================== *)
(** ** The definitions on concrete inputs                                 *)
(* ===================================================================== *)

Example array_index_examples :
  array_index "0" = Some 0%N /\ array_index "20" = Some 20%N /\
  array_index "007" = None /\ array_index "XY100" = None /\
  array_index "4294967294" = Some 4294967294%N /\
  array_index "4294967295" = None /\ array_index "" = None.
Proof. repeat apply conj; reflexivity. Qed.

(** Flights that look like array indices come first, in numeric order. *)
Example for_in_order_example :
  for_in_order ["XY1"; "100"; "20"; "007"] = ["20"; "100"; "XY1"; "007"].
Proof. reflexivity. Qed.

Example slices_example :
  slices [1; 2; 3; 4; 5; 6; 7; 8; 9; 10; 11] 0 =
  [[1; 2; 3; 4; 5]; [6; 7; 8; 9; 10]; [11]].
Proof. reflexivity. Qed.

Example iso_date_example :
  iso_date Sample.new_year = 19723 /\ iso_date Sample.next_noon = 19724.
Proof. split; reflexivity. Qed.

Example toLowerCase_example : StatusMap.toLowerCase "En-Route" = "en-route".
Proof. reflexivity. Qed.

(** The status table finds [Object] under the vendor status
    [constructor]. *)
Example status_table_member :
  StatusMap.new_status (Sample.flight_with "Constructor" None)
  = StatusMap.JsInherited "constructor".
Proof. reflexivity. Qed.

(** The grouping fails on a guest whose flight is named [constructor], and
    the handler then replies 500 without a write. *)
Example grouping_fails_on_member :
  FlatGuests.cars [Sample.flat 1 "constructor" "XY" OnTime Sample.new_year]
  = Throw /\
  FlatGuests.assign_cars no_fault (fun t => t)
    (start [Sample.flat 1 "constructor" "XY" OnTime Sample.new_year] 1)
  = (Ok FlatGuests.Error500,
     {| db := {| committed :=
                   [Sample.flat 1 "constructor" "XY" OnTime Sample.new_year];
                 txn := None; seq := 1; issued := 1;
                 observed :=
                   [[Sample.flat 1 "constructor" "XY" OnTime Sample.new_year]]
              |};
        calls := [] |}).
Proof. split; reflexivity. Qed.

(** Flight 20 is visited before flight 100 although the query returns
    the text "100" first. *)
Example cars_in_for_in_order :
  exists cs,
    FlatGuests.cars [Sample.flat 1 "100" "XY" OnTime Sample.new_year;
                     Sample.flat 2 "20" "XY" OnTime Sample.new_year] = Ok cs /\
    map car_view cs = [(1, [2]); (2, [1])].
Proof. eexists. split; reflexivity. Qed.

(** A complete replacement of the two legs of guest 1. *)
Example put_guest_example :
  fst (LegStore.put_guest true no_fault 1 Sample.complete_body
         (start Sample.two_legs 3)) = Ok LegStore.Success /\
  map (fun l => (LegStore.leg_id l, LegStore.flight_number l,
                 LegStore.leg_order l, LegStore.status l))
      (LegStore.flight_legs
         (committed (db (snd (LegStore.put_guest true no_fault 1
                                Sample.complete_body
                                (start Sample.two_legs 3))))))
  = [(3, "200", 0, OnTime); (4, "300", 1, OnTime)] /\
  observed (db (snd (LegStore.put_guest true no_fault 1 Sample.complete_body
                       (start Sample.two_legs 3))))
  = [Sample.two_legs; Sample.two_legs; Sample.two_legs; Sample.two_legs;
     Sample.two_legs;
     committed (db (snd (LegStore.put_guest true no_fault 1 Sample.complete_body
                           (start Sample.two_legs 3))))].
Proof. repeat apply conj; reflexivity. Qed.

(** The listing refresh of part_002 on a guest whose flight the provider
    reports active and late. *)
Example refresh_example :
  fst (FlatGuests.refresh_guest no_fault None
         (Sample.always
            (Sample.answer
               {| flight_status := Some "active"; departure := None;
                  arrival := Some {| estimated := Some (Sample.next_noon + 1);
                                     scheduled := Some Sample.next_noon |} |}))
         Sample.new_year
         (Sample.flat 1 "100" "XY" OnTime Sample.next_noon)
         (start [Sample.flat 1 "100" "XY" OnTime Sample.next_noon] 1))
  = Ok (Sample.flat 1 "100" "XY" Delayed Sample.next_noon).
Proof. reflexivity. Qed.

(* ===================================================================== *)
(** ** The store: what a statement leaves behind                          *)
(* ===================================================================== *)

Section StoreFacts.

Variable T : Type.
Variable fault : nat -> bool.

(** A data statement either fails and leaves the current tables as they
    were, or succeeded on them. *)
Lemma run_stmt_cases R draws (stmt : Z -> T -> option (R * T)) (c : conn T) :
  (fst (run_stmt fault draws stmt c) = Throw /\
   current (snd (run_stmt fault draws stmt c)) = current c /\
   committed (snd (run_stmt fault draws stmt c)) = committed c)
  \/
  (exists x t', stmt (seq c) (current c) = Some (x, t') /\
                fault (issued c) = false /\
                fst (run_stmt fault draws stmt c) = Ok x /\
                current (snd (run_stmt fault draws stmt c)) = t' /\
                committed (snd (run_stmt fault draws stmt c)) =
                  match txn c with Some _ => committed c | None => t' end).
Proof.
  unfold run_stmt.
  destruct (fault (issued c)); [left; auto|].
  destruct (stmt (seq c) (current c)) as [[x t']|] eqn:E; [|left; auto].
  right. exists x, t'. unfold current.
  destruct (txn c); simpl; auto.
Qed.

(** No statement opens or closes a transaction. *)
Lemma run_stmt_txn R draws (stmt : Z -> T -> option (R * T)) (c : conn T) :
  txn (snd (run_stmt fault draws stmt c)) = None <-> txn c = None.
Proof.
  unfold run_stmt.
  destruct (fault (issued c)); [simpl; tauto|].
  destruct (stmt (seq c) (current c)) as [[x t']|]; [|simpl; tauto].
  destruct (txn c); simpl; split; congruence.
Qed.

(** Every statement adds the committed tables it leaves to the record. *)
Lemma run_stmt_observed R draws (stmt : Z -> T -> option (R * T))
      (c : conn T) :
  observed (snd (run_stmt fault draws stmt c)) =
  observed c ++ [committed (snd (run_stmt fault draws stmt c))].
Proof.
  unfold run_stmt.
  destruct (fault (issued c)); [reflexivity|].
  destruct (stmt (seq c) (current c)) as [[x t']|]; [|reflexivity].
  destruct (txn c); reflexivity.
Qed.

(** What a query leaves: the requests made so far stay; the
    transaction is neither opened nor closed; the statement is counted
    and what readers see is recorded; the statement failed without
    effect, or succeeded on the current tables. *)
Lemma query_inv R draws (stmt : Z -> T -> option (R * T)) (w : world T)
      r w' :
  query fault draws stmt w = (r, w') ->
  calls w' = calls w /\
  (txn (db w') = None <-> txn (db w) = None) /\
  observed (db w') = observed (db w) ++ [committed (db w')] /\
  issued (db w') = S (issued (db w)) /\
  ((r = Throw /\ current (db w') = current (db w) /\
    committed (db w') = committed (db w))
   \/
   (exists x t', r = Ok x /\
      stmt (seq (db w)) (current (db w)) = Some (x, t') /\
      fault (issued (db w)) = false /\
      current (db w') = t' /\
      seq (db w') = (if draws then seq (db w) + 1 else seq (db w)) /\
      committed (db w') =
        match txn (db w) with Some _ => committed (db w) | None => t' end)).
Proof.
  unfold query, on_db.
  pose proof (run_stmt_cases draws stmt (db w)) as Hc.
  pose proof (run_stmt_txn draws stmt (db w)) as Ht.
  pose proof (run_stmt_observed draws stmt (db w)) as Ho.
  assert (Hi : issued (snd (run_stmt fault draws stmt (db w))) =
               S (issued (db w))).
  { unfold run_stmt. destruct (fault _); [reflexivity|].
    destruct (stmt _ _) as [[? ?]|]; [|reflexivity].
    destruct (txn _); reflexivity. }
  assert (Hq : fault (issued (db w)) = false ->
               forall x t', stmt (seq (db w)) (current (db w)) = Some (x, t') ->
               seq (snd (run_stmt fault draws stmt (db w))) =
               (if draws then seq (db w) + 1 else seq (db w))).
  { intros F x t' E. unfold run_stmt. rewrite F, E.
    destruct (txn _); reflexivity. }
  destruct (run_stmt fault draws stmt (db w)) as [r0 c0]. simpl in *.
  intros E. inversion E; subst; simpl.
  repeat split; try tauto.
  destruct Hc as [(? & ? & ?)|(x & t' & ? & ? & ? & ? & ?)].
  - left. auto.
  - right. exists x, t'. repeat split; auto. eapply Hq; eauto.
Qed.

End StoreFacts.

(** Without store failures a statement that the tables accept goes
    through. *)
Lemma query_no_fault T R draws (stmt : Z -> T -> option (R * T)) (w : world T)
      x t' :
  stmt (seq (db w)) (current (db w)) = Some (x, t') ->
  exists w', query no_fault draws stmt w = (Ok x, w') /\
             current (db w') = t' /\ calls w' = calls w /\
             (txn (db w') = None <-> txn (db w) = None).
Proof.
  intros E. unfold query, on_db, run_stmt, no_fault. rewrite E.
  unfold current. destruct (txn (db w)) eqn:Et; simpl; eexists;
    (split; [reflexivity|]); simpl; repeat split; congruence.
Qed.

(* ===================================================================== *)
(** ** The resolver [fetchFlightStatus]                                   *)
(* ===================================================================== *)

Lemma no_data_first_flight r : no_data r <-> first_flight r = None.
Proof.
  destruct r as [|[b|]]; simpl; try tauto.
  destruct (body_data b) as [[|[f|] l]|]; simpl; split;
    try tauto; try discriminate; auto.
Qed.

(** The resolver of part_000 never throws; it makes one request and
    returns the mapped status of the first flight, or null. *)
Lemma fetch_spec T env p flightNumber airline date (w : world T) :
  LegStore.fetchFlightStatus env p flightNumber airline date w =
  (Ok (option_map LegStore.status_of
         (first_flight
            (p (List.length (calls w))
               (LegStore.lookup_request env flightNumber airline date)))),
   {| db := db w;
      calls := calls w
               ++ [LegStore.lookup_request env flightNumber airline date] |}).
Proof.
  unfold LegStore.fetchFlightStatus, try_catch, bind, axios_get.
  destruct (p _ _) as [|[b|]]; simpl; try reflexivity.
  destruct (body_data b) as [[|[f|] l]|]; reflexivity.
Qed.

(** The resolver of part_001: without a credential no request is made. *)
Lemma fetch_today_spec T env p flightNumber airline date (w : world T) :
  LegStoreToday.fetchFlightStatus env p flightNumber airline date w =
  if truthy env
  then (Ok (option_map LegStore.status_of
              (first_flight
                 (p (List.length (calls w))
                    (LegStoreToday.lookup_request env flightNumber airline
                                                  date)))),
        {| db := db w;
           calls := calls w
                    ++ [LegStoreToday.lookup_request env flightNumber airline
                                                     date] |})
  else (Ok None, w).
Proof.
  unfold LegStoreToday.fetchFlightStatus.
  destruct (truthy env); simpl; [|reflexivity].
  unfold try_catch, bind, axios_get.
  destruct (p _ _) as [|[b|]]; simpl; try reflexivity.
  destruct (body_data b) as [[|[f|] l]|]; reflexivity.
Qed.

(* ===================================================================== *)
(** ** The reconciliation pass [updateFlightStatuses]                     *)
(* ===================================================================== *)

Lemma Forall2_weaken_In A B (P Q : A -> B -> Prop) (l : list A) (l' : list B) :
  Forall2 P l l' ->
  (forall a b, In a l -> P a b -> Q a b) ->
  Forall2 Q l l'.
Proof.
  induction 1 as [|a b l l' Hab _ IH]; intros HPQ; constructor.
  - apply HPQ; simpl; auto.
  - apply IH. intros a' b' Hin. apply HPQ. simpl; auto.
Qed.

Lemma NoDup_map_inj A B (f : A -> B) (l : list A) a b :
  NoDup (map f l) -> In a l -> In b l -> f a = f b -> a = b.
Proof.
  induction l as [|x l IH]; simpl; intros Hnd Ha Hb Hf; [contradiction|].
  inversion Hnd as [|? ? Hx Hnd']; subst.
  destruct Ha as [Ha|Ha], Hb as [Hb|Hb]; subst; auto.
  - exfalso. apply Hx. rewrite Hf. apply in_map; assumption.
  - exfalso. apply Hx. rewrite <- Hf. apply in_map; assumption.
Qed.

Lemma same_except_refl ids ls : same_except ids ls ls.
Proof.
  unfold same_except. induction ls; constructor; auto.
Qed.

Lemma same_except_trans ids ls1 ls2 ls3 :
  same_except ids ls1 ls2 -> same_except ids ls2 ls3 ->
  same_except ids ls1 ls3.
Proof.
  unfold same_except. intros H12. revert ls3.
  induction H12 as [|a b l l' [Hid Hab] _ IH]; intros ls3 H23;
    inversion H23 as [|? c ? l'' [Hid' Hbc] H23']; subst; constructor.
  - split; [congruence|]. intros Hn. rewrite Hbc, Hab; auto.
    rewrite Hid. exact Hn.
  - apply IH; assumption.
Qed.

Lemma same_except_more ids ids' ls ls' :
  (forall i, In i ids -> In i ids') ->
  same_except ids ls ls' -> same_except ids' ls ls'.
Proof.
  unfold same_except. intros Hsub H.
  eapply Forall2_weaken_In; [exact H|].
  intros a b _ [Hid Hab]. split; auto.
Qed.

(** The UPDATE of one leg keeps every row with another id. *)
Lemma update_leg_same_except st i ls :
  same_except [i]
    ls (map (fun l => if LegStore.leg_id l =? i
                      then LegStore.with_status l st else l) ls).
Proof.
  unfold same_except. induction ls as [|l ls IH]; simpl; constructor; auto.
  destruct (Z.eqb_spec (LegStore.leg_id l) i) as [E|E]; simpl.
  - split; [reflexivity|]. intros Hn. exfalso. apply Hn. auto.
  - split; auto.
Qed.

Lemma for_of_cons S A (x : A) (l : list A) (body : A -> M S unit) (s : S) :
  for_of (x :: l) body s =
  match body x s with
  | (Ok _, s') => for_of l body s'
  | (Throw, s') => (Throw, s')
  end.
Proof. reflexivity. Qed.

Section Pass.

Variable fault : nat -> bool.

(** The resolver of the variant, with what is used of it: it does not
    throw, leaves the store alone and makes the requests [reqs leg]. *)
Variable fetch : string -> option string -> Z ->
                 M (world LegStore.tables) (option string).
Variable reqs : LegStore.leg_row -> list request.
Hypothesis fetch_ok :
  forall leg w, exists r,
    fetch (LegStore.flight_number leg) (LegStore.airline leg)
          (iso_date (LegStore.eta leg)) w =
    (Ok r, {| db := db w; calls := calls w ++ reqs leg |}).

(** One iteration: the requests of the leg are made; the legs change
    at most where the id is that of the leg; the other tables and the
    transaction state stay. *)
Lemma refresh_leg_step leg w :
  calls (snd (LegStore.refresh_leg fault fetch leg w)) = calls w ++ reqs leg /\
  same_except [LegStore.leg_id leg]
    (LegStore.flight_legs (current (db w)))
    (LegStore.flight_legs (current (db (snd (LegStore.refresh_leg fault fetch leg w))))) /\
  LegStore.guests (current (db (snd (LegStore.refresh_leg fault fetch leg w)))) =
    LegStore.guests (current (db w)) /\
  (txn (db (snd (LegStore.refresh_leg fault fetch leg w))) = None <-> txn (db w) = None) /\
  (fault = no_fault -> fst (LegStore.refresh_leg fault fetch leg w) = Ok tt).
Proof.
  unfold LegStore.refresh_leg, bind.
  destruct (fetch_ok leg w) as [r ->].
  destruct r as [st|]; simpl.
  - set (w1 := {| db := db w; calls := calls w ++ reqs leg |}).
    destruct (query fault false
                (LegStore.update_leg_status st (LegStore.leg_id leg)) w1)
      as [r' w'] eqn:E.
    pose proof E as E'.
    apply query_inv in E' as (Hc & Ht & _ & _ & Hcases). simpl in *.
    split; [exact Hc|].
    destruct Hcases as [(_ & Hcur & _) | (x & t' & -> & Hs & _ & Hcur & _)].
    + rewrite Hcur. repeat split; try apply same_except_refl; try tauto.
      intros ->.
      destruct (query_no_fault false
                  (LegStore.update_leg_status st (LegStore.leg_id leg)) w1
                  eq_refl) as (w'' & E'' & _).
      rewrite E in E''. inversion E''; subst. reflexivity.
    + rewrite Hcur. unfold LegStore.update_leg_status in Hs.
      inversion Hs; subst. simpl.
      repeat split; try apply update_leg_same_except; try tauto.
  - repeat split; try apply same_except_refl; tauto.
Qed.

(** The whole loop, whatever fails in the store: the requests made are
    those of the first [k] selected legs, in order. *)
Lemma loop_spec rows : forall w,
  (exists k, calls (snd (for_of rows (LegStore.refresh_leg fault fetch) w)) =
             calls w ++ flat_map reqs (firstn k rows)) /\
  same_except (map LegStore.leg_id rows)
    (LegStore.flight_legs (current (db w)))
    (LegStore.flight_legs (current (db (snd (for_of rows (LegStore.refresh_leg fault fetch) w))))) /\
  LegStore.guests (current (db (snd (for_of rows (LegStore.refresh_leg fault fetch) w)))) =
    LegStore.guests (current (db w)) /\
  (txn (db (snd (for_of rows (LegStore.refresh_leg fault fetch) w))) = None <-> txn (db w) = None) /\
  (fault = no_fault ->
   fst (for_of rows (LegStore.refresh_leg fault fetch) w) = Ok tt /\
   calls (snd (for_of rows (LegStore.refresh_leg fault fetch) w)) = calls w ++ flat_map reqs rows).
Proof.
  induction rows as [|leg rows IH]; intros w.
  - simpl. repeat split; try tauto.
    + exists 0%nat. simpl. rewrite app_nil_r. reflexivity.
    + apply same_except_refl.
    + rewrite app_nil_r. reflexivity.
  - destruct (refresh_leg_step leg w) as (Hc & Hs & Hg & Ht & Hnf).
    rewrite for_of_cons.
    destruct (LegStore.refresh_leg fault fetch leg w) as [[[]|] w1] eqn:E; simpl in *.
    + destruct (IH w1) as ((k & Hk) & Hs' & Hg' & Ht' & Hnf').
      split; [|split; [|split; [|split]]].
      * exists (S k). rewrite Hk, Hc. simpl.
        rewrite <- app_assoc. reflexivity.
      * eapply same_except_trans.
        -- eapply same_except_more; [|exact Hs]. simpl. intuition.
        -- eapply same_except_more; [|exact Hs']. simpl. intuition.
      * congruence.
      * tauto.
      * intros F. destruct (Hnf' F) as [Hr Hcs]. split; [exact Hr|].
        rewrite Hcs, Hc, <- app_assoc. reflexivity.
    + split; [|split; [|split; [|split]]].
      * exists 1%nat. simpl. rewrite app_nil_r. exact Hc.
      * eapply same_except_more; [|exact Hs]. simpl. intuition.
      * exact Hg.
      * exact Ht.
      * intros F. specialize (Hnf F). discriminate.
Qed.

End Pass.

Lemma flat_map_single A B (f : A -> B) (l : list A) :
  flat_map (fun x => [f x]) l = map f l.
Proof. induction l; simpl; congruence. Qed.

Lemma flat_map_none A B (l : list A) :
  flat_map (fun _ : A => @nil B) l = [].
Proof. induction l; simpl; auto. Qed.

Lemma current_no_txn T (c : conn T) : txn c = None -> current c = committed c.
Proof. unfold current. intros ->. reflexivity. Qed.

Lemma finally_release T A (m : M (world T) A) (w : world T) :
  finally m release w = (fst (m w), snd (m w)).
Proof. unfold finally, release. destruct (m w) as [[a|] w']; reflexivity. Qed.

Lemma connect_granted T A (m : M (world T) A) (w : world T) :
  (connect true ;;; m) w = m w.
Proof. reflexivity. Qed.

Lemma connect_refused T A (m : M (world T) A) (w : world T) :
  (connect false ;;; m) w = (Throw, w).
Proof. reflexivity. Qed.

Lemma bind_unfold S A B (m : M S A) (k : A -> M S B) (s : S) :
  bind m k s = match m s with
               | (Ok a, s') => k a s'
               | (Throw, s') => (Throw, s')
               end.
Proof. reflexivity. Qed.

(** The selection and the loop of a pass of part_000 on a fresh
    connection. *)
Lemma pass_body_spec fault env p t n :
  let m := (rows <- query fault false LegStore.select_open_legs ;;
            for_of rows (LegStore.refresh_leg fault
                           (LegStore.fetchFlightStatus env p))) in
  let w' := snd (m (start t n)) in
  txn (db w') = None /\
  (exists k, calls w' = map (request_of env) (firstn k (open_legs t))) /\
  same_except (map LegStore.leg_id (open_legs t))
    (LegStore.flight_legs t) (LegStore.flight_legs (current (db w'))) /\
  LegStore.guests (current (db w')) = LegStore.guests t /\
  (fault = no_fault ->
   fst (m (start t n)) = Ok tt /\
   calls w' = map (request_of env) (open_legs t)).
Proof.
  intros m w'. subst w' m. rewrite bind_unfold.
  destruct (query fault false LegStore.select_open_legs (start t n))
    as [r w1] eqn:E.
  pose proof E as E'.
  apply query_inv in E' as (Hc & Ht & _ & _ & Hcases).
  change (current (db (start t n))) with t in Hcases.
  simpl in Hc, Ht.
  assert (Ht1 : txn (db w1) = None) by tauto.
  destruct Hcases as [(-> & Hcur & _) | (rows & t' & -> & Hs & _ & Hcur & _)].
  - simpl. rewrite Hc, Hcur.
    split; [exact Ht1|]. split; [exists 0%nat; reflexivity|].
    split; [apply same_except_refl|]. split; [reflexivity|].
    intros ->.
    destruct (@query_no_fault _ _ false LegStore.select_open_legs
                (start t n) _ _ eq_refl) as (w'' & E'' & _).
    rewrite E in E''. discriminate.
  - unfold LegStore.select_open_legs in Hs.
    injection Hs as <- <-. fold (open_legs t).
    destruct (loop_spec fault
                (LegStore.fetchFlightStatus env p)
                (fun l => [request_of env l])
                (fun leg w => ex_intro _ _ (fetch_spec env p _ _ _ w))
                (open_legs t) w1)
      as ((k & Hk) & Hse & Hg & Htx & Hnf).
    rewrite Hcur in Hse, Hg. rewrite Hc, flat_map_single in Hk.
    rewrite Hc, flat_map_single in Hnf. simpl in Hk, Hnf.
    split; [tauto|]. split; [exists k; exact Hk|].
    split; [exact Hse|]. split; [exact Hg|]. exact Hnf.
Qed.

(** A pass of part_000 from a fresh connection on the tables [t],
    whatever fails in the store: it asks the provider about the first
    [k] open legs, in order, and changes legs only at the ids of open
    legs; without store failures it asks about every open leg. *)
Lemma pass_spec fault env p t n :
  let w' := snd (LegStore.updateFlightStatuses true fault env p (start t n)) in
  (exists k, calls w' = map (request_of env) (firstn k (open_legs t))) /\
  same_except (map LegStore.leg_id (open_legs t))
    (LegStore.flight_legs t) (LegStore.flight_legs (committed (db w'))) /\
  LegStore.guests (committed (db w')) = LegStore.guests t /\
  (fault = no_fault ->
   fst (LegStore.updateFlightStatuses true fault env p (start t n)) = Ok tt /\
   calls w' = map (request_of env) (open_legs t)).
Proof.
  unfold LegStore.updateFlightStatuses.
  rewrite connect_granted, finally_release.
  destruct (pass_body_spec fault env p t n) as (Ht & Hk & Hse & Hg & Hnf).
  cbv zeta in *. simpl.
  rewrite <- (current_no_txn _ Ht). auto.
Qed.

Lemma try_catch_ret S A (m : M S A) (a : A) (s : S) :
  snd (try_catch m (ret a) s) = snd (m s) /\
  exists x, fst (try_catch m (ret a) s) = Ok x.
Proof.
  unfold try_catch, ret. destruct (m s) as [[x|] s']; simpl; eauto.
Qed.

(** The requests a pass of part_001 makes for one leg. *)
Lemma fetch_today_ok T env p leg (w : world T) :
  exists r,
    LegStoreToday.fetchFlightStatus env p (LegStore.flight_number leg)
      (LegStore.airline leg) (iso_date (LegStore.eta leg)) w =
    (Ok r, {| db := db w;
              calls := calls w ++ (if truthy env
                                   then [request_today_of env leg]
                                   else []) |}).
Proof.
  rewrite fetch_today_spec. destruct (truthy env); eexists.
  - reflexivity.
  - rewrite app_nil_r. destruct w; reflexivity.
Qed.

(** A pass of part_001 from a fresh connection, whatever fails in the
    store. *)
Lemma pass_today_spec fault env p now t n :
  let today := iso_date now in
  let reqs := fun l => if truthy env then [request_today_of env l] else [] in
  let w' := snd (LegStoreToday.updateFlightStatuses true fault env p now
                   (start t n)) in
  (exists k, calls w' = flat_map reqs (firstn k (open_legs_of today t))) /\
  same_except (map LegStore.leg_id (open_legs_of today t))
    (LegStore.flight_legs t) (LegStore.flight_legs (committed (db w'))) /\
  LegStore.guests (committed (db w')) = LegStore.guests t /\
  (exists x, fst (LegStoreToday.updateFlightStatuses true fault env p now
                    (start t n)) = Ok x) /\
  (fault = no_fault -> calls w' = flat_map reqs (open_legs_of today t)).
Proof.
  intros today reqs w'. subst w'.
  unfold LegStoreToday.updateFlightStatuses.
  rewrite connect_granted, finally_release.
  cbv zeta. fold today.
  match goal with
  | |- context [try_catch ?m (ret tt) (start t n)] =>
      destruct (try_catch_ret m tt (start t n)) as [Hs Hx];
      set (body := m) in *
  end.
  simpl fst. simpl snd. simpl calls. simpl db. simpl committed.
  rewrite Hs.
  assert (H : txn (db (snd (body (start t n)))) = None /\
              (exists k, calls (snd (body (start t n))) =
                         flat_map reqs (firstn k (open_legs_of today t))) /\
              same_except (map LegStore.leg_id (open_legs_of today t))
                (LegStore.flight_legs t)
                (LegStore.flight_legs (current (db (snd (body (start t n)))))) /\
              LegStore.guests (current (db (snd (body (start t n))))) =
                LegStore.guests t /\
              (fault = no_fault ->
               calls (snd (body (start t n))) =
               flat_map reqs (open_legs_of today t))).
  { subst body. rewrite bind_unfold.
    destruct (query fault false (LegStoreToday.select_open_legs_of today)
                (start t n)) as [r w1] eqn:E.
    pose proof E as E'.
    apply query_inv in E' as (Hc & Ht & _ & _ & Hcases).
    change (current (db (start t n))) with t in Hcases.
    simpl in Hc, Ht.
    assert (Ht1 : txn (db w1) = None) by tauto.
    destruct Hcases as [(-> & Hcur & _) | (rows & t' & -> & Hq & _ & Hcur & _)].
    - simpl. rewrite Hc, Hcur.
      split; [exact Ht1|]. split; [exists 0%nat; reflexivity|].
      split; [apply same_except_refl|]. split; [reflexivity|].
      intros ->.
      destruct (@query_no_fault _ _ false
                  (LegStoreToday.select_open_legs_of today)
                  (start t n) _ _ eq_refl) as (w'' & E'' & _).
      rewrite E in E''. discriminate.
    - unfold LegStoreToday.select_open_legs_of in Hq.
      injection Hq as <- <-. fold (open_legs_of today t).
      destruct (loop_spec fault
                  (LegStoreToday.fetchFlightStatus env p) reqs
                  (fun leg w => fetch_today_ok env p leg w)
                  (open_legs_of today t) w1)
        as ((k & Hk) & Hse & Hg & Htx & Hnf).
      rewrite Hcur in Hse, Hg. rewrite Hc in Hk, Hnf. simpl in Hk, Hnf.
      split; [tauto|]. split; [exists k; exact Hk|].
      split; [exact Hse|]. split; [exact Hg|]. intros F. apply Hnf, F. }
  destruct H as (Ht & Hk & Hse & Hg & Hnf).
  rewrite <- (current_no_txn _ Ht). auto.
Qed.

(** The passes whether the pool gives a connection or not: without one
    they reject before they issue a statement. *)
Lemma pass_spec_any granted fault env p t n :
  let w' := snd (LegStore.updateFlightStatuses granted fault env p
                   (start t n)) in
  (exists k, calls w' = map (request_of env) (firstn k (open_legs t))) /\
  same_except (map LegStore.leg_id (open_legs t))
    (LegStore.flight_legs t) (LegStore.flight_legs (committed (db w'))) /\
  LegStore.guests (committed (db w')) = LegStore.guests t.
Proof.
  destruct granted.
  - destruct (pass_spec fault env p t n) as (Hk & Hse & Hg & _). auto.
  - simpl. split; [exists 0%nat; reflexivity|].
    split; [apply same_except_refl|reflexivity].
Qed.

Lemma pass_today_spec_any granted fault env p now t n :
  let today := iso_date now in
  let reqs := fun l => if truthy env then [request_today_of env l] else [] in
  let w' := snd (LegStoreToday.updateFlightStatuses granted fault env p now
                   (start t n)) in
  (exists k, calls w' = flat_map reqs (firstn k (open_legs_of today t))) /\
  same_except (map LegStore.leg_id (open_legs_of today t))
    (LegStore.flight_legs t) (LegStore.flight_legs (committed (db w'))) /\
  LegStore.guests (committed (db w')) = LegStore.guests t.
Proof.
  destruct granted.
  - destruct (pass_today_spec fault env p now t n) as (Hk & Hse & Hg & _).
    auto.
  - simpl. split; [exists 0%nat; reflexivity|].
    split; [apply same_except_refl|reflexivity].
Qed.

(* ===================================================================== *)
(** ** The listing refresh of part_002                                    *)
(* ===================================================================== *)

Lemma no_data_split r :
  no_data r <-> lookup_raises r = true \/ empty_result r = true.
Proof.
  destruct r as [|[b|]]; simpl; try tauto.
  destruct (body_data b) as [[|[f|] l]|]; simpl; intuition discriminate.
Qed.

Lemma with_status_same g :
  FlatGuests.with_status g (FlatGuests.status g) = g.
Proof. destruct g; reflexivity. Qed.

(** A vendor status [cancelled] or [landed] maps without a look at the
    arrival times. *)
Lemma vendor_status_terminal S (s : S) flight st :
  (flight_status flight = Some "cancelled" /\ st = Cancelled \/
   flight_status flight = Some "landed" /\ st = Landed) ->
  FlatGuests.vendor_status flight s = (Ok st, s).
Proof.
  unfold FlatGuests.vendor_status.
  intros [[-> ->]|[-> ->]]; reflexivity.
Qed.

Section Refresh.

Variable env : option string.
Variable p : provider.
Variable now : Z.

(** The lookup raised: the fallback rule decides. *)
Lemma refresh_raises guest (w : world FlatGuests.tables) :
  refreshable guest = true ->
  lookup_raises (p (List.length (calls w)) (FlatGuests.lookup_request env guest)) = true ->
  exists w',
    FlatGuests.refresh_guest no_fault env p now guest w =
    (Ok (if past_on_time now guest
         then FlatGuests.with_status guest (Some Landed) else guest), w') /\
    calls w' = calls w ++ [FlatGuests.lookup_request env guest] /\
    current (db w') =
      (if past_on_time now guest
       then set_status Landed (FlatGuests.id guest) (current (db w))
       else current (db w)).
Proof.
  intros Hg Hr. unfold FlatGuests.refresh_guest.
  fold (refreshable guest). rewrite Hg.
  unfold try_catch. rewrite bind_unfold. unfold axios_get.
  set (w1 := {| db := db w; calls := calls w ++ [FlatGuests.lookup_request env guest] |}).
  assert (Hcatch :
    exists w',
      (if (FlatGuests.date_value (FlatGuests.eta guest) <? now)
          && str_is (FlatGuests.status guest) OnTime
       then query no_fault false
              (FlatGuests.update_status Landed (FlatGuests.id guest)) ;;;
            ret (FlatGuests.with_status guest (Some Landed))
       else ret guest) w1 =
      (Ok (if past_on_time now guest
           then FlatGuests.with_status guest (Some Landed) else guest), w') /\
      calls w' = calls w ++ [FlatGuests.lookup_request env guest] /\
      current (db w') =
        (if past_on_time now guest
         then set_status Landed (FlatGuests.id guest) (current (db w))
         else current (db w))).
  { fold (past_on_time now guest). destruct (past_on_time now guest).
    - rewrite bind_unfold.
      destruct (@query_no_fault _ _ false
                  (FlatGuests.update_status Landed (FlatGuests.id guest))
                  w1 _ _ eq_refl) as (w' & -> & Hcur & Hc & _).
      exists w'. auto.
    - exists w1. auto. }
  destruct (p (List.length (calls w)) (FlatGuests.lookup_request env guest)) as [|[b|]]; simpl in Hr.
  - exact Hcatch.
  - destruct (body_data b) as [[|[f|] l]|]; try discriminate.
    exact Hcatch.
  - exact Hcatch.
Qed.

(** The result set is missing or empty: nothing changes. *)
Lemma refresh_empty fault guest (w : world FlatGuests.tables) :
  refreshable guest = true ->
  empty_result (p (List.length (calls w)) (FlatGuests.lookup_request env guest)) = true ->
  FlatGuests.refresh_guest fault env p now guest w =
  (Ok guest, {| db := db w; calls := calls w ++ [FlatGuests.lookup_request env guest] |}).
Proof.
  intros Hg Hr. unfold FlatGuests.refresh_guest.
  fold (refreshable guest). rewrite Hg.
  unfold try_catch. rewrite bind_unfold. unfold axios_get.
  destruct (p (List.length (calls w)) (FlatGuests.lookup_request env guest)) as [|[b|]];
    simpl in Hr; try discriminate.
  destruct (body_data b) as [[|[f|] l]|]; try discriminate; reflexivity.
Qed.

(** The provider answered with a flight whose status is [cancelled] or
    [landed]: the recorded status is replaced, whatever it was. *)
Lemma refresh_overwrites guest (w : world FlatGuests.tables) flight st :
  refreshable guest = true ->
  first_flight (p (List.length (calls w)) (FlatGuests.lookup_request env guest)) = Some flight ->
  (flight_status flight = Some "cancelled" /\ st = Cancelled \/
   flight_status flight = Some "landed" /\ st = Landed) ->
  exists w',
    FlatGuests.refresh_guest no_fault env p now guest w =
    (Ok (FlatGuests.with_status guest (Some st)), w') /\
    current (db w') = set_status st (FlatGuests.id guest) (current (db w)).
Proof.
  intros Hg Hf Hst. unfold FlatGuests.refresh_guest.
  fold (refreshable guest). rewrite Hg.
  unfold try_catch. rewrite bind_unfold. unfold axios_get.
  destruct (p (List.length (calls w)) (FlatGuests.lookup_request env guest)) as [|[b|]];
    simpl in Hf; try discriminate.
  destruct (body_data b) as [[|[f|] l]|]; try discriminate.
  injection Hf as ->.
  set (w1 := {| db := db w; calls := calls w ++ [FlatGuests.lookup_request env guest] |}).
  rewrite bind_unfold.
  rewrite (vendor_status_terminal w1 flight Hst).
  assert (Hv : (if (FlatGuests.date_value (FlatGuests.eta guest) <? now)
                   && String.eqb st OnTime then Landed else st) = st).
  { destruct Hst as [[_ ->]|[_ ->]]; simpl;
      rewrite ?andb_false_r; reflexivity. }
  rewrite Hv, bind_unfold.
  destruct (@query_no_fault _ _ false
              (FlatGuests.update_status st (FlatGuests.id guest))
              w1 _ _ eq_refl) as (w' & -> & Hcur & _).
  exists w'. auto.
Qed.

End Refresh.

(* ===================================================================== *)
(** ** C1: the resolver result is Unavailable                             *)
(* ===================================================================== *)

(** C1, counterexample.  A leg of part_000 is On Time and its arrival is
    before now; the provider lookup fails; the pass, which has no
    fallback, leaves the leg On Time, where the claim has Landed.
    Likewise a guest of part_002 that is On Time with an arrival in the
    past stays On Time when the provider answers with an empty result
    set. *)
Lemma unavailable_past_on_time_stays :
  past_on_time Sample.next_noon
    (Sample.flat 1 "100" "XY" OnTime Sample.new_year) = true /\
  fst (FlatGuests.refresh_guest no_fault None
         (Sample.always Sample.no_flights) Sample.next_noon
         (Sample.flat 1 "100" "XY" OnTime Sample.new_year)
         (start [Sample.flat 1 "100" "XY" OnTime Sample.new_year] 1))
  = Ok (Sample.flat 1 "100" "XY" OnTime Sample.new_year) /\
  committed (db (snd (FlatGuests.refresh_guest no_fault None
         (Sample.always Sample.no_flights) Sample.next_noon
         (Sample.flat 1 "100" "XY" OnTime Sample.new_year)
         (start [Sample.flat 1 "100" "XY" OnTime Sample.new_year] 1))))
  = [Sample.flat 1 "100" "XY" OnTime Sample.new_year] /\
  LegStore.flight_legs
    (committed (db (snd (LegStore.updateFlightStatuses true no_fault None
         (Sample.always AxiosError)
         (start (Sample.store [Sample.leg 1 1 OnTime Sample.new_year]) 2)))))
  = [Sample.leg 1 1 OnTime Sample.new_year] /\
  OnTime <> Landed.
Proof.
  repeat split; try reflexivity. discriminate.
Qed.

(** C1, amended.  In the listing refresh of part_002, when the lookup
    raises (a rejected request or a timeout, a body that is the JSON
    value null, a null first element) the status becomes Landed if it is
    On Time and the arrival is before now, and is kept otherwise.  In the
    pass of part_000, which reads no clock, a leg whose lookup gives no
    data keeps its status whatever its arrival time. *)
Theorem unavailable_keeps_or_lands env p now :
  (forall guest (w : world FlatGuests.tables),
     refreshable guest = true ->
     lookup_raises
       (p (List.length (calls w)) (FlatGuests.lookup_request env guest))
     = true ->
     exists w',
       FlatGuests.refresh_guest no_fault env p now guest w =
       (Ok (if past_on_time now guest
            then FlatGuests.with_status guest (Some Landed) else guest), w') /\
       current (db w') =
         (if past_on_time now guest
          then set_status Landed (FlatGuests.id guest) (current (db w))
          else current (db w)))
  /\
  (forall fault leg (w : world LegStore.tables),
     no_data (p (List.length (calls w)) (request_of env leg)) ->
     LegStore.refresh_leg fault (LegStore.fetchFlightStatus env p) leg w =
     (Ok tt, {| db := db w; calls := calls w ++ [request_of env leg] |})).
Proof.
  split.
  - intros guest w Hg Hr.
    destruct (refresh_raises env p now guest w Hg Hr) as (w' & E & _ & Hc).
    exists w'. auto.
  - intros fault leg w Hn. unfold LegStore.refresh_leg.
    rewrite bind_unfold, fetch_spec. fold (request_of env leg).
    apply no_data_first_flight in Hn. rewrite Hn. reflexivity.
Qed.

(** Witness of C1: a failing provider lands the past On Time guest of
    part_002, and changes nothing in the pass of part_000. *)
Lemma unavailable_keeps_or_lands_witness :
  (exists w',
     FlatGuests.refresh_guest no_fault None (Sample.always AxiosError)
       Sample.next_noon (Sample.flat 1 "100" "XY" OnTime Sample.new_year)
       (start [Sample.flat 1 "100" "XY" OnTime Sample.new_year] 1)
     = (Ok (Sample.flat 1 "100" "XY" Landed Sample.new_year), w') /\
     current (db w') = [Sample.flat 1 "100" "XY" Landed Sample.new_year]) /\
  LegStore.refresh_leg no_fault
    (LegStore.fetchFlightStatus None (Sample.always AxiosError))
    (Sample.leg 1 1 OnTime Sample.new_year)
    (start (Sample.store [Sample.leg 1 1 OnTime Sample.new_year]) 2)
  = (Ok tt,
     {| db := db (start (Sample.store [Sample.leg 1 1 OnTime Sample.new_year]) 2);
        calls := [request_of None (Sample.leg 1 1 OnTime Sample.new_year)] |}).
Proof.
  destruct (unavailable_keeps_or_lands None (Sample.always AxiosError)
              Sample.next_noon) as (H1 & H3).
  split.
  - exact (H1 (Sample.flat 1 "100" "XY" OnTime Sample.new_year)
              (start [Sample.flat 1 "100" "XY" OnTime Sample.new_year] 1)
              eq_refl eq_refl).
  - exact (H3 no_fault (Sample.leg 1 1 OnTime Sample.new_year)
              (start (Sample.store [Sample.leg 1 1 OnTime Sample.new_year]) 2)
              I).
Defined.

(* ===================================================================== *)
(** ** C2: the vendor status mapping                                      *)
(* ===================================================================== *)

(** C2, counterexample.  The status table of the listing refresh in
    src/server.js maps the vendor status [scheduled] with a departure
    delay of 30 to On Time, where the specification has Delayed. *)
Lemma status_table_ignores_delay :
  flight_status (Sample.flight_with "scheduled" (Some 30)) = Some "scheduled" /\
  LegStore.delay_positive
    (departure (Sample.flight_with "scheduled" (Some 30))) = true /\
  StatusMap.new_status (Sample.flight_with "scheduled" (Some 30))
  = StatusMap.JsString OnTime /\
  OnTime <> Delayed.
Proof.
  repeat split; try reflexivity. discriminate.
Qed.

Lemma delay_positive_iff d :
  LegStore.delay_positive d = true <->
  exists i n, d = Some i /\ delay i = Some n /\ 0 < n.
Proof.
  unfold LegStore.delay_positive. destruct d as [i|].
  - destruct (delay i) as [n|] eqn:E.
    + rewrite Z.ltb_lt. split.
      * intros H. exists i, n. auto.
      * intros (i' & n' & Hi & Hn & Hlt). injection Hi as <-.
        rewrite E in Hn. injection Hn as <-. exact Hlt.
    + split; [discriminate|].
      intros (i' & n' & Hi & Hn & _). injection Hi as <-. congruence.
  - split; [discriminate|]. intros (i & n & Hi & _). discriminate.
Qed.

Lemma str_is_true o lit : str_is o lit = true <-> o = Some lit.
Proof.
  destruct o as [s|]; simpl.
  - rewrite String.eqb_eq. split; congruence.
  - split; discriminate.
Qed.

Lemma str_is_false o lit : o <> Some lit -> str_is o lit = false.
Proof.
  intros H. destruct (str_is o lit) eqn:E; [|reflexivity].
  apply str_is_true in E. contradiction.
Qed.

(** C2, amended.  The resolver [fetchFlightStatus] (part_000 and part_001)
    returns, for the first flight of a non-empty result set: Cancelled for
    [cancelled], Landed for [landed], On Time for [active], for
    [scheduled] Delayed when the departure delay is greater than 0 and On
    Time otherwise, and On Time for every other vendor status.  The status
    table of the listing refresh in src/server.js lower-cases the vendor
    status and gives Cancelled for [cancelled], Landed for [landed],
    Delayed for [delayed], On Time for [active] and for [scheduled]
    whatever the delay, and On Time for every other status that is not the
    name of a member of [Object.prototype]. *)
Theorem vendor_status_mapping flight :
  ((flight_status flight = Some "cancelled" ->
    LegStore.status_of flight = Cancelled) /\
   (flight_status flight = Some "landed" ->
    LegStore.status_of flight = Landed) /\
   (flight_status flight = Some "active" ->
    LegStore.status_of flight = OnTime) /\
   (flight_status flight = Some "scheduled" ->
    (forall i n, departure flight = Some i -> delay i = Some n -> 0 < n ->
                 LegStore.status_of flight = Delayed) /\
    (LegStore.delay_positive (departure flight) = false ->
     LegStore.status_of flight = OnTime)) /\
   (flight_status flight <> Some "cancelled" ->
    flight_status flight <> Some "landed" ->
    flight_status flight <> Some "active" ->
    flight_status flight <> Some "scheduled" ->
    LegStore.status_of flight = OnTime))
  /\
  (forall T env p flightNumber airline date (w : world T),
     (first_flight
        (p (List.length (calls w))
           (LegStore.lookup_request env flightNumber airline date))
      = Some flight ->
      fst (LegStore.fetchFlightStatus env p flightNumber airline date w)
      = Ok (Some (LegStore.status_of flight))) /\
     (truthy env = true ->
      first_flight
        (p (List.length (calls w))
           (LegStoreToday.lookup_request env flightNumber airline date))
      = Some flight ->
      fst (LegStoreToday.fetchFlightStatus env p flightNumber airline date w)
      = Ok (Some (LegStore.status_of flight))))
  /\
  ((StatusMap.apiStatus flight = "cancelled" ->
    StatusMap.new_status flight = StatusMap.JsString Cancelled) /\
   (StatusMap.apiStatus flight = "landed" ->
    StatusMap.new_status flight = StatusMap.JsString Landed) /\
   (StatusMap.apiStatus flight = "delayed" ->
    StatusMap.new_status flight = StatusMap.JsString Delayed) /\
   (StatusMap.apiStatus flight = "active" ->
    StatusMap.new_status flight = StatusMap.JsString OnTime) /\
   (StatusMap.apiStatus flight = "scheduled" ->
    StatusMap.new_status flight = StatusMap.JsString OnTime) /\
   (get_own (StatusMap.apiStatus flight) StatusMap.statusMap = None ->
    inherited (StatusMap.apiStatus flight) = false ->
    StatusMap.new_status flight = StatusMap.JsString OnTime)).
Proof.
  split; [|split].
  - unfold LegStore.status_of. repeat split.
    + intros ->. reflexivity.
    + intros ->. reflexivity.
    + intros ->. reflexivity.
    + intros i n Hd Hn Hlt.
      assert (Hp : LegStore.delay_positive (departure flight) = true)
        by (apply delay_positive_iff; eauto).
      rewrite H, Hp. reflexivity.
    + intros Hp. rewrite H, Hp. reflexivity.
    + intros H1 H2 H3 H4.
      rewrite (str_is_false H1), (str_is_false H2), (str_is_false H3),
        (str_is_false H4). reflexivity.
  - intros T env p flightNumber airline date w. split.
    + intros Hf. rewrite fetch_spec, Hf. reflexivity.
    + intros He Hf. rewrite fetch_today_spec, He, Hf. reflexivity.
  - unfold StatusMap.new_status. repeat split.
    + intros ->. reflexivity.
    + intros ->. reflexivity.
    + intros ->. reflexivity.
    + intros ->. reflexivity.
    + intros ->. reflexivity.
    + intros -> ->. reflexivity.
Qed.

(** Witness of C2. *)
Lemma vendor_status_mapping_witness :
  LegStore.status_of (Sample.flight_with "cancelled" None) = Cancelled /\
  LegStore.status_of (Sample.flight_with "landed" None) = Landed /\
  LegStore.status_of (Sample.flight_with "active" (Some 12)) = OnTime /\
  LegStore.status_of (Sample.flight_with "scheduled" (Some 30)) = Delayed /\
  LegStore.status_of (Sample.flight_with "scheduled" (Some 0)) = OnTime /\
  LegStore.status_of (Sample.flight_with "diverted" (Some 30)) = OnTime /\
  fst (LegStore.fetchFlightStatus None
         (Sample.always (Sample.answer (Sample.flight_with "landed" None)))
         "100" (Some "XY") 19723 (start tt 1))
  = Ok (Some Landed) /\
  fst (LegStoreToday.fetchFlightStatus (Some "key")
         (Sample.always (Sample.answer (Sample.flight_with "landed" None)))
         "100" (Some "XY") 19723 (start tt 1))
  = Ok (Some Landed) /\
  StatusMap.new_status (Sample.flight_with "Delayed" None)
  = StatusMap.JsString Delayed /\
  StatusMap.new_status (Sample.flight_with "diverted" None)
  = StatusMap.JsString OnTime.
Proof.
  repeat apply conj.
  - destruct (vendor_status_mapping (Sample.flight_with "cancelled" None))
      as ((H & _) & _).
    exact (H eq_refl).
  - destruct (vendor_status_mapping (Sample.flight_with "landed" None))
      as ((_ & H & _) & _).
    exact (H eq_refl).
  - destruct (vendor_status_mapping (Sample.flight_with "active" (Some 12)))
      as ((_ & _ & H & _) & _).
    exact (H eq_refl).
  - destruct (vendor_status_mapping (Sample.flight_with "scheduled" (Some 30)))
      as ((_ & _ & _ & H & _) & _).
    destruct (H eq_refl) as [Hd _].
    apply (Hd {| delay := Some 30 |} 30); [reflexivity|reflexivity|lia].
  - destruct (vendor_status_mapping (Sample.flight_with "scheduled" (Some 0)))
      as ((_ & _ & _ & H & _) & _).
    destruct (H eq_refl) as [_ Hd]. apply Hd. reflexivity.
  - destruct (vendor_status_mapping (Sample.flight_with "diverted" (Some 30)))
      as ((_ & _ & _ & _ & H) & _).
    apply H; discriminate.
  - destruct (vendor_status_mapping (Sample.flight_with "landed" None))
      as (_ & H & _).
    destruct (H unit None
                (Sample.always (Sample.answer (Sample.flight_with "landed" None)))
                "100" (Some "XY") 19723 (start tt 1)) as [Hf _].
    apply Hf. reflexivity.
  - destruct (vendor_status_mapping (Sample.flight_with "landed" None))
      as (_ & H & _).
    destruct (H unit (Some "key")
                (Sample.always (Sample.answer (Sample.flight_with "landed" None)))
                "100" (Some "XY") 19723 (start tt 1)) as [_ Hf].
    apply Hf; reflexivity.
  - destruct (vendor_status_mapping (Sample.flight_with "Delayed" None))
      as (_ & _ & _ & _ & H & _).
    exact (H eq_refl).
  - destruct (vendor_status_mapping (Sample.flight_with "diverted" None))
      as (_ & _ & _ & _ & _ & _ & _ & H).
    apply H; reflexivity.
Defined.

(* ===================================================================== *)
(** ** C3: terminal statuses                                              *)
(* ===================================================================== *)

(** C3, counterexample.  The listing refresh of part_002 asks the
    provider about a guest whose status is Landed and, on the answer
    [cancelled], writes Cancelled over it. *)
Lemma listing_overwrites_landed :
  FlatGuests.status (Sample.flat 1 "100" "XY" Landed Sample.new_year)
  = Some Landed /\
  fst (FlatGuests.refresh_guest no_fault None
         (Sample.always (Sample.answer (Sample.flight_with "cancelled" None)))
         Sample.next_noon (Sample.flat 1 "100" "XY" Landed Sample.new_year)
         (start [Sample.flat 1 "100" "XY" Landed Sample.new_year] 1))
  = Ok (Sample.flat 1 "100" "XY" Cancelled Sample.new_year) /\
  committed (db (snd (FlatGuests.refresh_guest no_fault None
         (Sample.always (Sample.answer (Sample.flight_with "cancelled" None)))
         Sample.next_noon (Sample.flat 1 "100" "XY" Landed Sample.new_year)
         (start [Sample.flat 1 "100" "XY" Landed Sample.new_year] 1))))
  = [Sample.flat 1 "100" "XY" Cancelled Sample.new_year] /\
  calls (snd (FlatGuests.refresh_guest no_fault None
         (Sample.always (Sample.answer (Sample.flight_with "cancelled" None)))
         Sample.next_noon (Sample.flat 1 "100" "XY" Landed Sample.new_year)
         (start [Sample.flat 1 "100" "XY" Landed Sample.new_year] 1)))
  = [FlatGuests.lookup_request None
       (Sample.flat 1 "100" "XY" Landed Sample.new_year)] /\
  Landed <> Cancelled.
Proof.
  repeat apply conj; try reflexivity. discriminate.
Qed.

Lemma open_legs_not_terminal t l :
  In l (open_legs t) <->
  In l (LegStore.flight_legs t) /\
  LegStore.terminal (LegStore.status l) = false.
Proof.
  unfold open_legs. rewrite filter_In, negb_true_iff. tauto.
Qed.

(** With unique leg ids, rows that may change only at the ids of selected
    legs keep every leg that was not selected. *)
Lemma same_except_keeps (sel : LegStore.leg_row -> bool) ls ls' :
  NoDup (map LegStore.leg_id ls) ->
  same_except (map LegStore.leg_id (filter sel ls)) ls ls' ->
  Forall2 (fun l l' => sel l = false -> l' = l) ls ls'.
Proof.
  intros Hnd H. eapply Forall2_weaken_In; [exact H|].
  intros a b Hin [_ Hk] Hsel. apply Hk.
  rewrite in_map_iff. intros (r & Hid & Hr).
  apply filter_In in Hr as [Hr Hs].
  assert (r = a) by (eapply NoDup_map_inj; eauto).
  subst r. congruence.
Qed.

Lemma past_on_time_terminal now g :
  FlatGuests.status g = Some Landed \/ FlatGuests.status g = Some Cancelled ->
  past_on_time now g = false.
Proof.
  unfold past_on_time. intros [-> | ->]; simpl; apply andb_false_r.
Qed.

(** C3, amended.  In the reconciliation pass [updateFlightStatuses] (part_000 and
    part_001) terminal statuses are sticky: the pass asks the provider
    only about legs that are neither Landed nor Cancelled, and with unique
    leg ids it leaves every terminal leg as it is, whatever the provider
    answers and whatever fails in the store, the request for a
    connection included.  The listing refresh of
    part_002 asks about terminal guests too: it keeps a terminal status
    when the lookup gives no data, and replaces it when the provider
    answers [cancelled] or [landed]. *)
Theorem terminal_sticky_in_pass granted fault env p now t n :
  NoDup (map LegStore.leg_id (LegStore.flight_legs t)) ->
  (Forall (fun l => LegStore.terminal (LegStore.status l) = false)
          (open_legs t) /\
   (exists k,
      calls (snd (LegStore.updateFlightStatuses granted fault env p
                    (start t n))) =
      map (request_of env) (firstn k (open_legs t))) /\
   Forall2 (fun l l' => LegStore.terminal (LegStore.status l) = true -> l' = l)
     (LegStore.flight_legs t)
     (LegStore.flight_legs
        (committed
           (db (snd (LegStore.updateFlightStatuses granted fault env p
                       (start t n)))))))
  /\
  (Forall (fun l => LegStore.terminal (LegStore.status l) = false)
          (open_legs_of (iso_date now) t) /\
   (exists k,
      calls (snd (LegStoreToday.updateFlightStatuses granted fault env p now
                    (start t n))) =
      flat_map (fun l => if truthy env then [request_today_of env l] else [])
               (firstn k (open_legs_of (iso_date now) t))) /\
   Forall2 (fun l l' => LegStore.terminal (LegStore.status l) = true -> l' = l)
     (LegStore.flight_legs t)
     (LegStore.flight_legs
        (committed
           (db (snd (LegStoreToday.updateFlightStatuses granted fault env p now
                       (start t n)))))))
  /\
  (forall guest (w : world FlatGuests.tables),
     refreshable guest = true ->
     FlatGuests.status guest = Some Landed \/
     FlatGuests.status guest = Some Cancelled ->
     (no_data (p (List.length (calls w))
                 (FlatGuests.lookup_request env guest)) ->
      exists w',
        FlatGuests.refresh_guest no_fault env p now guest w = (Ok guest, w') /\
        current (db w') = current (db w)) /\
     (forall flight st,
        first_flight (p (List.length (calls w))
                        (FlatGuests.lookup_request env guest)) = Some flight ->
        flight_status flight = Some "cancelled" /\ st = Cancelled \/
        flight_status flight = Some "landed" /\ st = Landed ->
        exists w',
          FlatGuests.refresh_guest no_fault env p now guest w =
          (Ok (FlatGuests.with_status guest (Some st)), w') /\
          current (db w') =
            set_status st (FlatGuests.id guest) (current (db w)))).
Proof.
  intros Hnd. split; [|split].
  - destruct (pass_spec_any granted fault env p t n) as (Hk & Hse & _).
    cbv zeta in *. split; [|split].
    + apply Forall_forall. intros l Hl.
      apply open_legs_not_terminal in Hl. tauto.
    + exact Hk.
    + apply (same_except_keeps _ Hnd) in Hse.
      eapply Forall2_weaken_In; [exact Hse|].
      intros a b _ H Ht. apply H. rewrite Ht. reflexivity.
  - destruct (pass_today_spec_any granted fault env p now t n)
      as (Hk & Hse & _).
    cbv zeta in *. split; [|split].
    + apply Forall_forall. intros l Hl. unfold open_legs_of in Hl.
      apply filter_In in Hl as [_ Hl].
      apply andb_true_iff in Hl as [Hl _]. apply negb_true_iff in Hl.
      exact Hl.
    + exact Hk.
    + apply (same_except_keeps _ Hnd) in Hse.
      eapply Forall2_weaken_In; [exact Hse|].
      intros a b _ H Ht. apply H. rewrite Ht. reflexivity.
  - intros guest w Hg Hst. split.
    + intros Hn. apply no_data_split in Hn as [Hr|He].
      * destruct (refresh_raises env p now guest w Hg Hr) as (w' & E & _ & Hc).
        rewrite (past_on_time_terminal now guest Hst) in E, Hc.
        exists w'. auto.
      * rewrite (refresh_empty env p now no_fault guest w Hg He).
        eexists. split; reflexivity.
    + intros flight st Hf Hs.
      exact (refresh_overwrites env p now guest w Hg Hf Hs).
Qed.

(** Witness of C3: a pass over one Landed and one On Time leg, with a
    provider that reports every flight cancelled. *)
Lemma terminal_sticky_in_pass_witness :
  NoDup (map LegStore.leg_id
           (LegStore.flight_legs
              (Sample.store [Sample.leg 1 1 Landed Sample.new_year;
                             Sample.leg 2 1 OnTime Sample.next_noon]))) /\
  Forall2 (fun l l' => LegStore.terminal (LegStore.status l) = true -> l' = l)
    [Sample.leg 1 1 Landed Sample.new_year;
     Sample.leg 2 1 OnTime Sample.next_noon]
    (LegStore.flight_legs
       (committed
          (db (snd (LegStore.updateFlightStatuses true no_fault None
                      (Sample.always
                         (Sample.answer (Sample.flight_with "cancelled" None)))
                      (start (Sample.store
                                [Sample.leg 1 1 Landed Sample.new_year;
                                 Sample.leg 2 1 OnTime Sample.next_noon])
                             3)))))).
Proof.
  assert (Hnd : NoDup (map LegStore.leg_id
           (LegStore.flight_legs
              (Sample.store [Sample.leg 1 1 Landed Sample.new_year;
                             Sample.leg 2 1 OnTime Sample.next_noon])))).
  { simpl. repeat constructor; simpl; intuition discriminate. }
  split; [exact Hnd|].
  destruct (terminal_sticky_in_pass true no_fault None
              (Sample.always (Sample.answer (Sample.flight_with "cancelled" None)))
              Sample.next_noon
              (Sample.store [Sample.leg 1 1 Landed Sample.new_year;
                             Sample.leg 2 1 OnTime Sample.next_noon])
              3 Hnd) as ((_ & _ & H) & _).
  exact H.
Defined.

(* ===================================================================== *)
(** ** C7: the resolver when the lookup gives nothing                     *)
(* ===================================================================== *)

(** C7, counterexample.  The endpoint GET /api/flight-status of
    src/server.js answers the concrete status On Time when the credential
    is missing, when the request fails, and when the result set is empty;
    without a credential it makes no request. *)
Lemma endpoint_guesses_on_time :
  SingleTable.flight_status_handler None (Sample.always AxiosError)
    (Some "100") (Some "XY") (start (@nil SingleTable.guest_row) 1)
  = (Ok (SingleTable.StatusJson OnTime), start [] 1) /\
  fst (SingleTable.flight_status_handler (Some "key")
         (Sample.always AxiosError) (Some "100") (Some "XY")
         (start (@nil SingleTable.guest_row) 1))
  = Ok (SingleTable.StatusJson OnTime) /\
  fst (SingleTable.flight_status_handler (Some "key")
         (Sample.always Sample.no_flights) (Some "100") (Some "XY")
         (start (@nil SingleTable.guest_row) 1))
  = Ok (SingleTable.StatusJson OnTime).
Proof.
  repeat apply conj; reflexivity.
Qed.

Lemma truthy_false_not o : truthy o = false -> negb (truthy o) = true.
Proof. intros ->. reflexivity. Qed.

(** C7, amended.  [fetchFlightStatus] of part_001 never throws; it returns
    null, without a request, when the credential is missing or empty, and
    returns null when the request fails or times out, when the response
    has no body, and when the result set is missing, empty or starts with
    null; it returns a status only for the first flight of a non-empty
    result set.  [fetchFlightStatus] of part_000 does the same except that
    it has no credential check.  The endpoint GET /api/flight-status of
    src/server.js answers On Time in all those cases. *)
Theorem resolver_unavailable T env p flightNumber airline date (w : world T) :
  ((exists r w',
      LegStoreToday.fetchFlightStatus env p flightNumber airline date w
      = (Ok r, w')) /\
   (truthy env = false ->
    LegStoreToday.fetchFlightStatus env p flightNumber airline date w
    = (Ok None, w)) /\
   (no_data (p (List.length (calls w))
               (LegStoreToday.lookup_request env flightNumber airline date)) ->
    fst (LegStoreToday.fetchFlightStatus env p flightNumber airline date w)
    = Ok None) /\
   (forall st,
      fst (LegStoreToday.fetchFlightStatus env p flightNumber airline date w)
      = Ok (Some st) ->
      truthy env = true /\
      exists flight,
        first_flight
          (p (List.length (calls w))
             (LegStoreToday.lookup_request env flightNumber airline date))
        = Some flight /\ st = LegStore.status_of flight))
  /\
  ((exists r w',
      LegStore.fetchFlightStatus env p flightNumber airline date w
      = (Ok r, w')) /\
   (no_data (p (List.length (calls w))
               (LegStore.lookup_request env flightNumber airline date)) ->
    fst (LegStore.fetchFlightStatus env p flightNumber airline date w)
    = Ok None) /\
   (forall st,
      fst (LegStore.fetchFlightStatus env p flightNumber airline date w)
      = Ok (Some st) ->
      exists flight,
        first_flight
          (p (List.length (calls w))
             (LegStore.lookup_request env flightNumber airline date))
        = Some flight /\ st = LegStore.status_of flight))
  /\
  (forall flight airline' (w' : world SingleTable.tables),
     truthy flight = true -> truthy airline' = true ->
     truthy env = false \/
     no_data (p (List.length (calls w'))
                {| access_key := env;
                   flight_iata := String.append (tmpl airline') (tmpl flight);
                   flight_date := None; limit := Some 1;
                   timeout := Some 5000 |}) ->
     fst (SingleTable.flight_status_handler env p flight airline' w')
     = Ok (SingleTable.StatusJson OnTime)).
Proof.
  split; [|split].
  - rewrite fetch_today_spec. destruct (truthy env) eqn:He; simpl.
    + repeat apply conj.
      * eauto.
      * discriminate.
      * intros Hn. apply no_data_first_flight in Hn. rewrite Hn. reflexivity.
      * intros st Hst. split; [reflexivity|].
        destruct (first_flight _) as [flight|]; simpl in Hst;
          [|discriminate].
        exists flight. split; [reflexivity|]. congruence.
    + repeat apply conj.
      * eauto.
      * reflexivity.
      * reflexivity.
      * discriminate.
  - rewrite fetch_spec. simpl. repeat apply conj.
    + eauto.
    + intros Hn. apply no_data_first_flight in Hn. rewrite Hn. reflexivity.
    + intros st Hst.
      destruct (first_flight _) as [flight|]; simpl in Hst; [|discriminate].
      exists flight. split; [reflexivity|]. congruence.
  - intros flight airline' w' Hf Ha H.
    unfold SingleTable.flight_status_handler. rewrite Hf, Ha. simpl.
    unfold try_catch. destruct (truthy env) eqn:He; simpl.
    + destruct H as [H|H]; [discriminate|].
      rewrite bind_unfold. unfold axios_get.
      destruct (p _ _) as [|[b|]]; simpl in *; try reflexivity.
      destruct (body_data b) as [[|[f|] l]|]; simpl in *;
        try reflexivity; contradiction.
    + reflexivity.
Qed.

(** Witness of C7. *)
Lemma resolver_unavailable_witness :
  LegStoreToday.fetchFlightStatus None (Sample.always AxiosError)
    "100" (Some "XY") 19723 (start tt 1) = (Ok None, start tt 1) /\
  fst (LegStoreToday.fetchFlightStatus (Some "key")
         (Sample.always AxiosError) "100" (Some "XY") 19723 (start tt 1))
  = Ok None /\
  fst (LegStore.fetchFlightStatus None
         (Sample.always Sample.no_flights) "100" (Some "XY") 19723
         (start tt 1))
  = Ok None /\
  fst (SingleTable.flight_status_handler (Some "key")
         (Sample.always Sample.no_flights) (Some "100") (Some "XY")
         (start [] 1))
  = Ok (SingleTable.StatusJson OnTime).
Proof.
  repeat apply conj.
  - destruct (resolver_unavailable None (Sample.always AxiosError)
                "100" (Some "XY") 19723 (start tt 1)) as ((_ & H & _) & _).
    exact (H eq_refl).
  - destruct (resolver_unavailable (Some "key") (Sample.always AxiosError)
                "100" (Some "XY") 19723 (start tt 1)) as ((_ & _ & H & _) & _).
    exact (H I).
  - destruct (resolver_unavailable None (Sample.always Sample.no_flights)
                "100" (Some "XY") 19723 (start tt 1)) as (_ & (_ & H & _) & _).
    exact (H I).
  - destruct (resolver_unavailable (Some "key")
                (Sample.always Sample.no_flights)
                "100" (Some "XY") 19723 (start tt 1)) as (_ & _ & H).
    apply H; [reflexivity|reflexivity|right; exact I].
Defined.

(* ===================================================================== *)
(** ** C9: the legs a pass covers                                         *)
(* ===================================================================== *)

(** C9, counterexample.  A pass of part_001 at noon of 2 January 2024,
    with a credential, over a store whose only leg is On Time and arrives
    on 1 January: the pass makes no request, the leg is skipped. *)
Lemma pass_skips_other_days :
  open_legs (Sample.store [Sample.leg 1 1 OnTime Sample.new_year])
  = [Sample.leg 1 1 OnTime Sample.new_year] /\
  LegStoreToday.updateFlightStatuses true no_fault (Some "key")
    (Sample.always (Sample.answer (Sample.flight_with "landed" None)))
    Sample.next_noon
    (start (Sample.store [Sample.leg 1 1 OnTime Sample.new_year]) 2)
  = (Ok tt,
     {| db := {| committed :=
                   Sample.store [Sample.leg 1 1 OnTime Sample.new_year];
                 txn := None; seq := 2; issued := 1;
                 observed :=
                   [Sample.store [Sample.leg 1 1 OnTime Sample.new_year]] |};
        calls := [] |}).
Proof.
  split; reflexivity.
Qed.

(** C9, amended.  Without store failures, the connection of the pool
    included, a pass of part_000 makes exactly one provider request for
    every leg that is neither Landed nor Cancelled, whatever its arrival
    date; a pass of part_001 makes one for
    every such leg whose arrival date is the current date when the
    credential is configured, and none otherwise: the legs of other days
    are skipped. *)
Theorem pass_coverage env p now t n :
  (calls (snd (LegStore.updateFlightStatuses true no_fault env p (start t n)))
   = map (request_of env) (open_legs t) /\
   forall l, In l (LegStore.flight_legs t) ->
             LegStore.terminal (LegStore.status l) = false ->
             In (request_of env l)
                (calls (snd (LegStore.updateFlightStatuses true no_fault env p
                               (start t n)))))
  /\
  (truthy env = true ->
   calls (snd (LegStoreToday.updateFlightStatuses true no_fault env p now
                 (start t n)))
   = map (request_today_of env) (open_legs_of (iso_date now) t))
  /\
  (truthy env = false ->
   calls (snd (LegStoreToday.updateFlightStatuses true no_fault env p now
                 (start t n))) = []).
Proof.
  split; [|split].
  - destruct (pass_spec no_fault env p t n) as (_ & _ & _ & Hnf).
    destruct (Hnf eq_refl) as [_ Hc]. cbv zeta in Hc. split; [exact Hc|].
    intros l Hl Ht. rewrite Hc. apply in_map.
    apply open_legs_not_terminal. auto.
  - intros He.
    destruct (pass_today_spec no_fault env p now t n) as (_ & _ & _ & _ & Hnf).
    cbv zeta in Hnf. rewrite (Hnf eq_refl), He. apply flat_map_single.
  - intros He.
    destruct (pass_today_spec no_fault env p now t n) as (_ & _ & _ & _ & Hnf).
    cbv zeta in Hnf. rewrite (Hnf eq_refl), He. apply flat_map_none.
Qed.

(** Witness of C9. *)
Lemma pass_coverage_witness :
  calls (snd (LegStoreToday.updateFlightStatuses true no_fault (Some "key")
                (Sample.always Sample.no_flights) Sample.next_noon
                (start (Sample.store
                          [Sample.leg 1 1 OnTime Sample.new_year;
                           Sample.leg 2 1 OnTime Sample.next_noon]) 3)))
  = [request_today_of (Some "key") (Sample.leg 2 1 OnTime Sample.next_noon)] /\
  In (request_of None (Sample.leg 1 1 OnTime Sample.new_year))
     (calls (snd (LegStore.updateFlightStatuses true no_fault None
                    (Sample.always Sample.no_flights)
                    (start (Sample.store
                              [Sample.leg 1 1 OnTime Sample.new_year;
                               Sample.leg 2 1 OnTime Sample.next_noon]) 3)))).
Proof.
  split.
  - destruct (pass_coverage (Some "key") (Sample.always Sample.no_flights)
                Sample.next_noon
                (Sample.store [Sample.leg 1 1 OnTime Sample.new_year;
                               Sample.leg 2 1 OnTime Sample.next_noon]) 3)
      as (_ & H & _).
    exact (H eq_refl).
  - destruct (pass_coverage None (Sample.always Sample.no_flights)
                Sample.next_noon
                (Sample.store [Sample.leg 1 1 OnTime Sample.new_year;
                               Sample.leg 2 1 OnTime Sample.next_noon]) 3)
      as ((_ & H) & _).
    apply H; [simpl; auto|reflexivity].
Defined.

(* ===================================================================== *)
(** ** Transactions                                                       *)
(* ===================================================================== *)

Section TransactionFacts.

Variable T : Type.
Variable fault : nat -> bool.

Lemma BEGIN_inv (w : world T) r w' :
  BEGIN fault w = (r, w') ->
  calls w' = calls w /\
  committed (db w') = committed (db w) /\
  observed (db w') = observed (db w) ++ [committed (db w)] /\
  seq (db w') = seq (db w) /\
  ((r = Throw /\ txn (db w') = txn (db w)) \/
   (r = Ok tt /\ txn (db w') = Some (current (db w)))).
Proof.
  unfold BEGIN, on_db, run_begin.
  destruct (fault (issued (db w))); intros E; inversion E; subst; simpl;
    repeat split; auto.
Qed.

Lemma COMMIT_inv (w : world T) r w' :
  COMMIT fault w = (r, w') ->
  calls w' = calls w /\
  ((r = Throw /\ committed (db w') = committed (db w) /\
    txn (db w') = txn (db w) /\
    observed (db w') = observed (db w) ++ [committed (db w)]) \/
   (r = Ok tt /\ committed (db w') = current (db w) /\
    txn (db w') = None /\
    observed (db w') = observed (db w) ++ [current (db w)])).
Proof.
  unfold COMMIT, on_db, run_commit.
  destruct (fault (issued (db w))); intros E; inversion E; subst; simpl;
    (split; [reflexivity|]); [left|right]; auto.
Qed.

Lemma ROLLBACK_inv (w : world T) r w' :
  ROLLBACK fault w = (r, w') ->
  calls w' = calls w /\
  committed (db w') = committed (db w) /\
  observed (db w') = observed (db w) ++ [committed (db w)] /\
  ((r = Throw /\ txn (db w') = txn (db w)) \/
   (r = Ok tt /\ txn (db w') = None)).
Proof.
  unfold ROLLBACK, on_db, run_rollback.
  destruct (fault (issued (db w))); intros E; inversion E; subst; simpl;
    repeat split; auto.
Qed.

Lemma untouched_step (t : T) (c c' : conn T) :
  untouched t c ->
  committed c' = t ->
  observed c' = observed c ++ [t] ->
  untouched t c'.
Proof.
  intros [Hc Ho] Hc' Ho'. split; [exact Hc'|].
  rewrite Ho'. apply Forall_app. split; [exact Ho|]. constructor; auto.
Qed.

(** Inside a transaction a statement, failed or not, shows readers
    nothing new. *)
Lemma query_untouched R draws (stmt : Z -> T -> option (R * T))
      (t : T) (w : world T) r w' :
  untouched t (db w) ->
  txn (db w) <> None ->
  query fault draws stmt w = (r, w') ->
  untouched t (db w') /\ txn (db w') <> None.
Proof.
  intros Hu Ht E.
  apply query_inv in E as (_ & Htx & Ho & _ & Hcases).
  assert (Hc : committed (db w') = t).
  { destruct Hu as [Hc _].
    destruct Hcases as [(_ & _ & H)|(x & t' & _ & _ & _ & _ & _ & H)].
    - congruence.
    - destruct (txn (db w)); congruence. }
  split; [|tauto].
  eapply untouched_step; eauto. rewrite Ho, Hc. reflexivity.
Qed.

End TransactionFacts.

(* ===================================================================== *)
(** ** PUT /api/guests/:id of part_000: replacing the legs                *)
(* ===================================================================== *)

Lemma with_legs_app_nil t :
  LegStore.with_legs t (LegStore.flight_legs t ++ []) = t.
Proof. destruct t. unfold LegStore.with_legs. simpl. rewrite app_nil_r. reflexivity. Qed.

Section Replace.

Variable fault : nat -> bool.
Variable id : Z.
Variable t : LegStore.tables.

(** The INSERT loop inside the transaction: readers see nothing; when
    it completes, the rows of all the elements have been appended, and
    the guest exists if there was an element at all. *)
Lemma insert_legs_spec legs : forall i (w : world LegStore.tables) r w',
  untouched t (db w) ->
  txn (db w) <> None ->
  LegStore.insert_legs fault id i legs w = (r, w') ->
  untouched t (db w') /\ txn (db w') <> None /\
  (r = Ok tt ->
   exists rows,
     stored_from id i legs rows /\
     current (db w') =
       LegStore.with_legs (current (db w))
         (LegStore.flight_legs (current (db w)) ++ rows) /\
     (legs <> [] -> LegStore.has_guest id (current (db w)) = true)).
Proof.
  induction legs as [|leg legs IH]; intros i w r w' Hu Ht E.
  - simpl in E. inversion E; subst.
    split; [assumption|]. split; [assumption|].
    intros _. exists []. simpl. rewrite with_legs_app_nil.
    split; [exact I|]. split; [reflexivity|]. congruence.
  - simpl in E. rewrite bind_unfold in E.
    destruct leg as [leg|];
      [|inversion E; subst; split; [assumption|];
        split; [assumption|]; discriminate].
    destruct (query fault true (LegStore.insert_leg id leg i) w)
      as [r1 w1] eqn:E1.
    destruct (query_untouched fault _ _ _ Hu Ht E1) as [Hu1 Ht1].
    apply query_inv in E1 as (_ & _ & _ & _ & Hcases).
    destruct Hcases as [(-> & _)|(x & t' & -> & Hs & _ & Hcur & _)].
    + inversion E; subst.
      split; [assumption|]. split; [assumption|]. discriminate.
    + destruct (IH (i + 1) w1 r w' Hu1 Ht1 E) as (Hu' & Ht' & Hok).
      split; [assumption|]. split; [assumption|]. intros Hr.
      destruct (Hok Hr) as (rows & Hst & Hc & _).
      unfold LegStore.insert_leg in Hs.
      destruct (LegStore.in_flight leg) as [f|] eqn:Ef; [|discriminate].
      destruct (LegStore.in_origin leg) as [o|] eqn:Eo; [|discriminate].
      destruct (LegStore.in_destination leg) as [d|] eqn:Ed; [|discriminate].
      destruct (LegStore.in_eta leg) as [e|] eqn:Ee; [|discriminate].
      destruct (LegStore.has_guest id (current (db w))) eqn:Eg;
        [|discriminate].
      injection Hs as _ <-.
      exists ({| LegStore.leg_id := seq (db w); LegStore.leg_guest := id;
                 LegStore.flight_number := f;
                 LegStore.airline := LegStore.in_airline leg;
                 LegStore.origin := o; LegStore.destination := d;
                 LegStore.eta := e;
                 LegStore.status := or_else (LegStore.in_status leg) OnTime;
                 LegStore.leg_order := i |} :: rows).
      split; [|split].
      * simpl. split; [|exact Hst].
        unfold stored_as. simpl. rewrite Ef, Eo, Ed, Ee.
        repeat apply conj; reflexivity.
      * rewrite Hc, Hcur. unfold LegStore.with_legs. simpl.
        rewrite <- app_assoc. reflexivity.
      * intros _. reflexivity.
Qed.

Variable body : LegStore.put_body.

Lemma has_guest_update nm dest feta gs :
  existsb (fun g => LegStore.guest_id g =? id)
    (map (fun g => if LegStore.guest_id g =? id
                   then {| LegStore.guest_id := LegStore.guest_id g;
                           LegStore.name := nm;
                           LegStore.final_destination := dest;
                           LegStore.final_eta := feta;
                           LegStore.car_assigned :=
                             LegStore.car_assigned g |}
                   else g) gs)
  = existsb (fun g => LegStore.guest_id g =? id) gs.
Proof.
  induction gs as [|g gs IH]; simpl; [reflexivity|].
  rewrite IH. destruct (LegStore.guest_id g =? id) eqn:E; simpl.
  - rewrite E. reflexivity.
  - rewrite E. reflexivity.
Qed.


Lemma stored_from_empty i legs rows :
  stored_from id i legs rows -> legs = [] -> rows = [].
Proof. intros H ->. destruct rows; simpl in H; [reflexivity|contradiction]. Qed.

(** The statements after BEGIN, run inside the transaction: either
    something threw and readers still see [t] only, or everything
    including COMMIT went through and the replacement is what readers
    see from then on. *)
Lemma rest_spec (w : world LegStore.tables) r w' :
  untouched t (db w) ->
  txn (db w) = Some t ->
  LegStore.replace_legs fault id body w = (r, w') ->
  (r = Throw /\ untouched t (db w')) \/
  (r = Ok LegStore.Success /\
   replaced id t body (committed (db w')) /\
   txn (db w') = None /\
   exists obs, observed (db w') = obs ++ [committed (db w')] /\
               Forall (fun s => s = t) obs).
Proof.
  intros Hu Ht E. unfold LegStore.replace_legs in E.
  rewrite bind_unfold in E.
  assert (Hcur0 : current (db w) = t) by (unfold current; rewrite Ht; auto).
  assert (Htx : txn (db w) <> None) by congruence.
  unfold LegStore.final_leg in E.
  destruct (LegStore.body_legs body) as [v|] eqn:El;
    [|injection E as <- <-; left; auto].
  destruct (LegStore.final_element v) as [finalLeg|] eqn:Er;
    [|injection E as <- <-; left; auto].
  unfold ret at 1 in E. rewrite bind_unfold in E.
  (* UPDATE guests *)
  match type of E with
  | context [query fault false ?s w] =>
      destruct (query fault false s w) as [r1 w1] eqn:E1
  end.
  destruct (query_untouched fault _ _ _ Hu Htx E1) as [Hu1 Ht1].
  apply query_inv in E1 as (_ & _ & _ & _ & Hcases).
  destruct Hcases as [(-> & _)|(x1 & t1 & -> & Hs1 & _ & Hcur1 & _)];
    [injection E as <- <-; left; auto|].
  rewrite Hcur0 in Hs1. rewrite bind_unfold in E.
  (* DELETE FROM flight_legs *)
  destruct (query fault false (LegStore.delete_legs id) w1)
    as [r2 w2] eqn:E2.
  destruct (query_untouched fault _ _ _ Hu1 Ht1 E2) as [Hu2 Ht2].
  apply query_inv in E2 as (_ & _ & _ & _ & Hcases).
  destruct Hcases as [(-> & _)|(x2 & t2 & -> & Hs2 & _ & Hcur2 & _)];
    [injection E as <- <-; left; auto|].
  rewrite Hcur1 in Hs2. unfold LegStore.delete_legs in Hs2.
  injection Hs2 as _ <-. rewrite bind_unfold in E.
  (* INSERT loop *)
  destruct (LegStore.insert_legs fault id 0 (LegStore.elements v) w2)
    as [r3 w3] eqn:E3.
  destruct (insert_legs_spec (LegStore.elements v) 0 w2 Hu2 Ht2 E3)
    as (Hu3 & Ht3 & Hok3).
  destruct r3 as [[]|]; [|injection E as <- <-; left; auto].
  destruct (Hok3 eq_refl) as (rows & Hst & Hcur3 & Hhas).
  rewrite Hcur2 in Hcur3, Hhas.
  rewrite bind_unfold in E.
  (* COMMIT *)
  destruct (COMMIT fault w3) as [r4 w4] eqn:E4.
  apply COMMIT_inv in E4 as (_ & Hcases).
  destruct Hcases as [(-> & Hc4 & _ & Ho4)|(-> & Hc4 & Ht4 & Ho4)].
  - injection E as <- <-. left. split; [reflexivity|].
    destruct Hu3 as [Hc3 Ho3].
    eapply untouched_step; [split; eassumption|congruence|].
    rewrite Ho4, Hc3. reflexivity.
  - injection E as <- <-. right. split; [reflexivity|].
    split; [|split; [exact Ht4|]].
    + rewrite Hc4, Hcur3.
      unfold LegStore.update_guest in Hs1.
      destruct (LegStore.body_name body) as [nm|] eqn:En.
      * injection Hs1 as _ Ht1eq. rewrite <- Ht1eq in *.
        unfold LegStore.has_guest in Hhas |- *. simpl in Hhas.
        rewrite has_guest_update in Hhas.
        exists v, finalLeg, rows. unfold renamed. rewrite En. simpl.
        repeat apply conj; try reflexivity; try assumption.
        -- intros _. exists nm. reflexivity.
        -- intros Hno.
           destruct (LegStore.elements v) as [|e es] eqn:Ee;
             [eapply stored_from_empty; eauto|].
           specialize (Hhas ltac:(discriminate)).
           unfold LegStore.has_guest in Hno. congruence.
      * destruct (LegStore.has_guest id t) eqn:Eg; [discriminate|].
        injection Hs1 as _ Ht1eq. rewrite <- Ht1eq in *.
        exists v, finalLeg, rows. unfold renamed. rewrite En, Eg. simpl.
        repeat apply conj; try reflexivity; try assumption.
        -- discriminate.
        -- intros _.
           destruct (LegStore.elements v) as [|e es] eqn:Ee;
             [eapply stored_from_empty; eauto|].
           specialize (Hhas ltac:(discriminate)).
           unfold LegStore.has_guest in Hhas, Eg. simpl in Hhas.
           congruence.
    + exists (observed (db w3)). destruct Hu3 as [_ Ho3].
      rewrite Ho4, Hc4. auto.
Qed.

Lemma stored_from_guest legs : forall i rows,
  stored_from id i legs rows ->
  Forall (fun row => LegStore.leg_guest row = id) rows.
Proof.
  induction legs as [|[leg|] legs IH]; intros i [|row rows] H; simpl in H;
    try contradiction; constructor.
  - destruct H as [(Hg & _) _]. exact Hg.
  - destruct H as [_ H]. eapply IH; eauto.
Qed.


(** The try block and its catch, from a fresh connection. *)
Lemma try_spec n r w' :
  try_catch (BEGIN fault ;;; LegStore.replace_legs fault id body)
            (ROLLBACK fault ;;; ret LegStore.Error500) (start t n) = (r, w') ->
  ((r = Throw \/ (r = Ok LegStore.Error500 /\ txn (db w') = None)) /\
   untouched t (db w')) \/
  (r = Ok LegStore.Success /\
   replaced id t body (committed (db w')) /\
   txn (db w') = None /\
   exists obs, observed (db w') = obs ++ [committed (db w')] /\
               Forall (fun s => s = t) obs).
Proof.
  unfold try_catch. rewrite bind_unfold.
  assert (Hcatch : forall w1 r1 w2,
            untouched t (db w1) ->
            (ROLLBACK fault ;;; ret LegStore.Error500) w1 = (r1, w2) ->
            (r1 = Throw \/
             (r1 = Ok LegStore.Error500 /\ txn (db w2) = None)) /\
            untouched t (db w2)).
  { intros w1 r1 w2 Hu E. rewrite bind_unfold in E.
    destruct (ROLLBACK fault w1) as [r0 w0] eqn:ER.
    apply ROLLBACK_inv in ER as (_ & Hc & Ho & Hr).
    assert (Hu0 : untouched t (db w0)).
    { destruct Hu as [Hct Hot].
      eapply untouched_step; [split; eassumption|congruence|].
      rewrite Ho, Hct. reflexivity. }
    destruct Hr as [[-> _] | [-> Hno]]; injection E as <- <-; split; auto. }
  destruct (BEGIN fault (start t n)) as [rB wB] eqn:EB.
  apply BEGIN_inv in EB as (_ & Hc & Ho & _ & Hcases).
  simpl in Hc, Ho.
  assert (HuB : untouched t (db wB)).
  { split; [exact Hc|]. rewrite Ho. repeat constructor. }
  destruct Hcases as [(-> & _)|(-> & HtB)].
  - intros E. left. eapply Hcatch; eauto.
  - change (current (db (start t n))) with t in HtB.
    destruct (LegStore.replace_legs fault id body wB) as [[x|] w1] eqn:ER.
    + destruct (rest_spec wB HuB HtB ER)
        as [(Hr & _)|(Hr & Hrep & Hno & Hobs)]; [discriminate|].
      intros E. injection E as <- <-. right. auto.
    + destruct (rest_spec wB HuB HtB ER)
        as [(_ & Hu1)|(Hr & _)]; [|discriminate].
      intros E. left. eapply Hcatch; eauto.
Qed.

(** The handler as a whole: without a connection it rejects before it
    issues a statement; it gives a reply only after COMMIT or ROLLBACK
    went through, which leaves no transaction open. *)
Lemma put_guest_spec granted n :
  let res := LegStore.put_guest granted fault id body (start t n) in
  let final := committed (db (snd res)) in
  (fst res <> Ok LegStore.Success -> final = t) /\
  (fst res = Ok LegStore.Success -> replaced id t body final) /\
  Forall (fun s => s = t \/ s = final) (observed (db (snd res))) /\
  (fst res = Throw \/
   ((fst res = Ok LegStore.Success \/ fst res = Ok LegStore.Error500) /\
    txn (db (snd res)) = None)).
Proof.
  destruct granted;
    [|cbv zeta; simpl; repeat apply conj; auto; discriminate].
  unfold LegStore.put_guest. rewrite connect_granted, finally_release.
  cbv zeta. simpl.
  match goal with
  | |- context [try_catch ?a ?b (start t n)] =>
      destruct (try_catch a b (start t n)) as [r w'] eqn:E
  end.
  simpl. apply try_spec in E.
  destruct E as [(Hr & Hc & Ho)|(-> & Hrep & Hno & obs & Ho & Hobs)].
  - repeat apply conj; auto.
    + intros H. destruct Hr as [->|[-> _]]; discriminate.
    + eapply Forall_impl; [|exact Ho]. simpl. auto.
    + destruct Hr as [->|[-> Hno]]; auto.
  - repeat apply conj; auto.
    + intros H. congruence.
    + rewrite Ho. apply Forall_app. split.
      * eapply Forall_impl; [|exact Hobs]. simpl. auto.
      * constructor; auto.
Qed.

End Replace.

(* ===================================================================== *)
(** ** C6: replacing the legs of a guest is atomic                        *)
(* ===================================================================== *)




(* ===================================================================== *)
(** ** C8: a guest id that does not exist                                 *)
(* ===================================================================== *)

(** C8, counterexample.  DELETE /api/guests/:id of part_000 for the id 7,
    which the store does not have, replies with success and changes
    nothing. *)
Lemma delete_missing_guest_succeeds :
  LegStore.has_guest 7 Sample.two_legs = false /\
  fst (LegStore.delete_guest_handler true no_fault 7 (start Sample.two_legs 3))
  = Ok LegStore.Success /\
  committed
    (db (snd (LegStore.delete_guest_handler true no_fault 7
                (start Sample.two_legs 3))))
  = Sample.two_legs.
Proof.
  repeat apply conj; reflexivity.
Qed.

Lemma filter_none A (f : A -> bool) (l : list A) :
  existsb f l = false -> filter (fun x => negb (f x)) l = l.
Proof.
  induction l as [|x l IH]; simpl; [reflexivity|].
  intros H. apply orb_false_iff in H as [Hx Hl].
  rewrite Hx. simpl. rewrite IH; auto.
Qed.

Lemma filter_nothing A (f : A -> bool) (l : list A) :
  existsb f l = false -> filter f l = [].
Proof.
  induction l as [|x l IH]; simpl; [reflexivity|].
  intros H. apply orb_false_iff in H as [Hx Hl].
  rewrite Hx. auto.
Qed.

Lemma renamed_missing id nm finalLeg gs :
  existsb (fun g => LegStore.guest_id g =? id) gs = false ->
  renamed id nm finalLeg gs = gs.
Proof.
  intros H. destruct nm as [n|]; [|reflexivity]. simpl.
  induction gs as [|g gs IH]; simpl; [reflexivity|].
  simpl in H. apply orb_false_iff in H as [Hg Hgs].
  rewrite Hg, IH; auto.
Qed.

Lemma stored_by_no_row id i legs : stored_from id i legs [] -> legs = [].
Proof. destruct legs as [|[leg|] legs]; simpl; tauto. Qed.

Lemma legs_of_missing_guest id t :
  references_valid t ->
  LegStore.has_guest id t = false ->
  filter (fun l => negb (LegStore.leg_guest l =? id)) (LegStore.flight_legs t)
  = LegStore.flight_legs t.
Proof.
  intros [Hlegs _] Hno.
  induction Hlegs as [|l ls Hl _ IH]; simpl; [reflexivity|].
  destruct (LegStore.leg_guest l =? id) eqn:E.
  - apply Z.eqb_eq in E. congruence.
  - simpl. rewrite IH. reflexivity.
Qed.

(** C8, amended.  In src/server.js (second document) an update or a
    delete that names a guest id the table does not have replies 404
    Guest not found and changes nothing, when the store runs the
    statement.  In part_000 a delete that names such an id replies with
    success and leaves the guests as they are (a silent no-op), when the
    pool gives the connection and the store runs the statement.  An
    update of part_000 that names such an id never replies success when
    its legs have an element for the loop, as every array that is not
    empty has; without a success reply the tables are as they were; a
    success reply is given only to a legs value with a final element and
    no element for the loop, and leaves the guests, and with valid
    references all the tables, as they were (a silent no-op as well). *)
Theorem missing_guest_replies fault :
  (forall gid b t n,
     existsb (fun g => SingleTable.id g =? gid) t = false ->
     fault 0%nat = false ->
     fst (SingleTable.put_guest fault gid b (start t n))
     = Ok SingleTable.NotFound404 /\
     committed (db (snd (SingleTable.put_guest fault gid b (start t n)))) = t /\
     fst (SingleTable.delete_guest_handler fault gid (start t n))
     = Ok SingleTable.NotFound404 /\
     committed (db (snd (SingleTable.delete_guest_handler fault gid
                           (start t n)))) = t)
  /\
  (forall id body t n,
     LegStore.has_guest id t = false ->
     (fault 0%nat = false ->
      fst (LegStore.delete_guest_handler true fault id (start t n))
      = Ok LegStore.Success /\
      LegStore.guests
        (committed (db (snd (LegStore.delete_guest_handler true fault id
                               (start t n)))))
      = LegStore.guests t) /\
     (forall granted,
        (has_element body ->
         fst (LegStore.put_guest granted fault id body (start t n))
         <> Ok LegStore.Success) /\
        (fst (LegStore.put_guest granted fault id body (start t n))
         <> Ok LegStore.Success ->
         committed
           (db (snd (LegStore.put_guest granted fault id body (start t n))))
         = t) /\
        (fst (LegStore.put_guest granted fault id body (start t n))
         = Ok LegStore.Success ->
         (exists v leg,
            LegStore.body_legs body = Some v /\
            LegStore.final_element v = Some leg /\
            LegStore.elements v = []) /\
         LegStore.guests
           (committed
              (db (snd (LegStore.put_guest granted fault id body
                          (start t n)))))
         = LegStore.guests t /\
         (references_valid t ->
          committed
            (db (snd (LegStore.put_guest granted fault id body (start t n))))
          = t)))).
Proof.
  split.
  - intros gid b t n Hno Hf.
    unfold SingleTable.put_guest, SingleTable.delete_guest_handler,
      try_catch, bind, query, on_db, run_stmt,
      SingleTable.update_guest, SingleTable.delete_guest.
    simpl. change (current (open t n)) with t.
    rewrite Hf, Hno. simpl.
    rewrite (filter_nothing _ _ Hno), (filter_none _ _ Hno). simpl. auto.
  - intros id body t n Hno. split; [|].
    + intros Hf.
      unfold LegStore.delete_guest_handler.
      rewrite connect_granted, finally_release.
      unfold try_catch, bind, query, on_db, run_stmt, LegStore.delete_guest.
      simpl. change (current (open t n)) with t. rewrite Hf. simpl.
      unfold LegStore.has_guest in Hno. rewrite (filter_none _ _ Hno). auto.
    + intros granted.
      destruct (put_guest_spec fault id t body granted n) as (Hfail & Hok & _).
      cbv zeta in Hfail, Hok.
      assert (Hshape :
        fst (LegStore.put_guest granted fault id body (start t n))
        = Ok LegStore.Success ->
        exists v leg,
          LegStore.body_legs body = Some v /\
          LegStore.final_element v = Some leg /\
          LegStore.elements v = [] /\
          LegStore.guests
            (committed
               (db (snd (LegStore.put_guest granted fault id body
                           (start t n)))))
          = LegStore.guests t /\
          LegStore.flight_legs
            (committed
               (db (snd (LegStore.put_guest granted fault id body
                           (start t n)))))
          = filter (fun l => negb (LegStore.leg_guest l =? id))
                   (LegStore.flight_legs t) /\
          LegStore.car_passengers
            (committed
               (db (snd (LegStore.put_guest granted fault id body
                           (start t n)))))
          = LegStore.car_passengers t).
      { intros E.
        destruct (Hok E)
          as (v & leg & rows & Hv & Hfin & Hg & Hl & Hst & _ & Hrows & Hcp).
        specialize (Hrows Hno). subst rows.
        apply stored_by_no_row in Hst.
        exists v, leg. rewrite app_nil_r in Hl.
        repeat apply conj; auto.
        rewrite Hg. apply renamed_missing. exact Hno. }
      split; [|split; [exact Hfail|]].
      * intros (v' & Hv' & Hne) E.
        destruct (Hshape E) as (v & leg & Hv & _ & Hnil & _).
        congruence.
      * intros E.
        destruct (Hshape E) as (v & leg & Hv & Hfin & Hnil & Hg & Hl & Hcp).
        split; [exists v, leg; auto|]. split; [exact Hg|].
        intros Href. rewrite (@legs_of_missing_guest _ _ Href Hno) in Hl.
        destruct (committed
                    (db (snd (LegStore.put_guest granted fault id body
                                (start t n))))) as [g' l' c'].
        destruct t as [g0 l0 c0]. simpl in *. congruence.
Qed.

(** Witness of C8. *)
Lemma missing_guest_replies_witness :
  has_element Sample.complete_body /\
  references_valid Sample.two_legs /\
  fst (SingleTable.delete_guest_handler no_fault 7 (start [] 1))
  = Ok SingleTable.NotFound404 /\
  fst (LegStore.delete_guest_handler true no_fault 7 (start Sample.two_legs 3))
  = Ok LegStore.Success /\
  committed (db (snd (LegStore.put_guest true no_fault 7 Sample.complete_body
                        (start Sample.two_legs 3)))) = Sample.two_legs /\
  fst (LegStore.put_guest true no_fault 7 Sample.hollow_body
         (start Sample.two_legs 3)) = Ok LegStore.Success /\
  committed (db (snd (LegStore.put_guest true no_fault 7 Sample.hollow_body
                        (start Sample.two_legs 3)))) = Sample.two_legs.
Proof.
  destruct (missing_guest_replies no_fault) as [H1 H2].
  assert (Hel : has_element Sample.complete_body).
  { eexists. split; [reflexivity|]. simpl. discriminate. }
  assert (Href : references_valid Sample.two_legs).
  { split; repeat constructor. }
  split; [exact Hel|]. split; [exact Href|].
  repeat apply conj.
  - destruct (H1 7 {| SingleTable.body_name := None;
                      SingleTable.body_flight := None;
                      SingleTable.body_airline := None;
                      SingleTable.body_airlineName := None;
                      SingleTable.body_origin := None;
                      SingleTable.body_eta := None;
                      SingleTable.body_status := None;
                      SingleTable.body_carAssigned := None |}
                [] 1 eq_refl eq_refl) as (_ & _ & H & _).
    exact H.
  - destruct (H2 7 Sample.complete_body Sample.two_legs 3 eq_refl)
      as (H & _).
    destruct (H eq_refl) as [H' _]. exact H'.
  - destruct (H2 7 Sample.complete_body Sample.two_legs 3 eq_refl)
      as (_ & H).
    destruct (H true) as (Hnever & Hback & _).
    apply Hback, Hnever, Hel.
  - reflexivity.
  - destruct (H2 7 Sample.hollow_body Sample.two_legs 3 eq_refl)
      as (_ & H).
    destruct (H true) as (_ & _ & Hsilent).
    destruct (Hsilent eq_refl) as (_ & _ & Hsame).
    apply Hsame, Href.
Defined.

(* ===================================================================== *)
(** ** The slices of a group                                              *)
(* ===================================================================== *)

Lemma slices_step A (a : list A) (i : nat) :
  slices a i =
  if lt_dec i (List.length a) then slice a i (i + 5) :: slices a (i + 5)
  else [].
Proof.
  rewrite slices_equation_1. destruct (lt_dec i (List.length a)); reflexivity.
Qed.

Lemma nth_error_nil_any A (j : nat) : nth_error (@nil A) j = None.
Proof. destruct j; reflexivity. Qed.

Lemma slices_spec A (a : list A) : forall n i,
  (List.length a - i <= n)%nat ->
  List.concat (slices a i) = skipn i a /\
  Forall (fun c => 1 <= List.length c <= 5)%nat (slices a i) /\
  (forall j, nth_error (slices a i) j =
             if (i + 5 * j <? List.length a)%nat
             then Some (firstn 5 (skipn (i + 5 * j) a))
             else None).
Proof.
  assert (Hout : forall i, ~ (i < List.length a)%nat ->
            List.concat (@nil (list A)) = skipn i a /\
            Forall (fun c => 1 <= List.length c <= 5)%nat (@nil (list A)) /\
            (forall j, nth_error (@nil (list A)) j =
                       if (i + 5 * j <? List.length a)%nat
                       then Some (firstn 5 (skipn (i + 5 * j) a))
                       else None)).
  { intros i H. rewrite skipn_all2 by lia.
    split; [reflexivity|]. split; [constructor|].
    intros j. rewrite nth_error_nil_any.
    destruct (Nat.ltb_spec (i + 5 * j) (List.length a)); [lia|reflexivity]. }
  induction n as [|n IH]; intros i Hn; rewrite slices_step;
    destruct (lt_dec i (List.length a)) as [H|H]; try lia;
    try (apply Hout; assumption).
  unfold slice. replace (i + 5 - i)%nat with 5%nat by lia.
  destruct (IH (i + 5)%nat ltac:(lia)) as (Hc & Hf & Hn').
  split; [|split].
  - change (List.concat (firstn 5 (skipn i a) :: slices a (i + 5)))
      with (firstn 5 (skipn i a) ++ List.concat (slices a (i + 5))).
    rewrite Hc. replace (i + 5)%nat with (5 + i)%nat by lia.
    rewrite <- skipn_skipn. apply firstn_skipn.
  - constructor; [|exact Hf].
    rewrite length_firstn, length_skipn. lia.
  - intros [|j].
    + replace (i + 5 * 0)%nat with i by lia.
      destruct (Nat.ltb_spec i (List.length a)); [reflexivity|lia].
    + change (nth_error (firstn 5 (skipn i a) :: slices a (i + 5)) (S j))
        with (nth_error (slices a (i + 5)) j).
      rewrite Hn'.
      replace (i + 5 + 5 * j)%nat with (i + 5 * S j)%nat by lia.
      reflexivity.
Qed.

(** The slices of a list, from its start: they partition the list in
    order, none is empty, none has more than five elements, and the slice
    number [j] holds the elements from [5 j] up to [5 j + 5]. *)
Lemma slices_partition A (a : list A) :
  List.concat (slices a 0) = a /\
  Forall (fun c => 1 <= List.length c <= 5)%nat (slices a 0) /\
  (forall j, nth_error (slices a 0) j =
             if (5 * j <? List.length a)%nat
             then Some (firstn 5 (skipn (5 * j) a))
             else None).
Proof.
  assert (H0 : (List.length a - 0 <= List.length a)%nat) by lia.
  destruct (slices_spec a 0 H0) as (Hc & Hf & Hn).
  repeat apply conj; auto.
Qed.

(** A list of one to five elements is one slice. *)
Lemma slices_small A (a : list A) :
  (1 <= List.length a <= 5)%nat -> slices a 0 = [a].
Proof.
  intros H. rewrite slices_step.
  destruct (lt_dec 0 (List.length a)) as [_|]; [|lia].
  rewrite slices_step.
  destruct (lt_dec (0 + 5) (List.length a)); [lia|].
  unfold slice. simpl skipn. rewrite firstn_all2 by lia. reflexivity.
Qed.


(* ===================================================================== *)
(** ** Grouping by flight                                                 *)
(* ===================================================================== *)

Section ObjectFacts.

Variable V : Type.

Lemma map_fst_set_own k (v : V) o : map fst (set_own k v o) = map fst o.
Proof.
  induction o as [|[k' v'] o IH]; simpl; [reflexivity|].
  destruct (String.eqb k' k); simpl; congruence.
Qed.

Lemma get_own_set_own k k' (v : V) o :
  get_own k (set_own k' v o) =
  if String.eqb k' k
  then match get_own k' o with Some _ => Some v | None => None end
  else get_own k o.
Proof.
  induction o as [|[k0 v0] o IH]; simpl.
  - destruct (String.eqb k' k); reflexivity.
  - destruct (String.eqb_spec k0 k') as [->|Hne]; simpl.
    + destruct (String.eqb k' k); reflexivity.
    + rewrite IH. destruct (String.eqb_spec k' k) as [->|Hne'].
      * apply String.eqb_neq in Hne. rewrite Hne. reflexivity.
      * reflexivity.
Qed.

Lemma get_own_app k k' (v : V) o :
  get_own k (o ++ [(k', v)]) =
  match get_own k o with
  | Some x => Some x
  | None => if String.eqb k' k then Some v else None
  end.
Proof.
  induction o as [|[k0 v0] o IH]; simpl; [reflexivity|].
  destruct (String.eqb k0 k); auto.
Qed.

Lemma get_own_none k (o : js_object V) :
  get_own k o = None <-> existsb (String.eqb k) (map fst o) = false.
Proof.
  induction o as [|[k0 v0] o IH]; simpl; [tauto|].
  rewrite (String.eqb_sym k k0).
  destruct (String.eqb k0 k); simpl; [split; discriminate|exact IH].
Qed.

End ObjectFacts.

Lemma members_filter_app k rows1 rows2 :
  on_flight k (rows1 ++ rows2) = on_flight k rows1 ++ on_flight k rows2.
Proof. apply filter_app. Qed.

(** One step of the grouping loop. *)
Lemma add_to_group_spec fg g fg' :
  FlatGuests.add_to_group fg g = Ok fg' ->
  map fst fg' = add_key (map fst fg) (FlatGuests.flight g) /\
  (forall k, FlatGuests.members fg' k =
             FlatGuests.members fg k
             ++ (if String.eqb (FlatGuests.flight g) k then [g] else [])) /\
  (get_own (FlatGuests.flight g) fg = None ->
   inherited (FlatGuests.flight g) = false).
Proof.
  unfold FlatGuests.add_to_group, add_key, FlatGuests.members.
  destruct (get_own (FlatGuests.flight g) fg) as [m|] eqn:E.
  - intros H. injection H as <-. rewrite map_fst_set_own.
    assert (Hex : existsb (String.eqb (FlatGuests.flight g)) (map fst fg)
                  = true).
    { destruct (existsb _ _) eqn:Ex; [reflexivity|].
      apply get_own_none in Ex. congruence. }
    rewrite Hex. split; [reflexivity|]. split; [|discriminate].
    intros k. rewrite get_own_set_own, E.
    destruct (String.eqb_spec (FlatGuests.flight g) k) as [<-|Hne].
    + rewrite E. reflexivity.
    + rewrite app_nil_r. reflexivity.
  - destruct (inherited (FlatGuests.flight g)) eqn:Ei; [discriminate|].
    intros H. injection H as <-. rewrite map_app. simpl.
    apply get_own_none in E. rewrite E.
    split; [reflexivity|]. split; [|reflexivity].
    intros k. rewrite get_own_app.
    destruct (get_own k fg) as [m|] eqn:Ek.
    + destruct (String.eqb_spec (FlatGuests.flight g) k) as [<-|Hne].
      * apply get_own_none in E. congruence.
      * rewrite app_nil_r. reflexivity.
    + destruct (String.eqb (FlatGuests.flight g) k); reflexivity.
Qed.

(** The grouping loop, when it completes. *)
Lemma group_by_flight_spec rows : forall fg0 fg,
  FlatGuests.group_by_flight rows fg0 = Ok fg ->
  map fst fg = fold_left add_key (map FlatGuests.flight rows) (map fst fg0) /\
  (forall k, FlatGuests.members fg k =
             FlatGuests.members fg0 k ++ on_flight k rows).
Proof.
  induction rows as [|g rows IH]; intros fg0 fg H; simpl in H.
  - injection H as <-. split; [reflexivity|].
    intros k. simpl. rewrite app_nil_r. reflexivity.
  - destruct (FlatGuests.add_to_group fg0 g) as [fg1|] eqn:E; [|discriminate].
    apply add_to_group_spec in E as (Hk & Hm & _).
    destruct (IH fg1 fg H) as (Hk' & Hm').
    split.
    + simpl. rewrite Hk', Hk. reflexivity.
    + intros k. rewrite Hm', Hm, <- app_assoc. unfold on_flight. simpl.
      destruct (String.eqb (FlatGuests.flight g) k); reflexivity.
Qed.

(** The grouping loop completes exactly when no flight is named like a
    member of [Object.prototype]. *)
Lemma group_by_flight_ok rows : forall fg0,
  Forall (fun k => inherited k = false) (map fst fg0) ->
  (names_member rows = false <->
   exists fg, FlatGuests.group_by_flight rows fg0 = Ok fg).
Proof.
  induction rows as [|g rows IH]; intros fg0 Hinv; simpl.
  - split; eauto.
  - assert (Hown : forall m, get_own (FlatGuests.flight g) fg0 = Some m ->
                             inherited (FlatGuests.flight g) = false).
    { intros m Hm. rewrite Forall_forall in Hinv. apply Hinv.
      destruct (existsb (String.eqb (FlatGuests.flight g)) (map fst fg0))
        eqn:Ex.
      - apply existsb_exists in Ex as (k & Hin & Hk).
        apply String.eqb_eq in Hk. subst k. exact Hin.
      - apply get_own_none in Ex. congruence. }
    unfold FlatGuests.add_to_group.
    destruct (get_own (FlatGuests.flight g) fg0) as [m|] eqn:E.
    + rewrite (Hown m eq_refl). simpl.
      apply IH. rewrite map_fst_set_own. exact Hinv.
    + destruct (inherited (FlatGuests.flight g)) eqn:Ei; simpl.
      * split; [discriminate|]. intros (fg & H). discriminate.
      * apply IH. rewrite map_app. apply Forall_app. split; [exact Hinv|].
        constructor; [exact Ei|constructor].
Qed.

Lemma flat_map_ext_in A B (f g : A -> list B) (l : list A) :
  (forall x, In x l -> f x = g x) -> flat_map f l = flat_map g l.
Proof.
  induction l as [|x l IH]; simpl; intros H; [reflexivity|].
  rewrite H by auto. rewrite IH; auto.
Qed.

(** The cars in closed form: the handler fails on a flight named like a
    member of [Object.prototype]; otherwise the cars are the slices of the
    groups, the groups in the enumeration order of the flights seen, each
    group in the order of the rows, numbered from 1. *)
Lemma cars_closed_form rows :
  FlatGuests.cars rows =
  if names_member rows then Throw
  else Ok (FlatGuests.number_cars
             (flat_map (fun k => slices (on_flight k rows) 0)
                       (for_in_order (flights_seen rows))) 1).
Proof.
  unfold FlatGuests.cars.
  pose proof (group_by_flight_ok rows
                (@nil (string * list FlatGuests.guest_row)) (Forall_nil _))
    as Hok.
  destruct (FlatGuests.group_by_flight rows []) as [fg|] eqn:E.
  - assert (Hn : names_member rows = false) by (apply Hok; eauto).
    rewrite Hn. apply group_by_flight_spec in E as (Hk & Hm).
    unfold FlatGuests.group_slices. rewrite Hk. fold (flights_seen rows).
    f_equal. f_equal. apply flat_map_ext_in. intros k _.
    rewrite Hm. reflexivity.
  - destruct (names_member rows); [reflexivity|].
    destruct Hok as [Hok _]. destruct (Hok eq_refl) as (fg & H).
    discriminate.
Qed.

(* ===================================================================== *)
(** ** Numbering the cars                                                 *)
(* ===================================================================== *)

Lemma number_cars_guests chunks : forall from,
  map FlatGuests.car_guests (FlatGuests.number_cars chunks from) = chunks.
Proof.
  induction chunks as [|c chunks IH]; intros from; simpl; [reflexivity|].
  rewrite IH. reflexivity.
Qed.

Lemma number_cars_length chunks : forall from,
  List.length (FlatGuests.number_cars chunks from) = List.length chunks.
Proof.
  induction chunks as [|c chunks IH]; intros from; simpl; [reflexivity|].
  rewrite IH. reflexivity.
Qed.

Lemma number_cars_numbers chunks : forall (from : nat),
  map FlatGuests.car_number
      (FlatGuests.number_cars chunks (Z.of_nat from)) =
  map Z.of_nat (List.seq from (List.length chunks)).
Proof.
  induction chunks as [|c chunks IH]; intros from; simpl; [reflexivity|].
  f_equal. replace (Z.of_nat from + 1) with (Z.of_nat (S from)) by lia.
  apply IH.
Qed.







(* ===================================================================== *)
(** ** The enumeration order of the keys                                  *)
(* ===================================================================== *)

Lemma insert_index_In x y l : In y (insert_index x l) <-> y = x \/ In y l.
Proof.
  induction l as [|z l IH]; simpl; [intuition|].
  destruct (fst x <=? fst z)%N; simpl; [intuition|].
  rewrite IH. intuition.
Qed.

Lemma sort_index_In y l : In y (sort_index l) <-> In y l.
Proof.
  induction l as [|x l IH]; simpl; [tauto|].
  rewrite insert_index_In, IH. intuition.
Qed.

Lemma index_keys_In n k ks :
  In (n, k) (index_keys ks) <-> In k ks /\ array_index k = Some n.
Proof.
  induction ks as [|k0 ks IH]; simpl; [tauto|].
  destruct (array_index k0) as [n0|] eqn:E; simpl; rewrite IH.
  - split.
    + intros [H|H]; [injection H as Hn Hk; subst; auto|tauto].
    + intros [[Hk|H] Hn]; [subst; left; congruence|tauto].
  - split; [tauto|]. intros [[Hk|H] Hn]; [subst; congruence|tauto].
Qed.

(** The enumeration visits exactly the keys of the object. *)
Lemma for_in_order_In k ks : In k (for_in_order ks) <-> In k ks.
Proof.
  unfold for_in_order. rewrite in_app_iff, in_map_iff, filter_In.
  unfold is_index. split.
  - intros [((n, k') & Hk & Hin)|[Hin _]]; [|exact Hin].
    simpl in Hk. subst k'. apply sort_index_In, index_keys_In in Hin. tauto.
  - intros Hin. destruct (array_index k) as [n|] eqn:E.
    + left. exists (n, k). split; [reflexivity|].
      apply sort_index_In, index_keys_In. auto.
    + right. auto.
Qed.

Lemma add_key_In k ks k' : In k (add_key ks k') <-> In k ks \/ k = k'.
Proof.
  unfold add_key. destruct (existsb (String.eqb k') ks) eqn:E.
  - split; [tauto|]. intros [H | ->]; [exact H|].
    apply existsb_exists in E as (x & Hx & Hk).
    apply String.eqb_eq in Hk. subst x. exact Hx.
  - rewrite in_app_iff. simpl. intuition.
Qed.

Lemma fold_add_key_In k l : forall acc,
  In k (fold_left add_key l acc) <-> In k acc \/ In k l.
Proof.
  induction l as [|k' l IH]; intros acc; simpl; [tauto|].
  rewrite IH, add_key_In. intuition.
Qed.

(** The flights seen are the flights of the rows. *)
Lemma flights_seen_In k rows :
  In k (flights_seen rows) <-> exists g, In g rows /\ FlatGuests.flight g = k.
Proof.
  unfold flights_seen. rewrite fold_add_key_In, in_map_iff. simpl.
  split.
  - intros [H|(g & Hg & Hin)]; [contradiction|eauto].
  - intros (g & Hin & Hg). right. eauto.
Qed.

Lemma on_flight_In g k rows :
  In g (on_flight k rows) <-> In g rows /\ FlatGuests.flight g = k.
Proof.
  unfold on_flight. rewrite filter_In, String.eqb_eq. tauto.
Qed.

(* ===================================================================== *)
(** ** The handler of POST /api/assign-cars writes the cars               *)
(* ===================================================================== *)

Lemma number_cars_app a b : forall from,
  FlatGuests.number_cars (a ++ b) from =
  FlatGuests.number_cars a from
  ++ FlatGuests.number_cars b (from + Z.of_nat (List.length a)).
Proof.
  induction a as [|c a IH]; intros from; simpl.
  - f_equal. lia.
  - rewrite IH. do 3 f_equal. lia.
Qed.

(** The updates of one car. *)
Lemma seat_guests_spec carId guests : forall (w : world FlatGuests.tables),
  exists w',
    for_of guests
      (fun guest => query no_fault false
                      (FlatGuests.update_car carId (FlatGuests.id guest))) w
    = (Ok tt, w') /\
    current (db w') =
      fold_left (fun tb g => set_car carId (FlatGuests.id g) tb) guests
                (current (db w)) /\
    (txn (db w') = None <-> txn (db w) = None).
Proof.
  induction guests as [|g guests IH]; intros w.
  - exists w. simpl. repeat split; auto.
  - rewrite for_of_cons.
    destruct (@query_no_fault _ _ false
                (FlatGuests.update_car carId (FlatGuests.id g)) w _ _ eq_refl)
      as (w1 & -> & Hcur & _ & Ht).
    destruct (IH w1) as (w' & E & Hcur' & Ht').
    exists w'. split; [exact E|]. split; [|tauto].
    rewrite Hcur', Hcur. reflexivity.
Qed.

Lemma assign_slices_spec chunks : forall carId (w : world FlatGuests.tables),
  exists w',
    FlatGuests.assign_slices no_fault chunks carId w
    = (Ok (carId + Z.of_nat (List.length chunks)), w') /\
    current (db w') =
      seat_all (FlatGuests.number_cars chunks carId) (current (db w)) /\
    (txn (db w') = None <-> txn (db w) = None).
Proof.
  induction chunks as [|c chunks IH]; intros carId w.
  - exists w. simpl. rewrite Z.add_0_r. repeat split; auto.
  - simpl FlatGuests.assign_slices. rewrite bind_unfold.
    destruct (seat_guests_spec carId c w) as (w1 & -> & Hcur & Ht).
    destruct (IH (carId + 1) w1) as (w' & E & Hcur' & Ht').
    exists w'. split; [|split; [|tauto]].
    + rewrite E. do 2 f_equal. simpl List.length. lia.
    + rewrite Hcur', Hcur. reflexivity.
Qed.

Lemma assign_groups_spec fg keys : forall carId (w : world FlatGuests.tables),
  exists w' last,
    FlatGuests.assign_groups no_fault keys fg carId w = (Ok last, w') /\
    current (db w') =
      seat_all (FlatGuests.number_cars
                  (flat_map (fun k => slices (FlatGuests.members fg k) 0) keys)
                  carId)
               (current (db w)) /\
    (txn (db w') = None <-> txn (db w) = None).
Proof.
  induction keys as [|k keys IH]; intros carId w.
  - exists w, carId. simpl. repeat split; auto.
  - simpl FlatGuests.assign_groups. rewrite bind_unfold.
    destruct (assign_slices_spec (slices (FlatGuests.members fg k) 0) carId w)
      as (w1 & -> & Hcur & Ht).
    destruct (IH (carId + Z.of_nat
                    (List.length (slices (FlatGuests.members fg k) 0))) w1)
      as (w' & last & E & Hcur' & Ht').
    exists w', last. split; [exact E|]. split; [|tauto].
    rewrite Hcur', Hcur. simpl flat_map. rewrite number_cars_app.
    unfold seat_all. rewrite fold_left_app. reflexivity.
Qed.

(** Without store failures the handler replies with its message and
    writes the numbers of the cars in order, or replies 500 and writes
    nothing when the grouping fails. *)
Lemma assign_cars_spec order t n :
  fst (FlatGuests.assign_cars no_fault order (start t n)) =
    match FlatGuests.cars (order t) with
    | Ok _ => Ok FlatGuests.Message
    | Throw => Ok FlatGuests.Error500
    end /\
  committed (db (snd (FlatGuests.assign_cars no_fault order (start t n)))) =
    match FlatGuests.cars (order t) with
    | Ok cs => seat_all cs t
    | Throw => t
    end.
Proof.
  unfold FlatGuests.assign_cars, try_catch. rewrite bind_unfold.
  destruct (@query_no_fault _ _ false (FlatGuests.select_all order)
              (start t n) _ _ eq_refl) as (w1 & -> & Hcur & _ & Ht).
  assert (Ht1 : txn (db w1) = None) by (apply Ht; reflexivity).
  change (current (db (start t n))) with t in *.
  rewrite bind_unfold. unfold FlatGuests.lift, FlatGuests.cars.
  destruct (FlatGuests.group_by_flight (order t) []) as [fg|] eqn:E.
  - rewrite bind_unfold.
    destruct (assign_groups_spec fg (for_in_order (map fst fg)) 1 w1)
      as (w' & last & -> & Hcur' & Ht').
    simpl. split; [reflexivity|].
    rewrite <- (current_no_txn (db w')) by tauto.
    rewrite Hcur', Hcur. reflexivity.
  - simpl. split; [reflexivity|].
    rewrite <- (current_no_txn (db w1)) by tauto. exact Hcur.
Qed.

(* ===================================================================== *)
(** ** The table after the assignment                                     *)
(* ===================================================================== *)

Lemma with_car_twice g a b :
  FlatGuests.with_car (FlatGuests.with_car g a) b = FlatGuests.with_car g b.
Proof. reflexivity. Qed.

(** The updates of one car, row by row. *)
Lemma seat_pointwise n guests : forall t,
  fold_left (fun tb g => set_car n (FlatGuests.id g) tb) guests t =
  map (fun g => if existsb (fun g' => FlatGuests.id g' =? FlatGuests.id g)
                           guests
                then FlatGuests.with_car g (Some n) else g) t.
Proof.
  induction guests as [|g0 guests IH]; intros t; simpl.
  - symmetry. apply map_id.
  - rewrite IH. unfold set_car. rewrite map_map. apply map_ext. intros g.
    rewrite (Z.eqb_sym (FlatGuests.id g0) (FlatGuests.id g)).
    destruct (FlatGuests.id g =? FlatGuests.id g0) eqn:E; simpl.
    + destruct (existsb _ guests); reflexivity.
    + reflexivity.
Qed.

(** The updates of all the cars, row by row. *)
Lemma seat_all_pointwise cs : forall t,
  seat_all cs t =
  map (fun g => match assigned cs (FlatGuests.id g) with
                | Some n => FlatGuests.with_car g (Some n)
                | None => g
                end) t.
Proof.
  induction cs as [|c cs IH]; intros t.
  - simpl. symmetry. apply map_id.
  - change (seat_all (c :: cs) t) with (seat_all cs (seat t c)).
    rewrite IH. unfold seat. rewrite seat_pointwise, map_map.
    apply map_ext. intros g. simpl assigned.
    destruct (existsb _ (FlatGuests.car_guests c)) eqn:E; simpl.
    + destruct (assigned cs (FlatGuests.id g)); reflexivity.
    + destruct (assigned cs (FlatGuests.id g)); reflexivity.
Qed.


Lemma seat_all_ids cs t :
  map FlatGuests.id (seat_all cs t) = map FlatGuests.id t.
Proof.
  rewrite seat_all_pointwise, map_map. apply map_ext. intros g.
  destruct (assigned cs (FlatGuests.id g)); reflexivity.
Qed.

(** A car number left on a guest is the number of a car that holds the
    guest. *)
Lemma assigned_car cs i n :
  assigned cs i = Some n ->
  exists c, In c cs /\ FlatGuests.car_number c = n /\
            In i (map FlatGuests.id (FlatGuests.car_guests c)).
Proof.
  induction cs as [|c cs IH]; simpl; [discriminate|].
  destruct (assigned cs i) as [m|].
  - intros H. destruct (IH H) as (c' & Hin & Hn & Hi). eauto.
  - destruct (existsb _ _) eqn:E; [|discriminate].
    intros H. injection H as <-. exists c. split; [auto|]. split; [reflexivity|].
    apply existsb_exists in E as (g & Hg & Hid). apply Z.eqb_eq in Hid.
    subst i. apply in_map. exact Hg.
Qed.

(** A guest of some car gets a number. *)
Lemma assigned_some cs c i :
  In c cs -> In i (map FlatGuests.id (FlatGuests.car_guests c)) ->
  exists n, assigned cs i = Some n.
Proof.
  induction cs as [|c0 cs IH]; simpl; [contradiction|].
  intros [->|Hin] Hi.
  - destruct (assigned cs i); [eauto|].
    assert (E : existsb (fun g => FlatGuests.id g =? i)
                        (FlatGuests.car_guests c) = true).
    { apply in_map_iff in Hi as (g & Hg & Hin).
      apply existsb_exists. exists g. split; [exact Hin|].
      apply Z.eqb_eq. exact Hg. }
    rewrite E. eauto.
  - destruct (IH Hin Hi) as (n & ->). eauto.
Qed.

(** The riders of a car have distinct ids when the table has. *)
Lemma riders_distinct c t :
  NoDup (map FlatGuests.id t) -> NoDup (map FlatGuests.id (riders c t)).
Proof.
  unfold riders. induction t as [|g t IH]; simpl; intros Hnd; [constructor|].
  apply NoDup_cons_iff in Hnd as [Hg Ht].
  destruct (match FlatGuests.car_assigned g with
            | Some n => n =? c
            | None => false
            end); simpl; [|apply IH, Ht].
  apply NoDup_cons_iff. split; [|apply IH, Ht].
  intros Hin. apply Hg. apply in_map_iff in Hin as (g' & Hid & Hin).
  apply filter_In in Hin as [Hin _]. rewrite <- Hid. apply in_map, Hin.
Qed.

(** Every row is in a slice of its group. *)
Lemma row_in_some_car rows cs g :
  FlatGuests.cars rows = Ok cs -> In g rows ->
  exists c, In c cs /\ In g (FlatGuests.car_guests c).
Proof.
  intros H Hg. rewrite cars_closed_form in H.
  destruct (names_member rows); [discriminate|]. injection H as <-.
  assert (Hin : In g (on_flight (FlatGuests.flight g) rows))
    by (apply on_flight_In; auto).
  destruct (slices_partition (on_flight (FlatGuests.flight g) rows))
    as (Hc & _).
  rewrite <- Hc in Hin. apply in_concat in Hin as (chunk & Hchunk & Hgc).
  assert (Hall : In chunk
                    (flat_map (fun k => slices (on_flight k rows) 0)
                              (for_in_order (flights_seen rows)))).
  { apply in_flat_map. exists (FlatGuests.flight g). split; [|exact Hchunk].
    apply for_in_order_In, flights_seen_In. eauto. }
  rewrite <- (number_cars_guests _ 1) in Hall.
  apply in_map_iff in Hall as (c & Hcg & Hc').
  exists c. rewrite Hcg. auto.
Qed.

Lemma seq_NoDup_Z len : forall from,
  NoDup (map Z.of_nat (List.seq from len)).
Proof.
  induction len as [|len IH]; intros from; simpl; constructor; [|apply IH].
  rewrite in_map_iff. intros (x & Hx & Hin). apply in_seq in Hin. lia.
Qed.

(** In the table the handler leaves, no car number is on more than five
    guests, when the ids of the table are unique and the query returned
    its rows. *)
Lemma riders_capacity rows cs t c :
  FlatGuests.cars rows = Ok cs ->
  Permutation t rows ->
  NoDup (map FlatGuests.id t) ->
  (List.length (riders c (seat_all cs t)) <= 5)%nat.
Proof.
  intros Hcars Hperm Hnd.
  assert (Hnum : NoDup (map FlatGuests.car_number cs)).
  { pose proof Hcars as H. rewrite cars_closed_form in H.
    destruct (names_member rows); [discriminate|]. injection H as <-.
    rewrite (number_cars_numbers _ 1). apply seq_NoDup_Z. }
  assert (Hsize : forall car, In car cs ->
                    (List.length (FlatGuests.car_guests car) <= 5)%nat).
  { intros car Hin. rewrite cars_closed_form in Hcars.
    destruct (names_member rows); [discriminate|]. injection Hcars as <-.
    assert (Hc : In (FlatGuests.car_guests car)
                    (flat_map (fun k => slices (on_flight k rows) 0)
                              (for_in_order (flights_seen rows)))).
    { rewrite <- (number_cars_guests _ 1). apply in_map. exact Hin. }
    apply in_flat_map in Hc as (k & _ & Hc).
    destruct (slices_partition (on_flight k rows)) as (_ & Hf & _).
    rewrite Forall_forall in Hf. apply Hf in Hc. lia. }
  assert (Hids : NoDup (map FlatGuests.id (riders c (seat_all cs t)))).
  { apply riders_distinct. rewrite seat_all_ids. exact Hnd. }
  assert (Hride : forall g', In g' (riders c (seat_all cs t)) ->
            exists car, In car cs /\ FlatGuests.car_number car = c /\
                        In (FlatGuests.id g')
                           (map FlatGuests.id (FlatGuests.car_guests car))).
  { intros g' Hin. unfold riders in Hin. apply filter_In in Hin as [Hin Hc].
    rewrite seat_all_pointwise in Hin.
    apply in_map_iff in Hin as (g & Hg & Hgt).
    assert (Hgr : In g rows) by (eapply Permutation_in; eauto).
    destruct (@row_in_some_car rows cs g Hcars Hgr) as (car0 & Hcar0 & Hg0').
    destruct (@assigned_some cs car0 (FlatGuests.id g) Hcar0
                (in_map _ _ _ Hg0')) as (n & Hn).
    rewrite Hn in Hg. subst g'. simpl in Hc. apply Z.eqb_eq in Hc. subst n.
    simpl. apply assigned_car. exact Hn. }
  remember (riders c (seat_all cs t)) as R eqn:ER. clear ER.
  destruct R as [|g0 rest]; [simpl; lia|].
  destruct (Hride g0 (or_introl eq_refl)) as (car & Hcar & Hn & _).
  apply Nat.le_trans with (List.length (FlatGuests.car_guests car));
    [|apply Hsize; exact Hcar].
  rewrite <- (length_map FlatGuests.id (g0 :: rest)).
  rewrite <- (length_map FlatGuests.id (FlatGuests.car_guests car)).
  apply NoDup_incl_length; [exact Hids|].
  intros i Hi. apply in_map_iff in Hi as (g' & <- & Hg').
  destruct (Hride g' Hg') as (car' & Hcar' & Hn' & Hin').
  assert (car' = car).
  { eapply NoDup_map_inj; eauto. congruence. }
  subst car'. exact Hin'.
Qed.

(* ===================================================================== *)
(** ** C4: determinism of the car assignment                              *)
(* ===================================================================== *)






(* ===================================================================== *)
(** ** POST /api/assign-cars: the cars cover the rows                     *)
(* ===================================================================== *)

Lemma flat_map_permuted A B (f : A -> list B) (l l' : list A) :
  Permutation l l' -> Permutation (flat_map f l) (flat_map f l').
Proof.
  induction 1 as [|x l l' _ IH|x y l|l l' l'' _ IH1 _ IH2]; simpl.
  - constructor.
  - apply Permutation_app; [apply Permutation_refl|exact IH].
  - rewrite !app_assoc. apply Permutation_app; [|apply Permutation_refl].
    apply Permutation_app_comm.
  - eapply Permutation_trans; eauto.
Qed.

Lemma concat_flat_map A B (f : A -> list (list B)) (l : list A) :
  List.concat (flat_map f l) = flat_map (fun x => List.concat (f x)) l.
Proof.
  induction l as [|a l IH]; simpl; [reflexivity|].
  rewrite concat_app, IH. reflexivity.
Qed.

Lemma insert_index_permuted x l : Permutation (insert_index x l) (x :: l).
Proof.
  induction l as [|y l IH]; simpl; [apply Permutation_refl|].
  destruct (fst x <=? fst y)%N; [apply Permutation_refl|].
  eapply Permutation_trans; [apply perm_skip; exact IH|]. apply perm_swap.
Qed.

Lemma sort_index_permuted l : Permutation (sort_index l) l.
Proof.
  induction l as [|x l IH]; simpl; [constructor|].
  eapply Permutation_trans; [apply insert_index_permuted|].
  apply perm_skip. exact IH.
Qed.

Lemma index_keys_filter ks : map snd (index_keys ks) = filter is_index ks.
Proof.
  induction ks as [|k ks IH]; simpl; [reflexivity|].
  change (is_index k) with (match array_index k with
                            | Some _ => true
                            | None => false
                            end).
  destruct (array_index k); simpl; congruence.
Qed.

Lemma filter_split A (f : A -> bool) (l : list A) :
  Permutation (filter f l ++ filter (fun x => negb (f x)) l) l.
Proof.
  induction l as [|a l IH]; simpl; [constructor|].
  destruct (f a); simpl.
  - apply perm_skip. exact IH.
  - apply Permutation_sym. apply Permutation_cons_app.
    apply Permutation_sym. exact IH.
Qed.

(** [for ... in] visits every own key once. *)
Lemma for_in_order_permuted ks : Permutation (for_in_order ks) ks.
Proof.
  unfold for_in_order.
  eapply Permutation_trans; [|apply (filter_split is_index)].
  apply Permutation_app; [|apply Permutation_refl].
  rewrite <- index_keys_filter. apply Permutation_map.
  apply sort_index_permuted.
Qed.

Lemma add_key_distinct ks k : NoDup ks -> NoDup (add_key ks k).
Proof.
  intros Hn. unfold add_key.
  destruct (existsb (String.eqb k) ks) eqn:E; [exact Hn|].
  apply NoDup_app; auto.
  - repeat constructor. simpl. tauto.
  - intros a Ha [<-|[]].
    assert (Ht : existsb (String.eqb k) ks = true).
    { apply existsb_exists. exists k. split; [exact Ha|apply String.eqb_refl]. }
    congruence.
Qed.

Lemma flights_seen_distinct rows : NoDup (flights_seen rows).
Proof.
  unfold flights_seen.
  assert (H : forall l ks, NoDup ks -> NoDup (fold_left add_key l ks)).
  { induction l as [|k l IH]; intros ks Hn; simpl; [exact Hn|].
    apply IH. apply add_key_distinct. exact Hn. }
  apply H. constructor.
Qed.

Lemma on_flight_cons k g rows :
  on_flight k (g :: rows) =
  if String.eqb (FlatGuests.flight g) k then g :: on_flight k rows
  else on_flight k rows.
Proof. reflexivity. Qed.

(** A row whose flight is not among the keys adds nothing. *)
Lemma rows_by_flight_other g rows ks :
  ~ In (FlatGuests.flight g) ks ->
  flat_map (fun k => on_flight k (g :: rows)) ks
  = flat_map (fun k => on_flight k rows) ks.
Proof.
  induction ks as [|k ks IH]; intros Hni; [reflexivity|].
  cbn [flat_map]. rewrite on_flight_cons.
  destruct (String.eqb_spec (FlatGuests.flight g) k) as [E|E].
  - exfalso. apply Hni. simpl. auto.
  - rewrite IH; [reflexivity|]. intros H. apply Hni. simpl. auto.
Qed.

(** A row whose flight is one of the distinct keys adds itself once. *)
Lemma rows_by_flight_one g rows ks :
  NoDup ks -> In (FlatGuests.flight g) ks ->
  Permutation (flat_map (fun k => on_flight k (g :: rows)) ks)
              (g :: flat_map (fun k => on_flight k rows) ks).
Proof.
  induction ks as [|k ks IH]; intros Hn Hin; [contradiction|].
  apply NoDup_cons_iff in Hn as [Hk Hn].
  cbn [flat_map]. rewrite on_flight_cons.
  destruct (String.eqb_spec (FlatGuests.flight g) k) as [E|E].
  - rewrite rows_by_flight_other by (rewrite E; exact Hk).
    apply Permutation_refl.
  - destruct Hin as [Hin|Hin]; [congruence|].
    eapply Permutation_trans;
      [apply Permutation_app; [apply Permutation_refl|apply IH; auto]|].
    apply Permutation_sym, Permutation_middle.
Qed.

(** The rows split by flight, over distinct keys that cover their
    flights, are the rows. *)
Lemma rows_by_flight rows : forall ks,
  NoDup ks ->
  (forall g, In g rows -> In (FlatGuests.flight g) ks) ->
  Permutation (flat_map (fun k => on_flight k rows) ks) rows.
Proof.
  induction rows as [|g rows IH]; intros ks Hn Hcov.
  - clear. induction ks as [|k ks IHk]; simpl; [constructor|exact IHk].
  - eapply Permutation_trans; [apply rows_by_flight_one; auto|].
    + apply Hcov. simpl. auto.
    + apply perm_skip. apply IH; auto.
      intros g0 Hg0. apply Hcov. simpl. auto.
Qed.

(** The guests of the cars are the rows. *)
Lemma cars_cover rows cs :
  FlatGuests.cars rows = Ok cs ->
  Permutation (flat_map FlatGuests.car_guests cs) rows.
Proof.
  intros H. rewrite cars_closed_form in H.
  destruct (names_member rows); [discriminate|]. injection H as <-.
  rewrite flat_map_concat_map, number_cars_guests, concat_flat_map.
  eapply Permutation_trans.
  - apply flat_map_permuted. apply for_in_order_permuted.
  - erewrite flat_map_ext;
      [|intros k; destruct (slices_partition (on_flight k rows)) as [E _];
        exact E].
    apply rows_by_flight; [apply flights_seen_distinct|].
    intros g Hg. apply flights_seen_In. eauto.
Qed.

(** The guests of one car are on one flight. *)
Lemma car_on_one_flight rows cs c :
  FlatGuests.cars rows = Ok cs -> In c cs ->
  exists k, forall g, In g (FlatGuests.car_guests c) ->
                      In g rows /\ FlatGuests.flight g = k.
Proof.
  intros H Hc. rewrite cars_closed_form in H.
  destruct (names_member rows); [discriminate|]. injection H as <-.
  assert (Hin : In (FlatGuests.car_guests c)
                   (flat_map (fun k => slices (on_flight k rows) 0)
                             (for_in_order (flights_seen rows)))).
  { rewrite <- (number_cars_guests _ 1). apply in_map. exact Hc. }
  apply in_flat_map in Hin as (k & _ & Hin).
  exists k. intros g Hg. apply on_flight_In.
  destruct (slices_partition (on_flight k rows)) as [E _].
  rewrite <- E. apply in_concat. eauto.
Qed.

(** Lists that are apart: no element of a list without repetition is on
    both sides of a cut. *)
Lemma cut_apart A (l1 l2 : list A) x :
  NoDup (l1 ++ l2) -> In x l1 -> In x l2 -> False.
Proof.
  induction l1 as [|a l1 IH]; simpl; intros Hnd H1 H2; [contradiction|].
  apply NoDup_cons_iff in Hnd as [Ha Hnd].
  destruct H1 as [->|H1]; [|eauto].
  apply Ha. apply in_or_app. right. exact H2.
Qed.

(** In a concatenation without repetition an element has one owner. *)
Lemma flat_map_owner A B (f : A -> list B) (l : list A) a b x :
  NoDup (flat_map f l) -> In a l -> In b l -> In x (f a) -> In x (f b) ->
  a = b.
Proof.
  induction l as [|c l IH]; simpl; intros Hnd Ha Hb Hxa Hxb; [contradiction|].
  assert (Hl : NoDup (flat_map f l)) by (eapply NoDup_app_remove_l; eauto).
  assert (Hout : forall d, In d l -> In x (f d) -> In x (f c) -> False).
  { intros d Hd Hxd Hxc. eapply cut_apart; [exact Hnd|exact Hxc|].
    apply in_flat_map. eauto. }
  destruct Ha as [->|Ha], Hb as [->|Hb]; auto.
  - exfalso. eauto.
  - exfalso. eauto.
Qed.

(** With unique ids, the car number the handler leaves on a row of the
    table is the number of the car that holds the row. *)
Lemma row_gets_its_car rows cs (t : FlatGuests.tables) g c :
  FlatGuests.cars rows = Ok cs ->
  Permutation t rows ->
  NoDup (map FlatGuests.id t) ->
  In c cs -> In g (FlatGuests.car_guests c) ->
  assigned cs (FlatGuests.id g) = Some (FlatGuests.car_number c).
Proof.
  intros Hcars Hperm Hnd Hc Hg.
  assert (Hrows : NoDup rows).
  { eapply Permutation_NoDup; [exact Hperm|].
    eapply NoDup_map_inv; eauto. }
  assert (Hcover : NoDup (flat_map FlatGuests.car_guests cs)).
  { eapply Permutation_NoDup;
      [apply Permutation_sym, (@cars_cover rows cs Hcars)|exact Hrows]. }
  destruct (assigned_some cs c (FlatGuests.id g) Hc) as (k & Hk);
    [apply in_map; exact Hg|].
  destruct (@assigned_car cs (FlatGuests.id g) k Hk) as (c' & Hc' & Hcn & Hid).
  apply in_map_iff in Hid as (g' & Eid & Hg').
  assert (Hin : forall c0 g0, In c0 cs -> In g0 (FlatGuests.car_guests c0) ->
                              In g0 t).
  { intros c0 g0 Hc0 Hg0.
    eapply Permutation_in; [apply Permutation_sym; exact Hperm|].
    eapply Permutation_in; [apply (@cars_cover rows cs Hcars)|].
    apply in_flat_map. eauto. }
  assert (Eg : g' = g).
  { apply (@NoDup_map_inj _ _ FlatGuests.id t g' g Hnd); eauto. }
  subst g'.
  assert (Ec : c' = c) by (eapply flat_map_owner; eauto).
  subst c'. congruence.
Qed.

(** Two rows of one flight whose group has at most five guests ride in
    one car, and the handler writes its number on both. *)
Lemma same_flight_same_car order (t : FlatGuests.tables) n g1 g2 :
  names_member (order t) = false ->
  In g1 (order t) -> In g2 (order t) ->
  FlatGuests.flight g1 = FlatGuests.flight g2 ->
  (List.length (on_flight (FlatGuests.flight g1) (order t)) <= 5)%nat ->
  Permutation t (order t) ->
  NoDup (map FlatGuests.id t) ->
  exists c,
    In (FlatGuests.with_car g1 (Some c))
       (committed (db (snd (FlatGuests.assign_cars no_fault order
                              (start t n))))) /\
    In (FlatGuests.with_car g2 (Some c))
       (committed (db (snd (FlatGuests.assign_cars no_fault order
                              (start t n))))).
Proof.
  intros Hn H1 H2 Hf Hlen Hperm Hnd.
  pose proof (cars_closed_form (order t)) as Hcars. rewrite Hn in Hcars.
  destruct (assign_cars_spec order t n) as [_ Hfinal].
  rewrite Hcars in Hfinal. rewrite Hfinal.
  set (cs := FlatGuests.number_cars
               (flat_map (fun k => slices (on_flight k (order t)) 0)
                         (for_in_order (flights_seen (order t)))) 1) in *.
  assert (Hg1 : In g1 (on_flight (FlatGuests.flight g1) (order t)))
    by (apply on_flight_In; auto).
  assert (Hg2 : In g2 (on_flight (FlatGuests.flight g1) (order t)))
    by (apply on_flight_In; auto).
  assert (Hs : slices (on_flight (FlatGuests.flight g1) (order t)) 0
               = [on_flight (FlatGuests.flight g1) (order t)]).
  { apply slices_small. split; [|exact Hlen].
    destruct (on_flight (FlatGuests.flight g1) (order t)); [contradiction|].
    simpl. lia. }
  assert (Hin : In (on_flight (FlatGuests.flight g1) (order t))
                   (map FlatGuests.car_guests cs)).
  { unfold cs. rewrite number_cars_guests.
    apply in_flat_map. exists (FlatGuests.flight g1). split.
    - apply for_in_order_In, flights_seen_In. eauto.
    - rewrite Hs. simpl. auto. }
  apply in_map_iff in Hin as (c & Hcg & Hc).
  rewrite <- Hcg in Hg1, Hg2.
  exists (FlatGuests.car_number c).
  rewrite seat_all_pointwise.
  split; apply in_map_iff.
  - exists g1.
    rewrite (@row_gets_its_car (order t) cs t g1 c Hcars Hperm Hnd Hc Hg1).
    split; [reflexivity|].
    eapply Permutation_in; [apply Permutation_sym; exact Hperm|exact H1].
  - exists g2.
    rewrite (@row_gets_its_car (order t) cs t g2 c Hcars Hperm Hnd Hc Hg2).
    split; [reflexivity|].
    eapply Permutation_in; [apply Permutation_sym; exact Hperm|exact H2].
Qed.

(* ===================================================================== *)
(** ** C5: the capacity of a car                                          *)
(* ===================================================================== *)

Lemma for_in_order_single k : for_in_order [k] = [k].
Proof.
  unfold for_in_order, is_index. simpl.
  destruct (array_index k); reflexivity.
Qed.

Lemma fold_add_key_same k l :
  Forall (fun x => x = k) l -> fold_left add_key l [k] = [k].
Proof.
  induction 1 as [|x l Hx _ IH]; simpl; [reflexivity|].
  subst x. unfold add_key at 2. simpl. rewrite String.eqb_refl. exact IH.
Qed.

(** Rows of one flight are one group, the rows themselves. *)
Lemma flights_seen_one k g rows :
  Forall (fun r => FlatGuests.flight r = k) (g :: rows) ->
  flights_seen (g :: rows) = [k].
Proof.
  intros H. inversion H as [|? ? Hg Hrows]; subst.
  unfold flights_seen. simpl. unfold add_key at 2. simpl.
  apply fold_add_key_same. apply Forall_map. exact Hrows.
Qed.

Lemma on_flight_all k rows :
  Forall (fun r => FlatGuests.flight r = k) rows -> on_flight k rows = rows.
Proof.
  unfold on_flight. induction 1 as [|g rows Hg _ IH]; simpl; [reflexivity|].
  rewrite Hg, String.eqb_refl, IH. reflexivity.
Qed.

(** C5, counterexample.  The handler takes no capacity: four guests of
    one flight are given one car, so with a capacity of 3 a car holds
    more passengers than the capacity.  And six guests of one flight
    whose number is the text constructor get no car: the handler replies
    500 and writes nothing. *)
Lemma four_guests_one_car :
  (FlatGuests.cars Sample.four
   = Ok [ {| FlatGuests.car_number := 1;
             FlatGuests.car_guests := Sample.four |} ] /\
   fst (FlatGuests.assign_cars no_fault (fun t => t) (start Sample.four 1))
   = Ok FlatGuests.Message /\
   map FlatGuests.car_assigned
       (committed (db (snd (FlatGuests.assign_cars no_fault (fun t => t)
                              (start Sample.four 1)))))
   = [Some 1; Some 1; Some 1; Some 1] /\
   (3 < List.length
          (riders 1 (committed (db (snd (FlatGuests.assign_cars no_fault
                                           (fun t => t)
                                           (start Sample.four 1)))))))%nat)
  /\
  (FlatGuests.cars Sample.six_constructor = Throw /\
   fst (FlatGuests.assign_cars no_fault (fun t => t)
          (start Sample.six_constructor 1))
   = Ok FlatGuests.Error500 /\
   committed (db (snd (FlatGuests.assign_cars no_fault (fun t => t)
                         (start Sample.six_constructor 1))))
   = Sample.six_constructor).
Proof.
  split.
  - split; [reflexivity|]. split; [reflexivity|]. split; [reflexivity|].
    vm_compute. lia.
  - repeat split; reflexivity.
Qed.

(** C5, amended.  The capacity of a car is the number 5 written into the
    loop of the handler; it cannot be configured.  When no flight is
    named like a member of [Object.prototype], the handler produces cars:
    every car holds at least one and at most five guests; the cars of a
    group are the consecutive slices of the group in the order of the
    rows: the slice number [j] holds the guests from position [5 j] up to
    [5 j + 5], and together the slices are the group; six guests of one
    flight get two cars, car 1 with the first five and car 2 with the
    sixth.  With a store that runs every statement the handler replies
    with its message and writes the number of each car on its guests,
    and when the ids are unique no car number is then on more than five
    guests. *)
Theorem car_capacity rows :
  names_member rows = false ->
  exists cs,
    FlatGuests.cars rows = Ok cs /\
    Forall (fun c => 1 <= List.length (FlatGuests.car_guests c) <= 5)%nat cs /\
    map FlatGuests.car_guests cs =
      flat_map (fun k => slices (on_flight k rows) 0)
               (for_in_order (flights_seen rows)) /\
    (forall k,
       List.concat (slices (on_flight k rows) 0) = on_flight k rows /\
       forall j,
         nth_error (slices (on_flight k rows) 0) j =
         if (5 * j <? List.length (on_flight k rows))%nat
         then Some (firstn 5 (skipn (5 * j) (on_flight k rows)))
         else None) /\
    (forall a b c d e f,
       rows = [a; b; c; d; e; f] ->
       FlatGuests.flight b = FlatGuests.flight a ->
       FlatGuests.flight c = FlatGuests.flight a ->
       FlatGuests.flight d = FlatGuests.flight a ->
       FlatGuests.flight e = FlatGuests.flight a ->
       FlatGuests.flight f = FlatGuests.flight a ->
       cs = [ {| FlatGuests.car_number := 1;
                 FlatGuests.car_guests := [a; b; c; d; e] |};
              {| FlatGuests.car_number := 2;
                 FlatGuests.car_guests := [f] |} ]) /\
    (forall order (t : FlatGuests.tables) n,
       order t = rows ->
       fst (FlatGuests.assign_cars no_fault order (start t n))
       = Ok FlatGuests.Message /\
       committed (db (snd (FlatGuests.assign_cars no_fault order
                             (start t n))))
       = seat_all cs t /\
       (Permutation t rows ->
        NoDup (map FlatGuests.id t) ->
        forall c,
          (List.length
             (riders c (committed
                          (db (snd (FlatGuests.assign_cars no_fault order
                                      (start t n))))))
           <= 5)%nat)).
Proof.
  intros En.
  pose proof (cars_closed_form rows) as H. rewrite En in H.
  eexists. split; [exact H|].
  rewrite number_cars_guests.
  split; [|split; [reflexivity|split; [|split]]].
  - apply Forall_forall. intros c Hc.
    assert (Hin : In (FlatGuests.car_guests c)
                     (flat_map (fun k => slices (on_flight k rows) 0)
                               (for_in_order (flights_seen rows)))).
    { rewrite <- (number_cars_guests _ 1). apply in_map. exact Hc. }
    apply in_flat_map in Hin as (k & _ & Hin).
    destruct (slices_partition (on_flight k rows)) as (_ & Hf & _).
    rewrite Forall_forall in Hf. apply Hf. exact Hin.
  - intros k. destruct (slices_partition (on_flight k rows)) as (Hc & _ & Hn).
    split; [exact Hc|exact Hn].
  - intros a b c d e f -> Hb Hc Hd He Hf.
    assert (Hall : Forall (fun g => FlatGuests.flight g = FlatGuests.flight a)
                          [a; b; c; d; e; f]) by (repeat constructor; auto).
    rewrite (flights_seen_one Hall), for_in_order_single.
    cbn [flat_map]. rewrite (on_flight_all Hall), app_nil_r.
    reflexivity.
  - intros order t n Ho.
    destruct (assign_cars_spec order t n) as [Hr Hc].
    rewrite Ho, H in Hr, Hc.
    split; [exact Hr|]. split; [exact Hc|].
    intros Hp Hnd c. rewrite Hc. eapply riders_capacity; eauto.
Qed.

(** Witness of C5: the six guests of flight XY100; the handler leaves
    the car number 1 on the first five and 2 on the sixth. *)
Lemma car_capacity_witness :
  names_member Sample.six = false /\
  exists cs,
    FlatGuests.cars Sample.six = Ok cs /\
    cs = [ {| FlatGuests.car_number := 1;
              FlatGuests.car_guests := firstn 5 Sample.six |};
           {| FlatGuests.car_number := 2;
              FlatGuests.car_guests := skipn 5 Sample.six |} ] /\
    Forall (fun c => 1 <= List.length (FlatGuests.car_guests c) <= 5)%nat cs /\
    map FlatGuests.car_assigned
        (committed (db (snd (FlatGuests.assign_cars no_fault (fun t => t)
                               (start Sample.six 1)))))
    = [Some 1; Some 1; Some 1; Some 1; Some 1; Some 2] /\
    (List.length
       (riders 1 (committed (db (snd (FlatGuests.assign_cars no_fault
                                        (fun t => t) (start Sample.six 1))))))
     <= 5)%nat.
Proof.
  split; [reflexivity|].
  destruct (@car_capacity Sample.six eq_refl)
    as (cs & Hcs & Hsize & _ & _ & Hsix & Htable).
  exists cs. split; [exact Hcs|].
  split; [apply (Hsix _ _ _ _ _ _ eq_refl); reflexivity|].
  split; [exact Hsize|].
  destruct (Htable (fun t => t) Sample.six 1 eq_refl) as (_ & _ & Hriders).
  split; [reflexivity|].
  apply Hriders.
  - apply Permutation_refl.
  - simpl. repeat constructor; simpl; intuition discriminate.
Defined.

(* ===================================================================== *)
(** ** C10: the grouping key                                              *)
(* ===================================================================== *)

(** C10.  The grouping of POST /api/assign-cars reads the flight number
    alone, and misses the flight numbers that name a member of
    [Object.prototype].  Two guests of the airlines AA and BA whose
    flight number is the text constructor: the grouping throws, no group
    holds them, and the handler replies 500 and writes no car number.
    For every other flight number the claim holds: when no flight is
    named like such a member, two guests of the rows with the same
    flight number are in the same group, whatever their airlines, which
    is the list of all the rows with that flight number; with a store
    that runs every statement the handler replies with its message; and
    when that group has at most five guests and the ids are unique, the
    handler writes one car number on both. *)
Theorem groups_ignore_airline :
  (FlatGuests.group_by_flight Sample.named_constructor [] = Throw /\
   FlatGuests.assign_cars no_fault (fun t => t)
     (start Sample.named_constructor 1)
   = (Ok FlatGuests.Error500,
      {| db := {| committed := Sample.named_constructor; txn := None;
                  seq := 1; issued := 1;
                  observed := [Sample.named_constructor] |};
         calls := [] |}) /\
   map FlatGuests.flight Sample.named_constructor
   = ["constructor"; "constructor"] /\
   map FlatGuests.airline Sample.named_constructor = [Some "AA"; Some "BA"] /\
   map FlatGuests.car_assigned Sample.named_constructor = [None; None])
  /\
  (forall order (t : FlatGuests.tables) n g1 g2,
     names_member (order t) = false ->
     In g1 (order t) -> In g2 (order t) ->
     FlatGuests.flight g1 = FlatGuests.flight g2 ->
     (exists fg,
        FlatGuests.group_by_flight (order t) [] = Ok fg /\
        FlatGuests.members fg (FlatGuests.flight g1)
        = on_flight (FlatGuests.flight g1) (order t) /\
        In g1 (FlatGuests.members fg (FlatGuests.flight g1)) /\
        In g2 (FlatGuests.members fg (FlatGuests.flight g1))) /\
     fst (FlatGuests.assign_cars no_fault order (start t n))
     = Ok FlatGuests.Message /\
     ((List.length (on_flight (FlatGuests.flight g1) (order t)) <= 5)%nat ->
      Permutation t (order t) ->
      NoDup (map FlatGuests.id t) ->
      exists c,
        In (FlatGuests.with_car g1 (Some c))
           (committed (db (snd (FlatGuests.assign_cars no_fault order
                                  (start t n))))) /\
        In (FlatGuests.with_car g2 (Some c))
           (committed (db (snd (FlatGuests.assign_cars no_fault order
                                  (start t n))))))).
Proof.
  split; [repeat split; reflexivity|].
  intros order t n g1 g2 Hn H1 H2 Hf.
  assert (Hg1 : In g1 (on_flight (FlatGuests.flight g1) (order t)))
    by (apply on_flight_In; auto).
  assert (Hg2 : In g2 (on_flight (FlatGuests.flight g1) (order t)))
    by (apply on_flight_In; auto).
  pose proof (cars_closed_form (order t)) as Hcars. rewrite Hn in Hcars.
  split; [|split].
  - unfold FlatGuests.cars in Hcars.
    destruct (FlatGuests.group_by_flight (order t) []) as [fg|] eqn:E;
      [|discriminate].
    exists fg. split; [reflexivity|].
    apply group_by_flight_spec in E as (_ & Hm).
    rewrite Hm. simpl. auto.
  - destruct (assign_cars_spec order t n) as [Hr _].
    rewrite Hcars in Hr. exact Hr.
  - intros Hlen Hperm Hnd. eapply same_flight_same_car; eauto.
Qed.

(** Witness of C10: flight 100 of the airlines AA and BA; both guests
    get the car number 1. *)
Lemma groups_ignore_airline_witness :
  names_member Sample.same_number = false /\
  exists c,
    In (FlatGuests.with_car
          (Sample.flat 1 "100" "AA" OnTime Sample.new_year) (Some c))
       (committed (db (snd (FlatGuests.assign_cars no_fault (fun t => t)
                              (start Sample.same_number 1))))) /\
    In (FlatGuests.with_car
          (Sample.flat 2 "100" "BA" OnTime Sample.next_noon) (Some c))
       (committed (db (snd (FlatGuests.assign_cars no_fault (fun t => t)
                              (start Sample.same_number 1))))).
Proof.
  split; [reflexivity|].
  destruct groups_ignore_airline as [_ H].
  destruct (H (fun t => t) Sample.same_number 1
              (Sample.flat 1 "100" "AA" OnTime Sample.new_year)
              (Sample.flat 2 "100" "BA" OnTime Sample.next_noon)
              eq_refl) as (_ & _ & Hcar).
  - simpl. auto.
  - simpl. auto.
  - reflexivity.
  - apply Hcar.
    + simpl. lia.
    + apply Permutation_refl.
    + simpl. repeat constructor; simpl; intuition discriminate.
Defined.
(* ===================================================================== *)
(** ** Invariants of handlers: the rules                                  *)
(* ===================================================================== *)

(** Split the conjunctions of the goal, not the equivalences. *)
Ltac conjs := repeat match goal with |- _ /\ _ => split end.

Section Keeps.

Variable T : Type.
Variable I : conn T -> Prop.

Lemma keeps_ret A (a : A) (Q : A -> Prop) : Q a -> keeps I (ret a) Q.
Proof.
  intros Ha w r w' Hi E. inversion E; subst. split; [exact Hi|].
  intros x Hx. inversion Hx; subst. exact Ha.
Qed.

Lemma keeps_throw A (Q : A -> Prop) : keeps I (@throw (world T) A) Q.
Proof.
  intros w r w' Hi E. inversion E; subst. split; [exact Hi|].
  intros x Hx. discriminate.
Qed.

Lemma keeps_bind A B (m : M (world T) A) (k : A -> M (world T) B)
      (Q : A -> Prop) (R : B -> Prop) :
  keeps I m Q -> (forall x, Q x -> keeps I (k x) R) ->
  keeps I (bind m k) R.
Proof.
  intros Hm Hk w r w' Hi E. rewrite bind_unfold in E.
  destruct (m w) as [[a|] w1] eqn:Em.
  - destruct (Hm _ _ _ Hi Em) as [Hi1 Hq].
    eapply (Hk a); eauto.
  - destruct (Hm _ _ _ Hi Em) as [Hi1 _].
    inversion E; subst. split; [exact Hi1|]. intros x Hx. discriminate.
Qed.

Lemma keeps_try_catch A (m h : M (world T) A) (Q : A -> Prop) :
  keeps I m Q -> keeps I h Q -> keeps I (try_catch m h) Q.
Proof.
  intros Hm Hh w r w' Hi E. unfold try_catch in E.
  destruct (m w) as [[a|] w1] eqn:Em.
  - inversion E; subst. eapply Hm; eauto.
  - destruct (Hm _ _ _ Hi Em) as [Hi1 _]. eapply Hh; eauto.
Qed.

Lemma keeps_finally A (m : M (world T) A) (f : M (world T) unit)
      (Q : A -> Prop) :
  keeps I m Q -> keeps I f (fun _ => True) -> keeps I (finally m f) Q.
Proof.
  intros Hm Hf w r w' Hi E. unfold finally in E.
  destruct (m w) as [r1 w1] eqn:Em.
  destruct (Hm _ _ _ Hi Em) as [Hi1 Hq].
  destruct (f w1) as [[u|] w2] eqn:Ef;
    destruct (Hf _ _ _ Hi1 Ef) as [Hi2 _]; inversion E; subst.
  - split; assumption.
  - split; [assumption|]. intros x Hx. discriminate.
Qed.

Lemma keeps_weaken A (m : M (world T) A) (Q Q' : A -> Prop) :
  keeps I m Q -> (forall x, Q x -> Q' x) -> keeps I m Q'.
Proof.
  intros Hm Hq w r w' Hi E. destruct (Hm _ _ _ Hi E) as [Hi1 H].
  split; [exact Hi1|]. intros x Hx. apply Hq, H, Hx.
Qed.

Lemma keeps_for_of A (l : list A) (body : A -> M (world T) unit) :
  (forall x, In x l -> keeps I (body x) (fun _ => True)) ->
  keeps I (for_of l body) (fun _ => True).
Proof.
  induction l as [|a l IH]; intros Hb; simpl.
  - apply keeps_ret. exact Logic.I.
  - eapply keeps_bind.
    + apply Hb. simpl. auto.
    + intros _ _. apply IH. intros x Hx. apply Hb. simpl. auto.
Qed.

(** A handler that leaves the connection alone. *)
Lemma keeps_same_db A (m : M (world T) A) (Q : A -> Prop) :
  (forall w, db (snd (m w)) = db w /\ forall x, fst (m w) = Ok x -> Q x) ->
  keeps I m Q.
Proof.
  intros H w r w' Hi E. destruct (H w) as [Hd Hq]. rewrite E in Hd, Hq.
  simpl in Hd, Hq. rewrite Hd. split; [exact Hi|exact Hq].
Qed.

End Keeps.

Section KeepsTables.

Variable T : Type.
Variable fault : nat -> bool.
Variable P : Z -> T -> Prop.
Hypothesis P_monotone : monotone P.

Lemma keeps_query R draws (stmt : Z -> T -> option (R * T))
      (Q : R -> Prop) :
  stmt_keeps P draws stmt Q ->
  keeps (holds_in P) (query fault draws stmt) Q.
Proof.
  intros Hs w r w' [Hc Ht] E.
  unfold query, on_db, run_stmt in E.
  assert (Hle : seq (db w) <= (if draws then seq (db w) + 1 else seq (db w)))
    by (destruct draws; lia).
  assert (Hcur : P (seq (db w)) (current (db w))).
  { unfold current. destruct (txn (db w)) as [wk|] eqn:Et; auto. }
  destruct (fault (issued (db w))).
  { inversion E; subst. simpl. split; [split; assumption|].
    intros x Hx. discriminate. }
  destruct (stmt (seq (db w)) (current (db w))) as [[x t']|] eqn:Es.
  - destruct (Hs _ _ _ _ Hcur Es) as [Hp Hq].
    destruct (txn (db w)) as [wk|] eqn:Et; inversion E; subst; simpl.
    + split; [split|].
      * eapply P_monotone; eauto.
      * intros w0 Hw0. inversion Hw0; subst. exact Hp.
      * intros x0 Hx0. inversion Hx0; subst. exact Hq.
    + split; [split|].
      * exact Hp.
      * intros w0 Hw0. discriminate.
      * intros x0 Hx0. inversion Hx0; subst. exact Hq.
  - inversion E; subst. simpl. split; [split|].
    + eapply P_monotone; eauto.
    + intros w0 Hw0. eapply P_monotone; eauto.
    + intros x Hx. discriminate.
Qed.

Lemma keeps_BEGIN : keeps (holds_in P) (BEGIN fault) (fun _ => True).
Proof.
  intros w r w' [Hc Ht] E. unfold BEGIN, on_db, run_begin in E.
  destruct (fault (issued (db w))); inversion E; subst; simpl;
    (split; [split; [assumption|]|auto]).
  - assumption.
  - intros w0 Hw0. inversion Hw0; subst.
    unfold current. destruct (txn (db w)) eqn:Et; auto.
Qed.

Lemma keeps_COMMIT : keeps (holds_in P) (COMMIT fault) (fun _ => True).
Proof.
  intros w r w' [Hc Ht] E. unfold COMMIT, on_db, run_commit in E.
  destruct (fault (issued (db w))); inversion E; subst; simpl;
    (split; [split|auto]).
  - assumption.
  - assumption.
  - unfold current. destruct (txn (db w)) eqn:Et; auto.
  - intros w0 Hw0. discriminate.
Qed.

Lemma keeps_ROLLBACK : keeps (holds_in P) (ROLLBACK fault) (fun _ => True).
Proof.
  intros w r w' [Hc Ht] E. unfold ROLLBACK, on_db, run_rollback in E.
  destruct (fault (issued (db w))); inversion E; subst; simpl;
    (split; [split|auto]); try assumption.
  intros w0 Hw0. discriminate.
Qed.

Lemma keeps_release : keeps (holds_in P) release (fun _ => True).
Proof. apply keeps_ret. exact I. Qed.

Lemma keeps_connect granted :
  keeps (holds_in P) (connect granted) (fun _ => True).
Proof. destruct granted; [apply keeps_ret; exact I|apply keeps_throw]. Qed.

(** A handler that asks the pool for a connection first. *)
Lemma keeps_connected granted A (m : M (world T) A) (Q : A -> Prop) :
  keeps (holds_in P) m Q -> keeps (holds_in P) (connect granted ;;; m) Q.
Proof.
  intros Hm. eapply keeps_bind; [apply keeps_connect|]. intros _ _. exact Hm.
Qed.

(** The transactional shape keeps what its body keeps. *)
Lemma keeps_transaction A (m : M (world T) A) (err : A) (Q : A -> Prop) :
  keeps (holds_in P) m Q -> Q err ->
  keeps (holds_in P) (transaction fault m err) Q.
Proof.
  intros Hm He. unfold transaction.
  apply keeps_finally; [|apply keeps_release].
  apply keeps_try_catch.
  - eapply keeps_bind; [apply keeps_BEGIN|]. intros _ _. exact Hm.
  - eapply keeps_bind; [apply keeps_ROLLBACK|]. intros _ _.
    apply keeps_ret. exact He.
Qed.

(** A fresh connection on tables that satisfy [P]. *)
Lemma holds_in_start (t : T) (n : Z) : P n t -> holds_in P (db (start t n)).
Proof. intros H. split; [exact H|]. intros w Hw. discriminate. Qed.

End KeepsTables.

(* ===================================================================== *)
(** ** Transactions: the rules                                            *)
(* ===================================================================== *)

Section Quiet.

Variable T : Type.
Variable fault : nat -> bool.

Lemma quiet_ret A (a : A) : quiet (@ret (world T) A a).
Proof. intros t w r w' Hu Ht E. inversion E; subst. auto. Qed.

Lemma quiet_throw A : quiet (@throw (world T) A).
Proof. intros t w r w' Hu Ht E. inversion E; subst. auto. Qed.

Lemma quiet_bind A B (m : M (world T) A) (k : A -> M (world T) B) :
  quiet m -> (forall x, quiet (k x)) -> quiet (bind m k).
Proof.
  intros Hm Hk t w r w' Hu Ht E. rewrite bind_unfold in E.
  destruct (m w) as [[a|] w1] eqn:Em;
    destruct (Hm _ _ _ _ Hu Ht Em) as [Hu1 Ht1].
  - eapply Hk; eauto.
  - inversion E; subst. auto.
Qed.

Lemma quiet_for_of A (l : list A) (body : A -> M (world T) unit) :
  (forall x, quiet (body x)) -> quiet (for_of l body).
Proof.
  intros Hb. induction l as [|a l IH]; simpl.
  - apply quiet_ret.
  - apply quiet_bind; auto.
Qed.

Lemma quiet_query R draws (stmt : Z -> T -> option (R * T)) :
  quiet (query fault draws stmt).
Proof.
  intros t w r w' Hu Ht E. eapply query_untouched; eauto.
Qed.

(** A quiet prefix before a script that settles. *)
Lemma settles_bind A B (t : T) (m : M (world T) A)
      (k : A -> M (world T) B) (Good : B -> T -> Prop) :
  (forall w r w', untouched t (db w) -> txn (db w) = Some t ->
                  m w = (r, w') ->
                  untouched t (db w') /\ txn (db w') = Some t) ->
  (forall x, settles t (k x) Good) ->
  settles t (bind m k) Good.
Proof.
  intros Hm Hk w r w' Hu Ht E. rewrite bind_unfold in E.
  destruct (m w) as [[a|] w1] eqn:Em;
    destruct (Hm _ _ _ Hu Ht Em) as [Hu1 Ht1].
  - eapply Hk; eauto.
  - inversion E; subst. left. auto.
Qed.

(** COMMIT and the reply, at the end of a transaction that has shown
    readers nothing. *)
Lemma commit_settles A (t : T) (a : A) (Good : A -> T -> Prop) w r w' :
  untouched t (db w) ->
  Good a (current (db w)) ->
  (COMMIT fault ;;; ret a) w = (r, w') ->
  (r = Throw /\ untouched t (db w')) \/
  (exists x, r = Ok x /\ Good x (committed (db w')) /\
             txn (db w') = None /\
             exists obs, observed (db w') = obs ++ [committed (db w')] /\
                         Forall (fun s => s = t) obs).
Proof.
  intros Hu Hg E. rewrite bind_unfold in E.
  destruct (COMMIT fault w) as [r4 w4] eqn:E4.
  apply COMMIT_inv in E4 as (_ & Hcases).
  destruct Hcases as [(-> & Hc4 & _ & Ho4)|(-> & Hc4 & Ht4 & Ho4)].
  - inversion E; subst. left. split; [reflexivity|].
    destruct Hu as [Hc Ho].
    eapply untouched_step; [split; eassumption|congruence|].
    rewrite Ho4, Hc. reflexivity.
  - inversion E; subst. right. exists a. split; [reflexivity|].
    split; [rewrite Hc4; exact Hg|].
    split; [exact Ht4|].
    exists (observed (db w)). destruct Hu as [_ Ho].
    rewrite Ho4, Hc4. auto.
Qed.

(** The transactional shape around a body that settles, from a fresh
    connection on the tables [t]: the handler replies what the body
    returned, with the tables the body committed, or it replies the
    error (or throws) and readers have seen [t] only. *)
Lemma transaction_spec A (t : T) (m : M (world T) A) (err : A)
      (Good : A -> T -> Prop) (n : Z) :
  settles t m Good ->
  let res := transaction fault m err (start t n) in
  (forall x, fst res = Ok x -> txn (db (snd res)) = None) /\
  (((fst res = Ok err \/ fst res = Throw) /\
    untouched t (db (snd res))) \/
   (exists x, fst res = Ok x /\ Good x (committed (db (snd res))) /\
              exists obs,
                observed (db (snd res)) =
                  obs ++ [committed (db (snd res))] /\
                Forall (fun s => s = t) obs)).
Proof.
  intros Hm. unfold transaction. rewrite finally_release.
  cbv zeta. simpl.
  unfold try_catch. rewrite bind_unfold.
  assert (Hcatch : forall w1 r1 w2,
            untouched t (db w1) ->
            (ROLLBACK fault ;;; ret err) w1 = (r1, w2) ->
            (forall x, r1 = Ok x -> txn (db w2) = None) /\
            (r1 = Ok err \/ r1 = Throw) /\ untouched t (db w2)).
  { intros w1 r1 w2 Hu E. rewrite bind_unfold in E.
    destruct (ROLLBACK fault w1) as [r0 w0] eqn:ER.
    apply ROLLBACK_inv in ER as (_ & Hc & Ho & Hr).
    assert (Hu0 : untouched t (db w0)).
    { destruct Hu as [Hct Hot].
      eapply untouched_step; [split; eassumption|congruence|].
      rewrite Ho, Hct. reflexivity. }
    destruct Hr as [[-> _] | [-> Hno]]; inversion E; subst;
      (split; [|split; auto]); [discriminate|intros _ _; exact Hno]. }
  destruct (BEGIN fault (start t n)) as [rB wB] eqn:EB.
  apply BEGIN_inv in EB as (_ & Hc & Ho & _ & Hcases).
  simpl in Hc, Ho.
  assert (HuB : untouched t (db wB)).
  { split; [exact Hc|]. rewrite Ho. repeat constructor. }
  destruct Hcases as [(-> & _)|(-> & HtB)].
  - destruct ((ROLLBACK fault ;;; ret err) wB) as [r1 w2] eqn:E.
    simpl. destruct (Hcatch _ _ _ HuB E) as (Hno & Hr).
    split; [exact Hno|]. left. exact Hr.
  - change (current (db (start t n))) with t in HtB.
    destruct (m wB) as [[x|] w1] eqn:Em.
    + destruct (Hm _ _ _ HuB HtB Em)
        as [(Hr & _)|(x' & Hr & Hg & Hno & Hobs)]; [discriminate|].
      inversion Hr; subst. simpl. split; [intros _ _; exact Hno|].
      right. exists x'. auto.
    + destruct (Hm _ _ _ HuB HtB Em)
        as [(_ & Hu1)|(x' & Hr & _)]; [|discriminate].
      destruct ((ROLLBACK fault ;;; ret err) w1) as [r1 w2] eqn:E.
      simpl. destruct (Hcatch _ _ _ Hu1 E) as (Hno & Hr).
      split; [exact Hno|]. left. exact Hr.
Qed.

End Quiet.
(* ===================================================================== *)
(** ** part_000 and part_001: what every handler keeps                    *)
(* ===================================================================== *)

Lemma status_of_vocabulary flight :
  In (LegStore.status_of flight) status_vocabulary.
Proof.
  unfold LegStore.status_of, status_vocabulary.
  destruct (str_is _ "cancelled"); [simpl; auto|].
  destruct (str_is _ "landed"); [simpl; auto|].
  destruct (str_is _ "active"); [simpl; auto|].
  destruct (_ && _); simpl; auto.
Qed.

Section LegStoreKeeps.

Variable fault : nat -> bool.
Variable P : Z -> LegStore.tables -> Prop.
Hypothesis P_monotone : monotone P.

(** What the handlers need of their statements. *)
Hypothesis keeps_update_leg_status : forall st id,
  In st status_vocabulary ->
  stmt_keeps P false (LegStore.update_leg_status st id) (fun _ => True).
Hypothesis keeps_update_guest : forall nm dest feta id,
  stmt_keeps P false (LegStore.update_guest nm dest feta id) (fun _ => True).
Hypothesis keeps_delete_legs : forall id,
  stmt_keeps P false (LegStore.delete_legs id) (fun _ => True).
Hypothesis keeps_insert_leg : forall id leg i,
  stmt_keeps P true (LegStore.insert_leg id leg i) (fun _ => True).
Hypothesis keeps_delete_guest : forall id,
  stmt_keeps P false (LegStore.delete_guest id) (fun _ => True).
Hypothesis keeps_insert_guest : forall nm dest feta gid,
  stmt_keeps P false (LegStore.insert_guest nm dest feta gid)
             (fun _ => True).

(** A statement that only reads. *)
Lemma keeps_read R
      (stmt : Z -> LegStore.tables -> option (R * LegStore.tables)) :
  (forall s t x t', stmt s t = Some (x, t') -> t' = t) ->
  keeps (holds_in P) (query fault false stmt) (fun _ => True).
Proof.
  intros Hr. apply keeps_query; [exact P_monotone|].
  intros s t x t' Hp E. apply Hr in E. subst. auto.
Qed.

Lemma keeps_refresh_leg fetch leg :
  (forall fn al d,
      keeps (holds_in P) (fetch fn al d)
            (fun r => forall st, r = Some st -> In st status_vocabulary)) ->
  keeps (holds_in P) (LegStore.refresh_leg fault fetch leg) (fun _ => True).
Proof.
  intros Hf. unfold LegStore.refresh_leg.
  eapply keeps_bind; [apply Hf|].
  intros [st|] Hst.
  - apply keeps_query; [exact P_monotone|].
    apply keeps_update_leg_status. apply Hst. reflexivity.
  - apply keeps_ret. exact I.
Qed.

Lemma keeps_fetch env p fn al d :
  keeps (holds_in P) (@LegStore.fetchFlightStatus LegStore.tables
                        env p fn al d)
        (fun r => forall st, r = Some st -> In st status_vocabulary).
Proof.
  apply keeps_same_db. intros w. rewrite fetch_spec. simpl.
  split; [reflexivity|]. intros x Hx st Hst. injection Hx as <-.
  destruct (first_flight _); simpl in Hst; [|discriminate].
  injection Hst as <-. apply status_of_vocabulary.
Qed.

Lemma keeps_fetch_today env p fn al d :
  keeps (holds_in P) (@LegStoreToday.fetchFlightStatus LegStore.tables
                        env p fn al d)
        (fun r => forall st, r = Some st -> In st status_vocabulary).
Proof.
  apply keeps_same_db. intros w. rewrite fetch_today_spec.
  destruct (truthy env); simpl.
  - split; [reflexivity|]. intros x Hx st Hst. injection Hx as <-.
    destruct (first_flight _); simpl in Hst; [|discriminate].
    injection Hst as <-. apply status_of_vocabulary.
  - split; [reflexivity|]. intros x Hx st Hst. injection Hx as <-.
    discriminate.
Qed.

Lemma keeps_pass granted env p :
  keeps (holds_in P) (LegStore.updateFlightStatuses granted fault env p)
        (fun _ => True).
Proof.
  unfold LegStore.updateFlightStatuses. apply keeps_connected.
  apply keeps_finally; [|apply keeps_release].
  eapply keeps_bind.
  - apply keeps_read. intros s t x t' E. inversion E. reflexivity.
  - intros rows _. apply keeps_for_of. intros leg _.
    apply keeps_refresh_leg. intros. apply keeps_fetch.
Qed.

Lemma keeps_pass_today granted env p now :
  keeps (holds_in P)
        (LegStoreToday.updateFlightStatuses granted fault env p now)
        (fun _ => True).
Proof.
  unfold LegStoreToday.updateFlightStatuses. apply keeps_connected.
  apply keeps_finally; [|apply keeps_release].
  apply keeps_try_catch; [|apply keeps_ret; exact I].
  eapply keeps_bind.
  - apply keeps_read. intros s t x t' E. inversion E. reflexivity.
  - intros rows _. apply keeps_for_of. intros leg _.
    apply keeps_refresh_leg. intros. apply keeps_fetch_today.
Qed.

Lemma keeps_insert_legs id legs : forall i,
  keeps (holds_in P) (LegStore.insert_legs fault id i legs) (fun _ => True).
Proof.
  induction legs as [|leg legs IH]; intros i; simpl.
  - apply keeps_ret. exact I.
  - eapply keeps_bind.
    + destruct leg as [leg|]; [|apply keeps_throw].
      apply keeps_query; [exact P_monotone|]. apply keeps_insert_leg.
    + intros _ _. apply IH.
Qed.

Lemma keeps_final_leg legs :
  keeps (holds_in P) (LegStore.final_leg legs) (fun _ => True).
Proof.
  unfold LegStore.final_leg. destruct legs as [v|]; [|apply keeps_throw].
  destruct (LegStore.final_element v);
    [apply keeps_ret; exact I|apply keeps_throw].
Qed.

Lemma keeps_put_guest granted id body :
  keeps (holds_in P) (LegStore.put_guest granted fault id body)
        (fun _ => True).
Proof.
  change (keeps (holds_in P)
            (connect granted ;;;
             transaction fault (LegStore.replace_legs fault id body)
                         LegStore.Error500) (fun _ => True)).
  apply keeps_connected.
  apply keeps_transaction; [|exact I].
  unfold LegStore.replace_legs.
  eapply keeps_bind; [apply keeps_final_leg|]. intros finalLeg _.
  eapply keeps_bind;
    [apply keeps_query; [exact P_monotone|apply keeps_update_guest]|].
  intros _ _.
  eapply keeps_bind;
    [apply keeps_query; [exact P_monotone|apply keeps_delete_legs]|].
  intros _ _.
  eapply keeps_bind; [apply keeps_insert_legs|]. intros _ _.
  eapply keeps_bind; [apply keeps_COMMIT|]. intros _ _.
  apply keeps_ret. exact I.
Qed.

Lemma keeps_post_guest granted next body :
  keeps (holds_in P) (LegStore.post_guest granted fault next body)
        (fun _ => True).
Proof.
  change (keeps (holds_in P)
            (connect granted ;;;
             transaction fault (LegStore.create_guest fault next body)
                         LegStore.PostError500) (fun _ => True)).
  apply keeps_connected.
  apply keeps_transaction; [|exact I].
  unfold LegStore.create_guest.
  eapply keeps_bind; [apply keeps_final_leg|]. intros finalLeg _.
  eapply keeps_bind;
    [apply keeps_query; [exact P_monotone|apply keeps_insert_guest]|].
  intros guestId _.
  eapply keeps_bind; [apply keeps_insert_legs|]. intros _ _.
  eapply keeps_bind; [apply keeps_COMMIT|]. intros _ _.
  apply keeps_ret. exact I.
Qed.

Lemma keeps_delete_guest_handler granted id :
  keeps (holds_in P) (LegStore.delete_guest_handler granted fault id)
        (fun _ => True).
Proof.
  unfold LegStore.delete_guest_handler. apply keeps_connected.
  apply keeps_finally; [|apply keeps_release].
  apply keeps_try_catch; [|apply keeps_ret; exact I].
  eapply keeps_bind;
    [apply keeps_query; [exact P_monotone|apply keeps_delete_guest]|].
  intros _ _. apply keeps_ret. exact I.
Qed.

Lemma keeps_promise_all by_leg_order rows :
  keeps (holds_in P) (LegStore.promise_all fault by_leg_order rows)
        (fun _ => True).
Proof.
  induction rows as [|guest rows IH]; simpl.
  - apply keeps_ret. exact I.
  - eapply keeps_bind with (Q := fun _ => True).
    + unfold LegStore.guest_with_legs. eapply keeps_bind.
      * apply keeps_read. intros s t x t' E. inversion E. reflexivity.
      * intros legs _. apply keeps_ret. exact I.
    + intros v _. eapply keeps_bind; [apply IH|].
      intros vs _. apply keeps_ret. exact I.
Qed.

Lemma keeps_get_guests granted by_created by_leg_order :
  keeps (holds_in P)
        (LegStore.get_guests granted fault by_created by_leg_order)
        (fun _ => True).
Proof.
  unfold LegStore.get_guests. apply keeps_connected.
  apply keeps_finally; [|apply keeps_release].
  apply keeps_try_catch; [|apply keeps_ret; exact I].
  eapply keeps_bind.
  - apply keeps_read. intros s t x t' E. inversion E. reflexivity.
  - intros rows _. eapply keeps_bind; [apply keeps_promise_all|].
    intros vs _. apply keeps_ret. exact I.
Qed.

End LegStoreKeeps.
(* ===================================================================== *)
(** ** part_000 and part_001: keys, references, the status column         *)
(* ===================================================================== *)

Lemma distinct_filter A B (key : A -> B) (keep : A -> bool) (l : list A) :
  NoDup (map key l) -> NoDup (map key (filter keep l)).
Proof.
  induction l as [|a l IH]; simpl; intros Hd; [constructor|].
  apply NoDup_cons_iff in Hd as [Hn Hd].
  destruct (keep a); simpl; auto.
  apply NoDup_cons_iff. split; auto.
  intros Hin. apply Hn. apply in_map_iff in Hin as (b & Hb & Hin).
  apply filter_In in Hin as [Hin _]. apply in_map_iff. eauto.
Qed.

Lemma Forall_filter_keep A (Q : A -> Prop) (keep : A -> bool) (l : list A) :
  Forall Q l -> Forall Q (filter keep l).
Proof.
  intros H. apply Forall_forall. intros x Hx.
  apply filter_In in Hx as [Hx _]. eapply Forall_forall in H; eauto.
Qed.

Lemma leg_ids_after_status st id ls :
  map LegStore.leg_id
      (map (fun l => if LegStore.leg_id l =? id
                     then LegStore.with_status l st else l) ls)
  = map LegStore.leg_id ls.
Proof.
  rewrite map_map. apply map_ext. intros l.
  destruct (LegStore.leg_id l =? id); reflexivity.
Qed.

Lemma leg_guests_after_status st id ls :
  map LegStore.leg_guest
      (map (fun l => if LegStore.leg_id l =? id
                     then LegStore.with_status l st else l) ls)
  = map LegStore.leg_guest ls.
Proof.
  rewrite map_map. apply map_ext. intros l.
  destruct (LegStore.leg_id l =? id); reflexivity.
Qed.

Lemma guest_ids_after_update nm dest feta id gs :
  map LegStore.guest_id
      (map (fun g => if LegStore.guest_id g =? id
                     then {| LegStore.guest_id := LegStore.guest_id g;
                             LegStore.name := nm;
                             LegStore.final_destination := dest;
                             LegStore.final_eta := feta;
                             LegStore.car_assigned :=
                               LegStore.car_assigned g |}
                     else g) gs)
  = map LegStore.guest_id gs.
Proof.
  rewrite map_map. apply map_ext. intros g.
  destruct (LegStore.guest_id g =? id); reflexivity.
Qed.

(** Whether a guest exists depends on the ids of the table only. *)
Lemma has_guest_by_ids i t :
  LegStore.has_guest i t
  = existsb (fun j => j =? i) (map LegStore.guest_id (LegStore.guests t)).
Proof.
  unfold LegStore.has_guest. induction (LegStore.guests t) as [|g gs IH];
    simpl; [reflexivity|]. rewrite IH. reflexivity.
Qed.

Lemma has_guest_In i t :
  LegStore.has_guest i t = true <->
  In i (map LegStore.guest_id (LegStore.guests t)).
Proof.
  rewrite has_guest_by_ids, existsb_exists. split.
  - intros (j & Hj & E). apply Z.eqb_eq in E. subst. exact Hj.
  - intros H. exists i. split; [exact H|apply Z.eqb_refl].
Qed.

(* --------------------------------------------------------------------- *)
(** *** The keys                                                          *)

Lemma keys_unique_monotone : monotone keys_unique.
Proof.
  intros s s' t Hle (Hg & Hl & Hb). repeat apply conj; auto.
  eapply Forall_impl; [|exact Hb]. simpl. intros l H. lia.
Qed.

Lemma keys_update_leg_status st id :
  stmt_keeps keys_unique false (LegStore.update_leg_status st id)
             (fun _ => True).
Proof.
  intros s t x t' (Hg & Hl & Hb) E. unfold LegStore.update_leg_status in E.
  injection E as _ <-. split; [|exact I]. unfold keys_unique. simpl.
  rewrite leg_ids_after_status. repeat apply conj; auto.
  apply Forall_map with (f := LegStore.leg_id) (P := fun i => i < s).
  rewrite leg_ids_after_status. apply Forall_map. exact Hb.
Qed.

Lemma keys_update_guest nm dest feta id :
  stmt_keeps keys_unique false (LegStore.update_guest nm dest feta id)
             (fun _ => True).
Proof.
  intros s t x t' (Hg & Hl & Hb) E. unfold LegStore.update_guest in E.
  destruct nm as [n|].
  - injection E as _ <-. split; [|exact I]. unfold keys_unique. simpl.
    rewrite guest_ids_after_update. auto.
  - destruct (LegStore.has_guest id t); [discriminate|].
    injection E as _ <-. split; [|exact I]. repeat apply conj; auto.
Qed.

Lemma keys_delete_legs id :
  stmt_keeps keys_unique false (LegStore.delete_legs id) (fun _ => True).
Proof.
  intros s t x t' (Hg & Hl & Hb) E. unfold LegStore.delete_legs in E.
  injection E as _ <-. split; [|exact I]. unfold keys_unique. simpl.
  repeat apply conj; auto.
  - apply distinct_filter. exact Hl.
  - apply Forall_filter_keep. exact Hb.
Qed.

Lemma keys_insert_leg id leg i :
  stmt_keeps keys_unique true (LegStore.insert_leg id leg i) (fun _ => True).
Proof.
  intros s t x t' (Hg & Hl & Hb) E. unfold LegStore.insert_leg in E.
  destruct (LegStore.in_flight leg); [|discriminate].
  destruct (LegStore.in_origin leg); [|discriminate].
  destruct (LegStore.in_destination leg); [|discriminate].
  destruct (LegStore.in_eta leg); [|discriminate].
  destruct (LegStore.has_guest id t); [|discriminate].
  injection E as _ <-. split; [|exact I]. unfold keys_unique. simpl.
  repeat apply conj; auto.
  - rewrite map_app. simpl. apply NoDup_app; auto.
    + repeat constructor. simpl. tauto.
    + intros a Ha [<-|[]]. apply in_map_iff in Ha as (l & El & Hin).
      eapply Forall_forall in Hb; eauto. lia.
  - apply Forall_app. split.
    + eapply Forall_impl; [|exact Hb]. simpl. intros l H. lia.
    + repeat constructor. simpl. lia.
Qed.

Lemma keys_delete_guest id :
  stmt_keeps keys_unique false (LegStore.delete_guest id) (fun _ => True).
Proof.
  intros s t x t' (Hg & Hl & Hb) E. unfold LegStore.delete_guest in E.
  injection E as _ <-. split; [|exact I]. unfold keys_unique. simpl.
  repeat apply conj.
  - apply distinct_filter. exact Hg.
  - apply distinct_filter. exact Hl.
  - apply Forall_filter_keep. exact Hb.
Qed.

Lemma keys_insert_guest nm dest feta gid :
  stmt_keeps keys_unique false (LegStore.insert_guest nm dest feta gid)
             (fun _ => True).
Proof.
  intros s t x t' (Hg & Hl & Hb) E. unfold LegStore.insert_guest in E.
  destruct nm as [n|]; [|discriminate].
  destruct (LegStore.has_guest gid t) eqn:Eh; [discriminate|].
  injection E as _ <-. split; [|exact I]. unfold keys_unique. simpl.
  repeat apply conj; auto.
  rewrite map_app. simpl. apply NoDup_app; auto.
  - repeat constructor. simpl. tauto.
  - intros a Ha [<-|[]]. apply has_guest_In in Ha. congruence.
Qed.

(* --------------------------------------------------------------------- *)
(** *** The references                                                    *)

Lemma references_monotone : monotone (fun _ : Z => references_valid).
Proof. intros s s' t _ H. exact H. Qed.

(** The references stay valid when the guest ids stay and no leg or
    passenger gets another guest. *)
Lemma references_same_ids t t' :
  map LegStore.guest_id (LegStore.guests t')
  = map LegStore.guest_id (LegStore.guests t) ->
  (forall i, In i (map LegStore.leg_guest (LegStore.flight_legs t')) ->
             In i (map LegStore.leg_guest (LegStore.flight_legs t))) ->
  (forall cp, In cp (LegStore.car_passengers t') ->
              In cp (LegStore.car_passengers t)) ->
  references_valid t -> references_valid t'.
Proof.
  intros Hids Hlegs Hcps [Hl Hc]. split; apply Forall_forall.
  - intros l Hin. rewrite has_guest_by_ids, Hids, <- has_guest_by_ids.
    assert (Hi : In (LegStore.leg_guest l)
                    (map LegStore.leg_guest (LegStore.flight_legs t))).
    { apply Hlegs. apply in_map. exact Hin. }
    apply in_map_iff in Hi as (l0 & E & Hin0).
    rewrite <- E. eapply Forall_forall in Hl; eauto.
  - intros cp Hin. rewrite has_guest_by_ids, Hids, <- has_guest_by_ids.
    eapply Forall_forall in Hc; eauto.
Qed.

Lemma references_update_leg_status st id :
  stmt_keeps (fun _ : Z => references_valid) false
             (LegStore.update_leg_status st id) (fun _ => True).
Proof.
  intros s t x t' H E. unfold LegStore.update_leg_status in E.
  injection E as _ <-. split; [|exact I].
  eapply references_same_ids; [| | |exact H]; simpl; auto.
  rewrite leg_guests_after_status. auto.
Qed.

Lemma references_update_guest nm dest feta id :
  stmt_keeps (fun _ : Z => references_valid) false
             (LegStore.update_guest nm dest feta id) (fun _ => True).
Proof.
  intros s t x t' H E. unfold LegStore.update_guest in E.
  destruct nm as [n|].
  - injection E as _ <-. split; [|exact I].
    eapply references_same_ids; [| | |exact H]; simpl; auto.
    apply guest_ids_after_update.
  - destruct (LegStore.has_guest id t); [discriminate|].
    injection E as _ <-. auto.
Qed.

Lemma references_delete_legs id :
  stmt_keeps (fun _ : Z => references_valid) false
             (LegStore.delete_legs id) (fun _ => True).
Proof.
  intros s t x t' H E. unfold LegStore.delete_legs in E.
  injection E as _ <-. split; [|exact I].
  eapply references_same_ids; [| | |exact H]; simpl; auto.
  intros i Hi. apply in_map_iff in Hi as (l & El & Hin).
  apply filter_In in Hin as [Hin _]. apply in_map_iff. eauto.
Qed.

Lemma references_insert_leg id leg i :
  stmt_keeps (fun _ : Z => references_valid) true
             (LegStore.insert_leg id leg i) (fun _ => True).
Proof.
  intros s t x t' [Hl Hc] E. unfold LegStore.insert_leg in E.
  destruct (LegStore.in_flight leg); [|discriminate].
  destruct (LegStore.in_origin leg); [|discriminate].
  destruct (LegStore.in_destination leg); [|discriminate].
  destruct (LegStore.in_eta leg); [|discriminate].
  destruct (LegStore.has_guest id t) eqn:Eh; [|discriminate].
  injection E as _ <-. split; [|exact I]. split; simpl.
  - apply Forall_app. split; [exact Hl|]. repeat constructor. exact Eh.
  - exact Hc.
Qed.

Lemma references_delete_guest id :
  stmt_keeps (fun _ : Z => references_valid) false
             (LegStore.delete_guest id) (fun _ => True).
Proof.
  intros s t x t' [Hl Hc] E. unfold LegStore.delete_guest in E.
  injection E as _ <-. split; [|exact I].
  assert (Hkeep : forall i, i <> id -> LegStore.has_guest i t = true ->
            LegStore.has_guest i
              {| LegStore.guests :=
                   filter (fun g => negb (LegStore.guest_id g =? id))
                          (LegStore.guests t);
                 LegStore.flight_legs :=
                   filter (fun l => negb (LegStore.leg_guest l =? id))
                          (LegStore.flight_legs t);
                 LegStore.car_passengers :=
                   filter (fun cp => negb (snd cp =? id))
                          (LegStore.car_passengers t) |} = true).
  { intros i Hne Hi. unfold LegStore.has_guest in *. simpl.
    apply existsb_exists in Hi as (g & Hin & Eg).
    apply existsb_exists. exists g. split; [|exact Eg].
    apply filter_In. split; [exact Hin|].
    apply Z.eqb_eq in Eg. apply negb_true_iff, Z.eqb_neq. congruence. }
  split; apply Forall_forall; simpl.
  - intros l Hin. apply filter_In in Hin as [Hin Hn].
    apply negb_true_iff, Z.eqb_neq in Hn.
    apply Hkeep; [exact Hn|]. eapply Forall_forall in Hl; eauto.
  - intros cp Hin. apply filter_In in Hin as [Hin Hn].
    apply negb_true_iff, Z.eqb_neq in Hn.
    apply Hkeep; [exact Hn|].
    eapply Forall_forall in Hc; eauto.
Qed.

Lemma references_insert_guest nm dest feta gid :
  stmt_keeps (fun _ : Z => references_valid) false
             (LegStore.insert_guest nm dest feta gid) (fun _ => True).
Proof.
  intros s t x t' [Hl Hc] E. unfold LegStore.insert_guest in E.
  destruct nm as [n|]; [|discriminate].
  destruct (LegStore.has_guest gid t); [discriminate|].
  injection E as _ <-. split; [|exact I].
  assert (Hmore : forall i, LegStore.has_guest i t = true ->
            LegStore.has_guest i
              {| LegStore.guests :=
                   LegStore.guests t ++
                   [{| LegStore.guest_id := gid; LegStore.name := n;
                       LegStore.final_destination := dest;
                       LegStore.final_eta := feta;
                       LegStore.car_assigned := None |}];
                 LegStore.flight_legs := LegStore.flight_legs t;
                 LegStore.car_passengers := LegStore.car_passengers t |}
            = true).
  { intros i Hi. unfold LegStore.has_guest in *. simpl.
    rewrite existsb_app, Hi. reflexivity. }
  split; simpl.
  - eapply Forall_impl; [|exact Hl]. intros l. apply Hmore.
  - eapply Forall_impl; [|exact Hc]. intros cp. apply Hmore.
Qed.

(* --------------------------------------------------------------------- *)
(** *** The status column                                                 *)

Lemma only_status_refl t : only_status t t.
Proof.
  repeat apply conj; auto.
  induction (LegStore.flight_legs t) as [|l ls IH]; constructor; auto.
  split; [destruct l; reflexivity|auto].
Qed.

Lemma only_status_update t0 st id :
  In st status_vocabulary ->
  stmt_keeps (fun _ : Z => only_status t0) false
             (LegStore.update_leg_status st id) (fun _ => True).
Proof.
  intros Hst s t x t' (Hg & Hc & Hl) E.
  unfold LegStore.update_leg_status in E.
  injection E as _ <-. split; [|exact I]. repeat apply conj; simpl; auto.
  induction Hl as [|l0 l ls0 ls [Hw Hs] _ IH]; simpl; constructor; auto.
  destruct (LegStore.leg_id l =? id); [|auto].
  split; [|simpl; auto].
  rewrite Hw. reflexivity.
Qed.

Lemma keeps_snd T A (I : conn T -> Prop) (m : M (world T) A)
      (Q : A -> Prop) (w : world T) :
  keeps I m Q -> I (db w) -> I (db (snd (m w))).
Proof.
  intros H Hi. destruct (m w) as [r w'] eqn:E. simpl. eapply H; eauto.
Qed.

(** X1.  The handlers of part_000 and part_001 keep the keys unique.  If
    the guest ids and the leg ids of the tables are unique and the leg
    ids lie below the next value of their sequence, in what readers see
    and in the open transaction, then this is so again after PUT, POST
    and DELETE /api/guests, after the listing, and after a reconciliation
    pass of either variant, whatever the store fails, whatever the
    request holds and whatever the provider answers: a rollback does not
    give a leg id out twice. *)
Theorem keys_stay_unique granted fault env p now by_created by_leg_order id
        next body
        (w : world LegStore.tables) :
  holds_in keys_unique (db w) ->
  holds_in keys_unique
    (db (snd (LegStore.put_guest granted fault id body w))) /\
  holds_in keys_unique
    (db (snd (LegStore.post_guest granted fault next body w))) /\
  holds_in keys_unique
    (db (snd (LegStore.delete_guest_handler granted fault id w))) /\
  holds_in keys_unique
    (db (snd (LegStore.get_guests granted fault by_created by_leg_order w))) /\
  holds_in keys_unique
    (db (snd (LegStore.updateFlightStatuses granted fault env p w))) /\
  holds_in keys_unique
    (db (snd (LegStoreToday.updateFlightStatuses granted fault env p now w))).
Proof.
  intros H.
  split; [|split; [|split; [|split; [|split]]]];
    (eapply keeps_snd; [|exact H]).
  - apply keeps_put_guest;
      auto using keys_unique_monotone, keys_update_guest, keys_delete_legs,
        keys_insert_leg.
  - apply keeps_post_guest;
      auto using keys_unique_monotone, keys_insert_leg, keys_insert_guest.
  - apply keeps_delete_guest_handler;
      auto using keys_unique_monotone, keys_delete_guest.
  - apply keeps_get_guests. exact keys_unique_monotone.
  - apply keeps_pass; [exact keys_unique_monotone|].
    intros st i _. apply keys_update_leg_status.
  - apply keeps_pass_today; [exact keys_unique_monotone|].
    intros st i _. apply keys_update_leg_status.
Qed.

(** Witness of X1: the store with the legs 1 and 2 and the sequence at 3,
    after a replacement whose COMMIT fails and after one that succeeds. *)
Lemma keys_stay_unique_witness :
  holds_in keys_unique (db (start Sample.two_legs 3)) /\
  holds_in keys_unique
    (db (snd (LegStore.put_guest true (Sample.fails_at 5) 1 Sample.complete_body
                (start Sample.two_legs 3)))) /\
  holds_in keys_unique
    (db (snd (LegStore.post_guest true no_fault 2 Sample.complete_body
                (start Sample.two_legs 3)))).
Proof.
  assert (H : holds_in keys_unique (db (start Sample.two_legs 3))).
  { split; [|intros w0 Hw0; discriminate].
    repeat apply conj; simpl; repeat constructor; simpl;
      intuition (discriminate || lia). }
  split; [exact H|]. split.
  - destruct (keys_stay_unique true (Sample.fails_at 5) None
                (Sample.always AxiosError) 0 (fun t => LegStore.guests t)
                (fun l => l) 1 2 Sample.complete_body
                (start Sample.two_legs 3) H) as (Hp & _).
    exact Hp.
  - destruct (keys_stay_unique true no_fault None
                (Sample.always AxiosError) 0 (fun t => LegStore.guests t)
                (fun l => l) 1 2 Sample.complete_body
                (start Sample.two_legs 3) H) as (_ & Hp & _).
    exact Hp.
Defined.

(** X2.  The handlers of part_000 and part_001 keep the references valid.
    If every leg and every car passenger names a guest of the table, in
    what readers see and in the open transaction, then this is so again
    after PUT, POST and DELETE /api/guests, after the listing, and after
    a reconciliation pass of either variant, whatever the store fails:
    no handler leaves a leg without its guest. *)
Theorem references_stay_valid granted fault env p now by_created by_leg_order
        id next
        body (w : world LegStore.tables) :
  holds_in (fun _ => references_valid) (db w) ->
  holds_in (fun _ => references_valid)
    (db (snd (LegStore.put_guest granted fault id body w))) /\
  holds_in (fun _ => references_valid)
    (db (snd (LegStore.post_guest granted fault next body w))) /\
  holds_in (fun _ => references_valid)
    (db (snd (LegStore.delete_guest_handler granted fault id w))) /\
  holds_in (fun _ => references_valid)
    (db (snd (LegStore.get_guests granted fault by_created by_leg_order w))) /\
  holds_in (fun _ => references_valid)
    (db (snd (LegStore.updateFlightStatuses granted fault env p w))) /\
  holds_in (fun _ => references_valid)
    (db (snd (LegStoreToday.updateFlightStatuses granted fault env p now w))).
Proof.
  intros H.
  split; [|split; [|split; [|split; [|split]]]];
    (eapply keeps_snd; [|exact H]).
  - apply keeps_put_guest;
      auto using references_monotone, references_update_guest,
        references_delete_legs, references_insert_leg.
  - apply keeps_post_guest;
      auto using references_monotone, references_insert_leg,
        references_insert_guest.
  - apply keeps_delete_guest_handler;
      auto using references_monotone, references_delete_guest.
  - apply keeps_get_guests. exact references_monotone.
  - apply keeps_pass; [exact references_monotone|].
    intros st i _. apply references_update_leg_status.
  - apply keeps_pass_today; [exact references_monotone|].
    intros st i _. apply references_update_leg_status.
Qed.

(** Witness of X2: the guest 1 with its two legs, after the guest is
    deleted and after a replacement that fails in the middle. *)
Lemma references_stay_valid_witness :
  holds_in (fun _ => references_valid) (db (start Sample.two_legs 3)) /\
  holds_in (fun _ => references_valid)
    (db (snd (LegStore.delete_guest_handler true no_fault 1
                (start Sample.two_legs 3)))) /\
  holds_in (fun _ => references_valid)
    (db (snd (LegStore.put_guest true no_fault 1 Sample.broken_body
                (start Sample.two_legs 3)))).
Proof.
  assert (H : holds_in (fun _ => references_valid)
                       (db (start Sample.two_legs 3))).
  { split; [|intros w0 Hw0; discriminate].
    split; simpl; repeat constructor. }
  split; [exact H|]. split.
  - destruct (references_stay_valid true no_fault None
                (Sample.always AxiosError) 0 (fun t => LegStore.guests t)
                (fun l => l) 1 2 Sample.broken_body
                (start Sample.two_legs 3) H) as (_ & _ & Hp & _).
    exact Hp.
  - destruct (references_stay_valid true no_fault None
                (Sample.always AxiosError) 0 (fun t => LegStore.guests t)
                (fun l => l) 1 2 Sample.broken_body
                (start Sample.two_legs 3) H) as (Hp & _).
    exact Hp.
Defined.

(** X3.  A reconciliation pass of part_000 or part_001 changes nothing
    but the status column of [flight_legs], whatever the store fails and
    whatever the provider answers: the guests and the car passengers are
    those of before, the legs are the same rows in the same order up to
    their status, and a status that changed is one of On Time, Delayed,
    Cancelled and Landed. *)
Theorem pass_changes_status_only granted fault env p now t n :
  only_status t
    (committed (db (snd (LegStore.updateFlightStatuses granted fault env p
                           (start t n))))) /\
  only_status t
    (committed (db (snd (LegStoreToday.updateFlightStatuses granted fault env p
                           now
                           (start t n))))).
Proof.
  assert (Hm : monotone (fun _ : Z => only_status t)).
  { intros s s' t' _ H. exact H. }
  assert (H0 : holds_in (fun _ : Z => only_status t) (db (start t n))).
  { apply holds_in_start. apply only_status_refl. }
  split.
  - eapply (keeps_snd (I := holds_in (fun _ : Z => only_status t))) in H0.
    + destruct H0 as [H _]. exact H.
    + apply keeps_pass; [exact Hm|].
      intros st i Hst. apply only_status_update. exact Hst.
  - eapply (keeps_snd (I := holds_in (fun _ : Z => only_status t))) in H0.
    + destruct H0 as [H _]. exact H.
    + apply keeps_pass_today; [exact Hm|].
      intros st i Hst. apply only_status_update. exact Hst.
Qed.
(* ===================================================================== *)
(** ** POST /api/guests of part_000: creating a guest                     *)
(* ===================================================================== *)

Section Create.

Variable fault : nat -> bool.
Variable next : Z.
Variable t : LegStore.tables.
Variable body : LegStore.put_body.

(** The statements after BEGIN settle: they throw with nothing shown,
    or the guest and its legs are what readers see from then on. *)
Lemma create_guest_settles :
  settles t (LegStore.create_guest fault next body)
          (fun x final => x = LegStore.Created next /\
                          created next t body final).
Proof.
  intros w r w' Hu Ht E. unfold LegStore.create_guest in E.
  rewrite bind_unfold in E.
  assert (Hcur0 : current (db w) = t) by (unfold current; rewrite Ht; auto).
  assert (Htx : txn (db w) <> None) by congruence.
  unfold LegStore.final_leg in E.
  destruct (LegStore.body_legs body) as [v|] eqn:El;
    [|injection E as <- <-; left; auto].
  destruct (LegStore.final_element v) as [finalLeg|] eqn:Er;
    [|injection E as <- <-; left; auto].
  unfold ret at 1 in E. rewrite bind_unfold in E.
  (* INSERT INTO guests *)
  match type of E with
  | context [query fault false ?s w] =>
      destruct (query fault false s w) as [r1 w1] eqn:E1
  end.
  destruct (query_untouched fault _ _ _ Hu Htx E1) as [Hu1 Ht1].
  apply query_inv in E1 as (_ & _ & _ & _ & Hcases).
  destruct Hcases as [(-> & _)|(x1 & t1 & -> & Hs1 & _ & Hcur1 & _)];
    [injection E as <- <-; left; auto|].
  rewrite Hcur0 in Hs1. unfold LegStore.insert_guest in Hs1.
  destruct (LegStore.body_name body) as [nm|] eqn:En; [|discriminate].
  destruct (LegStore.has_guest next t) eqn:Eg; [discriminate|].
  injection Hs1 as <- <-. rewrite bind_unfold in E.
  (* INSERT loop *)
  destruct (LegStore.insert_legs fault next 0 (LegStore.elements v) w1)
    as [r3 w3] eqn:E3.
  destruct (insert_legs_spec fault next (LegStore.elements v) 0 w1
              Hu1 Ht1 E3)
    as (Hu3 & Ht3 & Hok3).
  destruct r3 as [[]|]; [|injection E as <- <-; left; auto].
  destruct (Hok3 eq_refl) as (rows & Hst & Hcur3 & _).
  rewrite Hcur1 in Hcur3.
  eapply (commit_settles fault (LegStore.Created next)
            (fun x final => x = LegStore.Created next /\
                            created next t body final) w3);
    [exact Hu3| |exact E].
  split; [reflexivity|].
  exists nm, v, finalLeg, rows. rewrite Hcur3. simpl.
  repeat apply conj; try reflexivity; try assumption.
Qed.

(** The handler as a whole, from a fresh connection: it gives a reply
    only with its transaction closed. *)
Lemma post_guest_spec granted n :
  let res := LegStore.post_guest granted fault next body (start t n) in
  let final := committed (db (snd res)) in
  (forall x, fst res = Ok x -> txn (db (snd res)) = None) /\
  (((fst res = Ok LegStore.PostError500 \/ fst res = Throw) /\
    untouched t (db (snd res))) \/
   (fst res = Ok (LegStore.Created next) /\
    created next t body final /\
    exists obs, observed (db (snd res)) = obs ++ [final] /\
                Forall (fun s => s = t) obs)).
Proof.
  cbv zeta.
  destruct granted.
  - destruct (transaction_spec fault LegStore.PostError500 n
                create_guest_settles) as (Hno & H).
    cbv zeta in Hno, H.
    change (transaction fault (LegStore.create_guest fault next body)
                        LegStore.PostError500)
      with (LegStore.post_guest true fault next body) in Hno, H.
    split; [exact Hno|].
    destruct H as [H|(x & Hx & (-> & Hc) & Ho)]; [left; exact H|].
    right. auto.
  - simpl. split; [discriminate|]. left.
    split; [right; reflexivity|]. split; [reflexivity|constructor].
Qed.

End Create.

(** X4.  POST /api/guests of part_000 creates a guest with its legs
    atomically.  From a fresh connection on the tables [t], with [next]
    the value of the guest id sequence, whether the pool gives a
    connection or not, whatever statement the store fails and whatever
    the body is: a success reply names the guest [next] and the tables
    then hold [t] with the new guest (its final destination and ETA taken
    from the final element of the legs) and one row for each element of
    the legs that the loop reads, in order, which are none for a legs
    object of length 0; the handler replies only with its transaction
    closed; without a success reply the tables are [t] again; and every
    state a concurrent reader can see is [t] or the final state. *)
Theorem post_guest_atomic granted fault next body t n :
  (forall g,
     fst (LegStore.post_guest granted fault next body (start t n))
     = Ok (LegStore.Created g) ->
     g = next /\
     created next t body
       (committed (db (snd (LegStore.post_guest granted fault next body
                              (start t n))))))
  /\
  (forall x,
     fst (LegStore.post_guest granted fault next body (start t n)) = Ok x ->
     txn (db (snd (LegStore.post_guest granted fault next body (start t n))))
     = None)
  /\
  ((forall g,
      fst (LegStore.post_guest granted fault next body (start t n))
      <> Ok (LegStore.Created g)) ->
   committed
     (db (snd (LegStore.post_guest granted fault next body (start t n)))) = t)
  /\
  Forall (fun s =>
            s = t \/
            s = committed
                  (db (snd (LegStore.post_guest granted fault next body
                              (start t n)))))
         (observed (db (snd (LegStore.post_guest granted fault next body
                               (start t n))))).
Proof.
  destruct (post_guest_spec fault next t body granted n) as (Hno & H).
  cbv zeta in *.
  destruct H as [([Hr|Hr] & Hc & Ho)|(Hr & Hcr & obs & Ho & Hobs)].
  - conjs.
    + intros g Hg. congruence.
    + exact Hno.
    + intros _. exact Hc.
    + eapply Forall_impl; [|exact Ho]. simpl. auto.
  - conjs.
    + intros g Hg. congruence.
    + exact Hno.
    + intros _. exact Hc.
    + eapply Forall_impl; [|exact Ho]. simpl. auto.
  - conjs.
    + intros g Hg. rewrite Hr in Hg. injection Hg as <-. auto.
    + exact Hno.
    + intros Hn. exfalso. eapply Hn. exact Hr.
    + rewrite Ho. apply Forall_app. split.
      * eapply Forall_impl; [|exact Hobs]. simpl. auto.
      * constructor; auto.
Qed.
(* ===================================================================== *)
(** ** PUT and POST /api/guests of part_000: which bodies are accepted    *)
(* ===================================================================== *)

Lemma stored_from_complete id legs : forall i rows,
  stored_from id i legs rows -> forallb complete_element legs = true.
Proof.
  induction legs as [|[leg|] legs IH]; intros i [|row rows] H; simpl in H;
    try contradiction; [reflexivity|].
  destruct H as [(_ & Hf & _ & Ho & Hd & He & _) H]. simpl.
  rewrite (IH _ _ H), andb_true_r.
  unfold complete_leg. rewrite Hf, Ho, Hd, He. reflexivity.
Qed.

(** X5.  What PUT /api/guests/:id and POST /api/guests of part_000 need
    for a success reply, whether the pool gives a connection or not and
    whatever the store fails.  PUT replies with success only when the
    legs of the body have a final element, every element that the loop
    reads is there with its flight, origin, destination and ETA, the
    body has a name if the guest exists, and the guest exists if the loop
    has an element to read.  POST replies with success only when the body
    has a name, its legs have a final element, every element that the
    loop reads is there with its flight, origin, destination and ETA, and
    the id the sequence gives is not taken.  Missing legs, an empty
    array and an array that ends in null have no final element, and
    never get a success reply. *)
Theorem guest_write_accepted granted fault id next body t n :
  (fst (LegStore.put_guest granted fault id body (start t n))
   = Ok LegStore.Success ->
   exists v leg,
     LegStore.body_legs body = Some v /\
     LegStore.final_element v = Some leg /\
     forallb complete_element (LegStore.elements v) = true /\
     (LegStore.has_guest id t = true -> LegStore.body_name body <> None) /\
     (LegStore.elements v <> [] -> LegStore.has_guest id t = true))
  /\
  (forall g,
     fst (LegStore.post_guest granted fault next body (start t n))
     = Ok (LegStore.Created g) ->
     valid_body body = true /\ LegStore.has_guest next t = false)
  /\
  (forall l,
     LegStore.body_legs body = None \/
     LegStore.body_legs body = Some (LegStore.legs_array []) \/
     LegStore.body_legs body = Some (LegStore.legs_array (l ++ [None])) ->
     fst (LegStore.put_guest granted fault id body (start t n))
     <> Ok LegStore.Success /\
     forall g,
       fst (LegStore.post_guest granted fault next body (start t n))
       <> Ok (LegStore.Created g)).
Proof.
  assert (Hput :
    fst (LegStore.put_guest granted fault id body (start t n))
    = Ok LegStore.Success ->
    exists v leg,
      LegStore.body_legs body = Some v /\
      LegStore.final_element v = Some leg /\
      forallb complete_element (LegStore.elements v) = true /\
      (LegStore.has_guest id t = true -> LegStore.body_name body <> None) /\
      (LegStore.elements v <> [] -> LegStore.has_guest id t = true)).
  { intros Hs.
    destruct (put_guest_spec fault id t body granted n) as (_ & Hok & _).
    destruct (Hok Hs)
      as (v & leg & rows & Hv & Hfin & _ & _ & Hst & Hnm & Hrows & _).
    exists v, leg. conjs; auto.
    - eapply stored_from_complete; eauto.
    - intros Hg. destruct (Hnm Hg) as (nm & ->). discriminate.
    - intros Hne. destruct (LegStore.has_guest id t); [reflexivity|].
      specialize (Hrows eq_refl). subst rows.
      destruct (LegStore.elements v) as [|[e|] es]; simpl in Hst;
        [congruence|contradiction|contradiction]. }
  assert (Hpost : forall g,
    fst (LegStore.post_guest granted fault next body (start t n))
    = Ok (LegStore.Created g) ->
    valid_body body = true /\ LegStore.has_guest next t = false).
  { intros g Hs.
    destruct (post_guest_spec fault next t body granted n)
      as (_ & [([Hr|Hr] & _)|(_ & Hcr & _)]); cbv zeta in *; try congruence.
    destruct Hcr as (nm & v & fl & rows & En & El & Hfin & Hg & _ & _
                     & Hst & _).
    split; [|exact Hg]. unfold valid_body. rewrite En, El, Hfin.
    eapply stored_from_complete; eauto. }
  split; [exact Hput|]. split; [exact Hpost|].
  intros l Hl.
  assert (Hnone : forall v leg,
            LegStore.body_legs body = Some v ->
            LegStore.final_element v = Some leg -> False).
  { intros v leg Hv Hfin.
    destruct Hl as [Hl|[Hl|Hl]]; rewrite Hl in Hv; try discriminate;
      injection Hv as <-; simpl in Hfin; [discriminate|].
    rewrite last_last in Hfin. discriminate. }
  split.
  - intros Hs. destruct (Hput Hs) as (v & leg & Hv & Hfin & _).
    eapply Hnone; eauto.
  - intros g Hs. destruct (Hpost g Hs) as (Hv & _).
    unfold valid_body in Hv.
    destruct (LegStore.body_name body); [|discriminate].
    destruct (LegStore.body_legs body) as [v|] eqn:Ev; [|discriminate].
    destruct (LegStore.final_element v) as [leg|] eqn:Efin; [|discriminate].
    eapply Hnone; eauto.
Qed.
(* ===================================================================== *)
(** ** The reconciliation pass: what it stores                            *)
(* ===================================================================== *)

Lemma status_for_absent p req rows : forall k i,
  ~ In i (map LegStore.leg_id rows) -> status_for p req k rows i = None.
Proof.
  induction rows as [|leg rows IH]; intros k i Hn; simpl; [reflexivity|].
  destruct (Z.eqb_spec (LegStore.leg_id leg) i) as [E|E].
  - exfalso. apply Hn. simpl. auto.
  - apply IH. intros H. apply Hn. simpl. auto.
Qed.

(** The selected leg number [j] gets the answer to the request number
    [k + j], which is the request made for it. *)
Lemma status_for_nth p req rows : forall k j l,
  NoDup (map LegStore.leg_id rows) ->
  nth_error rows j = Some l ->
  status_for p req k rows (LegStore.leg_id l) = resolved p (k + j) (req l).
Proof.
  induction rows as [|leg rows IH]; intros k j l Hnd Hj.
  - destruct j; discriminate.
  - simpl in Hnd. apply NoDup_cons_iff in Hnd as [Hn Hnd].
    destruct j as [|j]; simpl in Hj.
    + injection Hj as ->. simpl. rewrite Z.eqb_refl, Nat.add_0_r.
      reflexivity.
    + simpl. destruct (Z.eqb_spec (LegStore.leg_id leg) (LegStore.leg_id l))
        as [E|E].
      * exfalso. apply Hn. rewrite E. apply in_map.
        eapply nth_error_In; eauto.
      * rewrite (IH (S k) j l Hnd Hj). f_equal. lia.
Qed.

Section PassResult.

Variable p : provider.

(** The resolver of the variant with what is used of it: it makes the
    one request [req leg] and returns the mapped status of its
    answer. *)
Variable fetch : string -> option string -> Z ->
                 M (world LegStore.tables) (option string).
Variable req : LegStore.leg_row -> request.
Hypothesis fetch_one :
  forall leg w,
    fetch (LegStore.flight_number leg) (LegStore.airline leg)
          (iso_date (LegStore.eta leg)) w =
    (Ok (resolved p (List.length (calls w)) (req leg)),
     {| db := db w; calls := calls w ++ [req leg] |}).

Lemma loop_result rows : forall (w : world LegStore.tables),
  NoDup (map LegStore.leg_id rows) ->
  exists w',
    for_of rows (LegStore.refresh_leg no_fault fetch) w = (Ok tt, w') /\
    (txn (db w') = None <-> txn (db w) = None) /\
    LegStore.flight_legs (current (db w')) =
      map (fun l =>
             match status_for p req (List.length (calls w)) rows
                              (LegStore.leg_id l) with
             | Some st => LegStore.with_status l st
             | None => l
             end)
          (LegStore.flight_legs (current (db w))).
Proof.
  induction rows as [|leg rows IH]; intros w Hnd.
  - exists w. simpl. split; [reflexivity|]. split; [tauto|].
    rewrite map_id. reflexivity.
  - simpl in Hnd. apply NoDup_cons_iff in Hnd as [Hn Hnd].
    rewrite for_of_cons. unfold LegStore.refresh_leg at 1.
    rewrite bind_unfold, fetch_one.
    set (w0 := {| db := db w; calls := calls w ++ [req leg] |}).
    assert (Hlen : List.length (calls w0) = S (List.length (calls w))).
    { simpl. rewrite length_app. simpl. lia. }
    destruct (resolved p (List.length (calls w)) (req leg)) as [st|] eqn:Er.
    + destruct (@query_no_fault _ _ false
                  (LegStore.update_leg_status st (LegStore.leg_id leg))
                  w0 tt _ eq_refl) as (w1 & -> & Hcur1 & Hc1 & Ht1).
      destruct (IH w1 Hnd) as (w' & -> & Ht' & Hl').
      exists w'. split; [reflexivity|]. split; [simpl in Ht1; tauto|].
      rewrite Hl', Hcur1, Hc1, Hlen. simpl. rewrite map_map.
      apply map_ext. intros l.
      rewrite (Z.eqb_sym (LegStore.leg_id leg) (LegStore.leg_id l)).
      destruct (Z.eqb_spec (LegStore.leg_id l) (LegStore.leg_id leg))
        as [E|E].
      * simpl. rewrite status_for_absent; [rewrite Er; reflexivity|].
        rewrite E. exact Hn.
      * reflexivity.
    + cbv iota beta. unfold ret at 1.
      destruct (IH w0 Hnd) as (w' & E' & Ht' & Hl').
      exists w'. split; [exact E'|]. split; [simpl in Ht'; tauto|].
      rewrite Hl', Hlen. simpl. apply map_ext. intros l.
      destruct (Z.eqb_spec (LegStore.leg_id leg) (LegStore.leg_id l))
        as [E|E]; [|reflexivity].
      rewrite status_for_absent; [rewrite Er; reflexivity|].
      rewrite <- E. exact Hn.
Qed.

End PassResult.

(** Without a credential the loop of part_001 does nothing. *)
Lemma loop_without_key fault env p rows : forall (w : world LegStore.tables),
  truthy env = false ->
  for_of rows (LegStore.refresh_leg fault
                 (LegStoreToday.fetchFlightStatus env p)) w = (Ok tt, w).
Proof.
  induction rows as [|leg rows IH]; intros w Henv; [reflexivity|].
  rewrite for_of_cons. unfold LegStore.refresh_leg at 1.
  rewrite bind_unfold, fetch_today_spec, Henv. cbv iota beta.
  unfold ret at 1. apply IH, Henv.
Qed.

Lemma open_legs_distinct (keep : LegStore.leg_row -> bool) ls :
  NoDup (map LegStore.leg_id ls) ->
  NoDup (map LegStore.leg_id (filter keep ls)).
Proof. apply distinct_filter. Qed.

(** X6.  What a reconciliation pass stores.  When the leg ids are unique
    and the store gives the connection and runs every statement, a pass
    of part_000 leaves every
    leg in its place with all its columns but the status, and the status
    of a leg is then: its old status when the leg was Landed or
    Cancelled, or when its lookup gave no flight; else the mapped status
    of the first flight of the answer to its own request, the open leg
    number [j] being looked up by the request number [j].  The pass of
    part_001 does the same for the open legs of the day when the
    credential is configured, and changes nothing when it is not. *)
Theorem pass_result env p now t n :
  NoDup (map LegStore.leg_id (LegStore.flight_legs t)) ->
  (LegStore.flight_legs
     (committed (db (snd (LegStore.updateFlightStatuses true no_fault env p
                            (start t n)))))
   = legs_after_pass p (request_of env) (open_legs t) (LegStore.flight_legs t)
   /\
   forall j l,
     nth_error (open_legs t) j = Some l ->
     status_for p (request_of env) 0 (open_legs t) (LegStore.leg_id l)
     = resolved p j (request_of env l))
  /\
  (truthy env = true ->
   LegStore.flight_legs
     (committed (db (snd (LegStoreToday.updateFlightStatuses true no_fault env p
                            now (start t n)))))
   = legs_after_pass p (request_today_of env) (open_legs_of (iso_date now) t)
                     (LegStore.flight_legs t)
   /\
   forall j l,
     nth_error (open_legs_of (iso_date now) t) j = Some l ->
     status_for p (request_today_of env) 0 (open_legs_of (iso_date now) t)
                (LegStore.leg_id l)
     = resolved p j (request_today_of env l))
  /\
  (truthy env = false ->
   LegStore.flight_legs
     (committed (db (snd (LegStoreToday.updateFlightStatuses true no_fault env p
                            now (start t n)))))
   = LegStore.flight_legs t).
Proof.
  intros Hnd.
  assert (Hopen : NoDup (map LegStore.leg_id (open_legs t)))
    by (apply open_legs_distinct; exact Hnd).
  assert (Htoday : NoDup (map LegStore.leg_id (open_legs_of (iso_date now) t)))
    by (apply open_legs_distinct; exact Hnd).
  split; [|split].
  - split; [|intros j l Hj; apply (@status_for_nth _ _ _ 0%nat j l Hopen Hj)].
    unfold LegStore.updateFlightStatuses.
    rewrite connect_granted, finally_release.
    simpl snd. simpl db. simpl committed. rewrite bind_unfold.
    destruct (@query_no_fault _ _ false LegStore.select_open_legs
                (start t n) _ _ eq_refl) as (w1 & -> & Hcur1 & Hc1 & Ht1).
    change (current (db (start t n))) with t in *.
    fold (open_legs t).
    destruct (loop_result p (LegStore.fetchFlightStatus env p)
                (request_of env)
                (fun leg w => fetch_spec env p _ _ _ w)
                (open_legs t) w1 Hopen) as (w' & -> & Ht' & Hl').
    simpl snd. rewrite <- (current_no_txn (db w')) by (simpl in Ht1; tauto).
    rewrite Hl', Hcur1, Hc1. reflexivity.
  - intros Henv.
    split; [|intros j l Hj; apply (@status_for_nth _ _ _ 0%nat j l Htoday Hj)].
    unfold LegStoreToday.updateFlightStatuses.
    rewrite connect_granted, finally_release.
    simpl snd. simpl db. simpl committed. unfold try_catch.
    rewrite bind_unfold.
    destruct (@query_no_fault _ _ false
                (LegStoreToday.select_open_legs_of (iso_date now))
                (start t n) _ _ eq_refl) as (w1 & -> & Hcur1 & Hc1 & Ht1).
    change (current (db (start t n))) with t in *.
    fold (open_legs_of (iso_date now) t).
    assert (Hfetch : forall leg (w : world LegStore.tables),
              LegStoreToday.fetchFlightStatus env p
                (LegStore.flight_number leg) (LegStore.airline leg)
                (iso_date (LegStore.eta leg)) w =
              (Ok (resolved p (List.length (calls w))
                            (request_today_of env leg)),
               {| db := db w;
                  calls := calls w ++ [request_today_of env leg] |})).
    { intros leg w. rewrite fetch_today_spec, Henv. reflexivity. }
    destruct (loop_result p (LegStoreToday.fetchFlightStatus env p)
                (request_today_of env) Hfetch
                (open_legs_of (iso_date now) t) w1 Htoday)
      as (w' & -> & Ht' & Hl').
    simpl snd. rewrite <- (current_no_txn (db w')) by (simpl in Ht1; tauto).
    rewrite Hl', Hcur1, Hc1. reflexivity.
  - intros Henv.
    unfold LegStoreToday.updateFlightStatuses.
    rewrite connect_granted, finally_release.
    simpl snd. simpl db. simpl committed. unfold try_catch.
    rewrite bind_unfold.
    destruct (@query_no_fault _ _ false
                (LegStoreToday.select_open_legs_of (iso_date now))
                (start t n) _ _ eq_refl) as (w1 & -> & Hcur1 & Hc1 & Ht1).
    change (current (db (start t n))) with t in *.
    rewrite loop_without_key by exact Henv.
    simpl snd. rewrite <- (current_no_txn (db w1)) by (simpl in Ht1; tauto).
    rewrite Hcur1. reflexivity.
Qed.

(** Witness of X6: the leg 1 is Landed and the leg 2 is open; the
    provider reports every flight cancelled. *)
Lemma pass_result_witness :
  NoDup (map LegStore.leg_id
           (LegStore.flight_legs
              (Sample.store [Sample.leg 1 1 Landed Sample.new_year;
                             Sample.leg 2 1 OnTime Sample.next_noon]))) /\
  LegStore.flight_legs
    (committed
       (db (snd (LegStore.updateFlightStatuses true no_fault None
                   (Sample.always
                      (Sample.answer (Sample.flight_with "cancelled" None)))
                   (start (Sample.store
                             [Sample.leg 1 1 Landed Sample.new_year;
                              Sample.leg 2 1 OnTime Sample.next_noon])
                          3)))))
  = [Sample.leg 1 1 Landed Sample.new_year;
     Sample.leg 2 1 Cancelled Sample.next_noon].
Proof.
  assert (Hnd : NoDup (map LegStore.leg_id
           (LegStore.flight_legs
              (Sample.store [Sample.leg 1 1 Landed Sample.new_year;
                             Sample.leg 2 1 OnTime Sample.next_noon])))).
  { simpl. repeat constructor; simpl; intuition discriminate. }
  split; [exact Hnd|].
  destruct (pass_result None
              (Sample.always
                 (Sample.answer (Sample.flight_with "cancelled" None)))
              Sample.next_noon
              (Sample.store [Sample.leg 1 1 Landed Sample.new_year;
                             Sample.leg 2 1 OnTime Sample.next_noon])
              3 Hnd) as ((H & _) & _).
  rewrite H. reflexivity.
Defined.

(* ===================================================================== *)
(** ** The pass when the store fails                                      *)
(* ===================================================================== *)

Lemma query_fails T R fault draws (stmt : Z -> T -> option (R * T))
      (w : world T) :
  fault (issued (db w)) = true ->
  query fault draws stmt w
  = (Throw, {| db := failed (db w) (seq (db w)); calls := calls w |}).
Proof. unfold query, on_db, run_stmt. intros ->. reflexivity. Qed.

(** X7.  The pass of part_001 asks the pool for its connection before
    its try and swallows every failure after that.  So the manual
    trigger POST /api/update-flight-status replies with success when the
    pool gives the connection, whatever statement the store fails and
    whatever the provider answers, and with the 500 error when the pool
    gives none.  When the pool gives no connection or the store fails
    the selection, no leg was looked up and nothing was changed,
    whatever the reply.  The pass of part_000 has no catch: without a
    connection, or with a failed selection, it throws, with no lookup
    and nothing changed. *)
Theorem manual_update_reply (granted : bool) fault env p now t n :
  fst (LegStoreToday.update_flight_status_handler granted fault env p now
         (start t n))
  = Ok (if granted then LegStore.Success else LegStore.Error500)
  /\
  (granted = false \/ fault 0%nat = true ->
   committed (db (snd (LegStoreToday.update_flight_status_handler granted
                         fault env p now (start t n)))) = t /\
   calls (snd (LegStoreToday.update_flight_status_handler granted
                 fault env p now (start t n))) = [])
  /\
  (granted = false \/ fault 0%nat = true ->
   fst (LegStore.updateFlightStatuses granted fault env p (start t n))
   = Throw /\
   committed (db (snd (LegStore.updateFlightStatuses granted fault env p
                         (start t n)))) = t /\
   calls (snd (LegStore.updateFlightStatuses granted fault env p
                 (start t n))) = []).
Proof.
  destruct granted;
    [|split; [reflexivity|split; intros _; simpl; auto]].
  split; [|split].
  - unfold LegStoreToday.update_flight_status_handler, try_catch.
    rewrite bind_unfold.
    destruct (pass_today_spec fault env p now t n) as (_ & _ & _ & [x Hx] & _).
    cbv zeta in Hx.
    destruct (LegStoreToday.updateFlightStatuses true fault env p now
                (start t n))
      as [[u|] w1]; simpl in Hx; [reflexivity|discriminate].
  - intros [Hg|Hf]; [discriminate|].
    unfold LegStoreToday.update_flight_status_handler, try_catch.
    rewrite bind_unfold.
    unfold LegStoreToday.updateFlightStatuses.
    rewrite connect_granted, finally_release.
    unfold try_catch. rewrite bind_unfold.
    rewrite query_fails by exact Hf. simpl. auto.
  - intros [Hg|Hf]; [discriminate|].
    unfold LegStore.updateFlightStatuses.
    rewrite connect_granted, finally_release.
    rewrite bind_unfold.
    rewrite query_fails by exact Hf. simpl. auto.
Qed.

(* ===================================================================== *)
(** ** DELETE /api/guests/:id of part_000                                 *)
(* ===================================================================== *)

(** X8.  DELETE /api/guests/:id of part_000 is one statement with the
    cascades of the schema, on a connection the handler asks for before
    its try.  When the pool gives the connection, the handler replies
    with success or with the 500 error, whatever the store does with the
    statement: after a success no guest, no leg and no car passenger
    with that guest id is left, and the rows of every other guest are
    exactly those of before; after the error nothing has changed.  When
    the pool gives no connection the handler rejects without a reply,
    and nothing has changed. *)
Theorem delete_guest_cascades (granted : bool) fault id t n :
  if granted then
    (fst (LegStore.delete_guest_handler true fault id (start t n))
     = Ok LegStore.Success /\
     (forall g, In g (LegStore.guests
                        (committed (db (snd (LegStore.delete_guest_handler true
                                               fault id (start t n)))))) <->
                In g (LegStore.guests t) /\ LegStore.guest_id g <> id) /\
     (forall l, In l (LegStore.flight_legs
                        (committed (db (snd (LegStore.delete_guest_handler true
                                               fault id (start t n)))))) <->
                In l (LegStore.flight_legs t) /\ LegStore.leg_guest l <> id) /\
     (forall cp, In cp (LegStore.car_passengers
                          (committed (db (snd (LegStore.delete_guest_handler
                                                 true fault id
                                                 (start t n)))))) <->
                 In cp (LegStore.car_passengers t) /\ snd cp <> id) /\
     LegStore.has_guest id
       (committed (db (snd (LegStore.delete_guest_handler true fault id
                                                          (start t n)))))
     = false)
    \/
    (fst (LegStore.delete_guest_handler true fault id (start t n))
     = Ok LegStore.Error500 /\
     committed
       (db (snd (LegStore.delete_guest_handler true fault id (start t n))))
     = t)
  else
    fst (LegStore.delete_guest_handler false fault id (start t n)) = Throw /\
    committed
      (db (snd (LegStore.delete_guest_handler false fault id (start t n))))
    = t.
Proof.
  destruct granted; [|split; reflexivity].
  unfold LegStore.delete_guest_handler.
  rewrite connect_granted, finally_release.
  unfold try_catch. rewrite bind_unfold.
  unfold query, on_db, run_stmt. simpl.
  destruct (fault 0%nat); simpl; [right; auto|left].
  change (current (open t n)) with t.
  split; [reflexivity|].
  assert (Hne : forall a, negb (a =? id) = true <-> a <> id).
  { intros a. rewrite negb_true_iff. apply Z.eqb_neq. }
  split; [|split; [|split]].
  - intros g. rewrite filter_In, Hne. tauto.
  - intros l. rewrite filter_In, Hne. tauto.
  - intros cp. rewrite filter_In, Hne. tauto.
  - unfold LegStore.has_guest. simpl.
    destruct (existsb _ _) eqn:E; [|reflexivity].
    apply existsb_exists in E as (g & Hin & Eg).
    apply filter_In in Hin as [_ Hn]. rewrite Eg in Hn. discriminate.
Qed.
(* ===================================================================== *)
(** ** GET /api/guests of part_000: the listing                           *)
(* ===================================================================== *)

(** Without store failures the listing reads every guest with its legs
    and leaves the connection as it was, up to the statement count. *)
Lemma promise_all_ok order rows : forall (w : world LegStore.tables),
  exists w',
    LegStore.promise_all no_fault order rows w
    = (Ok (map (listed order (current (db w))) rows), w') /\
    current (db w') = current (db w) /\
    calls w' = calls w /\
    (txn (db w') = None <-> txn (db w) = None).
Proof.
  induction rows as [|g rows IH]; intros w.
  - exists w. simpl. repeat apply conj; try reflexivity; tauto.
  - simpl. rewrite bind_unfold. unfold LegStore.guest_with_legs.
    rewrite bind_unfold.
    destruct (@query_no_fault _ _ false
                (LegStore.select_legs_of order (LegStore.guest_id g))
                w _ _ eq_refl) as (w1 & -> & Hcur1 & Hc1 & Ht1).
    unfold ret at 1. cbv iota beta. rewrite bind_unfold.
    destruct (IH w1) as (w' & -> & Hcur' & Hc' & Ht').
    exists w'. unfold ret. cbv iota beta. rewrite Hcur1.
    repeat apply conj; try reflexivity; try congruence; tauto.
Qed.

(** The listing never writes: whatever the store fails, the tables are
    those of before and no provider request is made. *)
Lemma get_guests_reads granted fault by_created by_leg_order t n :
  committed (db (snd (LegStore.get_guests granted fault by_created
                        by_leg_order (start t n)))) = t.
Proof.
  assert (Hm : monotone (fun (_ : Z) (t' : LegStore.tables) => t' = t)).
  { intros s s' t' _ H. exact H. }
  assert (H0 : holds_in (fun (_ : Z) (t' : LegStore.tables) => t' = t)
                        (db (start t n))).
  { apply holds_in_start. reflexivity. }
  eapply (keeps_snd
            (I := holds_in (fun (_ : Z) (t' : LegStore.tables) => t' = t)))
    in H0.
  - destruct H0 as [H _]. exact H.
  - apply keeps_get_guests. exact Hm.
Qed.

(** Two orderings of the same rows agree when the rows have distinct
    leg orders. *)
Lemma ordered_unique rows : forall rows',
  StronglySorted (fun a b => LegStore.leg_order a < LegStore.leg_order b)
                 rows ->
  ordered_by_leg_order rows rows' ->
  rows' = rows.
Proof.
  induction rows as [|a rows IH]; intros rows' Hs [Hp Hs'].
  - apply Permutation_nil in Hp. exact Hp.
  - destruct rows' as [|b rows'].
    + apply Permutation_sym, Permutation_nil in Hp. discriminate.
    + apply StronglySorted_inv in Hs as [Hs Ha].
      apply StronglySorted_inv in Hs' as [Hs' Hb].
      assert (Eab : b = a).
      { assert (Hina : In a (b :: rows'))
          by (eapply Permutation_in; [exact Hp|simpl; auto]).
        assert (Hinb : In b (a :: rows))
          by (eapply Permutation_in;
              [apply Permutation_sym; exact Hp|simpl; auto]).
        destruct Hinb as [E|Hinb]; [congruence|].
        destruct Hina as [E|Hina]; [exact E|].
        eapply Forall_forall in Ha; [|exact Hinb].
        eapply Forall_forall in Hb; [|exact Hina].
        unfold leg_le in Hb.
        destruct (Z.eqb_spec (LegStore.leg_order b) (LegStore.leg_order a))
          as [E|E]; [lia|].
        apply Z.ltb_lt in Hb. lia. }
      subst b. f_equal. apply IH; [exact Hs|].
      split; [|exact Hs']. eapply Permutation_cons_inv. exact Hp.
Qed.

(** The rows that store the legs of a body carry the leg orders [i],
    [i + 1], ... *)
Lemma stored_from_orders id legs : forall i rows,
  stored_from id i legs rows ->
  Forall (fun row => i <= LegStore.leg_order row) rows /\
  StronglySorted (fun a b => LegStore.leg_order a < LegStore.leg_order b)
                 rows.
Proof.
  induction legs as [|[leg|] legs IH]; intros i [|row rows] H; simpl in H;
    try contradiction.
  - split; constructor.
  - destruct H as [(_ & _ & _ & _ & _ & _ & _ & Ho) H].
    destruct (IH _ _ H) as [Hge Hs]. split.
    + constructor; [lia|]. eapply Forall_impl; [|exact Hge].
      simpl. intros r Hr. lia.
    + constructor; [exact Hs|]. eapply Forall_impl; [|exact Hge].
      simpl. intros r Hr. lia.
Qed.

Lemma stored_from_shown id elts : forall i rows,
  stored_from id i elts rows ->
  exists legs,
    elts = map Some legs /\
    Forall2 shown_as legs (map LegStore.leg_to_view rows).
Proof.
  induction elts as [|[leg|] elts IH]; intros i [|row rows] H; simpl in H;
    try contradiction.
  - exists []. split; [reflexivity|constructor].
  - destruct H as [(_ & Hf & Ha & Ho & Hd & He & Hs & _) H].
    destruct (IH _ _ H) as (legs & -> & Hshown).
    exists (leg :: legs). split; [reflexivity|]. simpl. constructor.
    + unfold shown_as. simpl. repeat apply conj; assumption.
    + exact Hshown.
Qed.

(** The legs of the guest after a replacement are the new rows. *)
Lemma legs_of_replaced id (old rows : list LegStore.leg_row) :
  Forall (fun row => LegStore.leg_guest row = id) rows ->
  filter (fun l => LegStore.leg_guest l =? id)
         (filter (fun l => negb (LegStore.leg_guest l =? id)) old ++ rows)
  = rows.
Proof.
  intros Hr. rewrite filter_app.
  assert (H1 : filter (fun l => LegStore.leg_guest l =? id)
                 (filter (fun l => negb (LegStore.leg_guest l =? id)) old)
               = []).
  { induction old as [|l old IH]; simpl; [reflexivity|].
    destruct (LegStore.leg_guest l =? id) eqn:E; simpl; [exact IH|].
    rewrite E. exact IH. }
  rewrite H1. simpl.
  induction Hr as [|row rows Hrow _ IH]; simpl; [reflexivity|].
  rewrite Hrow, Z.eqb_refl, IH. reflexivity.
Qed.

(** X9.  What was PUT is what the listing shows.  With a store that
    gives the connection and runs every statement, after PUT
    /api/guests/:id of part_000 has replied with success, GET
    /api/guests on the same connection replies with one entry per guest
    row the store returns and leaves the tables as they are; every entry
    of the guest shows the name of the body, the destination and ETA of
    the final element of its legs as final destination and final ETA,
    and exactly the legs of the body that the loop read, in the order of
    the body, with the status On Time where the body gave none. *)
Theorem listing_after_put id body t n by_created by_leg_order nm lv :
  let w1 := snd (LegStore.put_guest true no_fault id body (start t n)) in
  let final := committed (db w1) in
  fst (LegStore.put_guest true no_fault id body (start t n))
  = Ok LegStore.Success ->
  LegStore.body_name body = Some nm ->
  LegStore.body_legs body = Some lv ->
  incl (by_created final) (LegStore.guests final) ->
  ordered_by_leg_order
    (filter (fun l => LegStore.leg_guest l =? id)
            (LegStore.flight_legs final))
    (by_leg_order (filter (fun l => LegStore.leg_guest l =? id)
                          (LegStore.flight_legs final))) ->
  exists views,
    fst (LegStore.get_guests true no_fault by_created by_leg_order w1)
    = Ok (LegStore.Listing views) /\
    committed (db (snd (LegStore.get_guests true no_fault by_created
                          by_leg_order w1))) = final /\
    map LegStore.view_id views = map LegStore.guest_id (by_created final) /\
    forall v,
      In v views -> LegStore.view_id v = id ->
      LegStore.view_name v = nm /\
      (forall finalLeg,
         LegStore.final_element lv = Some finalLeg ->
         LegStore.finalDestination v = LegStore.in_destination finalLeg /\
         LegStore.finalETA v = LegStore.in_eta finalLeg) /\
      exists legs,
        LegStore.elements lv = map Some legs /\
        Forall2 shown_as legs (LegStore.view_legs v).
Proof.
  intros w1 final Hs En El Hincl Hord.
  destruct (put_guest_spec no_fault id t body true n) as (_ & Hok & _ & Htx).
  cbv zeta in Hok, Htx. fold w1 in Htx. specialize (Hok Hs). fold w1 in Hok.
  fold final in Hok.
  assert (Hno : txn (db w1) = None).
  { destruct Htx as [Hthrow|[_ Hno]]; [|exact Hno].
    fold w1 in Hthrow. congruence. }
  clear Htx.
  assert (Hcur : current (db w1) = final).
  { unfold final. apply current_no_txn. exact Hno. }
  (* the listing *)
  unfold LegStore.get_guests. rewrite connect_granted, finally_release.
  unfold try_catch. rewrite bind_unfold.
  destruct (@query_no_fault _ _ false (LegStore.select_guests by_created)
              w1 _ _ eq_refl) as (w2 & -> & Hcur2 & Hc2 & Ht2).
  rewrite bind_unfold.
  destruct (promise_all_ok by_leg_order (by_created (current (db w1))) w2)
    as (w3 & -> & Hcur3 & Hc3 & Ht3).
  unfold ret. cbv iota beta. simpl fst. simpl snd. simpl db. simpl committed.
  rewrite Hcur2, Hcur.
  exists (map (listed by_leg_order final) (by_created final)).
  split; [reflexivity|]. split; [|split].
  - rewrite <- (current_no_txn (db w3)) by tauto. congruence.
  - rewrite map_map. reflexivity.
  - intros v Hv Hid. apply in_map_iff in Hv as (g & <- & Hg).
    simpl in Hid.
    destruct Hok as (lv' & finalLeg & rows & El' & Er & Hgs & Hls & Hst & _).
    assert (lv' = lv) by congruence. subst lv'.
    apply Hincl in Hg. rewrite Hgs in Hg. unfold renamed in Hg.
    rewrite En in Hg.
    apply in_map_iff in Hg as (g0 & Eg & Hg0in).
    assert (Eg0 : LegStore.guest_id g0 = id).
    { destruct (Z.eqb_spec (LegStore.guest_id g0) id) as [E|E]; [exact E|].
      subst g. contradiction. }
    rewrite Eg0, Z.eqb_refl in Eg. subst g. simpl.
    split; [reflexivity|]. split.
    + intros fl Hfl. rewrite Er in Hfl. injection Hfl as <-. auto.
    + rewrite Hls in Hord |- *.
      rewrite legs_of_replaced in Hord |- *
        by (eapply stored_from_guest; eauto).
      destruct (stored_from_orders _ _ _ _ Hst) as [_ Hsorted].
      rewrite (ordered_unique Hsorted Hord).
      eapply stored_from_shown; eauto.
Qed.
(* ===================================================================== *)
(** ** part_001: the cars                                                 *)
(* ===================================================================== *)

Section Closes.

Variable T : Type.
Variable fault : nat -> bool.
Variable t : T.

Lemma closes_bind A B (m : M (world T) A) (k : A -> M (world T) B)
      (Q : A -> Prop) (Good : B -> Prop) :
  quiet m -> returns m Q -> (forall x, Q x -> closes t (k x) Good) ->
  closes t (bind m k) Good.
Proof.
  intros Hq Hr Hk w r w' Hu Ht E. rewrite bind_unfold in E.
  destruct (m w) as [[a|] w1] eqn:Em;
    destruct (Hq _ _ _ _ Hu Ht Em) as [Hu1 Ht1].
  - eapply (Hk a); eauto.
  - inversion E; subst. left. auto.
Qed.

Lemma closes_commit A (a : A) (Good : A -> Prop) :
  Good a -> closes t (COMMIT fault ;;; ret a) Good.
Proof.
  intros Hg w r w' Hu Ht E.
  destruct (commit_settles fault a (fun x _ => Good x) w Hu Hg E)
    as [H|(x & Hx & Hgx & H)]; [left; exact H|].
  right. exists x. auto.
Qed.

Lemma closes_settles A (m : M (world T) A) (Good : A -> Prop) :
  closes t m Good -> settles t m (fun x _ => Good x).
Proof.
  intros Hc w r w' Hu Ht E. eapply Hc; eauto. congruence.
Qed.

End Closes.

Lemma returns_for_of S A (l : list A) (body : A -> M S unit)
      (Q : A -> Prop) :
  (forall x, returns (body x) (fun _ => Q x)) ->
  returns (for_of l body) (fun _ => Forall Q l).
Proof.
  intros Hb. induction l as [|a l IH]; intros s x s' E.
  - constructor.
  - rewrite for_of_cons in E.
    destruct (body a s) as [[u|] s1] eqn:Ea; [|discriminate].
    constructor; [eapply Hb; eauto|eapply IH; eauto].
Qed.

Lemma returns_any S A (m : M S A) : returns m (fun _ => True).
Proof. intros s x s' _. exact I. Qed.

Lemma quiet_defined T A (v : option A) : quiet (@Fleet.defined (world T) A v).
Proof. destruct v; [apply quiet_ret|apply quiet_throw]. Qed.

Lemma returns_defined S A (v : option A) :
  returns (@Fleet.defined S A v) (fun a => v = Some a).
Proof.
  intros s x s' E. destruct v; simpl in E; inversion E. reflexivity.
Qed.

Section PostCars.

Variable fault : nat -> bool.
Variable parseInt : string -> option Z.

Lemma quiet_create_car car : quiet (Fleet.create_car fault car).
Proof.
  unfold Fleet.create_car.
  apply quiet_bind; [apply quiet_query|]. intros carId.
  apply quiet_bind; [apply quiet_defined|]. intros passengers.
  apply quiet_for_of. intros passengerId. apply quiet_query.
Qed.

(** A car that was created had an id and a list of passengers. *)
Lemma returns_create_car car :
  returns (Fleet.create_car fault car)
          (fun _ => Fleet.in_id car <> None /\
                    Fleet.in_passengers car <> None).
Proof.
  intros w x w' E. unfold Fleet.create_car in E.
  rewrite bind_unfold in E.
  destruct (query fault false (Fleet.insert_car car) w) as [[i|] w1] eqn:E1;
    [|discriminate].
  apply query_inv in E1 as (_ & _ & _ & _ & Hcases).
  destruct Hcases as [(Hr & _)|(x1 & t1 & _ & Hs & _)]; [discriminate|].
  unfold Fleet.insert_car in Hs.
  rewrite bind_unfold in E.
  destruct (Fleet.in_id car); [|discriminate].
  destruct (Fleet.in_passengers car); [|discriminate].
  split; discriminate.
Qed.

Lemma create_cars_closes t body :
  closes t (Fleet.create_cars fault parseInt body)
         (fun x => exists cars,
              Fleet.body_cars body = Some cars /\
              x = Fleet.CarsCreated (List.length cars) /\
              Fleet.guestAssignments body <> None /\
              Forall (fun car => Fleet.in_id car <> None /\
                                 Fleet.in_passengers car <> None) cars).
Proof.
  unfold Fleet.create_cars.
  eapply closes_bind; [apply quiet_defined|apply returns_defined|].
  intros cars Hcars.
  eapply closes_bind;
    [apply quiet_for_of; apply quiet_create_car
    |apply returns_for_of; apply returns_create_car|].
  intros u Hall.
  eapply closes_bind; [apply quiet_defined|apply returns_defined|].
  intros assignments Has.
  eapply closes_bind; [|apply returns_any|].
  { apply quiet_for_of. intros [guestId carId]. apply quiet_query. }
  intros u' _. apply closes_commit.
  exists cars. repeat apply conj; auto. congruence.
Qed.

End PostCars.

(** X10.  POST /api/cars of part_001 stores the cars, their passengers
    and the car numbers of the guests atomically.  From a fresh
    connection on the tables [t], whatever statement the store fails,
    whatever the body holds and whatever [parseInt] makes of the keys of
    [guestAssignments]: without a success reply the tables are [t]
    again; every state a concurrent reader can see is [t] or the final
    state; and a success reply counts the cars of the body, which then
    had [guestAssignments] and, for every car, an id and a list of
    passengers. *)
Theorem post_cars_atomic granted fault parseInt body t n :
  ((forall k,
      fst (Fleet.post_cars granted fault parseInt body (start t n))
      <> Ok (Fleet.CarsCreated k)) ->
   committed
     (db (snd (Fleet.post_cars granted fault parseInt body (start t n)))) = t)
  /\
  Forall (fun s =>
            s = t \/
            s = committed
                  (db (snd (Fleet.post_cars granted fault parseInt body
                              (start t n)))))
         (observed (db (snd (Fleet.post_cars granted fault parseInt body
                               (start t n)))))
  /\
  (forall k,
     fst (Fleet.post_cars granted fault parseInt body (start t n))
     = Ok (Fleet.CarsCreated k) ->
     exists cars,
       Fleet.body_cars body = Some cars /\ k = List.length cars /\
       Fleet.guestAssignments body <> None /\
       Forall (fun car => Fleet.in_id car <> None /\
                          Fleet.in_passengers car <> None) cars).
Proof.
  destruct granted;
    [|simpl; split; [auto|split; [constructor|intros k Hk; discriminate]]].
  pose proof (transaction_spec fault Fleet.CarsError500 n
                (closes_settles (@create_cars_closes fault parseInt t body)))
    as H.
  cbv zeta in H.
  change (transaction fault (Fleet.create_cars fault parseInt body)
                      Fleet.CarsError500)
    with (Fleet.post_cars true fault parseInt body) in H.
  destruct H as (_ & [([Hr|Hr] & Hc & Ho)
                     |(x & Hr & (cars & Hb & -> & Hg & Hall) & obs & Ho
                       & Hobs)]).
  - split; [|split].
    + intros _. exact Hc.
    + eapply Forall_impl; [|exact Ho]. simpl. auto.
    + intros k Hk. congruence.
  - split; [|split].
    + intros _. exact Hc.
    + eapply Forall_impl; [|exact Ho]. simpl. auto.
    + intros k Hk. congruence.
  - split; [|split].
    + intros Hn. exfalso. eapply Hn. exact Hr.
    + rewrite Ho. apply Forall_app. split.
      * eapply Forall_impl; [|exact Hobs]. simpl. auto.
      * constructor; auto.
    + intros k Hk. rewrite Hr in Hk. injection Hk as <-.
      exists cars. auto.
Qed.

(** A statement outside a transaction that the store runs. *)
Lemma query_runs T R fault draws (stmt : Z -> T -> option (R * T))
      (w : world T) x t' :
  fault (issued (db w)) = false ->
  txn (db w) = None ->
  stmt (seq (db w)) (committed (db w)) = Some (x, t') ->
  query fault draws stmt w
  = (Ok x, {| db := after (db w) t' None
                          (if draws then seq (db w) + 1 else seq (db w));
              calls := calls w |}).
Proof.
  unfold query, on_db, run_stmt, current. intros -> -> ->. reflexivity.
Qed.

(** X11.  DELETE /api/cars of part_001 runs its two statements without a
    transaction, on a connection the pool has given.  After a success
    reply no car is left, no passenger of a car that existed is left,
    and no guest has a car number; after the 500 reply the guests are
    those of before, car numbers included, and either nothing has
    changed or the cars are gone all the same; the second case occurs
    whenever the store runs the first statement and fails the second. *)
Theorem delete_cars_not_atomic fault t n :
  ((fst (Fleet.delete_cars true fault (start t n)) = Ok LegStore.Success /\
    Fleet.cars (committed (db (snd (Fleet.delete_cars true fault (start t n)))))
    = [] /\
    Forall (fun cp => Fleet.has_car (fst cp) t = false)
           (LegStore.car_passengers
              (Fleet.base (committed (db (snd (Fleet.delete_cars true fault
                                                 (start t n))))))) /\
    LegStore.guests
      (Fleet.base (committed (db (snd (Fleet.delete_cars true fault
                                         (start t n))))))
    = map (fun r => Fleet.set_car r None) (LegStore.guests (Fleet.base t)))
   \/
   (fst (Fleet.delete_cars true fault (start t n)) = Ok LegStore.Error500 /\
    LegStore.guests
      (Fleet.base (committed (db (snd (Fleet.delete_cars true fault
                                         (start t n))))))
    = LegStore.guests (Fleet.base t) /\
    (committed (db (snd (Fleet.delete_cars true fault (start t n)))) = t \/
     Fleet.cars
       (committed (db (snd (Fleet.delete_cars true fault (start t n)))))
     = [])))
  /\
  (fault 0%nat = false -> fault 1%nat = true ->
   fst (Fleet.delete_cars true fault (start t n)) = Ok LegStore.Error500 /\
   Fleet.cars (committed (db (snd (Fleet.delete_cars true fault (start t n)))))
   = [] /\
   LegStore.guests
     (Fleet.base (committed (db (snd (Fleet.delete_cars true fault
                                        (start t n))))))
   = LegStore.guests (Fleet.base t)).
Proof.
  unfold Fleet.delete_cars. rewrite connect_granted, finally_release.
  unfold try_catch. rewrite bind_unfold.
  destruct (fault 0%nat) eqn:F0.
  - rewrite query_fails by exact F0. simpl.
    split; [|discriminate]. right. auto.
  - rewrite (query_runs fault false Fleet.delete_all_cars (start t n) F0
               eq_refl eq_refl).
    cbv iota beta. rewrite bind_unfold.
    destruct (fault 1%nat) eqn:F1.
    + rewrite query_fails by exact F1. simpl.
      split; [right; auto|]. auto.
    + match goal with
      | |- context [query fault false Fleet.clear_assignments ?w] =>
          rewrite (query_runs fault false Fleet.clear_assignments w F1
                     eq_refl eq_refl)
      end.
      simpl. split; [|discriminate]. left.
      split; [reflexivity|]. split; [reflexivity|]. split; [|reflexivity].
      apply Forall_forall. intros cp Hin.
      apply filter_In in Hin as [_ Hn]. apply negb_true_iff in Hn. exact Hn.
Qed.

(** The reads of the listing under any store: the result is complete or
    the query that failed threw. *)
Lemma promise_all_any fault order rows : forall (w : world LegStore.tables)
                                                 r w',
  LegStore.promise_all fault order rows w = (r, w') ->
  current (db w') = current (db w) /\
  calls w' = calls w /\
  (r = Throw \/ r = Ok (map (listed order (current (db w))) rows)).
Proof.
  induction rows as [|g rows IH]; intros w r w' E.
  - simpl in E. inversion E; subst. auto.
  - simpl in E. rewrite bind_unfold in E.
    unfold LegStore.guest_with_legs in E. rewrite bind_unfold in E.
    destruct (query fault false
                (LegStore.select_legs_of order (LegStore.guest_id g)) w)
      as [r1 w1] eqn:E1.
    apply query_inv in E1 as (Hc1 & _ & _ & _ & Hcases).
    destruct Hcases as [(-> & Hcur1 & _)|(x & t' & -> & Hs & _ & Hcur1 & _)].
    + inversion E; subst. auto.
    + unfold LegStore.select_legs_of in Hs. injection Hs as <- <-.
      unfold ret at 1 in E. cbv iota beta in E. rewrite bind_unfold in E.
      destruct (LegStore.promise_all fault order rows w1) as [r2 w2] eqn:E2.
      destruct (IH _ _ _ E2) as (Hcur2 & Hc2 & Hr2).
      destruct Hr2 as [-> | ->]; inversion E; subst.
      * repeat apply conj; try congruence. auto.
      * repeat apply conj; try congruence. right.
        unfold listed at 2. simpl. rewrite Hcur1. reflexivity.
Qed.

(** X12.  GET /api/guests of part_000 reads only, and its reply is all
    or nothing.  From a fresh connection on the tables [t], whether the
    pool gives a connection or not and whatever statement the store
    fails: the tables are [t] afterwards and no provider request is
    made.  When the pool gives the connection, the reply is either the
    500 error or the complete listing, one entry per guest row the store
    returns, in that order, each with all the legs of the guest, and a
    store that runs every statement gives the listing; when the pool
    gives no connection, the handler rejects without a reply. *)
Theorem listing_all_or_nothing (granted : bool) fault by_created by_leg_order
        t n :
  committed (db (snd (LegStore.get_guests granted fault by_created
                        by_leg_order (start t n)))) = t
  /\
  calls (snd (LegStore.get_guests granted fault by_created by_leg_order
                (start t n)))
  = []
  /\
  (if granted then
     fst (LegStore.get_guests true fault by_created by_leg_order (start t n))
     = Ok LegStore.ListingError500 \/
     fst (LegStore.get_guests true fault by_created by_leg_order (start t n))
     = Ok (LegStore.Listing (map (listed by_leg_order t) (by_created t)))
   else
     fst (LegStore.get_guests false fault by_created by_leg_order (start t n))
     = Throw)
  /\
  (fst (LegStore.get_guests true no_fault by_created by_leg_order (start t n))
   = Ok (LegStore.Listing (map (listed by_leg_order t) (by_created t)))).
Proof.
  split; [apply get_guests_reads|].
  assert (H : forall f,
    calls (snd (LegStore.get_guests true f by_created by_leg_order (start t n)))
    = [] /\
    (fst (LegStore.get_guests true f by_created by_leg_order (start t n))
     = Ok LegStore.ListingError500 \/
     fst (LegStore.get_guests true f by_created by_leg_order (start t n))
     = Ok (LegStore.Listing (map (listed by_leg_order t) (by_created t))))
    /\
    (f = no_fault ->
     fst (LegStore.get_guests true f by_created by_leg_order (start t n))
     = Ok (LegStore.Listing (map (listed by_leg_order t) (by_created t))))).
  { intros f. unfold LegStore.get_guests.
    rewrite connect_granted, finally_release.
    unfold try_catch. rewrite bind_unfold.
    destruct (query f false (LegStore.select_guests by_created) (start t n))
      as [r1 w1] eqn:E1.
    pose proof E1 as E1'.
    apply query_inv in E1' as (Hc1 & _ & _ & _ & Hcases).
    change (current (db (start t n))) with t in Hcases.
    destruct Hcases as [(-> & Hcur1 & _)|(x & t' & -> & Hs & _ & Hcur1 & _)].
    - simpl. split; [exact Hc1|]. split; [auto|].
      intros ->.
      destruct (@query_no_fault _ _ false (LegStore.select_guests by_created)
                  (start t n) _ _ eq_refl) as (w'' & E'' & _).
      rewrite E1 in E''. discriminate.
    - unfold LegStore.select_guests in Hs. injection Hs as <- <-.
      rewrite bind_unfold.
      destruct (LegStore.promise_all f by_leg_order (by_created t) w1)
        as [r2 w2] eqn:E2.
      pose proof E2 as E2'.
      apply promise_all_any in E2' as (Hcur2 & Hc2 & Hr2).
      rewrite Hcur1 in Hr2.
      destruct Hr2 as [-> | ->]; simpl.
      + split; [rewrite Hc2, Hc1; reflexivity|]. split; [auto|].
        intros ->.
        destruct (promise_all_ok by_leg_order (by_created t) w1)
          as (w'' & E'' & _).
        rewrite E2 in E''. discriminate.
      + split; [rewrite Hc2, Hc1; reflexivity|]. auto. }
  destruct (H fault) as (Hc & Hr & _).
  destruct (H no_fault) as (_ & _ & Hn).
  destruct granted.
  - split; [exact Hc|]. split; [exact Hr|]. apply Hn. reflexivity.
  - split; [reflexivity|]. split; [reflexivity|]. apply Hn. reflexivity.
Qed.

(** Witness of X9: the two legs of the guest 1 are replaced by the
    flights 200 and 300; the store returns the rows in table order. *)
Lemma listing_after_put_witness :
  exists views,
    fst (LegStore.get_guests true no_fault LegStore.guests (fun ls => ls)
           (snd (LegStore.put_guest true no_fault 1 Sample.complete_body
                   (start Sample.two_legs 3))))
    = Ok (LegStore.Listing views) /\
    map LegStore.view_id views = [1].
Proof.
  destruct (@listing_after_put 1 Sample.complete_body Sample.two_legs 3
              LegStore.guests (fun ls => ls) "Ada"
              (LegStore.legs_array [Some (Sample.leg_input (Some "200"));
                                    Some (Sample.leg_input (Some "300"))])
              eq_refl eq_refl eq_refl)
    as (views & Hr & _ & Hids & _).
  - intros g Hg. exact Hg.
  - split; [apply Permutation_refl|].
    vm_compute. repeat constructor.
  - exists views. split; [exact Hr|]. exact Hids.
Defined.

(** The listing after the replacement of the example. *)
Example listing_example :
  fst (LegStore.get_guests true no_fault LegStore.guests (fun ls => ls)
         (snd (LegStore.put_guest true no_fault 1 Sample.complete_body
                 (start Sample.two_legs 3))))
  = Ok (LegStore.Listing
          [{| LegStore.view_id := 1; LegStore.view_name := "Ada";
              LegStore.finalDestination := Some "CDG";
              LegStore.finalETA := Some Sample.next_noon;
              LegStore.carAssigned := None;
              LegStore.view_legs :=
                [{| LegStore.view_flight := "200";
                    LegStore.view_airline := Some "XY";
                    LegStore.view_origin := "JFK";
                    LegStore.view_destination := "CDG";
                    LegStore.view_eta := Sample.next_noon;
                    LegStore.view_status := OnTime |};
                 {| LegStore.view_flight := "300";
                    LegStore.view_airline := Some "XY";
                    LegStore.view_origin := "JFK";
                    LegStore.view_destination := "CDG";
                    LegStore.view_eta := Sample.next_noon;
                    LegStore.view_status := OnTime |}] |}]).
Proof. reflexivity. Qed.

(** A new guest gets the id of the sequence; its legs get the next leg
    ids. *)
Example post_guest_example :
  fst (LegStore.post_guest true no_fault 2 Sample.complete_body
         (start Sample.two_legs 3)) = Ok (LegStore.Created 2) /\
  map (fun l => (LegStore.leg_id l, LegStore.leg_guest l,
                 LegStore.flight_number l))
      (LegStore.flight_legs
         (committed (db (snd (LegStore.post_guest true no_fault 2
                                Sample.complete_body
                                (start Sample.two_legs 3))))))
  = [(1, 1, "100"); (2, 1, "100"); (3, 2, "200"); (4, 2, "300")] /\
  fst (LegStore.post_guest true no_fault 1 Sample.complete_body
         (start Sample.two_legs 3)) = Ok LegStore.PostError500.
Proof. repeat apply conj; reflexivity. Qed.
(* ===================================================================== *)
(** ** The listing refresh of part_002: one iteration                     *)
(* ===================================================================== *)

Lemma vendor_status_cases S (s : S) flight :
  FlatGuests.vendor_status flight s = (Throw, s) \/
  exists st, FlatGuests.vendor_status flight s = (Ok st, s) /\
             In st status_vocabulary.
Proof.
  unfold FlatGuests.vendor_status, status_vocabulary.
  destruct (str_is _ "cancelled");
    [right; eexists; split; [reflexivity|simpl; auto]|].
  destruct (str_is _ "landed");
    [right; eexists; split; [reflexivity|simpl; auto]|].
  destruct (_ || _).
  - destruct (arrival flight) as [a|]; [|left; reflexivity].
    destruct (_ <? _); right; eexists; (split; [reflexivity|simpl; auto]).
  - right; eexists; split; [reflexivity|simpl; auto].
Qed.

Section RefreshCases.

Variable fault : nat -> bool.
Variable env : option string.
Variable p : provider.
Variable now : Z.
Variable guest : FlatGuests.guest_row.

(** An UPDATE of the status of the guest, and the guest object with
    that status. *)
Lemma set_and_return st (w : world FlatGuests.tables) r w' :
  (query fault false (FlatGuests.update_status st (FlatGuests.id guest)) ;;;
   ret (FlatGuests.with_status guest (Some st))) w = (r, w') ->
  calls w' = calls w /\
  (txn (db w') = None <-> txn (db w) = None) /\
  ((r = Throw /\ current (db w') = current (db w)) \/
   (r = Ok (FlatGuests.with_status guest (Some st)) /\
    current (db w') =
      set_status st (FlatGuests.id guest) (current (db w)))) /\
  (fault = no_fault -> r <> Throw).
Proof.
  intros E. rewrite bind_unfold in E.
  destruct (query fault false
              (FlatGuests.update_status st (FlatGuests.id guest)) w)
    as [r1 w1] eqn:E1.
  pose proof E1 as E1'.
  apply query_inv in E1' as (Hc & Ht & _ & _ & Hcases).
  destruct Hcases as [(-> & Hcur & _)|(x & t' & -> & Hs & _ & Hcur & _)].
  - inversion E; subst. conjs; auto.
    intros ->.
    destruct (@query_no_fault _ _ false
                (FlatGuests.update_status st (FlatGuests.id guest)) w
                _ _ eq_refl) as (w'' & E'' & _).
    rewrite E1 in E''. discriminate.
  - unfold FlatGuests.update_status in Hs. injection Hs as _ <-.
    inversion E; subst. conjs; auto. discriminate.
Qed.

(** The catch block. *)
Lemma fallback_cases (w : world FlatGuests.tables) r w' :
  (if (FlatGuests.date_value (FlatGuests.eta guest) <? now)
      && str_is (FlatGuests.status guest) OnTime
   then query fault false
          (FlatGuests.update_status Landed (FlatGuests.id guest)) ;;;
        ret (FlatGuests.with_status guest (Some Landed))
   else ret guest) w = (r, w') ->
  calls w' = calls w /\
  (txn (db w') = None <-> txn (db w) = None) /\
  ((r = Throw /\ current (db w') = current (db w)) \/
   (exists guest', r = Ok guest' /\
      refreshed now guest (current (db w)) guest' (current (db w')))) /\
  (fault = no_fault -> r <> Throw).
Proof.
  destruct (_ && _).
  - intros E. apply set_and_return in E as (Hc & Ht & Hr & Hn).
    conjs; auto.
    destruct Hr as [H|[-> Hcur]]; [left; exact H|].
    right. eexists. split; [reflexivity|]. right. exists Landed.
    conjs; auto.
    + unfold status_vocabulary. simpl. auto.
    + intros _. discriminate.
  - intros E. inversion E; subst. conjs; try tauto.
    + right. exists guest. split; [reflexivity|]. left. auto.
    + discriminate.
Qed.

(** One iteration, whatever the store fails and whatever the provider
    answers. *)
Lemma refresh_guest_cases (w : world FlatGuests.tables) r w' :
  FlatGuests.refresh_guest fault env p now guest w = (r, w') ->
  calls w' = calls w ++ (if refreshable guest
                         then [FlatGuests.lookup_request env guest]
                         else []) /\
  (txn (db w') = None <-> txn (db w) = None) /\
  ((r = Throw /\ current (db w') = current (db w)) \/
   (exists guest', r = Ok guest' /\
      refreshed now guest (current (db w)) guest' (current (db w')))) /\
  (fault = no_fault -> r <> Throw).
Proof.
  unfold FlatGuests.refresh_guest. fold (refreshable guest).
  destruct (refreshable guest).
  2:{ intros E. inversion E; subst. rewrite app_nil_r.
      conjs; try tauto.
      - right. exists guest. split; [reflexivity|]. left. auto.
      - discriminate. }
  unfold try_catch. rewrite bind_unfold. unfold axios_get.
  set (w1 := {| db := db w;
                calls := calls w ++ [FlatGuests.lookup_request env guest] |}).
  assert (Hcatch : forall w2 r2 w3,
    calls w2 = calls w1 -> current (db w2) = current (db w) ->
    (txn (db w2) = None <-> txn (db w) = None) ->
    (if (FlatGuests.date_value (FlatGuests.eta guest) <? now)
        && str_is (FlatGuests.status guest) OnTime
     then query fault false
            (FlatGuests.update_status Landed (FlatGuests.id guest)) ;;;
          ret (FlatGuests.with_status guest (Some Landed))
     else ret guest) w2 = (r2, w3) ->
    calls w3 = calls w1 /\
    (txn (db w3) = None <-> txn (db w) = None) /\
    ((r2 = Throw /\ current (db w3) = current (db w)) \/
     (exists guest', r2 = Ok guest' /\
        refreshed now guest (current (db w)) guest' (current (db w3)))) /\
    (fault = no_fault -> r2 <> Throw)).
  { intros w2 r2 w3 Hc2 Hcur2 Ht2 E.
    apply fallback_cases in E as (Hc & Ht & Hr & Hn).
    rewrite Hcur2 in Hr. conjs; auto; try congruence; tauto. }
  destruct (p (List.length (calls w)) (FlatGuests.lookup_request env guest))
    as [|[b|]].
  - intros E. eapply Hcatch in E; eauto; tauto.
  - destruct (body_data b) as [[|[flight|] rest]|].
    + intros E. inversion E; subst. simpl. conjs; try tauto.
      * right. exists guest. split; [reflexivity|]. left. auto.
      * discriminate.
    + rewrite bind_unfold.
      destruct (vendor_status_cases w1 flight) as [-> |(st0 & -> & Hst0)].
      * intros E. eapply Hcatch in E; eauto; tauto.
      * set (newStatus :=
               if (FlatGuests.date_value (FlatGuests.eta guest) <? now)
                  && String.eqb st0 OnTime then Landed else st0).
        destruct ((query fault false
                     (FlatGuests.update_status newStatus
                        (FlatGuests.id guest)) ;;;
                   ret (FlatGuests.with_status guest (Some newStatus))) w1)
          as [r1 w2] eqn:E1.
        apply set_and_return in E1 as (Hc & Ht & Hr & Hn).
        destruct Hr as [[-> Hcur]|[-> Hcur]].
        -- intros E. eapply Hcatch in E; eauto.
        -- intros E. inversion E; subst. conjs; auto.
           right. eexists. split; [reflexivity|]. right.
           exists newStatus. conjs; auto.
           ++ clear Hcatch. unfold newStatus.
              destruct (_ && String.eqb st0 OnTime); auto.
              unfold status_vocabulary. simpl. auto.
           ++ intros Hpast. unfold newStatus.
              apply Z.ltb_lt in Hpast. rewrite Hpast. simpl.
              destruct (String.eqb st0 OnTime) eqn:Eq;
                [discriminate|].
              apply String.eqb_neq. exact Eq.
    + intros E. eapply Hcatch in E; eauto; tauto.
    + intros E. inversion E; subst. simpl. conjs; try tauto.
      * right. exists guest. split; [reflexivity|]. left. auto.
      * discriminate.
  - intros E. eapply Hcatch in E; eauto; tauto.
Qed.

End RefreshCases.

(** X13.  One iteration of the listing refresh of GET /api/guests in
    part_002, whatever the store fails and whatever the provider
    answers: when it completes, it has either changed nothing, or set
    the status of the guest, in the reply and in the store, to one of On
    Time, Delayed, Cancelled and Landed, and never to On Time for a
    guest whose ETA is before now; no other column changes.  It makes
    one provider request when the guest has flight, airline and origin,
    and none otherwise.  When it throws, the store is as before. *)
Theorem refresh_guest_effect fault env p now guest
        (w : world FlatGuests.tables) :
  calls (snd (FlatGuests.refresh_guest fault env p now guest w))
  = calls w ++ (if refreshable guest
                then [FlatGuests.lookup_request env guest] else [])
  /\
  (forall guest',
     fst (FlatGuests.refresh_guest fault env p now guest w) = Ok guest' ->
     refreshed now guest (current (db w)) guest'
       (current (db (snd (FlatGuests.refresh_guest fault env p now guest w)))))
  /\
  (fst (FlatGuests.refresh_guest fault env p now guest w) = Throw ->
   current (db (snd (FlatGuests.refresh_guest fault env p now guest w)))
   = current (db w))
  /\
  (fst (FlatGuests.refresh_guest no_fault env p now guest w) <> Throw).
Proof.
  destruct (FlatGuests.refresh_guest fault env p now guest w) as [r w'] eqn:E.
  apply refresh_guest_cases in E as (Hc & _ & Hr & _).
  destruct (FlatGuests.refresh_guest no_fault env p now guest w)
    as [r0 w0] eqn:E0.
  apply refresh_guest_cases in E0 as (_ & _ & _ & Hn).
  simpl. split; [exact Hc|]. split; [|split].
  - intros guest' ->.
    destruct Hr as [[Hr _]|(g & Hg & H)]; [discriminate|].
    injection Hg as <-. exact H.
  - intros ->. destruct Hr as [[_ H]|(g & Hg & _)]; [exact H|discriminate].
  - apply Hn. reflexivity.
Qed.
(* ===================================================================== *)
(** ** The listing of part_002 as a whole                                 *)
(* ===================================================================== *)

Section ListingLoop.

Variable env : option string.
Variable p : provider.
Variable now : Z.

(** The loop under a store that runs every statement. *)
Lemma refresh_all_ok rows : forall (w : world FlatGuests.tables),
  exists rows' w',
    FlatGuests.refresh_all no_fault env p now rows w = (Ok rows', w') /\
    calls w' = calls w ++ map (FlatGuests.lookup_request env)
                              (filter refreshable rows) /\
    (txn (db w') = None <-> txn (db w) = None) /\
    refreshed_all now rows (current (db w)) rows' (current (db w')).
Proof.
  induction rows as [|g rows IH]; intros w.
  - exists [], w. simpl. rewrite app_nil_r. conjs; try reflexivity.
    constructor.
  - simpl FlatGuests.refresh_all. rewrite bind_unfold.
    destruct (FlatGuests.refresh_guest no_fault env p now g w)
      as [r1 w1] eqn:E1.
    apply refresh_guest_cases in E1 as (Hc1 & Ht1 & Hr1 & Hn1).
    destruct Hr1 as [[-> _]|(g' & -> & Hg')];
      [exfalso; apply Hn1; reflexivity|].
    rewrite bind_unfold.
    destruct (IH w1) as (rows' & w' & -> & Hc' & Ht' & Hall).
    exists (g' :: rows'), w'. unfold ret. conjs.
    + reflexivity.
    + rewrite Hc', Hc1. simpl. destruct (refreshable g); simpl.
      * rewrite <- app_assoc. reflexivity.
      * rewrite app_nil_r. reflexivity.
    + tauto.
    + econstructor; eauto.
Qed.

(** The loop under any store: the requests made are those of the
    guests of the iterations that were started. *)
Lemma refresh_all_calls fault rows : forall (w : world FlatGuests.tables),
  exists k,
    calls (snd (FlatGuests.refresh_all fault env p now rows w)) =
    calls w ++ map (FlatGuests.lookup_request env)
                   (filter refreshable (firstn k rows)).
Proof.
  induction rows as [|g rows IH]; intros w.
  - exists 0%nat. simpl. rewrite app_nil_r. reflexivity.
  - simpl FlatGuests.refresh_all. rewrite bind_unfold.
    destruct (FlatGuests.refresh_guest fault env p now g w)
      as [r1 w1] eqn:E1.
    apply refresh_guest_cases in E1 as (Hc1 & _ & _ & _).
    assert (Hone : calls w1 =
                   calls w ++ map (FlatGuests.lookup_request env)
                                  (filter refreshable [g])).
    { rewrite Hc1. simpl. destruct (refreshable g); reflexivity. }
    destruct r1 as [g'|].
    + rewrite bind_unfold. destruct (IH w1) as (k & Hk).
      exists (S k).
      destruct (FlatGuests.refresh_all fault env p now rows w1)
        as [[rows'|] w'] eqn:E'; simpl in Hk |- *;
        rewrite Hk, Hc1; destruct (refreshable g); simpl;
        rewrite <- ?app_assoc, ?app_nil_r; reflexivity.
    + exists 1%nat. simpl snd. rewrite Hone. simpl.
      destruct (refreshable g); reflexivity.
Qed.

End ListingLoop.

Lemma refreshed_all_ids now rows tb rows' tb' :
  refreshed_all now rows tb rows' tb' ->
  map FlatGuests.id rows' = map FlatGuests.id rows /\
  map FlatGuests.id tb' = map FlatGuests.id tb.
Proof.
  induction 1 as [tb|g rows tb g' tb1 rows' tb' Hg _ [IH1 IH2]].
  - auto.
  - simpl. rewrite IH1, IH2.
    destruct Hg as [[-> ->]|(st & _ & _ & -> & ->)]; [auto|].
    split; [reflexivity|].
    unfold set_status. rewrite map_map. apply map_ext. intros x.
    destruct (FlatGuests.id x =? FlatGuests.id g); reflexivity.
Qed.

(** One iteration replaces, in a table with unique ids that holds the
    row, that row by the guest object of the reply. *)
Lemma refreshed_replaces now g tb g' tb1 :
  refreshed now g tb g' tb1 ->
  NoDup (map FlatGuests.id tb) -> In g tb ->
  tb1 = map (fun x => if FlatGuests.id x =? FlatGuests.id g then g' else x) tb.
Proof.
  intros Hg Hnd Hin.
  assert (Hsame : forall x, In x tb -> FlatGuests.id x = FlatGuests.id g ->
                            x = g).
  { intros x Hx E. eapply NoDup_map_inj; eauto. }
  destruct Hg as [[-> ->]|(st & _ & _ & -> & ->)].
  - symmetry. rewrite <- (map_id tb) at 2. apply map_ext_in. intros x Hx.
    destruct (Z.eqb_spec (FlatGuests.id x) (FlatGuests.id g)) as [E|E];
      [symmetry; auto|reflexivity].
  - unfold set_status. apply map_ext_in. intros x Hx.
    destruct (Z.eqb_spec (FlatGuests.id x) (FlatGuests.id g)) as [E|E];
      [|reflexivity].
    rewrite (Hsame x Hx E). reflexivity.
Qed.

Lemma counterpart_absent rows' g :
  ~ In (FlatGuests.id g) (map FlatGuests.id rows') ->
  counterpart rows' g = g.
Proof.
  intros Hn. unfold counterpart.
  destruct (find _ rows') as [g'|] eqn:E; [|reflexivity].
  apply find_some in E as [Hin Eq]. apply Z.eqb_eq in Eq.
  exfalso. apply Hn. rewrite <- Eq. apply in_map. exact Hin.
Qed.

(** After the loop the table holds, for every row, the guest object of
    the reply. *)
Lemma refreshed_all_table now rows tb rows' tb' :
  refreshed_all now rows tb rows' tb' ->
  NoDup (map FlatGuests.id tb) ->
  NoDup (map FlatGuests.id rows) ->
  incl rows tb ->
  tb' = map (counterpart rows') tb /\
  map (counterpart rows') rows = rows'.
Proof.
  induction 1 as [tb|g rows tb g' tb1 rows' tb' Hg Hall IH];
    intros Hnd Hndr Hincl.
  - split; [|reflexivity]. symmetry. rewrite <- (map_id tb) at 2.
    apply map_ext. intros x. reflexivity.
  - simpl in Hndr. apply NoDup_cons_iff in Hndr as [Hng Hndr].
    assert (Hin : In g tb) by (apply Hincl; simpl; auto).
    pose proof (refreshed_replaces Hg Hnd Hin) as Htb1.
    assert (Hidg : FlatGuests.id g' = FlatGuests.id g).
    { destruct Hg as [[-> _]|(st & _ & _ & -> & _)]; reflexivity. }
    destruct (refreshed_all_ids Hall) as [Hids' _].
    assert (Hnd1 : NoDup (map FlatGuests.id tb1)).
    { rewrite Htb1, map_map.
      erewrite map_ext; [exact Hnd|]. intros x. simpl.
      destruct (Z.eqb_spec (FlatGuests.id x) (FlatGuests.id g)); congruence. }
    assert (Hincl1 : incl rows tb1).
    { intros x Hx. rewrite Htb1. apply in_map_iff. exists x.
      split; [|apply Hincl; simpl; auto].
      destruct (Z.eqb_spec (FlatGuests.id x) (FlatGuests.id g)) as [E|E];
        [|reflexivity].
      exfalso. apply Hng. rewrite <- E. apply in_map. exact Hx. }
    destruct (IH Hnd1 Hndr Hincl1) as [Htb' Hrows'].
    assert (Hg'abs : ~ In (FlatGuests.id g) (map FlatGuests.id rows')).
    { rewrite Hids'. exact Hng. }
    split.
    + rewrite Htb', Htb1, map_map. apply map_ext. intros x.
      unfold counterpart at 2. simpl. rewrite Hidg.
      rewrite (Z.eqb_sym (FlatGuests.id g) (FlatGuests.id x)).
      destruct (Z.eqb_spec (FlatGuests.id x) (FlatGuests.id g)) as [E|E].
      * apply counterpart_absent. rewrite Hidg. exact Hg'abs.
      * reflexivity.
    + simpl. f_equal.
      * unfold counterpart. simpl. rewrite Hidg, Z.eqb_refl. reflexivity.
      * rewrite <- Hrows' at 2. apply map_ext_in. intros x Hx.
        unfold counterpart at 1. simpl. rewrite Hidg.
        destruct (Z.eqb_spec (FlatGuests.id g) (FlatGuests.id x)) as [E|E];
          [|reflexivity].
        exfalso. apply Hng. rewrite E. apply in_map. exact Hx.
Qed.

(** The listing under a store that runs every statement. *)
Lemma listing_refreshes_every_guest_aux env p now by_eta
      (t : FlatGuests.tables) n :
  exists rows',
    fst (FlatGuests.get_guests no_fault env p now by_eta (start t n))
    = Ok (FlatGuests.Guests rows') /\
    refreshed_all now (by_eta t) t rows'
      (committed (db (snd (FlatGuests.get_guests no_fault env p now by_eta
                             (start t n))))).
Proof.
  unfold FlatGuests.get_guests, try_catch. rewrite bind_unfold.
  destruct (@query_no_fault _ _ false (FlatGuests.select_all by_eta)
              (start t n) _ _ eq_refl) as (w1 & -> & Hcur1 & Hc1 & Ht1).
  change (current (db (start t n))) with t in *.
  rewrite bind_unfold.
  destruct (refresh_all_ok env p now (by_eta t) w1)
    as (rows' & w' & -> & Hc' & Ht' & Hall).
  exists rows'. unfold ret. simpl.
  split; [reflexivity|].
  rewrite <- (current_no_txn (db w')) by (simpl in Ht1; tauto).
  rewrite Hcur1 in Hall. exact Hall.
Qed.

(** X14.  GET /api/guests of part_002 looks every guest up on every
    listing.  With a store that runs every statement the handler replies
    with the guests and has made exactly one provider request for every
    row that has flight, airline and origin, in the order of the rows,
    whatever the status of the guest, and has run the iterations one
    after the other on the store.  Whatever the store fails, the reply is
    the guests or the 500 error, and the requests made are those of the
    rows of the iterations that were started. *)
Theorem listing_refreshes_every_guest fault env p now by_eta
        (t : FlatGuests.tables) n :
  (exists rows',
     fst (FlatGuests.get_guests no_fault env p now by_eta (start t n))
     = Ok (FlatGuests.Guests rows') /\
     calls (snd (FlatGuests.get_guests no_fault env p now by_eta (start t n)))
     = map (FlatGuests.lookup_request env) (filter refreshable (by_eta t)) /\
     refreshed_all now (by_eta t) t rows'
       (committed (db (snd (FlatGuests.get_guests no_fault env p now by_eta
                              (start t n))))))
  /\
  (exists k,
     calls (snd (FlatGuests.get_guests fault env p now by_eta (start t n)))
     = map (FlatGuests.lookup_request env)
           (filter refreshable (firstn k (by_eta t))))
  /\
  (fst (FlatGuests.get_guests fault env p now by_eta (start t n))
   = Ok FlatGuests.ListingError500 \/
   exists rows',
     fst (FlatGuests.get_guests fault env p now by_eta (start t n))
     = Ok (FlatGuests.Guests rows')).
Proof.
  split; [|split].
  - unfold FlatGuests.get_guests, try_catch. rewrite bind_unfold.
    destruct (@query_no_fault _ _ false (FlatGuests.select_all by_eta)
                (start t n) _ _ eq_refl) as (w1 & -> & Hcur1 & Hc1 & Ht1).
    change (current (db (start t n))) with t in *.
    rewrite bind_unfold.
    destruct (refresh_all_ok env p now (by_eta t) w1)
      as (rows' & w' & -> & Hc' & Ht' & Hall).
    exists rows'. unfold ret. simpl.
    split; [reflexivity|]. split; [rewrite Hc', Hc1; reflexivity|].
    rewrite <- (current_no_txn (db w')) by (simpl in Ht1; tauto).
    rewrite Hcur1 in Hall. exact Hall.
  - unfold FlatGuests.get_guests, try_catch. rewrite bind_unfold.
    destruct (query fault false (FlatGuests.select_all by_eta) (start t n))
      as [r1 w1] eqn:E1.
    apply query_inv in E1 as (Hc1 & _ & _ & _ & Hcases).
    change (current (db (start t n))) with t in *.
    destruct Hcases as [(-> & _)|(x & t' & -> & Hs & _)].
    + exists 0%nat. simpl. exact Hc1.
    + unfold FlatGuests.select_all in Hs. injection Hs as <- <-.
      rewrite bind_unfold.
      destruct (refresh_all_calls env p now fault (by_eta t) w1) as (k & Hk).
      exists k.
      destruct (FlatGuests.refresh_all fault env p now (by_eta t) w1)
        as [[rows'|] w'] eqn:E'; simpl in Hk |- *; rewrite Hk, Hc1;
        reflexivity.
  - unfold FlatGuests.get_guests, try_catch.
    match goal with
    | |- context [bind ?m ?k (start t n)] =>
        destruct (bind m k (start t n)) as [[[rows'|]|] w']
    end; simpl; eauto.
Qed.

(** X15.  The listing of part_002 shows what the store holds.  With a
    store that runs every statement, unique guest ids and a query that
    returns the rows of the table, the rows of the reply of GET
    /api/guests are, up to their order, exactly the rows of the table
    after the request: every status the reply shows is the status the
    store has. *)
Theorem listing_matches_store env p now by_eta (t : FlatGuests.tables) n :
  NoDup (map FlatGuests.id t) ->
  Permutation t (by_eta t) ->
  exists rows',
    fst (FlatGuests.get_guests no_fault env p now by_eta (start t n))
    = Ok (FlatGuests.Guests rows') /\
    Permutation
      (committed (db (snd (FlatGuests.get_guests no_fault env p now by_eta
                             (start t n)))))
      rows'.
Proof.
  intros Hnd Hperm.
  destruct (listing_refreshes_every_guest_aux env p now by_eta t n)
    as (rows' & Hr & Hall).
  exists rows'. split; [exact Hr|].
  assert (Hndr : NoDup (map FlatGuests.id (by_eta t))).
  { eapply Permutation_NoDup; [|exact Hnd]. apply Permutation_map.
    exact Hperm. }
  assert (Hincl : incl (by_eta t) t).
  { intros x Hx. eapply Permutation_in; [|exact Hx].
    apply Permutation_sym. exact Hperm. }
  destruct (refreshed_all_table Hall Hnd Hndr Hincl) as [-> Hrows].
  apply Permutation_trans with (map (counterpart rows') (by_eta t)).
  - apply Permutation_map. exact Hperm.
  - rewrite Hrows. apply Permutation_refl.
Qed.

(** Witness of X15: two guests, the provider reports every flight
    cancelled. *)
Lemma listing_matches_store_witness :
  exists rows',
    fst (FlatGuests.get_guests no_fault None
           (Sample.always (Sample.answer (Sample.flight_with "cancelled" None)))
           Sample.next_noon (fun t => t) (start Sample.same_number 3))
    = Ok (FlatGuests.Guests rows') /\
    Permutation
      (committed
         (db (snd (FlatGuests.get_guests no_fault None
                     (Sample.always
                        (Sample.answer (Sample.flight_with "cancelled" None)))
                     Sample.next_noon (fun t => t)
                     (start Sample.same_number 3)))))
      rows'.
Proof.
  apply (@listing_matches_store None
           (Sample.always (Sample.answer (Sample.flight_with "cancelled" None)))
           Sample.next_noon (fun t => t) Sample.same_number 3).
  - simpl. repeat constructor; simpl; intuition discriminate.
  - apply Permutation_refl.
Defined.

(* ===================================================================== *)
(** ** POST and PUT /api/guests of part_002                               *)
(* ===================================================================== *)


(** X17.  POST /api/guests of part_002 inserts one row.  Whatever the
    store fails: when the reply carries a row, that row is the last row
    of the table and the table is otherwise as before; its id is the
    value of the sequence, its status is On Time and its car number
    null whatever the body says, an empty phone is stored as null, and
    the name and the flight are those of the body; the 500 reply leaves
    the table as it was; and a body without a name or without a flight,
    as well as a value of the sequence that is an id of the table, gets
    the 500 reply. *)
Theorem flat_post_guest fault now b (t : FlatGuests.tables) n :
  (forall row,
     fst (FlatGuests.post_guest fault now b (start t n))
     = Ok (FlatGuests.RowJson row) ->
     committed (db (snd (FlatGuests.post_guest fault now b (start t n))))
     = t ++ [row] /\
     FlatGuests.id row = n /\
     FlatGuests.status row = Some OnTime /\
     FlatGuests.car_assigned row = None /\
     FlatGuests.phone row = FlatGuests.or_null (FlatGuests.body_phone b) /\
     FlatGuests.body_name b = Some (FlatGuests.name row) /\
     FlatGuests.body_flight b = Some (FlatGuests.flight row) /\
     seq (db (snd (FlatGuests.post_guest fault now b (start t n)))) = n + 1)
  /\
  (fst (FlatGuests.post_guest fault now b (start t n))
   = Ok FlatGuests.RowError500 ->
   committed (db (snd (FlatGuests.post_guest fault now b (start t n)))) = t)
  /\
  (FlatGuests.body_name b = None \/ FlatGuests.body_flight b = None \/
   existsb (fun g => FlatGuests.id g =? n) t = true ->
   fst (FlatGuests.post_guest fault now b (start t n))
   = Ok FlatGuests.RowError500).
Proof.
  unfold FlatGuests.post_guest, try_catch. rewrite bind_unfold.
  destruct (fault 0%nat) eqn:F0.
  { rewrite query_fails by exact F0. simpl.
    conjs; try discriminate; auto. }
  destruct (FlatGuests.insert_guest b now n t) as [[row t']|] eqn:Es.
  - rewrite (query_runs fault true (FlatGuests.insert_guest b now)
               (start t n) F0 eq_refl Es).
    unfold ret. simpl.
    unfold FlatGuests.insert_guest in Es.
    destruct (FlatGuests.body_name b) as [nm|]; [|discriminate].
    destruct (FlatGuests.body_flight b) as [f|]; [|discriminate].
    destruct (existsb _ t) eqn:Ex; [discriminate|].
    injection Es as <- <-.
    conjs; try discriminate.
    + intros row Hrow. injection Hrow as <-. simpl. conjs; reflexivity.
    + intros [H|[H|H]]; discriminate.
  - assert (E : query fault true (FlatGuests.insert_guest b now) (start t n)
                = (Throw, {| db := failed (open t n) (n + 1);
                             calls := [] |})).
    { unfold query, on_db, run_stmt. simpl.
      change (current (open t n)) with t. rewrite F0, Es. reflexivity. }
    rewrite E. simpl. conjs; try discriminate; auto.
Qed.
(* ===================================================================== *)
(** ** part_002: the guest ids stay unique                                *)
(* ===================================================================== *)

Lemma flat_keys_monotone : monotone flat_keys.
Proof.
  intros s s' t Hle [Hn Hb]. split; [exact Hn|].
  eapply Forall_impl; [|exact Hb]. simpl. intros g H. lia.
Qed.

(** A rewrite of the rows that keeps their ids keeps the key. *)
Lemma flat_keys_map s (t : FlatGuests.tables) f :
  (forall g, FlatGuests.id (f g) = FlatGuests.id g) ->
  flat_keys s t -> flat_keys s (map f t).
Proof.
  intros Hf [Hn Hb]. unfold flat_keys.
  assert (E : map FlatGuests.id (map f t) = map FlatGuests.id t).
  { rewrite map_map. apply map_ext. exact Hf. }
  split; [rewrite E; exact Hn|].
  apply Forall_map with (f := FlatGuests.id) (P := fun i => i < s).
  rewrite E. apply Forall_map. exact Hb.
Qed.

Lemma flat_keys_update_status st gid :
  stmt_keeps flat_keys false (FlatGuests.update_status st gid) (fun _ => True).
Proof.
  intros s t x t' H E. injection E as _ <-. split; [|exact I].
  apply flat_keys_map; [|exact H]. intros g.
  destruct (FlatGuests.id g =? gid); reflexivity.
Qed.

Lemma flat_keys_update_car c gid :
  stmt_keeps flat_keys false (FlatGuests.update_car c gid) (fun _ => True).
Proof.
  intros s t x t' H E. injection E as _ <-. split; [|exact I].
  apply flat_keys_map; [|exact H]. intros g.
  destruct (FlatGuests.id g =? gid); reflexivity.
Qed.

Lemma flat_keys_delete gid :
  stmt_keeps flat_keys false (FlatGuests.delete_guest gid) (fun _ => True).
Proof.
  intros s t x t' [Hn Hb] E. injection E as _ <-. split; [|exact I]. split.
  - apply distinct_filter. exact Hn.
  - apply Forall_filter_keep. exact Hb.
Qed.

Lemma flat_keys_replace b gid :
  stmt_keeps flat_keys false (FlatGuests.replace_guest b gid) (fun _ => True).
Proof.
  intros s t x t' H E. unfold FlatGuests.replace_guest in E.
  destruct (existsb _ t).
  - destruct (FlatGuests.body_name b); [|discriminate].
    destruct (FlatGuests.body_flight b); [|discriminate].
    injection E as _ <-. split; [|exact I].
    apply flat_keys_map; [|exact H]. intros g.
    destruct (FlatGuests.id g =? gid); reflexivity.
  - injection E as _ <-. auto.
Qed.

Lemma flat_keys_insert b now :
  stmt_keeps flat_keys true (FlatGuests.insert_guest b now) (fun _ => True).
Proof.
  intros s t x t' [Hn Hb] E. unfold FlatGuests.insert_guest in E.
  destruct (FlatGuests.body_name b); [|discriminate].
  destruct (FlatGuests.body_flight b); [|discriminate].
  destruct (existsb _ t); [discriminate|].
  injection E as _ <-. split; [|exact I]. split.
  - rewrite map_app. simpl. apply NoDup_app; auto.
    + repeat constructor. simpl. tauto.
    + intros a Ha [<-|[]]. apply in_map_iff in Ha as (g & Eg & Hin).
      eapply Forall_forall in Hb; eauto. lia.
  - apply Forall_app. split.
    + eapply Forall_impl; [|exact Hb]. simpl. intros g H. lia.
    + repeat constructor. simpl. lia.
Qed.

Section FlatKeeps.

Variable fault : nat -> bool.

Lemma flat_keeps_read R
      (stmt : Z -> FlatGuests.tables -> option (R * FlatGuests.tables)) :
  (forall s t x t', stmt s t = Some (x, t') -> t' = t) ->
  keeps (holds_in flat_keys) (query fault false stmt) (fun _ => True).
Proof.
  intros Hr. apply keeps_query; [exact flat_keys_monotone|].
  intros s t x t' Hp E. apply Hr in E. subst. auto.
Qed.

Lemma flat_keeps_set st (guest guest' : FlatGuests.guest_row) :
  keeps (holds_in flat_keys)
    (query fault false
           (FlatGuests.update_status st (FlatGuests.id guest)) ;;;
     ret guest')
    (fun _ => True).
Proof.
  eapply keeps_bind with (Q := fun _ => True).
  - apply keeps_query; [exact flat_keys_monotone|].
    apply flat_keys_update_status.
  - intros _ _. apply keeps_ret. exact I.
Qed.

Lemma flat_keeps_refresh_guest env p now guest :
  keeps (holds_in flat_keys) (FlatGuests.refresh_guest fault env p now guest)
        (fun _ => True).
Proof.
  unfold FlatGuests.refresh_guest.
  destruct (_ && _); [|apply keeps_ret; exact I].
  apply keeps_try_catch.
  - eapply keeps_bind with (Q := fun _ => True).
    + apply keeps_same_db. intros w. unfold axios_get.
      destruct (p _ _); simpl; auto.
    + intros [body|] _; [|apply keeps_throw].
      destruct (body_data body) as [[|[flight|] rest]|];
        try (apply keeps_ret; exact I); try apply keeps_throw.
      eapply keeps_bind with (Q := fun _ => True).
      * apply keeps_same_db. intros w.
        destruct (vendor_status_cases w flight) as [-> |(st & -> & _)];
          simpl; auto.
      * intros status0 _. apply flat_keeps_set.
  - destruct (_ && _); [apply flat_keeps_set|apply keeps_ret; exact I].
Qed.

Lemma flat_keeps_refresh_all env p now rows :
  keeps (holds_in flat_keys) (FlatGuests.refresh_all fault env p now rows)
        (fun _ => True).
Proof.
  induction rows as [|g rows IH]; simpl.
  - apply keeps_ret. exact I.
  - eapply keeps_bind with (Q := fun _ => True);
      [apply flat_keeps_refresh_guest|].
    intros g' _. eapply keeps_bind with (Q := fun _ => True); [exact IH|].
    intros rows' _. apply keeps_ret. exact I.
Qed.

Lemma flat_keeps_get_guests env p now by_eta :
  keeps (holds_in flat_keys) (FlatGuests.get_guests fault env p now by_eta)
        (fun _ => True).
Proof.
  unfold FlatGuests.get_guests.
  apply keeps_try_catch; [|apply keeps_ret; exact I].
  eapply keeps_bind with (Q := fun _ => True).
  - apply flat_keeps_read. intros s t x t' E. inversion E. reflexivity.
  - intros rows _.
    eapply keeps_bind with (Q := fun _ => True);
      [apply flat_keeps_refresh_all|].
    intros rows' _. apply keeps_ret. exact I.
Qed.

Lemma flat_keeps_assign_slices chunks : forall carId,
  keeps (holds_in flat_keys) (FlatGuests.assign_slices fault chunks carId)
        (fun _ => True).
Proof.
  induction chunks as [|c chunks IH]; intros carId; simpl.
  - apply keeps_ret. exact I.
  - eapply keeps_bind with (Q := fun _ => True).
    + apply keeps_for_of. intros g _.
      apply keeps_query; [exact flat_keys_monotone|].
      apply flat_keys_update_car.
    + intros _ _. apply IH.
Qed.

Lemma flat_keeps_assign_groups fg keys : forall carId,
  keeps (holds_in flat_keys) (FlatGuests.assign_groups fault keys fg carId)
        (fun _ => True).
Proof.
  induction keys as [|k keys IH]; intros carId; simpl.
  - apply keeps_ret. exact I.
  - eapply keeps_bind with (Q := fun _ => True);
      [apply flat_keeps_assign_slices|].
    intros carId' _. apply IH.
Qed.

Lemma flat_keeps_assign_cars by_flight_eta :
  keeps (holds_in flat_keys) (FlatGuests.assign_cars fault by_flight_eta)
        (fun _ => True).
Proof.
  unfold FlatGuests.assign_cars.
  apply keeps_try_catch; [|apply keeps_ret; exact I].
  eapply keeps_bind with (Q := fun _ => True).
  - apply flat_keeps_read. intros s t x t' E. inversion E. reflexivity.
  - intros rows _. eapply keeps_bind with (Q := fun _ => True).
    + apply keeps_same_db. intros w. unfold FlatGuests.lift. simpl. auto.
    + intros fg _. eapply keeps_bind with (Q := fun _ => True);
        [apply flat_keeps_assign_groups|].
      intros last _. apply keeps_ret. exact I.
Qed.

Lemma flat_keeps_writes now gid b :
  keeps (holds_in flat_keys) (FlatGuests.post_guest fault now b)
        (fun _ => True) /\
  keeps (holds_in flat_keys) (FlatGuests.put_guest fault gid b)
        (fun _ => True) /\
  keeps (holds_in flat_keys) (FlatGuests.delete_guest_handler fault gid)
        (fun _ => True).
Proof.
  split; [|split].
  - unfold FlatGuests.post_guest.
    apply keeps_try_catch; [|apply keeps_ret; exact I].
    eapply keeps_bind with (Q := fun _ => True).
    + apply keeps_query; [exact flat_keys_monotone|].
      apply flat_keys_insert.
    + intros row _. apply keeps_ret. exact I.
  - unfold FlatGuests.put_guest.
    apply keeps_try_catch; [|apply keeps_ret; exact I].
    eapply keeps_bind with (Q := fun _ => True).
    + apply keeps_query; [exact flat_keys_monotone|].
      apply flat_keys_replace.
    + intros rows _. apply keeps_ret. exact I.
  - unfold FlatGuests.delete_guest_handler.
    apply keeps_try_catch; [|apply keeps_ret; exact I].
    eapply keeps_bind with (Q := fun _ => True).
    + apply keeps_query; [exact flat_keys_monotone|].
      apply flat_keys_delete.
    + intros _ _. apply keeps_ret. exact I.
Qed.

End FlatKeeps.

(** X18.  The handlers of part_002 keep the guest ids unique.  If the
    ids of the table are unique and lie below the next value of the
    sequence, this is so again after POST, PUT and DELETE /api/guests,
    after the listing with its refresh and after POST /api/assign-cars,
    whatever the store fails, whatever the body holds and whatever the
    provider answers; so the ids the car assignment and the listing
    rely on stay unique. *)
Theorem flat_keys_stay_unique fault env p now by_eta by_flight_eta gid b
        (w : world FlatGuests.tables) :
  holds_in flat_keys (db w) ->
  holds_in flat_keys (db (snd (FlatGuests.post_guest fault now b w))) /\
  holds_in flat_keys (db (snd (FlatGuests.put_guest fault gid b w))) /\
  holds_in flat_keys
    (db (snd (FlatGuests.delete_guest_handler fault gid w))) /\
  holds_in flat_keys
    (db (snd (FlatGuests.get_guests fault env p now by_eta w))) /\
  holds_in flat_keys
    (db (snd (FlatGuests.assign_cars fault by_flight_eta w))).
Proof.
  intros H.
  destruct (flat_keeps_writes fault now gid b) as (Hpost & Hput & Hdel).
  split; [|split; [|split; [|split]]]; (eapply keeps_snd; [|exact H]).
  - exact Hpost.
  - exact Hput.
  - exact Hdel.
  - apply flat_keeps_get_guests.
  - apply flat_keeps_assign_cars.
Qed.

(** Witness of X18: two guests with the ids 1 and 2 and the sequence at
    3, after a third guest is added. *)
Lemma flat_keys_stay_unique_witness :
  holds_in flat_keys (db (start Sample.same_number 3)) /\
  holds_in flat_keys
    (db (snd (FlatGuests.post_guest no_fault Sample.new_year
                Sample.new_flat_guest (start Sample.same_number 3)))).
Proof.
  assert (H : holds_in flat_keys (db (start Sample.same_number 3))).
  { split; [|intros w0 Hw0; discriminate].
    split; simpl; repeat constructor; simpl; intuition (discriminate || lia). }
  split; [exact H|].
  destruct (flat_keys_stay_unique no_fault None (Sample.always AxiosError)
              Sample.new_year (fun t => t) (fun t => t) 1
              Sample.new_flat_guest (start Sample.same_number 3) H)
    as (Hp & _).
  exact Hp.
Defined.
(* ===================================================================== *)
(** ** POST /api/assign-cars: every guest gets one car                    *)
(* ===================================================================== *)

(** X19.  POST /api/assign-cars gives every guest exactly one car and
    never mixes flights.  When the handler produces cars from the rows of
    its query, the guests of the cars are, taken together, the rows,
    each once; the guests of one car all have the same flight; and when
    the ids of the table are unique and the query returned its rows,
    every guest of the table the handler leaves has a car number, which
    is one of 1, ..., number of cars, and two guests with the same car
    number have the same flight. *)
Theorem every_guest_gets_one_car rows cs :
  FlatGuests.cars rows = Ok cs ->
  Permutation (flat_map FlatGuests.car_guests cs) rows /\
  (forall c g1 g2,
     In c cs -> In g1 (FlatGuests.car_guests c) ->
     In g2 (FlatGuests.car_guests c) ->
     FlatGuests.flight g1 = FlatGuests.flight g2) /\
  (forall order (t : FlatGuests.tables) n,
     order t = rows -> Permutation t rows -> NoDup (map FlatGuests.id t) ->
     (forall g,
        In g (committed (db (snd (FlatGuests.assign_cars no_fault order
                                    (start t n))))) ->
        exists k, FlatGuests.car_assigned g = Some k /\
                  1 <= k <= Z.of_nat (List.length cs)) /\
     (forall g1 g2,
        In g1 (committed (db (snd (FlatGuests.assign_cars no_fault order
                                     (start t n))))) ->
        In g2 (committed (db (snd (FlatGuests.assign_cars no_fault order
                                     (start t n))))) ->
        FlatGuests.car_assigned g1 = FlatGuests.car_assigned g2 ->
        FlatGuests.flight g1 = FlatGuests.flight g2)).
Proof.
  intros Hcars. split; [apply (@cars_cover rows cs Hcars)|]. split.
  - intros c g1 g2 Hc H1 H2.
    destruct (@car_on_one_flight rows cs c Hcars Hc) as (k & Hk).
    destruct (Hk g1 H1) as [_ ->]. destruct (Hk g2 H2) as [_ ->]. reflexivity.
  - intros order t n Hord Hperm Hnd.
    destruct (assign_cars_spec order t n) as [_ Hfinal].
    rewrite Hord, Hcars in Hfinal. rewrite Hfinal.
    rewrite seat_all_pointwise.
    assert (Hnum : map FlatGuests.car_number cs
                   = map Z.of_nat (List.seq 1 (List.length cs))).
    { pose proof Hcars as H. rewrite cars_closed_form in H.
      destruct (names_member rows); [discriminate|]. injection H as <-.
      rewrite number_cars_length. apply (number_cars_numbers _ 1). }
    (* every row of the table is in the car whose number it gets *)
    assert (Hrow : forall g, In g t ->
              exists c, In c cs /\ In g (FlatGuests.car_guests c) /\
                        assigned cs (FlatGuests.id g)
                        = Some (FlatGuests.car_number c)).
    { intros g Hg.
      assert (Hgr : In g rows) by (eapply Permutation_in; eauto).
      destruct (@row_in_some_car rows cs g Hcars Hgr) as (c0 & Hc0 & Hg0).
      destruct (assigned_some cs c0 (FlatGuests.id g) Hc0) as (k & Hk);
        [apply in_map; exact Hg0|].
      destruct (@assigned_car cs (FlatGuests.id g) k Hk)
        as (c & Hc & Hcn & Hid).
      exists c. split; [exact Hc|]. split; [|congruence].
      apply in_map_iff in Hid as (g' & Eid & Hg').
      destruct (@car_on_one_flight rows cs c Hcars Hc) as (kf & Hkf).
      destruct (Hkf g' Hg') as [Hg'r _].
      assert (Hg't : In g' t)
        by (eapply Permutation_in; [apply Permutation_sym|]; eauto).
      rewrite <- (@NoDup_map_inj _ _ FlatGuests.id t g' g Hnd Hg't Hg Eid).
      exact Hg'. }
    split.
    + intros g Hg. apply in_map_iff in Hg as (g0 & <- & Hg0).
      destruct (Hrow g0 Hg0) as (c & Hc & _ & ->). simpl.
      exists (FlatGuests.car_number c). split; [reflexivity|].
      assert (Hin : In (FlatGuests.car_number c)
                       (map Z.of_nat (List.seq 1 (List.length cs)))).
      { rewrite <- Hnum. apply in_map. exact Hc. }
      apply in_map_iff in Hin as (j & <- & Hj). apply in_seq in Hj. lia.
    + intros g1 g2 H1 H2 Heq.
      apply in_map_iff in H1 as (a & <- & Ha).
      apply in_map_iff in H2 as (b & <- & Hb).
      destruct (Hrow a Ha) as (ca & Hca & Hina & Ea).
      destruct (Hrow b Hb) as (cb & Hcb & Hinb & Eb).
      rewrite Ea, Eb in Heq |- *. simpl in Heq |- *.
      injection Heq as Heq.
      assert (Hsame : ca = cb).
      { apply (@NoDup_map_inj _ _ FlatGuests.car_number cs ca cb); auto.
        rewrite Hnum. apply seq_NoDup_Z. }
      subst cb.
      destruct (@car_on_one_flight rows cs ca Hcars Hca) as (k & Hk).
      destruct (Hk a Hina) as [_ ->]. destruct (Hk b Hinb) as [_ ->].
      reflexivity.
Qed.

(** Witness of X19: the six guests of flight XY100. *)
Lemma every_guest_gets_one_car_witness :
  exists cs,
    FlatGuests.cars Sample.six = Ok cs /\
    Permutation (flat_map FlatGuests.car_guests cs) Sample.six.
Proof.
  eexists. split; [reflexivity|].
  refine (proj1 (@every_guest_gets_one_car Sample.six _ eq_refl)).
Defined.
(* ===================================================================== *)
(** ** POST /api/assign-cars when the store fails                         *)
(* ===================================================================== *)

Lemma for_of_app S A (l1 l2 : list A) (body : A -> M S unit) (s : S) :
  for_of (l1 ++ l2) body s =
  match for_of l1 body s with
  | (Ok _, s') => for_of l2 body s'
  | (Throw, s') => (Throw, s')
  end.
Proof.
  revert s. induction l1 as [|a l1 IH]; intros s; [reflexivity|].
  simpl app. rewrite !for_of_cons.
  destruct (body a s) as [[u|] s1]; [apply IH|reflexivity].
Qed.

Lemma for_of_map S A B (f : A -> B) (l : list A) (body : B -> M S unit)
      (s : S) :
  for_of (map f l) body s = for_of l (fun a => body (f a)) s.
Proof.
  revert s. induction l as [|a l IH]; intros s; [reflexivity|].
  simpl map. rewrite !for_of_cons.
  destruct (body (f a) s) as [[u|] s1]; [apply IH|reflexivity].
Qed.

Section AssignUnderFaults.

Variable fault : nat -> bool.

(** The loops of the handler issue the UPDATEs of the cars one after
    the other. *)
Lemma assign_slices_flat chunks : forall carId
                                         (w : world FlatGuests.tables),
  FlatGuests.assign_slices fault chunks carId w =
  match for_of (updates (FlatGuests.number_cars chunks carId))
               (fun u => query fault false
                           (FlatGuests.update_car (fst u) (snd u))) w with
  | (Ok _, w') => (Ok (carId + Z.of_nat (List.length chunks)), w')
  | (Throw, w') => (Throw, w')
  end.
Proof.
  induction chunks as [|c chunks IH]; intros carId w.
  - simpl. unfold ret. rewrite Z.add_0_r. reflexivity.
  - cbn [FlatGuests.assign_slices FlatGuests.number_cars].
    unfold updates. cbn [flat_map]. fold (updates
      (FlatGuests.number_cars chunks (carId + 1))).
    rewrite for_of_app, for_of_map. cbn [FlatGuests.car_number
      FlatGuests.car_guests fst snd]. rewrite bind_unfold.
    destruct (for_of c _ w) as [[u|] w1]; [|reflexivity].
    rewrite IH.
    destruct (for_of _ _ w1) as [[u'|] w2]; [|reflexivity].
    f_equal. f_equal. cbn [List.length]. lia.
Qed.

Lemma assign_groups_flat fg keys : forall carId
                                          (w : world FlatGuests.tables),
  FlatGuests.assign_groups fault keys fg carId w =
  match for_of
          (updates
             (FlatGuests.number_cars
                (flat_map (fun k => slices (FlatGuests.members fg k) 0)
                          keys) carId))
          (fun u => query fault false
                      (FlatGuests.update_car (fst u) (snd u))) w with
  | (Ok _, w') =>
      (Ok (carId + Z.of_nat
                     (List.length
                        (flat_map
                           (fun k => slices (FlatGuests.members fg k) 0)
                           keys))), w')
  | (Throw, w') => (Throw, w')
  end.
Proof.
  induction keys as [|k keys IH]; intros carId w.
  - simpl. unfold ret. rewrite Z.add_0_r. reflexivity.
  - cbn [FlatGuests.assign_groups flat_map]. rewrite bind_unfold.
    rewrite assign_slices_flat, number_cars_app.
    unfold updates at 2. rewrite flat_map_app.
    fold (updates (FlatGuests.number_cars
                     (slices (FlatGuests.members fg k) 0) carId)).
    fold (updates (FlatGuests.number_cars
                     (flat_map (fun k => slices (FlatGuests.members fg k) 0)
                               keys)
                     (carId + Z.of_nat
                                (List.length
                                   (slices (FlatGuests.members fg k) 0))))).
    rewrite for_of_app.
    destruct (for_of _ _ w) as [[u|] w1]; [|reflexivity].
    rewrite IH.
    destruct (for_of _ _ w1) as [[u'|] w2]; [|reflexivity].
    f_equal. f_equal. rewrite length_app. lia.
Qed.

(** A list of UPDATEs outside a transaction: the store runs them up to
    its first failure. *)
Lemma run_updates us : forall (w : world FlatGuests.tables),
  txn (db w) = None ->
  exists k,
    (k <= List.length us)%nat /\
    committed
      (db (snd (for_of us (fun u => query fault false
                                      (FlatGuests.update_car (fst u) (snd u)))
                       w)))
    = apply_updates (firstn k us) (committed (db w)) /\
    (forall j, (j < k)%nat -> fault (issued (db w) + j)%nat = false) /\
    ((fst (for_of us (fun u => query fault false
                                 (FlatGuests.update_car (fst u) (snd u)))
                  w) = Ok tt /\ k = List.length us) \/
     (fst (for_of us (fun u => query fault false
                                 (FlatGuests.update_car (fst u) (snd u)))
                  w) = Throw /\
      (k < List.length us)%nat /\
      fault (issued (db w) + k)%nat = true)).
Proof.
  induction us as [|u us IH]; intros w Ht.
  - exists 0%nat. simpl.
    split; [lia|]. split; [reflexivity|]. split; [intros j Hj; lia|].
    left. auto.
  - rewrite for_of_cons.
    destruct (fault (issued (db w))) eqn:F.
    + rewrite query_fails by exact F. exists 0%nat. simpl.
      split; [lia|]. split; [reflexivity|]. split; [intros j Hj; lia|].
      right. split; [reflexivity|]. split; [lia|].
      rewrite Nat.add_0_r. exact F.
    + rewrite (query_runs fault false
                 (FlatGuests.update_car (fst u) (snd u)) w F Ht eq_refl).
      match goal with
      | |- context [for_of us ?b ?w1] =>
          destruct (IH w1 eq_refl) as (k & Hk & Hc & Hf & Hr)
      end.
      simpl issued in Hf, Hr. simpl committed in Hc.
      exists (S k). simpl firstn. conjs.
      * simpl. lia.
      * rewrite Hc. reflexivity.
      * intros [|j] Hj; [rewrite Nat.add_0_r; exact F|].
        replace (issued (db w) + S j)%nat with (S (issued (db w)) + j)%nat
          by lia.
        apply Hf. lia.
      * destruct Hr as [[Hr ->]|(Hr & Hlt & Hfk)].
        -- left. auto.
        -- right. conjs; auto.
           ++ simpl. lia.
           ++ replace (issued (db w) + S k)%nat
                with (S (issued (db w)) + k)%nat by lia.
              exact Hfk.
Qed.

End AssignUnderFaults.

(** X20.  POST /api/assign-cars is not atomic.  The handler issues its
    UPDATEs one by one, outside a transaction, in the order of the cars
    and of their guests.  When the store runs the query and the first
    [k] UPDATEs and fails the next one, the reply is the 500 error and
    the table keeps the new car numbers of those [k] guests with the old
    car numbers of all the others; when the store runs all of them the
    reply is the message and the table has them all. *)
Theorem assign_cars_stops_at_failure fault order (t : FlatGuests.tables) n cs
        k :
  FlatGuests.cars (order t) = Ok cs ->
  fault 0%nat = false ->
  (forall j, (j < k)%nat -> fault (S j) = false) ->
  ((k < List.length (updates cs))%nat -> fault (S k) = true ->
   fst (FlatGuests.assign_cars fault order (start t n))
   = Ok FlatGuests.Error500 /\
   committed (db (snd (FlatGuests.assign_cars fault order (start t n))))
   = apply_updates (firstn k (updates cs)) t)
  /\
  (k = List.length (updates cs) ->
   fst (FlatGuests.assign_cars fault order (start t n))
   = Ok FlatGuests.Message /\
   committed (db (snd (FlatGuests.assign_cars fault order (start t n))))
   = apply_updates (updates cs) t).
Proof.
  intros Hcars F0 Hrun.
  unfold FlatGuests.cars in Hcars.
  destruct (FlatGuests.group_by_flight (order t) []) as [fg|] eqn:Eg;
    [|discriminate].
  injection Hcars as <-.
  set (w1 := {| db := after (open t n) t None n;
                calls := @nil request |}).
  assert (Hall :
    FlatGuests.assign_cars fault order (start t n) =
    match for_of (updates (FlatGuests.number_cars
                             (FlatGuests.group_slices fg) 1))
                 (fun u => query fault false
                             (FlatGuests.update_car (fst u) (snd u))) w1 with
    | (Ok _, w') => (Ok FlatGuests.Message, w')
    | (Throw, w') => (Ok FlatGuests.Error500, w')
    end).
  { unfold FlatGuests.assign_cars, try_catch. rewrite bind_unfold.
    rewrite (query_runs fault false (FlatGuests.select_all order) (start t n)
               F0 eq_refl eq_refl).
    cbv iota beta. change (committed (db (start t n))) with t.
    rewrite bind_unfold. unfold FlatGuests.lift.
    rewrite Eg. cbv iota beta. rewrite bind_unfold.
    rewrite assign_groups_flat. fold (FlatGuests.group_slices fg).
    change {| db := after (db (start t n)) t None (seq (db (start t n)));
              calls := calls (start t n) |} with w1.
    destruct (for_of _ _ w1) as [[u|] w']; reflexivity. }
  rewrite Hall.
  destruct (run_updates fault
              (updates (FlatGuests.number_cars (FlatGuests.group_slices fg) 1))
              w1 eq_refl) as (k' & Hk' & Hc & Hf & Hr).
  destruct (for_of _ _ w1) as [r w'] eqn:E.
  simpl issued in Hf, Hr. simpl committed in Hc. simpl fst in Hr.
  simpl snd in Hc. simpl Nat.add in Hf, Hr.
  split.
  - intros Hlt Hfail.
    destruct Hr as [[-> ->]|(-> & Hlt' & Hfk)].
    + rewrite Hf in Hfail by exact Hlt. discriminate.
    + assert (k' = k).
      { destruct (Nat.lt_trichotomy k' k) as [H|[H|H]]; [|exact H|].
        - rewrite (Hrun k' H) in Hfk. discriminate.
        - rewrite (Hf k H) in Hfail. discriminate. }
      subst k'. simpl. auto.
  - intros ->.
    destruct Hr as [[-> ->]|(-> & Hlt' & Hfk)].
    + simpl. rewrite Hc, firstn_all. auto.
    + rewrite (Hrun k' Hlt') in Hfk. discriminate.
Qed.

(** Witness of X20: the store fails the third UPDATE for the six guests
    of one flight; the guests 1 and 2 are in the car 1, the others have
    no car. *)
Lemma assign_cars_stops_at_failure_witness :
  fst (FlatGuests.assign_cars (Sample.fails_at 3) (fun t => t)
         (start Sample.six 1)) = Ok FlatGuests.Error500 /\
  map FlatGuests.car_assigned
      (committed (db (snd (FlatGuests.assign_cars (Sample.fails_at 3)
                             (fun t => t) (start Sample.six 1)))))
  = [Some 1; Some 1; None; None; None; None].
Proof.
  destruct (@assign_cars_stops_at_failure (Sample.fails_at 3) (fun t => t)
              Sample.six 1
              [ {| FlatGuests.car_number := 1;
                   FlatGuests.car_guests := firstn 5 Sample.six |};
                {| FlatGuests.car_number := 2;
                   FlatGuests.car_guests := skipn 5 Sample.six |} ]
              2%nat eq_refl eq_refl) as [H _].
  - intros [|[|j]] Hj; try reflexivity. lia.
  - destruct H as [Hr Hc]; [simpl; lia|reflexivity|].
    split; [exact Hr|].
    etransitivity; [exact (f_equal (map FlatGuests.car_assigned) Hc)|].
    reflexivity.
Defined.

(* ===================================================================== *)
(** ** src/server.js, second document: the endpoints                      *)
(* ===================================================================== *)

Lemma endpoint_status_cases flightData :
  In (SingleTable.endpoint_status flightData) status_vocabulary /\
  (SingleTable.endpoint_status flightData <> OnTime ->
   exists v, flight_status flightData = Some v /\
             In (StatusMap.toLowerCase v)
                (vendor_words (SingleTable.endpoint_status flightData))) /\
  (forall v s, flight_status flightData = Some v ->
               In (StatusMap.toLowerCase v) (vendor_words s) ->
               SingleTable.endpoint_status flightData = s).
Proof.
  unfold SingleTable.endpoint_status, truthy.
  destruct (flight_status flightData) as [v|]; simpl.
  - destruct (String.eqb v "") eqn:Ev; simpl.
    + apply String.eqb_eq in Ev as ->. split; [auto|]. split; [congruence|].
      intros v s Hv. injection Hv as <-. unfold vendor_words.
      destruct (String.eqb s Landed); [simpl; intuition discriminate|].
      destruct (String.eqb s Cancelled); [simpl; intuition discriminate|].
      destruct (String.eqb s Delayed); simpl; intuition discriminate.
    + destruct (String.eqb (StatusMap.toLowerCase v) "landed") eqn:E1.
      { apply String.eqb_eq in E1. split; [simpl; auto|].
        split; [intros _; exists v; split; [reflexivity|]; rewrite E1;
                simpl; auto|].
        intros v0 s Hv. injection Hv as <-. rewrite E1. unfold vendor_words.
        destruct (String.eqb s Landed) eqn:Es;
          [apply String.eqb_eq in Es; auto|].
        destruct (String.eqb s Cancelled); [simpl; intuition discriminate|].
        destruct (String.eqb s Delayed); simpl; intuition discriminate. }
      destruct (String.eqb (StatusMap.toLowerCase v) "cancelled") eqn:E2.
      { apply String.eqb_eq in E2. split; [simpl; auto|].
        split; [intros _; exists v; split; [reflexivity|]; rewrite E2;
                simpl; auto|].
        intros v0 s Hv. injection Hv as <-. rewrite E2. unfold vendor_words.
        destruct (String.eqb s Landed); [simpl; intuition discriminate|].
        destruct (String.eqb s Cancelled) eqn:Es;
          [apply String.eqb_eq in Es; auto|].
        destruct (String.eqb s Delayed); simpl; intuition discriminate. }
      destruct (String.eqb (StatusMap.toLowerCase v) "canceled") eqn:E3.
      { apply String.eqb_eq in E3. split; [simpl; auto|].
        split; [intros _; exists v; split; [reflexivity|]; rewrite E3;
                simpl; auto|].
        intros v0 s Hv. injection Hv as <-. rewrite E3. unfold vendor_words.
        destruct (String.eqb s Landed); [simpl; intuition discriminate|].
        destruct (String.eqb s Cancelled) eqn:Es;
          [apply String.eqb_eq in Es; auto|].
        destruct (String.eqb s Delayed); simpl; intuition discriminate. }
      destruct (String.eqb (StatusMap.toLowerCase v) "delayed") eqn:E4.
      { apply String.eqb_eq in E4. split; [simpl; auto|].
        split; [intros _; exists v; split; [reflexivity|]; rewrite E4;
                simpl; auto|].
        intros v0 s Hv. injection Hv as <-. rewrite E4. unfold vendor_words.
        destruct (String.eqb s Landed); [simpl; intuition discriminate|].
        destruct (String.eqb s Cancelled); [simpl; intuition discriminate|].
        destruct (String.eqb s Delayed) eqn:Es;
          [apply String.eqb_eq in Es; auto|]. simpl. tauto. }
      simpl. split; [auto|]. split; [congruence|].
      intros v0 s Hv. injection Hv as <-. unfold vendor_words.
      apply String.eqb_neq in E1, E2, E3, E4.
      destruct (String.eqb s Landed); [simpl; intuition congruence|].
      destruct (String.eqb s Cancelled); [simpl; intuition congruence|].
      destruct (String.eqb s Delayed); simpl; intuition congruence.
  - split; [auto|]. split; [congruence|]. discriminate.
Qed.

(** X21.  GET /api/flight-status of src/server.js (second document)
    never touches the store and never fails.  It replies 400 exactly
    when the flight or the airline parameter is missing or empty, and
    then asks the provider nothing.  Otherwise it replies a status that
    is one of On Time, Delayed, Cancelled and Landed, after exactly one
    provider request when the credential is set and none when it is not;
    a status other than On Time is replied only when the first flight of
    the answer has, in whatever letter case, the vendor status landed,
    cancelled or canceled, or delayed, and with the credential set such
    a first flight always gives that status. *)
Theorem flight_status_endpoint env p flight airline
        (w : world SingleTable.tables) :
  db (snd (SingleTable.flight_status_handler env p flight airline w)) = db w
  /\
  (fst (SingleTable.flight_status_handler env p flight airline w)
   = Ok SingleTable.BadRequest400 <->
   truthy flight && truthy airline = false)
  /\
  (truthy flight && truthy airline = false ->
   calls (snd (SingleTable.flight_status_handler env p flight airline w))
   = calls w)
  /\
  (truthy flight && truthy airline = true ->
   calls (snd (SingleTable.flight_status_handler env p flight airline w))
   = calls w ++ (if truthy env
                 then [endpoint_request env flight airline] else [])
   /\
   exists s,
     fst (SingleTable.flight_status_handler env p flight airline w)
     = Ok (SingleTable.StatusJson s) /\
     In s status_vocabulary /\
     (s <> OnTime ->
      truthy env = true /\
      exists flightData v,
        first_flight (p (List.length (calls w))
                        (endpoint_request env flight airline))
        = Some flightData /\
        flight_status flightData = Some v /\
        In (StatusMap.toLowerCase v) (vendor_words s)) /\
     (forall flightData v s',
        truthy env = true ->
        first_flight (p (List.length (calls w))
                        (endpoint_request env flight airline))
        = Some flightData ->
        flight_status flightData = Some v ->
        In (StatusMap.toLowerCase v) (vendor_words s') ->
        s = s')).
Proof.
  unfold SingleTable.flight_status_handler.
  fold (endpoint_request env flight airline).
  destruct (truthy flight) eqn:Hf; simpl;
    [destruct (truthy airline) eqn:Ha; simpl|].
  - unfold try_catch.
    destruct (truthy env) eqn:He; simpl.
    + rewrite bind_unfold. unfold axios_get.
      destruct (p (List.length (calls w))
                  (endpoint_request env flight airline))
        as [|[body|]] eqn:Ep; simpl.
      * conjs; try reflexivity; try (split; discriminate); try discriminate.
        intros _. split; [reflexivity|]. exists OnTime.
        conjs; [reflexivity|simpl; auto|congruence|discriminate].
      * destruct (body_data body) as [[|[flightData|] rest]|]; simpl.
        -- conjs; try reflexivity; try (split; discriminate);
             try discriminate.
           intros _. split; [reflexivity|]. exists OnTime.
           conjs; [reflexivity|simpl; auto|congruence|discriminate].
        -- destruct (endpoint_status_cases flightData) as (Hin & Hne & Hw).
           conjs; try reflexivity; try (split; discriminate);
             try discriminate.
           intros _. split; [reflexivity|].
           exists (SingleTable.endpoint_status flightData).
           conjs; [reflexivity|exact Hin| |].
           ++ intros Hs. split; [reflexivity|].
              destruct (Hne Hs) as (v & Hv & Hl).
              exists flightData, v. auto.
           ++ intros fd v s' _ Hfd Hv Hl. injection Hfd as <-.
              eapply Hw; eauto.
        -- conjs; try reflexivity; try (split; discriminate);
             try discriminate.
           intros _. split; [reflexivity|]. exists OnTime.
           conjs; [reflexivity|simpl; auto|congruence|discriminate].
        -- conjs; try reflexivity; try (split; discriminate);
             try discriminate.
           intros _. split; [reflexivity|]. exists OnTime.
           conjs; [reflexivity|simpl; auto|congruence|discriminate].
      * conjs; try reflexivity; try (split; discriminate); try discriminate.
        intros _. split; [reflexivity|]. exists OnTime.
        conjs; [reflexivity|simpl; auto|congruence|discriminate].
    + unfold ret. simpl.
      conjs; try reflexivity; try (split; discriminate); try discriminate.
      intros _. split; [rewrite app_nil_r; reflexivity|]. exists OnTime.
      conjs; [reflexivity|simpl; auto|congruence|discriminate].
  - unfold ret. simpl.
    conjs; try reflexivity; try (split; reflexivity); try discriminate.
  - unfold ret. simpl.
    conjs; try reflexivity; try (split; reflexivity); try discriminate.
Qed.

(** A statement that violates a constraint, on a connection without
    transaction. *)
Lemma query_violates T R fault draws (stmt : Z -> T -> option (R * T))
      (w : world T) :
  fault (issued (db w)) = false ->
  txn (db w) = None ->
  stmt (seq (db w)) (committed (db w)) = None ->
  query fault draws stmt w
  = (Throw, {| db := failed (db w)
                            (if draws then seq (db w) + 1 else seq (db w));
               calls := calls w |}).
Proof.
  unfold query, on_db, run_stmt, current. intros -> -> ->. reflexivity.
Qed.

(** GET /api/guests/:id when the store runs the statement. *)
Lemma get_guest_served gid (w : world SingleTable.tables) :
  txn (db w) = None ->
  fst (SingleTable.get_guest no_fault gid w)
  = Ok (served gid (committed (db w))).
Proof.
  intros Ht. unfold SingleTable.get_guest, try_catch. rewrite bind_unfold.
  rewrite (query_runs no_fault false (SingleTable.select_guest gid) w
             eq_refl Ht eq_refl).
  unfold served.
  destruct (filter _ (committed (db w))); reflexivity.
Qed.

Lemma filter_id_fresh n (t : SingleTable.tables) :
  Forall (fun g => SingleTable.id g < n) t ->
  existsb (fun g => SingleTable.id g =? n) t = false.
Proof.
  induction 1 as [|g t Hg _ IH]; simpl; [reflexivity|].
  rewrite IH. replace (SingleTable.id g =? n) with false by lia. reflexivity.
Qed.

Lemma served_app_new (t : SingleTable.tables) g :
  existsb (fun x => SingleTable.id x =? SingleTable.id g) t = false ->
  served (SingleTable.id g) (t ++ [g]) = SingleTable.Json200 g.
Proof.
  intros H. unfold served. rewrite filter_app, (filter_nothing _ _ H).
  simpl. rewrite Z.eqb_refl. reflexivity.
Qed.

Lemma served_app_other (t : SingleTable.tables) g gid :
  gid <> SingleTable.id g ->
  served gid (t ++ [g]) = served gid t.
Proof.
  intros H. unfold served. rewrite filter_app. simpl.
  replace (SingleTable.id g =? gid) with false by lia.
  rewrite app_nil_r. reflexivity.
Qed.

(** X22.  POST /api/guests of src/server.js (second document), then a
    read.  When the guest ids are unique and lie below the value of the
    sequence, whatever the store fails: a 201 reply shows a guest that
    has the value of the sequence as id, the five required columns and
    the airline name of the body, the status of the body or On Time
    when the body has none or an empty one, and the car number of the
    body or null when the body has none or 0; the table is then the old
    one with that guest at its end, GET /api/guests/:id replies this
    same guest for its id and what it replied before for every other
    id, and GET /api/guests lists it; the 500 reply leaves the table as
    it was; and a body that lacks the name, the flight, the airline, the
    origin or the eta gets the 500 reply. *)
Theorem created_guest_is_served fault b by_eta (t : SingleTable.tables) n :
  single_keys n t ->
  (forall guest,
     fst (SingleTable.post_guest fault b (start t n))
     = Ok (SingleTable.Created201 guest) ->
     SingleTable.id guest = n /\
     from_body b guest /\
     SingleTable.status guest
     = Some (or_else (SingleTable.body_status b) OnTime) /\
     SingleTable.car_assigned guest
     = SingleTable.or_null (SingleTable.body_carAssigned b) /\
     committed (db (snd (SingleTable.post_guest fault b (start t n))))
     = t ++ [guest] /\
     single_keys
       (seq (db (snd (SingleTable.post_guest fault b (start t n)))))
       (t ++ [guest]) /\
     fst (SingleTable.get_guest no_fault n
            (snd (SingleTable.post_guest fault b (start t n))))
     = Ok (SingleTable.Json200 guest) /\
     (forall gid,
        gid <> n ->
        fst (SingleTable.get_guest no_fault gid
               (snd (SingleTable.post_guest fault b (start t n))))
        = fst (SingleTable.get_guest no_fault gid (start t n))) /\
     (incl (t ++ [guest]) (by_eta (t ++ [guest])) ->
      exists rows,
        fst (SingleTable.get_guests no_fault by_eta
               (snd (SingleTable.post_guest fault b (start t n))))
        = Ok (SingleTable.Guests200 rows) /\
        In guest rows))
  /\
  (fst (SingleTable.post_guest fault b (start t n))
   = Ok SingleTable.PostError500 ->
   committed (db (snd (SingleTable.post_guest fault b (start t n)))) = t)
  /\
  (complete_guest b = false ->
   fst (SingleTable.post_guest fault b (start t n))
   = Ok SingleTable.PostError500).
Proof.
  intros [Hnd Hlt].
  pose proof (filter_id_fresh Hlt) as Hfresh.
  unfold SingleTable.post_guest, try_catch. rewrite bind_unfold.
  destruct (fault 0%nat) eqn:F0.
  { rewrite query_fails by exact F0. simpl.
    conjs; try discriminate; auto. }
  destruct (SingleTable.insert_guest b n t) as [[row t']|] eqn:Es.
  - rewrite (query_runs fault true (SingleTable.insert_guest b)
               (start t n) F0 eq_refl Es).
    unfold ret. cbv iota beta.
    unfold SingleTable.insert_guest in Es. unfold complete_guest.
    destruct (SingleTable.body_name b) as [nm|] eqn:E1; [|discriminate].
    destruct (SingleTable.body_flight b) as [f|] eqn:E2; [|discriminate].
    destruct (SingleTable.body_airline b) as [a|] eqn:E3; [|discriminate].
    destruct (SingleTable.body_origin b) as [o|] eqn:E4; [|discriminate].
    destruct (SingleTable.body_eta b) as [e|] eqn:E5; [|discriminate].
    rewrite Hfresh in Es. injection Es as <- <-.
    split; [|split; [discriminate|]].
    + intros guest Hg. injection Hg as <-.
      split; [reflexivity|].
      split; [unfold from_body; simpl; rewrite E1, E2, E3, E4, E5;
              conjs; reflexivity|].
      split; [reflexivity|]. split; [reflexivity|]. split; [reflexivity|].
      split.
      { simpl. split.
        - rewrite map_app. simpl. apply NoDup_app; auto.
          + repeat constructor. simpl. tauto.
          + intros x Hx [<-|[]]. apply in_map_iff in Hx as (g & Eg & Hin).
            eapply Forall_forall in Hlt; eauto. lia.
        - apply Forall_app. split.
          + eapply Forall_impl; [|exact Hlt]. simpl. intros g H. lia.
          + repeat constructor. simpl. lia. }
      split.
      { rewrite get_guest_served by reflexivity. simpl committed.
        f_equal.
        match goal with
        | |- served _ (t ++ [?g]) = _ => exact (@served_app_new t g Hfresh)
        end. }
      split.
      { intros gid Hgid.
        rewrite !get_guest_served by reflexivity. simpl committed.
        f_equal. apply served_app_other. simpl. exact Hgid. }
      intros Hincl. unfold SingleTable.get_guests, try_catch.
      rewrite bind_unfold.
      match goal with
      | |- context [query no_fault false ?s ?w] =>
          rewrite (query_runs no_fault false s w eq_refl eq_refl eq_refl)
      end.
      eexists. split; [reflexivity|]. simpl committed.
      apply Hincl. apply in_or_app. right. left. reflexivity.
    + discriminate.
  - rewrite (query_violates fault true (SingleTable.insert_guest b)
               (start t n) F0 eq_refl Es).
    simpl. conjs; try discriminate; auto.
Qed.

(** Witness of X22: two guests with the ids 1 and 2 and the sequence at
    3; the body has no status and the car number 0, and the guest is
    served with the status On Time and no car. *)
Lemma created_guest_is_served_witness :
  single_keys 3 [Sample.single 1; Sample.single 2] /\
  fst (SingleTable.get_guest no_fault 3
         (snd (SingleTable.post_guest no_fault Sample.new_single_guest
                 (start [Sample.single 1; Sample.single 2] 3))))
  = Ok (SingleTable.Json200
          {| SingleTable.id := 3; SingleTable.name := "Bob";
             SingleTable.flight := "200"; SingleTable.airline := "XY";
             SingleTable.airline_name := None; SingleTable.origin := "JFK";
             SingleTable.eta := Sample.next_noon;
             SingleTable.status := Some OnTime;
             SingleTable.car_assigned := None |}).
Proof.
  assert (H : single_keys 3 [Sample.single 1; Sample.single 2]).
  { split; simpl; repeat constructor; simpl; intuition (discriminate || lia). }
  split; [exact H|].
  destruct (@created_guest_is_served no_fault Sample.new_single_guest
              (fun t => t) [Sample.single 1; Sample.single 2] 3 H)
    as (Hc & _).
  destruct (Hc _ eq_refl) as (_ & _ & _ & _ & _ & _ & Hget & _).
  exact Hget.
Defined.

(** Rows with an integer key: the rows of one key after the rows of a
    key were replaced or deleted. *)
Section KeyedRows.

Variable A : Type.
Variable key : A -> Z.

Lemma replaced_rows_same (t : list A) row i :
  key row = i ->
  filter (fun x => key x =? i)
         (map (fun x => if key x =? i then row else x) t)
  = map (fun _ => row) (filter (fun x => key x =? i) t).
Proof.
  intros Hrow. induction t as [|g t IH]; simpl; [reflexivity|].
  destruct (key g =? i) eqn:E; simpl.
  - rewrite Hrow, Z.eqb_refl, IH. reflexivity.
  - rewrite E. exact IH.
Qed.

Lemma replaced_rows_other (t : list A) row i j :
  key row = i -> j <> i ->
  filter (fun x => key x =? j)
         (map (fun x => if key x =? i then row else x) t)
  = filter (fun x => key x =? j) t.
Proof.
  intros Hrow Hne. induction t as [|g t IH]; simpl; [reflexivity|].
  destruct (key g =? i) eqn:E; simpl.
  - rewrite Hrow. replace (i =? j) with false by lia.
    replace (key g =? j) with false by lia. exact IH.
  - destruct (key g =? j); rewrite IH; reflexivity.
Qed.

Lemma deleted_rows_same (t : list A) i :
  filter (fun x => key x =? i) (filter (fun x => negb (key x =? i)) t) = [].
Proof.
  induction t as [|g t IH]; simpl; [reflexivity|].
  destruct (key g =? i) eqn:E; simpl; [exact IH|].
  rewrite E. exact IH.
Qed.

Lemma deleted_rows_other (t : list A) i j :
  j <> i ->
  filter (fun x => key x =? j) (filter (fun x => negb (key x =? i)) t)
  = filter (fun x => key x =? j) t.
Proof.
  intros Hne. induction t as [|g t IH]; simpl; [reflexivity|].
  destruct (key g =? i) eqn:E; simpl.
  - replace (key g =? j) with false by lia. exact IH.
  - destruct (key g =? j); rewrite IH; reflexivity.
Qed.



Lemma replaced_keys (t : list A) row i :
  key row = i ->
  map key (map (fun x => if key x =? i then row else x) t) = map key t.
Proof.
  intros Hrow. rewrite map_map. apply map_ext. intros x.
  destruct (key x =? i) eqn:E; [lia|reflexivity].
Qed.


Lemma replaced_absent (t : list A) row i :
  existsb (fun x => key x =? i) t = false ->
  map (fun x => if key x =? i then row else x) t = t.
Proof.
  induction t as [|g t IH]; simpl; [reflexivity|].
  intros H. apply orb_false_iff in H as [Hg Ht].
  rewrite Hg, IH by exact Ht. reflexivity.
Qed.

End KeyedRows.

Lemma filter_some A (f : A -> bool) (l : list A) :
  existsb f l = true -> filter f l <> [].
Proof.
  induction l as [|x l IH]; simpl; [discriminate|].
  destruct (f x); [discriminate|]. exact IH.
Qed.

Lemma served_map_same (t : SingleTable.tables) row gid :
  SingleTable.id row = gid ->
  existsb (fun g => SingleTable.id g =? gid) t = true ->
  served gid (map (fun g => if SingleTable.id g =? gid then row else g) t)
  = SingleTable.Json200 row.
Proof.
  intros Hrow Hex. unfold served.
  rewrite (@replaced_rows_same _ SingleTable.id t row gid Hrow).
  apply filter_some in Hex.
  destruct (filter _ t); [congruence|reflexivity].
Qed.

Lemma served_map_other (t : SingleTable.tables) row gid gid' :
  SingleTable.id row = gid -> gid' <> gid ->
  served gid' (map (fun g => if SingleTable.id g =? gid then row else g) t)
  = served gid' t.
Proof.
  intros Hrow Hne. unfold served.
  rewrite (@replaced_rows_other _ SingleTable.id t row gid gid' Hrow Hne).
  reflexivity.
Qed.

Lemma served_deleted (t : SingleTable.tables) gid :
  served gid (filter (fun g => negb (SingleTable.id g =? gid)) t)
  = SingleTable.NotFound404.
Proof.
  unfold served. rewrite (@deleted_rows_same _ SingleTable.id t gid).
  reflexivity.
Qed.

Lemma served_delete_other (t : SingleTable.tables) gid gid' :
  gid' <> gid ->
  served gid' (filter (fun g => negb (SingleTable.id g =? gid)) t)
  = served gid' t.
Proof.
  intros Hne. unfold served.
  rewrite (@deleted_rows_other _ SingleTable.id t gid gid' Hne). reflexivity.
Qed.

(** X23.  PUT and DELETE /api/guests/:id of src/server.js (second
    document), then a read; whatever the store fails on the write.  A
    200 reply of PUT shows a guest with the id of the request, the five
    required columns and the airline name of the body, and the status
    and the car number of the body as they are (null when the body has
    none: no default here); GET /api/guests/:id then replies this same
    guest for the id and what it replied before for every other id.
    After a 200 reply of DELETE the guest existed, GET /api/guests/:id
    replies 404 for the id and what it replied before for every other
    id.  A 404 or 500 reply of either leaves the table as it was. *)
Theorem guest_write_then_read fault gid b (t : SingleTable.tables) n :
  (forall guest,
     fst (SingleTable.put_guest fault gid b (start t n))
     = Ok (SingleTable.Json200 guest) ->
     SingleTable.id guest = gid /\
     from_body b guest /\
     SingleTable.status guest = SingleTable.body_status b /\
     SingleTable.car_assigned guest = SingleTable.body_carAssigned b /\
     fst (SingleTable.get_guest no_fault gid
            (snd (SingleTable.put_guest fault gid b (start t n))))
     = Ok (SingleTable.Json200 guest) /\
     (forall gid',
        gid' <> gid ->
        fst (SingleTable.get_guest no_fault gid'
               (snd (SingleTable.put_guest fault gid b (start t n))))
        = fst (SingleTable.get_guest no_fault gid' (start t n))))
  /\
  (fst (SingleTable.delete_guest_handler fault gid (start t n))
   = Ok SingleTable.Deleted200 ->
   existsb (fun g => SingleTable.id g =? gid) t = true /\
   fst (SingleTable.get_guest no_fault gid
          (snd (SingleTable.delete_guest_handler fault gid (start t n))))
   = Ok SingleTable.NotFound404 /\
   (forall gid',
      gid' <> gid ->
      fst (SingleTable.get_guest no_fault gid'
             (snd (SingleTable.delete_guest_handler fault gid (start t n))))
      = fst (SingleTable.get_guest no_fault gid' (start t n))))
  /\
  (forall r,
     r = SingleTable.NotFound404 \/ r = SingleTable.Error500 ->
     (fst (SingleTable.put_guest fault gid b (start t n)) = Ok r ->
      committed (db (snd (SingleTable.put_guest fault gid b (start t n))))
      = t) /\
     (fst (SingleTable.delete_guest_handler fault gid (start t n)) = Ok r ->
      committed (db (snd (SingleTable.delete_guest_handler fault gid
                            (start t n)))) = t)).
Proof.
  split; [|split].
  - unfold SingleTable.put_guest, try_catch. rewrite bind_unfold.
    destruct (fault 0%nat) eqn:F0.
    { rewrite query_fails by exact F0. simpl. discriminate. }
    destruct (SingleTable.update_guest b gid n t) as [[rows t']|] eqn:Es.
    + rewrite (query_runs fault false (SingleTable.update_guest b gid)
                 (start t n) F0 eq_refl Es).
      cbv iota beta. unfold SingleTable.update_guest in Es.
      destruct (existsb _ t) eqn:Ex.
      * destruct (SingleTable.body_name b) as [nm|] eqn:E1; [|discriminate].
        destruct (SingleTable.body_flight b) as [f|] eqn:E2; [|discriminate].
        destruct (SingleTable.body_airline b) as [a|] eqn:E3; [|discriminate].
        destruct (SingleTable.body_origin b) as [o|] eqn:E4; [|discriminate].
        destruct (SingleTable.body_eta b) as [e|] eqn:E5; [|discriminate].
        injection Es as <- <-.
        pose proof (filter_some _ _ Ex) as Hne.
        destruct (filter _ t) as [|g0 rest]; [congruence|].
        simpl map. unfold ret. cbv iota beta.
        intros guest Hg. injection Hg as <-.
        split; [reflexivity|].
        split; [unfold from_body; simpl; rewrite E1, E2, E3, E4, E5;
                conjs; reflexivity|].
        split; [reflexivity|]. split; [reflexivity|].
        split.
        -- rewrite get_guest_served by reflexivity. simpl committed.
           f_equal. apply served_map_same; [reflexivity|exact Ex].
        -- intros gid' Hgid'.
           rewrite !get_guest_served by reflexivity. simpl committed.
           f_equal. apply served_map_other; [reflexivity|exact Hgid'].
      * injection Es as <- <-. unfold ret. simpl. discriminate.
    + rewrite (query_violates fault false (SingleTable.update_guest b gid)
                 (start t n) F0 eq_refl Es).
      simpl. discriminate.
  - unfold SingleTable.delete_guest_handler, try_catch. rewrite bind_unfold.
    destruct (fault 0%nat) eqn:F0.
    { rewrite query_fails by exact F0. simpl. discriminate. }
    rewrite (query_runs fault false (SingleTable.delete_guest gid)
               (start t n) F0 eq_refl eq_refl).
    cbv iota beta. change (committed (db (start t n))) with t.
    destruct (filter (fun g => SingleTable.id g =? gid) t) as [|g0 rest]
      eqn:Ef; unfold ret; cbv iota beta; [discriminate|].
    intros _. split.
    + destruct (existsb (fun g => SingleTable.id g =? gid) t) eqn:Ex;
        [reflexivity|].
      rewrite (filter_nothing _ _ Ex) in Ef. discriminate.
    + split.
      * rewrite get_guest_served by reflexivity. simpl committed.
        f_equal. apply served_deleted.
      * intros gid' Hgid'.
        rewrite !get_guest_served by reflexivity. simpl committed.
        f_equal. apply served_delete_other. exact Hgid'.
  - intros r Hr. split.
    + unfold SingleTable.put_guest, try_catch. rewrite bind_unfold.
      destruct (fault 0%nat) eqn:F0.
      { rewrite query_fails by exact F0. simpl. reflexivity. }
      destruct (SingleTable.update_guest b gid n t) as [[rows t']|] eqn:Es.
      * rewrite (query_runs fault false (SingleTable.update_guest b gid)
                   (start t n) F0 eq_refl Es).
        cbv iota beta. unfold SingleTable.update_guest in Es.
        destruct (existsb _ t) eqn:Ex.
        -- destruct (SingleTable.body_name b); [|discriminate].
           destruct (SingleTable.body_flight b); [|discriminate].
           destruct (SingleTable.body_airline b); [|discriminate].
           destruct (SingleTable.body_origin b); [|discriminate].
           destruct (SingleTable.body_eta b); [|discriminate].
           injection Es as <- <-.
           pose proof (filter_some _ _ Ex) as Hne.
           destruct (filter _ t) as [|g0 rest]; [congruence|].
           simpl map. unfold ret. cbv iota beta. simpl fst.
           intros E. destruct Hr as [-> | ->]; discriminate.
        -- injection Es as <- <-. unfold ret. simpl. reflexivity.
      * rewrite (query_violates fault false (SingleTable.update_guest b gid)
                   (start t n) F0 eq_refl Es).
        simpl. reflexivity.
    + unfold SingleTable.delete_guest_handler, try_catch. rewrite bind_unfold.
      destruct (fault 0%nat) eqn:F0.
      { rewrite query_fails by exact F0. simpl. reflexivity. }
      rewrite (query_runs fault false (SingleTable.delete_guest gid)
                 (start t n) F0 eq_refl eq_refl).
      cbv iota beta. change (committed (db (start t n))) with t.
      destruct (filter (fun g => SingleTable.id g =? gid) t) as [|g0 rest]
        eqn:Ef; unfold ret; cbv iota beta; simpl fst; simpl committed.
      * intros _. apply filter_none.
        destruct (existsb (fun g => SingleTable.id g =? gid) t) eqn:Ex;
          [|reflexivity].
        apply filter_some in Ex. congruence.
      * intros E. destruct Hr as [-> | ->]; discriminate.
Qed.

(** GET /api/cars/:id when the store runs the statement. *)
Lemma get_car_served cid (w : world SingleTable.garage) :
  txn (db w) = None ->
  fst (SingleTable.get_car no_fault cid w)
  = Ok (served_car cid (committed (db w))).
Proof.
  intros Ht. unfold SingleTable.get_car, try_catch. rewrite bind_unfold.
  rewrite (query_runs no_fault false (SingleTable.select_car cid) w
             eq_refl Ht eq_refl).
  unfold served_car.
  destruct (filter _ (committed (db w))); reflexivity.
Qed.

Lemma or_else_again o d : or_else (Some (or_else o d)) d = or_else o d.
Proof.
  unfold or_else. destruct o as [s|].
  - destruct (String.eqb s "") eqn:E.
    + destruct (String.eqb d ""); reflexivity.
    + rewrite E. reflexivity.
  - destruct (String.eqb d ""); reflexivity.
Qed.

(** The table after the upsert of the car [i] from the body [b]. *)
Lemma upsert_car_runs b i n (t : SingleTable.garage) :
  SingleTable.body_id b = Some i ->
  exists rest,
    SingleTable.upsert_car b n t
    = Some (SingleTable.written i b :: rest, upserted i b t).
Proof.
  intros Hb. unfold SingleTable.upsert_car, upserted. rewrite Hb.
  destruct (SingleTable.has_car i t) eqn:Hc; [|eexists; reflexivity].
  apply filter_some in Hc.
  destruct (filter _ t) as [|c rest]; [congruence|].
  eexists. reflexivity.
Qed.





Lemma upserted_ids b i (t : SingleTable.garage) :
  map SingleTable.car_id (upserted i b t)
  = if SingleTable.has_car i t
    then map SingleTable.car_id t
    else map SingleTable.car_id t ++ [i].
Proof.
  unfold upserted. destruct (SingleTable.has_car i t).
  - apply replaced_keys. reflexivity.
  - rewrite map_app. reflexivity.
Qed.



(** The one-statement car handlers on a fresh connection. *)
Lemma put_car_cases fault cid b (t : SingleTable.garage) n :
  SingleTable.put_car fault cid b (start t n)
  = if fault 0%nat
    then (Ok SingleTable.CarError500,
          {| db := failed (open t n) n; calls := [] |})
    else if SingleTable.has_car cid t
    then (Ok (SingleTable.Car200
                (SingleTable.car_json_of (SingleTable.written cid b))),
          {| db := after (open t n)
                         (map (fun c => if SingleTable.car_id c =? cid
                                        then SingleTable.written cid b
                                        else c) t)
                         None n;
             calls := [] |})
    else (Ok SingleTable.CarNotFound404,
          {| db := after (open t n) t None n; calls := [] |}).
Proof.
  unfold SingleTable.put_car, try_catch. rewrite bind_unfold.
  destruct (fault 0%nat) eqn:F0.
  { rewrite query_fails by exact F0. reflexivity. }
  rewrite (query_runs fault false (SingleTable.update_car b cid)
             (start t n) F0 eq_refl eq_refl).
  cbv iota beta. change (committed (db (start t n))) with t.
  destruct (SingleTable.has_car cid t) eqn:Hc.
  - apply filter_some in Hc. destruct (filter _ t); [congruence|].
    reflexivity.
  - unfold SingleTable.has_car in Hc.
    rewrite (filter_nothing _ _ Hc).
    rewrite (@replaced_absent _ SingleTable.car_id t
               (SingleTable.written cid b) cid Hc).
    reflexivity.
Qed.

Lemma delete_car_cases fault cid (t : SingleTable.garage) n :
  SingleTable.delete_car_handler fault cid (start t n)
  = if fault 0%nat
    then (Ok SingleTable.CarError500,
          {| db := failed (open t n) n; calls := [] |})
    else if SingleTable.has_car cid t
    then (Ok SingleTable.CarDeleted200,
          {| db := after (open t n)
                         (filter (fun c => negb (SingleTable.car_id c =? cid))
                                 t)
                         None n;
             calls := [] |})
    else (Ok SingleTable.CarNotFound404,
          {| db := after (open t n) t None n; calls := [] |}).
Proof.
  unfold SingleTable.delete_car_handler, try_catch. rewrite bind_unfold.
  destruct (fault 0%nat) eqn:F0.
  { rewrite query_fails by exact F0. reflexivity. }
  rewrite (query_runs fault false (SingleTable.delete_car cid)
             (start t n) F0 eq_refl eq_refl).
  cbv iota beta. change (committed (db (start t n))) with t.
  destruct (SingleTable.has_car cid t) eqn:Hc.
  - apply filter_some in Hc. destruct (filter _ t); [congruence|].
    reflexivity.
  - unfold SingleTable.has_car in Hc.
    rewrite (filter_nothing _ _ Hc), (filter_none _ _ Hc). reflexivity.
Qed.

Lemma delete_cars_cases fault (t : SingleTable.garage) n :
  SingleTable.delete_cars fault (start t n)
  = if fault 0%nat
    then (Ok SingleTable.CarError500,
          {| db := failed (open t n) n; calls := [] |})
    else (Ok SingleTable.AllCarsDeleted200,
          {| db := after (open t n) [] None n; calls := [] |}).
Proof.
  unfold SingleTable.delete_cars, try_catch. rewrite bind_unfold.
  destruct (fault 0%nat) eqn:F0.
  { rewrite query_fails by exact F0. reflexivity. }
  rewrite (query_runs fault false SingleTable.delete_all_cars
             (start t n) F0 eq_refl eq_refl).
  reflexivity.
Qed.

(** X25.  PUT /api/cars/:id, DELETE /api/cars/:id and DELETE /api/cars
    of src/server.js (second document), then a read; whatever the store
    fails on the write.  A 200 reply of PUT means that the car existed
    and shows it with the passengers, driver name, driver phone and
    notes of the body (empty where the body has none); GET /api/cars/:id
    then replies this same car for the id and what it replied before for
    every other id.  After a 200 reply of DELETE /api/cars/:id the car
    existed, GET replies 404 for the id and what it replied before for
    every other id; after a 200 reply of DELETE /api/cars it replies 404
    for every id.  A store that runs the statement replies 404 to PUT
    and to DELETE by id exactly when no car has the id, and 200 to
    DELETE /api/cars always; and a 404 or 500 reply leaves the table as
    it was. *)
Theorem car_write_then_read fault cid b (t : SingleTable.garage) n :
  (forall car,
     fst (SingleTable.put_car fault cid b (start t n))
     = Ok (SingleTable.Car200 car) ->
     SingleTable.has_car cid t = true /\
     SingleTable.json_id car = cid /\
     SingleTable.json_passengers car
     = SingleTable.or_empty (SingleTable.body_passengers b) /\
     SingleTable.driverName car
     = or_else (SingleTable.body_driverName b) "" /\
     SingleTable.driverPhone car
     = or_else (SingleTable.body_driverPhone b) "" /\
     SingleTable.json_notes car = or_else (SingleTable.body_notes b) "" /\
     fst (SingleTable.get_car no_fault cid
            (snd (SingleTable.put_car fault cid b (start t n))))
     = Ok (SingleTable.Car200 car) /\
     (forall j,
        j <> cid ->
        fst (SingleTable.get_car no_fault j
               (snd (SingleTable.put_car fault cid b (start t n))))
        = fst (SingleTable.get_car no_fault j (start t n))))
  /\
  (fst (SingleTable.delete_car_handler fault cid (start t n))
   = Ok SingleTable.CarDeleted200 ->
   SingleTable.has_car cid t = true /\
   fst (SingleTable.get_car no_fault cid
          (snd (SingleTable.delete_car_handler fault cid (start t n))))
   = Ok SingleTable.CarNotFound404 /\
   (forall j,
      j <> cid ->
      fst (SingleTable.get_car no_fault j
             (snd (SingleTable.delete_car_handler fault cid (start t n))))
      = fst (SingleTable.get_car no_fault j (start t n))))
  /\
  (fst (SingleTable.delete_cars fault (start t n))
   = Ok SingleTable.AllCarsDeleted200 ->
   forall j,
     fst (SingleTable.get_car no_fault j
            (snd (SingleTable.delete_cars fault (start t n))))
     = Ok SingleTable.CarNotFound404)
  /\
  (fault 0%nat = false ->
   (fst (SingleTable.put_car fault cid b (start t n))
    = Ok SingleTable.CarNotFound404 <-> SingleTable.has_car cid t = false) /\
   (fst (SingleTable.delete_car_handler fault cid (start t n))
    = Ok SingleTable.CarNotFound404 <-> SingleTable.has_car cid t = false) /\
   fst (SingleTable.delete_cars fault (start t n))
   = Ok SingleTable.AllCarsDeleted200)
  /\
  (forall r,
     r = SingleTable.CarNotFound404 \/ r = SingleTable.CarError500 ->
     (fst (SingleTable.put_car fault cid b (start t n)) = Ok r ->
      committed (db (snd (SingleTable.put_car fault cid b (start t n))))
      = t) /\
     (fst (SingleTable.delete_car_handler fault cid (start t n)) = Ok r ->
      committed (db (snd (SingleTable.delete_car_handler fault cid
                            (start t n)))) = t) /\
     (fst (SingleTable.delete_cars fault (start t n)) = Ok r ->
      committed (db (snd (SingleTable.delete_cars fault (start t n)))) = t)).
Proof.
  rewrite put_car_cases, delete_car_cases, delete_cars_cases.
  destruct (fault 0%nat) eqn:F0.
  { simpl. conjs; try discriminate; auto. }
  split; [|split; [|split; [|split]]].
  - destruct (SingleTable.has_car cid t) eqn:Hc; [|discriminate].
    intros car Hcar. injection Hcar as <-.
    split; [reflexivity|]. split; [reflexivity|]. split; [reflexivity|].
    split; [apply or_else_again|]. split; [apply or_else_again|].
    split; [apply or_else_again|].
    split.
    + rewrite get_car_served by reflexivity. simpl committed. f_equal.
      unfold served_car.
      rewrite (@replaced_rows_same _ SingleTable.car_id t
                 (SingleTable.written cid b) cid eq_refl).
      apply filter_some in Hc. destruct (filter _ t); [congruence|].
      reflexivity.
    + intros j Hj. rewrite !get_car_served by reflexivity. simpl committed.
      f_equal. unfold served_car.
      rewrite (@replaced_rows_other _ SingleTable.car_id t
                 (SingleTable.written cid b) cid j eq_refl Hj).
      reflexivity.
  - destruct (SingleTable.has_car cid t) eqn:Hc; [|discriminate].
    intros _. split; [reflexivity|]. split.
    + rewrite get_car_served by reflexivity. simpl committed. f_equal.
      unfold served_car.
      rewrite (@deleted_rows_same _ SingleTable.car_id t cid). reflexivity.
    + intros j Hj. rewrite !get_car_served by reflexivity. simpl committed.
      f_equal. unfold served_car.
      rewrite (@deleted_rows_other _ SingleTable.car_id t cid j Hj).
      reflexivity.
  - intros _ j. rewrite get_car_served by reflexivity. reflexivity.
  - intros _. destruct (SingleTable.has_car cid t); simpl;
      conjs; try reflexivity; split; (discriminate || reflexivity).
  - intros r Hr. destruct (SingleTable.has_car cid t); simpl; conjs;
      try reflexivity; intros E; destruct Hr as [-> | ->]; discriminate.
Qed.

(* ===================================================================== *)
(** ** src/server.js, second document: the ids stay unique                *)
(* ===================================================================== *)

Lemma single_keys_monotone : monotone single_keys.
Proof.
  intros s s' t Hle [Hn Hb]. split; [exact Hn|].
  eapply Forall_impl; [|exact Hb]. simpl. intros g H. lia.
Qed.

Lemma garage_keys_monotone : monotone garage_keys.
Proof. intros s s' t _ H. exact H. Qed.

(** A handler of one statement: [try { r = await query; k r } catch {
    reply err }]. *)
Lemma keeps_one_statement T fault (P : Z -> T -> Prop) R A draws
      (stmt : Z -> T -> option (R * T)) (k : R -> M (world T) A) (err : A) :
  monotone P ->
  stmt_keeps P draws stmt (fun _ => True) ->
  (forall r, keeps (holds_in P) (k r) (fun _ => True)) ->
  keeps (holds_in P) (try_catch (bind (query fault draws stmt) k) (ret err))
        (fun _ => True).
Proof.
  intros Hm Hs Hk. apply keeps_try_catch; [|apply keeps_ret; exact I].
  eapply keeps_bind with (Q := fun _ => True).
  - apply keeps_query; assumption.
  - intros r _. apply Hk.
Qed.

Lemma single_keys_insert b :
  stmt_keeps single_keys true (SingleTable.insert_guest b) (fun _ => True).
Proof.
  intros s t x t' [Hn Hb] E. unfold SingleTable.insert_guest in E.
  destruct (SingleTable.body_name b); [|discriminate].
  destruct (SingleTable.body_flight b); [|discriminate].
  destruct (SingleTable.body_airline b); [|discriminate].
  destruct (SingleTable.body_origin b); [|discriminate].
  destruct (SingleTable.body_eta b); [|discriminate].
  destruct (existsb _ t) eqn:Ex; [discriminate|].
  injection E as _ <-. split; [|exact I]. split.
  - rewrite map_app. simpl. apply NoDup_app; auto.
    + repeat constructor. simpl. tauto.
    + intros a Ha [<-|[]]. apply in_map_iff in Ha as (g & Eg & Hin).
      eapply Forall_forall in Hb; eauto. lia.
  - apply Forall_app. split.
    + eapply Forall_impl; [|exact Hb]. simpl. intros g H. lia.
    + repeat constructor. simpl. lia.
Qed.

Lemma single_keys_update b gid :
  stmt_keeps single_keys false (SingleTable.update_guest b gid)
             (fun _ => True).
Proof.
  intros s t x t' [Hn Hb] E. unfold SingleTable.update_guest in E.
  destruct (existsb _ t) eqn:Ex.
  - destruct (SingleTable.body_name b); [|discriminate].
    destruct (SingleTable.body_flight b); [|discriminate].
    destruct (SingleTable.body_airline b); [|discriminate].
    destruct (SingleTable.body_origin b); [|discriminate].
    destruct (SingleTable.body_eta b); [|discriminate].
    injection E as _ <-. split; [|exact I]. split.
    + match goal with
      | |- NoDup (map _ (map (fun g => if _ then ?row else g) t)) =>
          rewrite (@replaced_keys _ SingleTable.id t row gid eq_refl)
      end.
      exact Hn.
    + apply Forall_map. eapply Forall_impl; [|exact Hb]. simpl.
      intros g Hg. destruct (SingleTable.id g =? gid) eqn:E; simpl; lia.
  - injection E as _ <-. split; [split; assumption|exact I].
Qed.

Lemma single_keys_delete gid :
  stmt_keeps single_keys false (SingleTable.delete_guest gid) (fun _ => True).
Proof.
  intros s t x t' [Hn Hb] E. injection E as _ <-. split; [|exact I]. split.
  - apply distinct_filter. exact Hn.
  - apply Forall_filter_keep. exact Hb.
Qed.

Lemma garage_keys_upsert b :
  stmt_keeps garage_keys false (SingleTable.upsert_car b) (fun _ => True).
Proof.
  intros s t x t' Hn E. split; [|exact I].
  destruct (SingleTable.body_id b) as [i|] eqn:Hb;
    [|unfold SingleTable.upsert_car in E; rewrite Hb in E; discriminate].
  destruct (@upsert_car_runs b i s t Hb) as (rest & E').
  rewrite E' in E. injection E as _ <-.
  unfold garage_keys in *. rewrite upserted_ids.
  destruct (SingleTable.has_car i t) eqn:Hc; [exact Hn|].
  apply NoDup_app; auto.
  - repeat constructor. simpl. tauto.
  - intros a Ha [Hi|[]]. apply in_map_iff in Ha as (c & Ec & Hin).
    unfold SingleTable.has_car in Hc.
    assert (H : existsb (fun c0 => SingleTable.car_id c0 =? i) t = true).
    { apply existsb_exists. exists c. split; [exact Hin|]. lia. }
    congruence.
Qed.

Lemma garage_keys_update b cid :
  stmt_keeps garage_keys false (SingleTable.update_car b cid) (fun _ => True).
Proof.
  intros s t x t' Hn E. injection E as _ <-. split; [|exact I].
  unfold garage_keys.
  rewrite (@replaced_keys _ SingleTable.car_id t
             (SingleTable.written cid b) cid eq_refl).
  exact Hn.
Qed.

Lemma garage_keys_delete cid :
  stmt_keeps garage_keys false (SingleTable.delete_car cid) (fun _ => True).
Proof.
  intros s t x t' Hn E. injection E as _ <-. split; [|exact I].
  apply distinct_filter. exact Hn.
Qed.

Section SingleKeeps.

Variable fault : nat -> bool.

Lemma single_keeps_guests b gid by_eta :
  keeps (holds_in single_keys) (SingleTable.post_guest fault b)
        (fun _ => True) /\
  keeps (holds_in single_keys) (SingleTable.put_guest fault gid b)
        (fun _ => True) /\
  keeps (holds_in single_keys) (SingleTable.delete_guest_handler fault gid)
        (fun _ => True) /\
  keeps (holds_in single_keys) (SingleTable.get_guest fault gid)
        (fun _ => True) /\
  keeps (holds_in single_keys) (SingleTable.get_guests fault by_eta)
        (fun _ => True).
Proof.
  conjs; apply keeps_one_statement; try exact single_keys_monotone.
  - apply single_keys_insert.
  - intros r. apply keeps_ret. exact I.
  - apply single_keys_update.
  - intros [|row rest]; apply keeps_ret; exact I.
  - apply single_keys_delete.
  - intros [|row rest]; apply keeps_ret; exact I.
  - intros s t x t' H E. injection E as _ <-. auto.
  - intros [|row rest]; apply keeps_ret; exact I.
  - intros s t x t' H E. injection E as _ <-. auto.
  - intros r. apply keeps_ret. exact I.
Qed.

Lemma single_keeps_cars b cid by_id :
  keeps (holds_in garage_keys) (SingleTable.post_car fault b)
        (fun _ => True) /\
  keeps (holds_in garage_keys) (SingleTable.put_car fault cid b)
        (fun _ => True) /\
  keeps (holds_in garage_keys) (SingleTable.delete_car_handler fault cid)
        (fun _ => True) /\
  keeps (holds_in garage_keys) (SingleTable.delete_cars fault)
        (fun _ => True) /\
  keeps (holds_in garage_keys) (SingleTable.get_car fault cid)
        (fun _ => True) /\
  keeps (holds_in garage_keys) (SingleTable.get_cars fault by_id)
        (fun _ => True).
Proof.
  conjs; apply keeps_one_statement; try exact garage_keys_monotone.
  - apply garage_keys_upsert.
  - intros [|row rest]; [apply keeps_throw|apply keeps_ret; exact I].
  - apply garage_keys_update.
  - intros [|row rest]; apply keeps_ret; exact I.
  - apply garage_keys_delete.
  - intros [|row rest]; apply keeps_ret; exact I.
  - intros s t x t' H E. injection E as _ <-. split; [constructor|exact I].
  - intros r. apply keeps_ret. exact I.
  - intros s t x t' H E. injection E as _ <-. auto.
  - intros [|row rest]; apply keeps_ret; exact I.
  - intros s t x t' H E. injection E as _ <-. auto.
  - intros r. apply keeps_ret. exact I.
Qed.

End SingleKeeps.

(** X26.  The handlers of src/server.js (second document) keep the ids
    unique.  If the guest ids are unique and lie below the next value of
    their sequence, this is so again after POST /api/guests, PUT and
    DELETE /api/guests/:id and the two reads; if the car ids are unique,
    they are so again after POST /api/cars (an upsert, with an id the
    client chooses), PUT and DELETE /api/cars/:id, DELETE /api/cars and
    the two reads; whatever the store fails and whatever the bodies
    hold.  So a read by id never has two rows to choose from. *)
Theorem single_keys_stay_unique fault gid cid b cb by_eta by_id
        (w : world SingleTable.tables) (g : world SingleTable.garage) :
  holds_in single_keys (db w) ->
  holds_in garage_keys (db g) ->
  (holds_in single_keys (db (snd (SingleTable.post_guest fault b w))) /\
   holds_in single_keys (db (snd (SingleTable.put_guest fault gid b w))) /\
   holds_in single_keys
     (db (snd (SingleTable.delete_guest_handler fault gid w))) /\
   holds_in single_keys (db (snd (SingleTable.get_guest fault gid w))) /\
   holds_in single_keys (db (snd (SingleTable.get_guests fault by_eta w))))
  /\
  (holds_in garage_keys (db (snd (SingleTable.post_car fault cb g))) /\
   holds_in garage_keys (db (snd (SingleTable.put_car fault cid cb g))) /\
   holds_in garage_keys
     (db (snd (SingleTable.delete_car_handler fault cid g))) /\
   holds_in garage_keys (db (snd (SingleTable.delete_cars fault g))) /\
   holds_in garage_keys (db (snd (SingleTable.get_car fault cid g))) /\
   holds_in garage_keys (db (snd (SingleTable.get_cars fault by_id g)))).
Proof.
  intros Hw Hg.
  destruct (single_keeps_guests fault b gid by_eta)
    as (H1 & H2 & H3 & H4 & H5).
  destruct (single_keeps_cars fault cb cid by_id)
    as (C1 & C2 & C3 & C4 & C5 & C6).
  split.
  - split; [|split; [|split; [|split]]];
      (eapply keeps_snd; [|exact Hw]);
      first [exact H1|exact H2|exact H3|exact H4|exact H5].
  - split; [|split; [|split; [|split; [|split]]]];
      (eapply keeps_snd; [|exact Hg]);
      first [exact C1|exact C2|exact C3|exact C4|exact C5|exact C6].
Qed.

(** Witness of X26: two guests with the ids 1 and 2 and the sequence at
    3, and the cars 4 and 7, after a guest is added and the car 7 is
    posted again. *)
Lemma single_keys_stay_unique_witness :
  holds_in single_keys
    (db (snd (SingleTable.post_guest no_fault Sample.new_single_guest
                (start [Sample.single 1; Sample.single 2] 3)))) /\
  holds_in garage_keys
    (db (snd (SingleTable.post_car no_fault Sample.new_car
                (start [Sample.car 4; Sample.car 7] 1)))).
Proof.
  assert (Hw : holds_in single_keys
                 (db (start [Sample.single 1; Sample.single 2] 3))).
  { split; [|intros w0 Hw0; discriminate].
    split; simpl; repeat constructor; simpl; intuition (discriminate || lia). }
  assert (Hg : holds_in garage_keys
                 (db (start [Sample.car 4; Sample.car 7] 1))).
  { split; [|intros w0 Hw0; discriminate].
    unfold garage_keys. simpl. repeat constructor; simpl;
      intuition (discriminate || lia). }
  destruct (@single_keys_stay_unique no_fault 1 4 Sample.new_single_guest
              Sample.new_car (fun t => t) (fun t => t) _ _ Hw Hg)
    as ((H1 & _) & (C1 & _)).
  split; [exact H1|exact C1].
Defined.

(* ===================================================================== *)
(** ** part_001: cars and passengers stay consistent                      *)
(* ===================================================================== *)

Lemma fleet_valid_monotone : monotone fleet_valid.
Proof. intros s s' t _ H. exact H. Qed.

(** A rewrite of the guests that keeps their ids keeps the guests that
    exist. *)
Lemma has_guest_rewritten (f : LegStore.guest_row -> LegStore.guest_row)
      (t : Fleet.tables) g :
  (forall r, LegStore.guest_id (f r) = LegStore.guest_id r) ->
  LegStore.has_guest g
    (Fleet.base (Fleet.with_guests t (map f (LegStore.guests (Fleet.base t)))))
  = LegStore.has_guest g (Fleet.base t).
Proof.
  intros Hf. unfold LegStore.has_guest. simpl.
  induction (LegStore.guests (Fleet.base t)) as [|r rs IH]; simpl;
    [reflexivity|].
  rewrite Hf, IH. reflexivity.
Qed.

Lemma fleet_valid_rewritten s (f : LegStore.guest_row -> LegStore.guest_row)
      (t : Fleet.tables) :
  (forall r, LegStore.guest_id (f r) = LegStore.guest_id r) ->
  fleet_valid s t ->
  fleet_valid s (Fleet.with_guests t (map f (LegStore.guests (Fleet.base t)))).
Proof.
  intros Hf (Hc & Hp & Hr). split; [exact Hc|]. split; [exact Hp|].
  apply Forall_forall. intros cp Hin.
  eapply Forall_forall in Hr; [|exact Hin]. destruct Hr as [H1 H2].
  split; [exact H1|]. rewrite <- H2. apply has_guest_rewritten. exact Hf.
Qed.

Lemma fleet_valid_insert_car car :
  stmt_keeps fleet_valid false (Fleet.insert_car car) (fun _ => True).
Proof.
  intros s t x t' (Hc & Hp & Hr) E. unfold Fleet.insert_car in E.
  destruct (Fleet.in_id car) as [i|]; [|discriminate].
  destruct (Fleet.has_car i t) eqn:Hi; [discriminate|].
  injection E as _ <-. split; [|exact I].
  split; [|split]; simpl.
  - rewrite map_app. simpl. apply NoDup_app; auto.
    + repeat constructor. simpl. tauto.
    + intros a Ha [Hia|[]]. apply in_map_iff in Ha as (c & Ec & Hin).
      assert (H : Fleet.has_car i t = true).
      { apply existsb_exists. exists c. split; [exact Hin|]. lia. }
      congruence.
  - exact Hp.
  - eapply Forall_impl; [|exact Hr]. simpl. intros cp [H1 H2].
    split; [|exact H2]. unfold Fleet.has_car in *. simpl.
    rewrite existsb_app, H1. reflexivity.
Qed.

Lemma fleet_valid_insert_passenger carId passengerId :
  stmt_keeps fleet_valid false (Fleet.insert_passenger carId passengerId)
             (fun _ => True).
Proof.
  intros s t x t' (Hc & Hp & Hr) E. unfold Fleet.insert_passenger in E.
  destruct passengerId as [g|]; [|discriminate].
  destruct (Fleet.has_car carId t) eqn:H1; [|discriminate].
  destruct (LegStore.has_guest g (Fleet.base t)) eqn:H2; [|discriminate].
  destruct (existsb _ (LegStore.car_passengers (Fleet.base t))) eqn:H3;
    [discriminate|].
  injection E as _ <-. split; [|exact I].
  split; [exact Hc|]. split; simpl.
  - apply NoDup_app; auto.
    + repeat constructor. simpl. tauto.
    + intros a Ha [Ea|[]]. subst a.
      assert (H : existsb (fun cp => (fst cp =? carId) && (snd cp =? g))
                    (LegStore.car_passengers (Fleet.base t)) = true).
      { apply existsb_exists. exists (carId, g). split; [exact Ha|].
        simpl. rewrite !Z.eqb_refl. reflexivity. }
      congruence.
  - apply Forall_app. split.
    + eapply Forall_impl; [|exact Hr]. simpl. intros cp [Ha Hb].
      split; assumption.
    + repeat constructor; assumption.
Qed.

Lemma fleet_valid_assign_car carId guestId :
  stmt_keeps fleet_valid false (Fleet.assign_car carId guestId)
             (fun _ => True).
Proof.
  intros s t x t' H E. unfold Fleet.assign_car in E.
  destruct guestId as [g|]; [|discriminate].
  injection E as _ <-. split; [|exact I].
  apply fleet_valid_rewritten; [|exact H].
  intros r. destruct (LegStore.guest_id r =? g); reflexivity.
Qed.

Lemma fleet_valid_delete_all :
  stmt_keeps fleet_valid false Fleet.delete_all_cars (fun _ => True).
Proof.
  intros s t x t' (Hc & Hp & Hr) E. injection E as _ <-. split; [|exact I].
  assert (Hnone : filter (fun cp => negb (Fleet.has_car (fst cp) t))
                    (LegStore.car_passengers (Fleet.base t)) = []).
  { induction Hr as [|cp cps [H1 _] _ IH]; simpl; [reflexivity|].
    inversion Hp; subst. rewrite H1. simpl. auto. }
  split; [|split]; simpl; try rewrite Hnone; constructor.
Qed.

Lemma fleet_valid_clear :
  stmt_keeps fleet_valid false Fleet.clear_assignments (fun _ => True).
Proof.
  intros s t x t' H E. injection E as _ <-. split; [|exact I].
  apply fleet_valid_rewritten; [|exact H]. reflexivity.
Qed.

Section FleetKeeps.

Variable fault : nat -> bool.
Variable parseInt : string -> option Z.

Lemma keeps_defined T (P : conn T -> Prop) A (v : option A) :
  keeps P (@Fleet.defined (world T) A v) (fun _ => True).
Proof. destruct v; [apply keeps_ret; exact I|apply keeps_throw]. Qed.

Lemma fleet_keeps_create_car car :
  keeps (holds_in fleet_valid) (Fleet.create_car fault car) (fun _ => True).
Proof.
  unfold Fleet.create_car.
  eapply keeps_bind with (Q := fun _ => True).
  { apply keeps_query; [exact fleet_valid_monotone|].
    apply fleet_valid_insert_car. }
  intros carId _.
  eapply keeps_bind with (Q := fun _ => True); [apply keeps_defined|].
  intros passengers _. apply keeps_for_of. intros passengerId _.
  apply keeps_query; [exact fleet_valid_monotone|].
  apply fleet_valid_insert_passenger.
Qed.

Lemma fleet_keeps_post_cars granted body :
  keeps (holds_in fleet_valid) (Fleet.post_cars granted fault parseInt body)
        (fun _ => True).
Proof.
  change (keeps (holds_in fleet_valid)
            (connect granted ;;;
             transaction fault (Fleet.create_cars fault parseInt body)
                         Fleet.CarsError500)
            (fun _ => True)).
  apply keeps_connected.
  apply keeps_transaction; [|exact I].
  unfold Fleet.create_cars.
  eapply keeps_bind with (Q := fun _ => True); [apply keeps_defined|].
  intros cars _.
  eapply keeps_bind with (Q := fun _ => True).
  { apply keeps_for_of. intros car _. apply fleet_keeps_create_car. }
  intros _ _.
  eapply keeps_bind with (Q := fun _ => True); [apply keeps_defined|].
  intros assignments _.
  eapply keeps_bind with (Q := fun _ => True).
  { apply keeps_for_of. intros [guestId carId] _.
    apply keeps_query; [exact fleet_valid_monotone|].
    apply fleet_valid_assign_car. }
  intros _ _.
  eapply keeps_bind with (Q := fun _ => True); [apply keeps_COMMIT|].
  intros _ _. apply keeps_ret. exact I.
Qed.

Lemma fleet_keeps_delete_cars granted :
  keeps (holds_in fleet_valid) (Fleet.delete_cars granted fault)
        (fun _ => True).
Proof.
  unfold Fleet.delete_cars. apply keeps_connected.
  apply keeps_finally; [|apply keeps_release].
  apply keeps_try_catch; [|apply keeps_ret; exact I].
  eapply keeps_bind with (Q := fun _ => True).
  { apply keeps_query; [exact fleet_valid_monotone|].
    apply fleet_valid_delete_all. }
  intros _ _.
  eapply keeps_bind with (Q := fun _ => True).
  { apply keeps_query; [exact fleet_valid_monotone|].
    apply fleet_valid_clear. }
  intros _ _. apply keeps_ret. exact I.
Qed.

Lemma fleet_keeps_read R
      (stmt : Z -> Fleet.tables -> option (R * Fleet.tables)) :
  (forall s t x t', stmt s t = Some (x, t') -> t' = t) ->
  keeps (holds_in fleet_valid) (query fault false stmt) (fun _ => True).
Proof.
  intros Hr. apply keeps_query; [exact fleet_valid_monotone|].
  intros s t x t' Hp E. apply Hr in E. subst. auto.
Qed.

Lemma fleet_keeps_get_cars granted by_eta as_stored :
  keeps (holds_in fleet_valid)
        (Fleet.get_cars granted fault by_eta as_stored)
        (fun _ => True).
Proof.
  unfold Fleet.get_cars. apply keeps_connected.
  apply keeps_finally; [|apply keeps_release].
  apply keeps_try_catch; [|apply keeps_ret; exact I].
  eapply keeps_bind with (Q := fun _ => True).
  { apply fleet_keeps_read. intros s t x t' E. injection E as _ <-.
    reflexivity. }
  intros rows _.
  eapply keeps_bind with (Q := fun _ => True);
    [|intros views _; apply keeps_ret; exact I].
  induction rows as [|car rows IH]; simpl; [apply keeps_ret; exact I|].
  eapply keeps_bind with (Q := fun _ => True).
  { unfold Fleet.car_with_passengers.
    eapply keeps_bind with (Q := fun _ => True).
    - apply fleet_keeps_read. intros s t x t' E. injection E as _ <-.
      reflexivity.
    - intros ps _. apply keeps_ret. exact I. }
  intros view _.
  eapply keeps_bind with (Q := fun _ => True); [exact IH|].
  intros views _. apply keeps_ret. exact I.
Qed.

End FleetKeeps.

(** X27.  The car handlers of part_001 keep the cars and their
    passengers consistent.  If the car ids are unique, no passenger row
    occurs twice and every passenger row names a car and a guest of the
    tables, this is so again after POST /api/cars, after DELETE
    /api/cars and after GET /api/cars, whatever statement the store
    fails, whatever the body holds and whatever parseInt makes of the
    keys of guestAssignments: no passenger is ever left in a car that
    does not exist. *)
Theorem fleet_stays_valid granted fault parseInt body by_eta as_stored
        (w : world Fleet.tables) :
  holds_in fleet_valid (db w) ->
  holds_in fleet_valid
    (db (snd (Fleet.post_cars granted fault parseInt body w))) /\
  holds_in fleet_valid (db (snd (Fleet.delete_cars granted fault w))) /\
  holds_in fleet_valid
    (db (snd (Fleet.get_cars granted fault by_eta as_stored w))).
Proof.
  intros H. split; [|split]; (eapply keeps_snd; [|exact H]).
  - apply fleet_keeps_post_cars.
  - apply fleet_keeps_delete_cars.
  - apply fleet_keeps_get_cars.
Qed.

(** Witness of X27: the guest 1 rides in the car 5; the car 6 is added
    with the same guest. *)
Lemma fleet_stays_valid_witness :
  holds_in fleet_valid (db (start Sample.fleet 1)) /\
  holds_in fleet_valid
    (db (snd (Fleet.post_cars true no_fault Sample.parse_one Sample.cars_body
                (start Sample.fleet 1)))).
Proof.
  assert (H : holds_in fleet_valid (db (start Sample.fleet 1))).
  { split; [|intros w0 Hw0; discriminate].
    split; [|split]; simpl; repeat constructor; simpl; tauto. }
  split; [exact H|].
  destruct (@fleet_stays_valid true no_fault Sample.parse_one Sample.cars_body
              (fun l => l) (fun l => l) (start Sample.fleet 1) H) as (Hp & _).
  exact Hp.
Defined.

(* ===================================================================== *)
(** ** part_001: what POST /api/cars writes                               *)
(* ===================================================================== *)

Section PostCarsResult.

Variable fault : nat -> bool.
Variable parseInt : string -> option Z.

(** The passengers of one car. *)
Lemma passengers_loop carId ps : forall (w w' : world Fleet.tables),
  for_of ps (fun p => query fault false (Fleet.insert_passenger carId p)) w
  = (Ok tt, w') ->
  exists rows,
    ps = map (fun cp => Some (snd cp)) rows /\
    Forall (fun cp => fst cp = carId) rows /\
    Fleet.cars (current (db w')) = Fleet.cars (current (db w)) /\
    LegStore.car_passengers (Fleet.base (current (db w')))
    = LegStore.car_passengers (Fleet.base (current (db w))) ++ rows /\
    LegStore.guests (Fleet.base (current (db w')))
    = LegStore.guests (Fleet.base (current (db w))) /\
    LegStore.flight_legs (Fleet.base (current (db w')))
    = LegStore.flight_legs (Fleet.base (current (db w))).
Proof.
  induction ps as [|p ps IH]; intros w w' E.
  - simpl in E. injection E as <-. exists []. rewrite app_nil_r.
    conjs; try reflexivity. constructor.
  - rewrite for_of_cons in E.
    destruct (query fault false (Fleet.insert_passenger carId p) w)
      as [[u|] w1] eqn:E1; [|discriminate].
    apply query_inv in E1 as (_ & _ & _ & _ & Hcases).
    destruct Hcases as [(Hr & _)|(x & t' & _ & Hs & _ & Hcur & _)];
      [discriminate|].
    unfold Fleet.insert_passenger in Hs.
    destruct p as [g|]; [|discriminate].
    destruct (_ && _); [|discriminate].
    injection Hs as _ <-.
    destruct (IH _ _ E) as (rows & -> & Hall & Hc & Hp & Hg & Hl).
    rewrite Hcur in Hc, Hp, Hg, Hl. simpl in Hc, Hp, Hg, Hl.
    exists ((carId, g) :: rows). simpl.
    conjs; try assumption; try reflexivity.
    + constructor; [reflexivity|exact Hall].
    + rewrite Hp, <- app_assoc. reflexivity.
Qed.

(** One iteration of [for (const car of cars)]. *)
Lemma create_car_step car (w w' : world Fleet.tables) :
  Fleet.create_car fault car w = (Ok tt, w') ->
  exists row ps,
    car_stored car row /\ passengers_stored car ps /\
    Fleet.cars (current (db w')) = Fleet.cars (current (db w)) ++ [row] /\
    LegStore.car_passengers (Fleet.base (current (db w')))
    = LegStore.car_passengers (Fleet.base (current (db w))) ++ ps /\
    LegStore.guests (Fleet.base (current (db w')))
    = LegStore.guests (Fleet.base (current (db w))) /\
    LegStore.flight_legs (Fleet.base (current (db w')))
    = LegStore.flight_legs (Fleet.base (current (db w))).
Proof.
  intros E. unfold Fleet.create_car in E. rewrite bind_unfold in E.
  destruct (query fault false (Fleet.insert_car car) w)
    as [[i|] w1] eqn:E1; [|discriminate].
  apply query_inv in E1 as (_ & _ & _ & _ & Hcases).
  destruct Hcases as [(Hr & _)|(x & t' & Hx & Hs & _ & Hcur & _)];
    [discriminate|].
  injection Hx as ->.
  unfold Fleet.insert_car in Hs.
  destruct (Fleet.in_id car) as [j|] eqn:Hid; [|discriminate].
  destruct (Fleet.has_car j (current (db w))); [discriminate|].
  injection Hs as <- <-.
  rewrite bind_unfold in E.
  destruct (Fleet.in_passengers car) as [l|] eqn:Hps; [|discriminate].
  simpl in E.
  apply passengers_loop in E as (rows & -> & Hall & Hc & Hp & Hg & Hl).
  rewrite Hcur in Hc, Hp, Hg, Hl. simpl in Hc, Hp, Hg, Hl.
  eexists. exists rows.
  split; [|split; [|conjs; [exact Hc|exact Hp|exact Hg|exact Hl]]].
  - unfold car_stored. simpl. conjs; reflexivity || exact Hid.
  - split; [exact Hps|]. eapply Forall_impl; [|exact Hall].
    simpl. intros cp ->. exact Hid.
Qed.

Lemma create_cars_loop cars : forall (w w' : world Fleet.tables),
  for_of cars (Fleet.create_car fault) w = (Ok tt, w') ->
  exists rows pss,
    Forall2 car_stored cars rows /\
    Forall2 passengers_stored cars pss /\
    Fleet.cars (current (db w')) = Fleet.cars (current (db w)) ++ rows /\
    LegStore.car_passengers (Fleet.base (current (db w')))
    = LegStore.car_passengers (Fleet.base (current (db w)))
      ++ List.concat pss /\
    LegStore.guests (Fleet.base (current (db w')))
    = LegStore.guests (Fleet.base (current (db w))) /\
    LegStore.flight_legs (Fleet.base (current (db w')))
    = LegStore.flight_legs (Fleet.base (current (db w))).
Proof.
  induction cars as [|car cars IH]; intros w w' E.
  - simpl in E. injection E as <-. exists [], []. simpl.
    rewrite !app_nil_r. conjs; try reflexivity; constructor.
  - rewrite for_of_cons in E.
    destruct (Fleet.create_car fault car w) as [[[]|] w1] eqn:E1;
      [|discriminate].
    apply create_car_step in E1
      as (row & ps & Hrow & Hps & Hc1 & Hp1 & Hg1 & Hl1).
    destruct (IH _ _ E) as (rows & pss & Hrows & Hpss & Hc & Hp & Hg & Hl).
    exists (row :: rows), (ps :: pss). simpl.
    conjs.
    + constructor; assumption.
    + constructor; assumption.
    + rewrite Hc, Hc1, <- app_assoc. reflexivity.
    + rewrite Hp, Hp1, <- app_assoc. reflexivity.
    + congruence.
    + congruence.
Qed.

(** The loop over the entries of [guestAssignments]. *)
Lemma assign_loop es : forall (w w' : world Fleet.tables),
  for_of es
         (fun entry : string * option Z =>
            let (guestId, carId) := entry in
            query fault false (Fleet.assign_car carId (parseInt guestId))) w
  = (Ok tt, w') ->
  Fleet.cars (current (db w')) = Fleet.cars (current (db w)) /\
  LegStore.car_passengers (Fleet.base (current (db w')))
  = LegStore.car_passengers (Fleet.base (current (db w))) /\
  LegStore.flight_legs (Fleet.base (current (db w')))
  = LegStore.flight_legs (Fleet.base (current (db w))) /\
  LegStore.guests (Fleet.base (current (db w')))
  = fold_left (assign_entry parseInt) es
              (LegStore.guests (Fleet.base (current (db w)))) /\
  Forall (fun e => parseInt (fst e) <> None) es.
Proof.
  induction es as [|[guestId carId] es IH]; intros w w' E.
  - simpl in E. injection E as <-. simpl. conjs; try reflexivity.
    constructor.
  - rewrite for_of_cons in E.
    destruct (query fault false
                (Fleet.assign_car carId (parseInt guestId)) w)
      as [[u|] w1] eqn:E1; [|discriminate].
    apply query_inv in E1 as (_ & _ & _ & _ & Hcases).
    destruct Hcases as [(Hr & _)|(x & t' & _ & Hs & _ & Hcur & _)];
      [discriminate|].
    unfold Fleet.assign_car in Hs.
    destruct (parseInt guestId) as [g|] eqn:Hg; [|discriminate].
    injection Hs as _ <-.
    destruct (IH _ _ E) as (Hc & Hp & Hl & Hgs & Hall).
    rewrite Hcur in Hc, Hp, Hl, Hgs. simpl in Hc, Hp, Hl, Hgs.
    conjs; try assumption.
    + simpl. unfold assign_entry at 2. simpl. rewrite Hg. exact Hgs.
    + constructor; [simpl; congruence|exact Hall].
Qed.

(** The statements of the try block after BEGIN. *)
Lemma create_cars_result body (w w' : world Fleet.tables) k :
  Fleet.create_cars fault parseInt body w = (Ok (Fleet.CarsCreated k), w') ->
  fleet_created parseInt body (current (db w)) (committed (db w')) /\
  option_map (@List.length _) (Fleet.body_cars body) = Some k /\
  txn (db w') = None.
Proof.
  intros E. unfold Fleet.create_cars in E. rewrite bind_unfold in E.
  destruct (Fleet.body_cars body) as [cars|] eqn:Hb; [|discriminate].
  simpl in E. rewrite bind_unfold in E.
  destruct (for_of cars (Fleet.create_car fault) w) as [[[]|] w1] eqn:E1;
    [|discriminate].
  apply create_cars_loop in E1
    as (rows & pss & Hrows & Hpss & Hc1 & Hp1 & Hg1 & Hl1).
  rewrite bind_unfold in E.
  destruct (Fleet.guestAssignments body) as [assignments|] eqn:Ha;
    [|discriminate].
  simpl in E. rewrite bind_unfold in E.
  match type of E with
  | context [for_of ?l ?f w1] =>
      destruct (for_of l f w1) as [[[]|] w2] eqn:E2; [|discriminate]
  end.
  apply assign_loop in E2 as (Hc2 & Hp2 & Hl2 & Hg2 & Hall).
  rewrite bind_unfold in E.
  unfold COMMIT, on_db, run_commit in E.
  destruct (fault (issued (db w2))); [discriminate|].
  injection E as Hk <-. simpl committed.
  split; [|simpl; rewrite Hk; split; reflexivity].
  exists cars, assignments, rows, pss.
  conjs; try assumption; try reflexivity; congruence.
Qed.

(** The handler on a fresh connection. *)
Lemma post_cars_writes body (t : Fleet.tables) n k :
  fst (Fleet.post_cars true fault parseInt body (start t n))
  = Ok (Fleet.CarsCreated k) ->
  fleet_created parseInt body t
    (committed (db (snd (Fleet.post_cars true fault parseInt body
                           (start t n))))) /\
  option_map (@List.length _) (Fleet.body_cars body) = Some k /\
  txn (db (snd (Fleet.post_cars true fault parseInt body (start t n))))
  = None.
Proof.
  unfold Fleet.post_cars.
  rewrite connect_granted, finally_release. simpl fst. simpl snd.
  simpl committed. simpl txn. intros H.
  cut (fleet_created parseInt body t
         (committed
            (db (snd (try_catch
                        (BEGIN fault ;;;
                         Fleet.create_cars fault parseInt body)
                        (ROLLBACK fault ;;; ret Fleet.CarsError500)
                        (start t n))))) /\
       option_map (@List.length _) (Fleet.body_cars body) = Some k /\
       txn (db (snd (try_catch
                       (BEGIN fault ;;;
                        Fleet.create_cars fault parseInt body)
                       (ROLLBACK fault ;;; ret Fleet.CarsError500)
                       (start t n)))) = None);
    [tauto|].
  unfold try_catch in *.
  destruct ((BEGIN fault ;;; Fleet.create_cars fault parseInt body)
              (start t n)) as [[x|] w2] eqn:E.
  - simpl in H. injection H as ->. simpl snd.
    rewrite bind_unfold in E. unfold BEGIN, on_db, run_begin in E.
    simpl in E. destruct (fault 0%nat); [discriminate|].
    apply create_cars_result in E. exact E.
  - exfalso. rewrite bind_unfold in H.
    destruct (ROLLBACK fault w2) as [[u|] w3]; discriminate.
Qed.

End PostCarsResult.

(** X28.  What POST /api/cars of part_001 writes.  Whatever statement
    the store fails and whatever parseInt makes of the keys of
    guestAssignments, after a success reply the body had a list of cars
    and guestAssignments, and the tables are those of before with: one
    car row per car of the body, in the order of the body, added after
    the old cars, with the id, destination, ETA, flight and capacity of
    the body; one passenger row per passenger of each car, in the order
    of the body, added after the old passenger rows; the flight legs
    unchanged; and the guests rewritten by one UPDATE of car_assigned
    per entry of guestAssignments, in the order of Object.entries, each
    with a key of which parseInt made a number.  The reply counts the
    cars of the body. *)
Theorem post_cars_result granted fault parseInt body (t : Fleet.tables) n k :
  fst (Fleet.post_cars granted fault parseInt body (start t n))
  = Ok (Fleet.CarsCreated k) ->
  fleet_created parseInt body t
    (committed
       (db (snd (Fleet.post_cars granted fault parseInt body (start t n)))))
  /\
  option_map (@List.length _) (Fleet.body_cars body) = Some k.
Proof.
  destruct granted; [|discriminate].
  intros H. destruct (post_cars_writes fault parseInt body t n H)
    as (Hc & Hk & _).
  split; assumption.
Qed.

(** Witness of X28: the car 6 with the guest 1 is added to the car 5,
    and the guest gets the car number 6. *)
Lemma post_cars_result_witness :
  fleet_created Sample.parse_one Sample.cars_body Sample.fleet
    (committed (db (snd (Fleet.post_cars true no_fault Sample.parse_one
                           Sample.cars_body (start Sample.fleet 1))))) /\
  map LegStore.car_assigned
      (LegStore.guests
         (Fleet.base
            (committed (db (snd (Fleet.post_cars true no_fault Sample.parse_one
                                   Sample.cars_body
                                   (start Sample.fleet 1)))))))
  = [Some 6].
Proof.
  split; [|reflexivity].
  apply (@post_cars_result true no_fault Sample.parse_one Sample.cars_body
           Sample.fleet 1 1%nat eq_refl).
Defined.

(* ===================================================================== *)
(** ** part_001: GET /api/cars after POST /api/cars                       *)
(* ===================================================================== *)

(** Without store failures the listing reads every car with its
    passengers and leaves the tables as they were. *)
Lemma fleet_promise_all_ok as_stored rows : forall (w : world Fleet.tables),
  exists w',
    Fleet.promise_all no_fault as_stored rows w
    = (Ok (map (car_listed as_stored (current (db w))) rows), w') /\
    current (db w') = current (db w) /\
    (txn (db w') = None <-> txn (db w) = None).
Proof.
  induction rows as [|car rows IH]; intros w.
  - exists w. simpl. conjs; try reflexivity; tauto.
  - simpl. rewrite bind_unfold. unfold Fleet.car_with_passengers.
    rewrite bind_unfold.
    destruct (@query_no_fault _ _ false
                (Fleet.select_passengers_of as_stored (Fleet.car_id car))
                w _ _ eq_refl) as (w1 & -> & Hcur1 & _ & Ht1).
    unfold ret at 1. cbv iota beta. rewrite bind_unfold.
    destruct (IH w1) as (w' & -> & Hcur' & Ht').
    exists w'. unfold ret. cbv iota beta. rewrite Hcur1.
    conjs; try reflexivity; try congruence; tauto.
Qed.

Lemma filter_absent i (l : list (Z * Z)) :
  Forall (fun cp => fst cp <> i) l ->
  filter (fun cp => fst cp =? i) l = [].
Proof.
  induction 1 as [|cp l Hcp _ IH]; simpl; [reflexivity|].
  replace (fst cp =? i) with false by lia. exact IH.
Qed.

Lemma filter_whole i (l : list (Z * Z)) :
  Forall (fun cp => fst cp = i) l ->
  filter (fun cp => fst cp =? i) l = l.
Proof.
  induction 1 as [|cp l Hcp _ IH]; simpl; [reflexivity|].
  rewrite Hcp, Z.eqb_refl, IH. reflexivity.
Qed.

(** The passenger rows of the cars of a body name the cars of the
    body. *)
Lemma stored_blocks cars : forall rows pss,
  Forall2 car_stored cars rows ->
  Forall2 passengers_stored cars pss ->
  Forall (fun cp => In (fst cp) (map Fleet.car_id rows)) (List.concat pss).
Proof.
  induction cars as [|car cars IH]; intros rows pss Hr Hp;
    inversion Hr as [|? row ? rows' Hrow Hrows]; subst;
    inversion Hp as [|? ps ? pss' Hps Hpss]; subst; simpl; [constructor|].
  apply Forall_app. split.
  - destruct Hrow as (Hid & _). destruct Hps as (_ & Hall).
    eapply Forall_impl; [|exact Hall]. simpl. intros cp Hcp.
    left. congruence.
  - eapply Forall_impl; [|exact (IH _ _ Hrows Hpss)]. simpl. auto.
Qed.

(** The passenger rows of one car of the body among those of all. *)
Lemma block_of_car cars : forall rows pss,
  Forall2 car_stored cars rows ->
  Forall2 passengers_stored cars pss ->
  NoDup (map Fleet.car_id rows) ->
  forall car,
    In car cars ->
    exists row ps,
      In row rows /\ car_stored car row /\ passengers_stored car ps /\
      filter (fun cp => fst cp =? Fleet.car_id row) (List.concat pss) = ps.
Proof.
  induction cars as [|c cars IH]; intros rows pss Hr Hp Hn car Hin;
    [contradiction|].
  inversion Hr as [|? row ? rows' Hrow Hrows]; subst.
  inversion Hp as [|? ps ? pss' Hps Hpss]; subst.
  simpl in Hn. apply NoDup_cons_iff in Hn as [Hfresh Hn].
  pose proof (stored_blocks Hrows Hpss) as Hblocks.
  assert (Hown : Forall (fun cp => fst cp = Fleet.car_id row) ps).
  { destruct Hrow as (Hid & _). destruct Hps as (_ & Hall).
    eapply Forall_impl; [|exact Hall]. simpl. intros cp Hcp. congruence. }
  destruct Hin as [<-|Hin].
  - exists row, ps. split; [left; reflexivity|]. split; [exact Hrow|].
    split; [exact Hps|]. simpl. rewrite filter_app.
    rewrite (filter_whole Hown), filter_absent; [apply app_nil_r|].
    eapply Forall_impl; [|exact Hblocks]. simpl. intros cp Hcp E.
    apply Hfresh. rewrite <- E. exact Hcp.
  - destruct (IH _ _ Hrows Hpss Hn car Hin)
      as (row' & ps' & Hin' & Hrow' & Hps' & Hf).
    exists row', ps'. split; [right; exact Hin'|]. split; [exact Hrow'|].
    split; [exact Hps'|]. simpl. rewrite filter_app, Hf.
    rewrite filter_absent; [reflexivity|].
    eapply Forall_impl; [|exact Hown]. simpl. intros cp Hcp E.
    apply Hfresh. replace (Fleet.car_id row) with (Fleet.car_id row')
      by congruence.
    apply in_map. exact Hin'.
Qed.

Lemma distinct_apart A (l1 l2 : list A) a :
  NoDup (l1 ++ l2) -> In a l1 -> In a l2 -> False.
Proof.
  induction l1 as [|x l1 IH]; simpl; intros Hn H1 H2; [contradiction|].
  apply NoDup_cons_iff in Hn as [Hx Hn]. destruct H1 as [->|H1].
  - apply Hx. apply in_or_app. right. exact H2.
  - exact (IH Hn H1 H2).
Qed.

Lemma has_car_in i (t : Fleet.tables) :
  Fleet.has_car i t = true <-> In i (map Fleet.car_id (Fleet.cars t)).
Proof.
  unfold Fleet.has_car. rewrite existsb_exists, in_map_iff. split.
  - intros (c & Hc & E). exists c. split; [lia|exact Hc].
  - intros (c & E & Hc). exists c. split; [exact Hc|lia].
Qed.

(** X29.  What was POSTed to /api/cars is what GET /api/cars shows, in
    part_001.  When the cars and passengers of the tables are
    consistent, POST /api/cars has replied success (whatever the store
    failed) and the store then gives the connection, runs every
    statement and returns the rows it has, GET /api/cars replies one
    entry per car and leaves the tables as they are; every car of the
    body is listed with its id, destination, ETA, flight and capacity
    and with the passengers the body gave it, as the store returns them;
    and every car that was there before is listed with the passengers it
    had. *)
Theorem cars_listing_after_post fault parseInt body by_eta as_stored
        (t : Fleet.tables) n k :
  fleet_valid n t ->
  fst (Fleet.post_cars true fault parseInt body (start t n))
  = Ok (Fleet.CarsCreated k) ->
  (forall l, Permutation l (by_eta l)) ->
  exists views,
    fst (Fleet.get_cars true no_fault by_eta as_stored
           (snd (Fleet.post_cars true fault parseInt body (start t n))))
    = Ok (Fleet.CarsListing views) /\
    committed
      (db (snd (Fleet.get_cars true no_fault by_eta as_stored
                  (snd (Fleet.post_cars true fault parseInt body
                          (start t n))))))
    = committed
        (db (snd (Fleet.post_cars true fault parseInt body (start t n))))
    /\
    List.length views = (List.length (Fleet.cars t) + k)%nat /\
    (forall cars car,
       Fleet.body_cars body = Some cars -> In car cars ->
       exists v gs,
         In v views /\
         Fleet.in_id car = Some (Fleet.view_id v) /\
         Fleet.in_passengers car = Some (map Some gs) /\
         Fleet.view_passengers v = as_stored gs /\
         Fleet.view_destination v = Fleet.in_destination car /\
         Fleet.view_eta v = Fleet.in_eta car /\
         Fleet.view_flight v = Fleet.in_flight car /\
         Fleet.view_capacity v = Fleet.in_capacity car) /\
    (forall v,
       In v views -> Fleet.has_car (Fleet.view_id v) t = true ->
       Fleet.view_passengers v
       = as_stored
           (map snd (filter (fun cp => fst cp =? Fleet.view_id v)
                            (LegStore.car_passengers (Fleet.base t))))).
Proof.
  intros Hvalid Hok Hperm.
  destruct (post_cars_writes fault parseInt body t n Hok)
    as (Hcreated & Hk & Htx).
  assert (Hfinal : holds_in fleet_valid
                     (db (snd (Fleet.post_cars true fault parseInt body
                                 (start t n))))).
  { eapply keeps_snd; [apply fleet_keeps_post_cars|].
    apply holds_in_start. exact Hvalid. }
  destruct Hfinal as [(Hnd & _ & _) _].
  set (w1 := snd (Fleet.post_cars true fault parseInt body (start t n))) in *.
  set (final := committed (db w1)) in *.
  assert (Hcur : current (db w1) = final)
    by (apply current_no_txn; exact Htx).
  unfold Fleet.get_cars. rewrite connect_granted, finally_release.
  unfold try_catch. rewrite bind_unfold.
  destruct (@query_no_fault _ _ false (Fleet.select_cars by_eta)
              w1 _ _ eq_refl) as (w2 & -> & Hcur2 & _ & Ht2).
  rewrite bind_unfold.
  destruct (fleet_promise_all_ok as_stored
              (by_eta (Fleet.cars (current (db w1)))) w2) as (w3 & -> & Hcur3 & Ht3).
  unfold ret. cbv iota beta. simpl fst. simpl snd. simpl db. simpl committed.
  rewrite Hcur2, Hcur.
  destruct Hcreated as (cars & assignments & rows & pss & Hb & Ha & Hrows
                        & Hpss & Hc & Hp & _).
  assert (Hnd' : NoDup (map Fleet.car_id (Fleet.cars t) ++
                        map Fleet.car_id rows)).
  { rewrite <- map_app, <- Hc. exact Hnd. }
  pose proof (stored_blocks Hrows Hpss) as Hblocks.
  destruct Hvalid as (_ & _ & Hrefs).
  eexists. split; [reflexivity|]. split; [|split; [|split]].
  - rewrite <- (current_no_txn (db w3)) by tauto. congruence.
  - rewrite length_map, <- (Permutation_length (Hperm _)), Hc, length_app.
    f_equal. rewrite <- (Forall2_length Hrows). rewrite Hb in Hk.
    simpl in Hk. congruence.
  - intros cars' car Hb' Hin.
    assert (cars' = cars) by congruence. subst cars'.
    destruct (block_of_car Hrows Hpss (NoDup_app_remove_l _ _ Hnd') car Hin)
      as (row & ps & Hinr & Hrow & Hps & Hf).
    exists (car_listed as_stored final row), (map snd ps).
    split.
    { apply in_map. eapply Permutation_in; [apply Hperm|].
      rewrite Hc. apply in_or_app. right. exact Hinr. }
    destruct Hrow as (Hid & Hd & He & Hfl & Hcap).
    destruct Hps as (Hpl & _).
    split; [exact Hid|]. split; [rewrite Hpl, map_map; reflexivity|].
    split; [|simpl; auto].
    simpl. f_equal. f_equal. rewrite Hp, filter_app, Hf.
    rewrite filter_absent; [reflexivity|].
    apply Forall_forall. intros cp Hcp E.
    eapply Forall_forall in Hrefs; [|exact Hcp]. destruct Hrefs as [Hhas _].
    apply has_car_in in Hhas. rewrite E in Hhas.
    eapply distinct_apart; [exact Hnd'|exact Hhas|].
    apply in_map. exact Hinr.
  - intros v Hv Hhas. apply in_map_iff in Hv as (c & <- & Hc').
    simpl in Hhas |- *. f_equal. f_equal.
    rewrite Hp, filter_app.
    rewrite (@filter_absent (Fleet.car_id c) (List.concat pss));
      [apply app_nil_r|].
    eapply Forall_impl; [|exact Hblocks]. simpl. intros cp Hcp E.
    apply has_car_in in Hhas. rewrite E in Hcp.
    eapply distinct_apart; [exact Hnd'|exact Hhas|exact Hcp].
Qed.

(** Witness of X29: the car 6 with the guest 1 is added to the car 5;
    the listing has both cars. *)
Lemma cars_listing_after_post_witness :
  exists views,
    fst (Fleet.get_cars true no_fault (fun l => l) (fun l => l)
           (snd (Fleet.post_cars true no_fault Sample.parse_one Sample.cars_body
                   (start Sample.fleet 1))))
    = Ok (Fleet.CarsListing views) /\
    List.length views = 2%nat.
Proof.
  assert (H : fleet_valid 1 Sample.fleet).
  { split; [|split]; simpl; repeat constructor; simpl; tauto. }
  destruct (@cars_listing_after_post no_fault Sample.parse_one
              Sample.cars_body (fun l => l) (fun l => l) Sample.fleet 1 1%nat
              H eq_refl (fun l => Permutation_refl l))
    as (views & Hv & _ & Hl & _).
  exists views. split; assumption.
Defined.
